(* ===== verification/_CoqProject ===== *)
-Q . S2P
Prelude.v
Errors.v
Kernel.v
Aggregate.v
EventStore.v
World.v
Repository.v
Rebuild.v
Frame.v
Bus.v
Transport.v
Process.v
Json.v
Wire.v
Reliable.v
WarehouseKernel.v
WarehouseJson.v
Availability.v
Saga.v
WarehouseHandlers.v
WarehouseReadModel.v
WarehouseFacade.v
Histories.v
SagaRunner.v
SagaContract.v
SagaWire.v
WarehouseSteps.v
Demo.v
SalesKernel.v
SalesJson.v
SalesOrder.v
SalesHandlers.v
Specification.v
SalesSteps.v
SalesReadModel.v
SalesFacade.v
SalesIntegration.v
Sql.v
Registry.v
Registries.v
PostgresEventStore.v
Relay.v
Outbox.v
DurableStore.v
DurableRefinement.v
DeadLetters.v
DurableDemo.v
Columns.v
PostgresSales.v
PostgresAvailability.v
Strconv.v
Config.v
RebuildCommand.v
ReadModelDemo.v
SagaSupply.v
Contracts.v
Wiring.v
System.v
SystemDemo.v
Supply.v
Progress.v
ProgressDemo.v
Auth.v
Rest.v
RestContract.v
Api.v
ApiDemo.v
Adapters.v
App.v
RedriveCommand.v
AppDemo.v
