(* ===== verification/Prelude.v ===== *)
(** * CJ Beer Company: a verification development (root file)

  The program is an event-sourced back end in Go (module root [src/]) with two
  modules, Sales and Warehouses, that talk over one message bus. A client
  creates a sales order; Sales stores it and announces it; the Warehouses saga
  allocates the order's rows beer by beer and, if a row cannot be had, gives
  back what it took; its outcome settles the order in Sales. Read models are
  projections of the events. The library [internal/muflone] carries both
  modules: aggregates, event store, repository, bus, retry policy.

  ** Files and sources

  Shared library ([internal/muflone], [internal/shared])
  - [Prelude]: Go's 64-bit [int] ([Int]), [strings] helpers ([GoStrings]),
    tactics, the hint databases, list lemmas.
  - [Errors]: [errors.go]; the monad [GoM W] of state, [error] and panic;
    [for_each] is Go's [range] with early return. State changed before an error
    or a panic stays changed.
  - [Kernel]: the [uuid] interface, [time.Time], [customtypes.go], [message.go].
  - [Aggregate]: [aggregate.go]. [EventStore]: [eventstore.go], the interfaces,
    the laws a store promises ([EventStoreLaws], [StreamListerLaws]) and the
    in-memory store that keeps them. [World]: what a handler can touch.
    [Repository]: [repository.go]. [Rebuild]: the loops of both [rebuild.go].
  - [Bus]: publishing and subscribing of [servicebus.go], and [retry.go].
    [Transport]: [transport.go], [amqp_transport.go] and the bus's life
    (attaching, [Run], [Close]). [Json]: [encoding/json] as used.
  - [Frame], [Wire]: what a handler leaves alone; what it may have sent, and what
    an outbox relay may. [Reliable]: stores and wires that do not fail.
  - [Specification]: [specification.go] and the command specifications of the
    repository's tests.

  Warehouses ([internal/warehouses])
  - [WarehouseKernel], [WarehouseJson]: [sharedkernel]. [Availability], [Saga]:
    [domain]. [WarehouseHandlers]: [domain/commandhandlers]. [SagaRunner]:
    [sagas]. [WarehouseReadModel]: [readmodel], [rebuild.go].
    [WarehouseFacade]: [facade.go].
  - [Histories], [SagaContract], [SagaWire], [WarehouseSteps], [SagaSupply]: theory
    of the above. [Demo]: evaluated runs.

  Sales ([internal/sales])
  - [SalesKernel], [SalesJson], [SalesOrder], [SalesHandlers], [SalesReadModel],
    [SalesFacade], [SalesIntegration], likewise; [SalesSteps]: theory.

  The durable side ([internal/muflone] over PostgreSQL, [migrations/versions])
  - [Sql]: what the sources use of a database: statements, autocommit,
    [WithTx], the writes of other sessions. [Registry], [Registries]:
    [registry.go] and both modules' tables. [PostgresEventStore]:
    [postgres_eventstore.go] with the schema's checks; [DurableStore] packs it
    as an [EventStore] of the interface; [DurableRefinement] compares it with
    the in-memory one. [Relay], [Outbox]: [outbox.go]. [DeadLetters]:
    [deadletters.go]. [DurableDemo]: evaluated runs.
  - [Columns]: what typed columns do to values. [PostgresSales],
    [PostgresAvailability]: the two SQL read models. [RebuildCommand]:
    [cmd/rebuild]. [RedriveCommand]: [cmd/redrive]. [ReadModelDemo]: evaluated
    runs.

  Both ([internal/app], both [module.go], [cmd/api])
  - [Contracts]: each side reads what the other writes. [Wiring]: the
    subscription tables and the steps of the running process. [System]: its
    invariants. [SystemDemo]: an order allocated and settled, evaluated.
    [Supply], [Progress]: what each order and saga waits for is on the wire, and
    brings it to its end. [ProgressDemo]: an order under way, evaluated.
  - [Adapters]: one type for both adapters of a port, with the laws both keep.
    [Strconv], [Config]: [strconv], [time.ParseDuration] and [config.go].
    [Process]: [App.Run], a state machine of goroutines. [App]: [New], what the
    configuration decides, the pieces of [internal/platform]. [AppDemo]:
    evaluated processes.

  The API ([internal/rest], [internal/platform/auth])
  - [Auth]: principals, token verification. [Rest]: middlewares, routes,
    endpoints, the rate limiter. [RestContract]: the table of routes as a reference
    ([specified]) and what a request can get. [Api]: the endpoints on the running
    [System]. [ApiDemo]: evaluated requests.

  ** State and operations

  A module's state is a store [St] (any with [EventStoreLaws]), the bus [B] (any
  wire with [WirePublisherLaws]), the clock and the count of minted
  identifiers: the record [World]. A handler is one [Definition] in [GoM
  (World St B)], whole; aggregates are records with one [Definition] per
  method. [Wiring.System] puts both modules' stores and read models around one
  bus; [Wiring.step] is one thing that happens while the process runs. [Rest]
  works on any world with [Facades]; [Api] gives [System] the facades. The
  class [Publication] says who publishes: the repositories (in memory) or a
  relay (durable); [App.publication] is [New]'s choice. [Process] keeps where
  each goroutine is; what the handlers do meanwhile is [Wiring.step]'s.

  ** What the theorems show

  - Composition: in any run, in either mode, with relays that repeat and
    processes that restart, the settled status of an order and the saga agree,
    and an allocated order holds its stock ([System]); where nothing fails and
    the repositories publish, any order of positive quantities can settle from
    any moment on, by the deliveries of what is on the wire ([Progress]);
    over read models whose queries only read, requests are steps of such runs
    ([Api.requests_are_steps]).
  - Warehouses: stock is conserved under any interleaving of load and save
    halves, for quantities that do not overflow and orders that ask a beer for one
    quantity; the aggregates' methods on every branch; the saga refines an
    abstract allocate / refuse / give-back protocol, ends within [2n+2] events
    and observes each thing once; the runner's handlers, resumption and timeout
    sweep, over all sagas of the store, store and send exactly what the protocol
    calls for.
  - Sales: the shape of an order's stream, first settlement wins, projections
    converge under reordering and repetition, rebuild equals live projection,
    paging covers.
  - Library: optimistic concurrency, save / load round trip, retry budget, the
    attaching of handlers; a command specification tests exactly what the aggregate
    decides on its past, and the 24 of the repository's tests pass.
  - Durable side: an append is atomic and serializable whatever the other
    sessions write meanwhile, and stores the events with their outbox rows; the
    Postgres store keeps the laws of the interface, so every theorem about
    handlers holds over it, and refines the in-memory store; what is stored
    reaches the wire, at least once and in order, and the relay drains; stored
    events rehydrate through [jsonb] and the registries; upcasting ends when
    upcasters lower a rank; the archive and its redrive lose no letter; the SQL
    read models converge and a rebuild that succeeds restores them.
  - API: a request is served as the table of routes says, over any facades: nobody
    acts without the role, the facade is called at most once, there is one
    well-formed answer, and other errors than the client's have fixed texts, except
    on the readiness probe; 201 means that the command went out; the limiter is
    bounded and not fooled by headers it does not trust.
  - Process: [New] builds an application of one piece, its adapters included; [Run]
    keeps its order, its shutdown completes, and its only panics are two intervals.
  - Deviations found are theorems too (a boot that hangs, an outcome lost for good,
    leaked stock, overflow, duplicate rows, unstable paging, an identifier that is an
    error in one mode only, a probe that shows internal errors), listed in the
    manifest's findings.

  ** Bounds, fuel, assumptions

  - The retry loop takes fuel [retry_fuel] = 12, the largest budget of
    [retry.go]; [Bus.retryMiddleware_policy] shows it is never exhausted.
    [Strconv]'s parsers take the length of the text; [Deserialize]'s upcasting
    loop takes fuel: [Registry.upcasting_terminates] says how much is enough. All
    other recursion is structural.
  - [int] wraps at 64 bits ([Int.wrap]); [time.Time] is an integer of
    nanoseconds; floats are [binary64] values, their parsing and printing
    parameters.
  - A handler is one step of [Wiring.step]. [Repository.stale_save_rejected] is
    why: a write between load and save makes the save fail, and the retry loads
    again. [WarehouseHandlers] and [SalesHandlers] interleave the halves.
  - JSON: strings are taken to be valid UTF-8; key matching folds ASCII case;
    decoding into a reused slice element is modelled by the prior value, the
    reuse of a longer slice's capacity is not.
  - Messages may be delivered any number of times, in any order, or never; a
    restart keeps the stores and may lose messages of the wire.
  - [Supply] and [Progress] only: the store answers and refuses an append on a
    conflict only, the wire accepts every message ([Reliable]), so no process
    dies within a handler. [SagaWire.lost_outcome] is why: a settled saga whose
    outcome was lost never tells it again.
  - PostgreSQL: READ COMMITTED; a [COMMIT] that reports an error did not
    commit; [DEFAULT now()] is the clock at the commit, not at the start of the
    transaction, and a [bigserial] takes its numbers in the order of the commits,
    without gaps (time stamps, and the order of the outbox across transactions that
    overlap, depend on it); statements may fail at any point ([Sql.faults]) and rows of other
    sessions arrive between two statements ([Sql.arrivals]); each module has a
    share of [events] of its own (stream prefixes differ), as has each read
    model and the archive; identifiers are ASCII, so that [varchar(n)] counts
    bytes; a [uuid] column orders as its text; [jsonb] gives back members in
    another order, the last of duplicates, numbers respelled
    ([Json.same_content]). What [uuid], [timestamptz] and [numeric] columns make
    of a value is the class [PgColumns]. In [System] one replica writes
    ([DurableStore.quiet]); [PostgresEventStore] and the read models have others.
  - gin's body decoding, parameters and client addresses are the class [Gin],
    [x/time/rate] the class [RateLib], the token library a parameter of
    [Auth.Verify]; watermill's constructors, router and closes, the database
    driver and the exporters the class [App.Outside]. [ToLower] is ASCII's.

  ** Not modelled

  Logging and what tracing and metrics export; watermill's router and
  acknowledgements beyond redelivery, gin's routing, the [pgx] driver, JWT
  signatures (third party, parameters where code relies on them); the dead-letter
  archive is one of [App]'s subscriptions but no step of [Wiring], since no handler
  reads it; the injector, which passes arguments. *)
From Stdlib Require Export ZArith Lia.
From Stdlib Require Export Ascii ZifyBool ZifyN.
From stdpp Require Export base tactics numbers list gmap strings pretty.

(** Warnings raised inside stdpp's solvers and by its infix set notations. *)
#[export] Set Warnings "-clear-no-such-hyp,-level-tolerance,-register-all".

Declare Scope go_scope.
Delimit Scope go_scope with go.
#[global] Open Scope Z_scope.

(** ** Automation *)

Create HintDb brew.
Create Rewrite HintDb brew_rw.

(** Case analysis on every [match] / [if] of the goal, keeping equations. *)
Ltac go_cases :=
  repeat (case_match; simplify_eq/=).

(** Split conjunctions and solve the easy leaves. *)
Ltac go_split := repeat split; simplify_eq/=; try done; try lia; auto with brew.

(** ** Machine integers: Go's [int] on a 64-bit platform *)
Module Int.

(** The values a Go [int] can hold. *)
Definition in_range (z : Z) : Prop := - 2 ^ 63 <= z < 2 ^ 63.

#[global] Instance in_range_dec z : Decision (in_range z).
Proof. unfold in_range. apply _. Defined.

(** Two's-complement wrap-around to 64 bits. *)
Definition wrap (z : Z) : Z := (z + 2 ^ 63) mod 2 ^ 64 - 2 ^ 63.

(** [a + b], [a - b] and [a << n] on [int]. *)
Definition add (a b : Z) : Z := wrap (a + b).
Definition sub (a b : Z) : Z := wrap (a - b).
Definition shl (a : Z) (n : nat) : Z := wrap (Z.shiftl a (Z.of_nat n)).

Lemma wrap_in_range z : in_range (wrap z).
Proof.
  unfold in_range, wrap.
  pose proof (Z.mod_pos_bound (z + 2 ^ 63) (2 ^ 64) ltac:(lia)). lia.
Qed.

Lemma wrap_id z : in_range z → wrap z = z.
Proof. unfold in_range, wrap. intros. rewrite Z.mod_small; lia. Qed.

Lemma add_exact a b : in_range (a + b) → add a b = a + b.
Proof. apply wrap_id. Qed.

Lemma sub_exact a b : in_range (a - b) → sub a b = a - b.
Proof. apply wrap_id. Qed.

(** Subtracting a positive amount that is available never wraps. *)
Lemma sub_available a b : in_range a → 0 < b ≤ a → sub a b = a - b.
Proof. unfold in_range. intros. apply sub_exact. unfold in_range. lia. Qed.

End Int.

#[export] Hint Resolve Int.wrap_in_range : brew.

(** ** Go strings: byte strings, and the part of package [strings] in use *)
Module GoStrings.

(** [unicode.IsSpace] on the three encoded lengths a white-space rune has in
    UTF-8: one byte (tab, LF, VT, FF, CR, space), two bytes (U+0085, U+00A0)
    and three bytes (U+1680, U+2000-200A, U+2028, U+2029, U+202F, U+205F,
    U+3000). *)
Definition space1 (c : ascii) : bool :=
  let n := N_of_ascii c in ((9 <=? n) && (n <=? 13) || (n =? 32))%N.

Definition space2 (c d : ascii) : bool :=
  let n := N_of_ascii d in ((N_of_ascii c =? 194) && ((n =? 133) || (n =? 160)))%N.

Definition space3 (c d e : ascii) : bool :=
  let n := N_of_ascii c in let m := N_of_ascii d in let k := N_of_ascii e in
  ((n =? 225) && (m =? 154) && (k =? 128)
   || (n =? 226) && (m =? 128) &&
      ((128 <=? k) && (k <=? 138) || (k =? 168) || (k =? 169) || (k =? 175))
   || (n =? 226) && (m =? 129) && (k =? 159)
   || (n =? 227) && (m =? 128) && (k =? 128))%N.

(** Drop leading white-space runes; [flip] reads the bytes of a rune backwards,
    which is what trimming from the right does on the reversed string. *)
Fixpoint drop_spaces (flip : bool) (s : list ascii) : list ascii :=
  match s with
  | [] => []
  | c :: s1 =>
      if space1 c then drop_spaces flip s1 else
      match s1 with
      | [] => s
      | d :: s2 =>
          if (if flip then space2 d c else space2 c d) then drop_spaces flip s2 else
          match s2 with
          | [] => s
          | e :: s3 =>
              if (if flip then space3 e d c else space3 c d e)
              then drop_spaces flip s3 else s
          end
      end
  end.

(** [strings.TrimSpace]. *)
Definition TrimSpace (s : string) : string :=
  String.string_of_list_ascii
    (rev (drop_spaces true (rev (drop_spaces false (String.list_ascii_of_string s))))).

(** A string made only of white-space runes. *)
Inductive blank : list ascii → Prop :=
| blank_nil : blank []
| blank_1 c s : space1 c = true → blank s → blank (c :: s)
| blank_2 c d s : space2 c d = true → blank s → blank (c :: d :: s)
| blank_3 c d e s : space3 c d e = true → blank s → blank (c :: d :: e :: s).

Lemma blank_app s t : blank s → blank t → blank (s ++ t).
Proof. induction 1; simpl; eauto using blank. Qed.

(** The three encodings are told apart by their first byte. *)
Lemma space2_not_space1 c d : space2 c d = true → space1 c = false.
Proof. unfold space1, space2. cbv zeta. intros H. apply not_true_iff_false. lia. Qed.

Lemma space3_not_space1 c d e : space3 c d e = true → space1 c = false.
Proof. unfold space1, space3. cbv zeta. intros H. apply not_true_iff_false. lia. Qed.

Lemma space3_not_space2 c d e x : space3 c d e = true → space2 c x = false.
Proof. unfold space2, space3. cbv zeta. intros H. apply not_true_iff_false. lia. Qed.

Lemma drop_spaces_blank s t : blank s → drop_spaces false (s ++ t) = drop_spaces false t.
Proof.
  induction 1 as [|c s Hc _ IH|c d s Hc _ IH|c d e s Hc _ IH]; simpl; [done|..].
  - by rewrite Hc.
  - by rewrite (space2_not_space1 _ _ Hc), Hc.
  - by rewrite (space3_not_space1 _ _ _ Hc), (space3_not_space2 _ _ _ _ Hc), Hc.
Qed.

(** Trimming from the left removes a blank prefix; from the right (on the
    reversed string) a blank suffix. *)
Lemma drop_spaces_split_aux n flip s :
  (length s ≤ n)%nat →
  ∃ p, s = p ++ drop_spaces flip s ∧ blank (if flip then rev p else p).
Proof.
  revert s. induction n as [|n IH]; intros [|c s] Hlen; simpl in *; try lia.
  { exists []. destruct flip; auto using blank. }
  { exists []. destruct flip; auto using blank. }
  destruct (space1 c) eqn:H1.
  { destruct (IH s) as (p & Hs & Hp); [lia|]. exists (c :: p). simpl.
    split; [congruence|]. destruct flip; [apply blank_app|]; eauto using blank. }
  destruct s as [|d s]; [exists []; destruct flip; auto using blank|].
  destruct (if flip then space2 d c else space2 c d) eqn:H2.
  { destruct (IH s) as (p & Hs & Hp); [simpl in *; lia|]. exists (c :: d :: p). simpl.
    split; [congruence|]. destruct flip; [rewrite <- app_assoc; apply blank_app|];
      simpl; eauto using blank. }
  destruct s as [|e s]; [exists []; destruct flip; auto using blank|].
  destruct (if flip then space3 e d c else space3 c d e) eqn:H3.
  { destruct (IH s) as (p & Hs & Hp); [simpl in *; lia|]. exists (c :: d :: e :: p).
    simpl. split; [congruence|].
    destruct flip; [rewrite <- !app_assoc; apply blank_app|]; simpl; eauto using blank. }
  exists []. destruct flip; auto using blank.
Qed.

Lemma drop_spaces_split flip s :
  ∃ p, s = p ++ drop_spaces flip s ∧ blank (if flip then rev p else p).
Proof. by apply (drop_spaces_split_aux (length s)). Qed.

Lemma list_of_string_nil l : String.string_of_list_ascii l = ""%string ↔ l = [].
Proof. by destruct l. Qed.

(** [strings.TrimSpace(s) == ""] says exactly that [s] is made of white-space
    runes. *)
Lemma TrimSpace_empty s :
  TrimSpace s = ""%string ↔ blank (String.list_ascii_of_string s).
Proof.
  unfold TrimSpace. set (l := String.list_ascii_of_string s).
  rewrite list_of_string_nil. split.
  - intros H. apply (f_equal (@rev ascii)) in H. rewrite rev_involutive in H.
    destruct (drop_spaces_split false l) as (p & Hp & Hb).
    destruct (drop_spaces_split true (rev (drop_spaces false l))) as (q & Hq & Hbq).
    rewrite H in Hq. simpl in Hq, Hb, Hbq. rewrite app_nil_r in Hq.
    rewrite Hp. apply blank_app; [done|]. rewrite <- Hq in Hbq.
    by rewrite rev_involutive in Hbq.
  - intros H. pose proof (drop_spaces_blank _ [] H) as Hd. rewrite app_nil_r in Hd.
    by rewrite Hd.
Qed.

(** [strings.HasPrefix] and [strings.CutPrefix]/[strings.TrimPrefix]. *)
Fixpoint CutPrefix (s p : string) {struct p} : option string :=
  match p, s with
  | EmptyString, _ => Some s
  | String a p', String b s' => if decide (a = b) then CutPrefix s' p' else None
  | String _ _, EmptyString => None
  end.

Definition HasPrefix (s p : string) : bool :=
  match CutPrefix s p with Some _ => true | None => false end.

Definition TrimPrefix (s p : string) : string :=
  match CutPrefix s p with Some r => r | None => s end.

Lemma app_cons a (p r : string) : (String a p +:+ r)%string = String a (p +:+ r).
Proof. reflexivity. Qed.

Lemma CutPrefix_Some s p r : CutPrefix s p = Some r ↔ s = (p +:+ r)%string.
Proof.
  revert s. induction p as [|a p IH]; intros s.
  - change (Some s = Some r ↔ s = r). split; congruence.
  - rewrite app_cons. destruct s as [|b s]; simpl; [split; congruence|].
    case_decide; subst; [rewrite IH|]; split; congruence.
Qed.

Lemma CutPrefix_app p r : CutPrefix (p +:+ r)%string p = Some r.
Proof. by apply CutPrefix_Some. Qed.

Lemma HasPrefix_app p r : HasPrefix (p +:+ r)%string p = true.
Proof. unfold HasPrefix. by rewrite CutPrefix_app. Qed.

Lemma TrimPrefix_app p r : TrimPrefix (p +:+ r)%string p = r.
Proof. unfold TrimPrefix. by rewrite CutPrefix_app. Qed.

Lemma app_inj_l (p r r' : string) : (p +:+ r = p +:+ r')%string → r = r'.
Proof. induction p; [done|]. rewrite !app_cons. by intros [= ?%IHp]. Qed.

Lemma app_assoc (p q r : string) : (p +:+ (q +:+ r) = (p +:+ q) +:+ r)%string.
Proof. induction p as [|a p IH]; [done|]. by rewrite !app_cons, IH. Qed.

End GoStrings.

(** ** Lists *)

Lemma foldl_snoc {A B} (f : A → B → A) a l x :
  foldl f a (l ++ [x]) = f (foldl f a l) x.
Proof. by rewrite foldl_app. Qed.

(** ** Sums of lists of integers *)
Definition Zsum : list Z → Z := foldr Z.add 0.

Lemma Zsum_app l k : Zsum (l ++ k) = Zsum l + Zsum k.
Proof. induction l; simpl; lia. Qed.

#[export] Instance Zsum_perm : Proper ((≡ₚ) ==> (=)) Zsum.
Proof. induction 1; simpl; lia. Qed.

Lemma Zsum_nonneg l : Forall (λ z, 0 ≤ z) l → 0 ≤ Zsum l.
Proof. induction 1; simpl; lia. Qed.

Lemma Zsum_submseteq l k : l ⊆+ k → Forall (λ z, 0 ≤ z) k → Zsum l ≤ Zsum k.
Proof.
  intros [m Hm]%submseteq_Permutation Hk. rewrite Hm in *. rewrite Zsum_app.
  apply Forall_app in Hk as [_ ?%Zsum_nonneg]. lia.
Qed.

(** ** Sums over finite sets *)
Section sum_over.
Context `{Countable K} (f : K → Z).

Definition sum_over (X : gset K) : Z := foldr (λ k acc, f k + acc) 0 (elements X).

Lemma sum_over_empty : sum_over ∅ = 0.
Proof. unfold sum_over. by rewrite elements_empty. Qed.

Lemma sum_over_perm (l l' : list K) :
  l ≡ₚ l' → foldr (λ k acc, f k + acc) 0 l = foldr (λ k acc, f k + acc) 0 l'.
Proof. induction 1; simpl; lia. Qed.

Lemma sum_over_insert X k :
  k ∉ X → sum_over ({[k]} ∪ X) = f k + sum_over X.
Proof.
  intros Hk. unfold sum_over.
  by rewrite (sum_over_perm _ _ (elements_union_singleton X k Hk)).
Qed.

Lemma sum_over_delete X k :
  k ∈ X → sum_over (X ∖ {[k]}) = sum_over X - f k.
Proof.
  intros Hk. assert (k ∉ X ∖ {[k]}) as Hn
    by (rewrite elem_of_difference, elem_of_singleton; tauto).
  pose proof (sum_over_insert _ _ Hn) as E.
  rewrite <- union_difference_singleton_L in E by done. lia.
Qed.

Lemma sum_over_nonneg X : (∀ k, k ∈ X → 0 ≤ f k) → 0 ≤ sum_over X.
Proof.
  intros Hf. unfold sum_over.
  assert (Forall (λ k, 0 ≤ f k) (elements X)) as Hl.
  { apply Forall_forall. intros k Hk%elem_of_elements. by apply Hf. }
  induction Hl; simpl; lia.
Qed.
End sum_over.

(** ** Filters *)
Lemma filter_everything {A} (Q : A → Prop) `{!∀ x, Decision (Q x)} (l : list A) :
  (∀ x, Q x) → filter Q l = l.
Proof. intros HQ. induction l as [|x l IH]; [done|]. by rewrite filter_cons, decide_True, IH. Qed.

Lemma filter_agree {A} (Q R : A → Prop) `{!∀ x, Decision (Q x), !∀ x, Decision (R x)}
    (l : list A) : (∀ x, x ∈ l → Q x ↔ R x) → filter Q l = filter R l.
Proof.
  induction l as [|x l IH]; intros HQR; [done|]. rewrite !filter_cons.
  rewrite IH by (intros y Hy; apply HQR; by right). specialize (HQR x ltac:(left)).
  repeat case_decide; naive_solver.
Qed.

Lemma filter_nothing {A} (Q : A → Prop) `{!∀ x, Decision (Q x)} (l : list A) :
  (∀ x, x ∈ l → ¬ Q x) → filter Q l = [].
Proof.
  induction l as [|x l IH]; intros HQ; [done|].
  rewrite filter_cons, decide_False by (apply HQ; by left). apply IH. intros y Hy. apply HQ. by right.
Qed.
