(* ===== verification/Errors.v ===== *)
(** * Errors and effects

  Go's [error] values as the program uses them (package [muflone]'s sentinels
  and [ErrInvalid], wrapping with [%w], [errors.Is] / [errors.As]), and the
  small state-and-error monad in which the handlers are written: a
  computation reads and writes a world [W] and returns a value, returns an
  error, or panics. State changes made before an error or a panic persist,
  as they do in Go. *)
From S2P Require Import Prelude.

(** ** Error values *)

(** The sentinels are pointers compared by identity, one constructor each;
    [ErrInvalid] is the string-based error type of [muflone/errors.go];
    [ErrExternal] is an error made by a library (identified by its text);
    [Errorf msg e] is [fmt.Errorf] with [e] under [%w]. *)
Inductive error :=
| ErrInvalid (msg : string)
| ErrNotFound
| ErrAggregateNotFound
| ErrConcurrency
| ErrExternal (msg : string)
| Errorf (msg : string) (wrapped : error).

#[export] Instance error_eq_dec : EqDecision error.
Proof. solve_decision. Defined.

(** [errors.Is(e, target)]: [e] or an error it wraps equals [target]. *)
Fixpoint errors_Is (e target : error) : bool :=
  bool_decide (e = target) ||
  match e with Errorf _ e' => errors_Is e' target | _ => false end.

(** [errors.As(e, &invalid)] for [var invalid ErrInvalid]. *)
Fixpoint errors_As_ErrInvalid (e : error) : option string :=
  match e with
  | ErrInvalid msg => Some msg
  | Errorf _ e' => errors_As_ErrInvalid e'
  | _ => None
  end.

Lemma errors_Is_refl e : errors_Is e e = true.
Proof.
  destruct e; apply orb_true_iff; left; by apply bool_decide_eq_true_2.
Qed.

Lemma errors_Is_Errorf msg e target :
  errors_Is e target = true → errors_Is (Errorf msg e) target = true.
Proof. simpl. intros ->. apply orb_true_r. Qed.

#[export] Hint Resolve errors_Is_refl errors_Is_Errorf : brew.

(** ** Results *)

Inductive result (A : Type) :=
| Ok (a : A)
| Err (e : error)
| Panic (msg : string).
Arguments Ok {_} _.
Arguments Err {_} _.
Arguments Panic {_} _.

#[export] Instance result_eq_dec `{EqDecision A} : EqDecision (result A).
Proof. solve_decision. Defined.

#[export] Instance Ok_inj {A} : Inj (=) (=) (@Ok A).
Proof. by intros a b [= ->]. Qed.

(** A failed result at another type. *)
Definition result_bind {A B} (f : A → result B) (r : result A) : result B :=
  match r with Ok a => f a | Err e => Err e | Panic s => Panic s end.

(** [if err != nil { return fmt.Errorf("msg: %w", err) }]. *)
Definition result_wrap {A} (msg : string) (r : result A) : result A :=
  match r with Err e => Err (Errorf msg e) | _ => r end.

(** ** The effect monad *)

Definition GoM (W A : Type) : Type := W → result A * W.

Section monad.
Context {W : Type}.

#[global] Instance GoM_ret : MRet (GoM W) := λ A a w, (Ok a, w).

#[global] Instance GoM_bind : MBind (GoM W) := λ A B f m w,
  match m w with
  | (Ok a, w') => f a w'
  | (Err e, w') => (Err e, w')
  | (Panic s, w') => (Panic s, w')
  end.

(** [return err]. *)
Definition throw {A} (e : error) : GoM W A := λ w, (Err e, w).

(** [panic(s)]. *)
Definition go_panic {A} (s : string) : GoM W A := λ w, (Panic s, w).

(** Run a call and keep its error as a value ([x, err := f()]); a panic is
    not caught. *)
Definition attempt {A} (m : GoM W A) : GoM W (error + A) := λ w,
  match m w with
  | (Ok a, w') => (Ok (inr a), w')
  | (Err e, w') => (Ok (inl e), w')
  | (Panic s, w') => (Panic s, w')
  end.

(** A pure result as a computation. *)
Definition lift {A} (r : result A) : GoM W A := λ w, (r, w).

(** [if err := f(); err != nil { return fmt.Errorf("msg: %w", err) }]. *)
Definition wrapping {A} (msg : string) (m : GoM W A) : GoM W A := λ w,
  let '(r, w') := m w in (result_wrap msg r, w').

Definition gets {A} (f : W → A) : GoM W A := λ w, (Ok (f w), w).
Definition modify (f : W → W) : GoM W unit := λ w, (Ok tt, f w).

(** A [for _, x := range xs] loop whose body returns early on an error. *)
Fixpoint for_each {A} (xs : list A) (body : A → GoM W unit) : GoM W unit :=
  match xs with
  | [] => mret tt
  | x :: xs => _ ← body x; for_each xs body
  end.

Lemma bind_Ok {A B} (m : GoM W A) (f : A → GoM W B) w a w' :
  m w = (Ok a, w') → (m ≫= f) w = f a w'.
Proof. unfold mbind, GoM_bind. by intros ->. Qed.

Lemma bind_Err {A B} (m : GoM W A) (f : A → GoM W B) w e w' :
  m w = (Err e, w') → (m ≫= f) w = (Err e, w').
Proof. unfold mbind, GoM_bind. by intros ->. Qed.

Lemma bind_Panic {A B} (m : GoM W A) (f : A → GoM W B) w s w' :
  m w = (Panic s, w') → (m ≫= f) w = (Panic s, w').
Proof. unfold mbind, GoM_bind. by intros ->. Qed.

(** Inversion of a bind that succeeded. *)
Lemma bind_inv_Ok {A B} (m : GoM W A) (f : A → GoM W B) w b w'' :
  (m ≫= f) w = (Ok b, w'') → ∃ a w', m w = (Ok a, w') ∧ f a w' = (Ok b, w'').
Proof. unfold mbind, GoM_bind. destruct (m w) as [[] ?] eqn:E; naive_solver. Qed.

Lemma bind_wrapping {A B} msg (m : GoM W A) (f : A → GoM W B) w :
  (wrapping msg m ≫= f) w =
  match m w with
  | (Ok a, w') => f a w'
  | (Err e, w') => (Err (Errorf msg e), w')
  | (Panic s, w') => (Panic s, w')
  end.
Proof. unfold mbind, GoM_bind, wrapping. by destruct (m w) as [[] ?]. Qed.

Lemma attempt_Ok {A} (m : GoM W A) w a w' :
  m w = (Ok a, w') → attempt m w = (Ok (inr a), w').
Proof. unfold attempt. by intros ->. Qed.

Lemma attempt_Err {A} (m : GoM W A) w e w' :
  m w = (Err e, w') → attempt m w = (Ok (inl e), w').
Proof. unfold attempt. by intros ->. Qed.

Lemma for_each_app {A} (xs ys : list A) body w :
  for_each (xs ++ ys) body w = (_ ← for_each xs body; for_each ys body) w.
Proof.
  revert w. induction xs as [|x xs IH]; intros w; [done|]. simpl.
  unfold mbind, GoM_bind in *. destruct (body x w) as [[] w']; [apply IH|done..].
Qed.

(** A state invariant is kept by a loop whose body keeps it, however the
    loop ends. *)
Lemma for_each_invariant {A} (P : W → Prop) (xs : list A) body w r w' :
  (∀ x w r w', body x w = (r, w') → P w → P w') →
  for_each xs body w = (r, w') → P w → P w'.
Proof.
  intros Hb. revert w. induction xs as [|x xs IH]; simpl; intros w.
  - intros [= <- <-]. done.
  - unfold mbind, GoM_bind. destruct (body x w) as [rx wx] eqn:E. intros H Hw.
    pose proof (Hb _ _ _ _ E Hw). destruct rx; simplify_eq; eauto.
Qed.

Lemma for_each_invariant_in {A} (P : W → Prop) (xs : list A) body w r w' :
  (∀ x w r w', x ∈ xs → body x w = (r, w') → P w → P w') →
  for_each xs body w = (r, w') → P w → P w'.
Proof.
  intros Hb. revert w. induction xs as [|x xs IH]; simpl; intros w.
  - intros [= <- <-]. done.
  - unfold mbind, GoM_bind. destruct (body x w) as [rx wx] eqn:E. intros H Hw.
    pose proof (Hb _ _ _ _ ltac:(left) E Hw). destruct rx; simplify_eq; [|done..].
    eapply IH; [|done..]. intros y ? ? ? Hy. apply Hb. by right.
Qed.
End monad.

(** Focus a computation on a component of a larger world. *)
Definition zoom {W V A} (get : W → V) (put : V → W → W) (m : GoM V A) : GoM W A :=
  λ w, let '(r, v) := m (get w) in (r, put v w).

(** Unfold the monad's plumbing everywhere. *)
Ltac go_run :=
  cbv beta iota delta [mbind GoM_bind mret GoM_ret throw go_panic attempt lift
    wrapping result_wrap gets modify zoom] in *.
