(* ===== verification/Kernel.v ===== *)
(** * The shared kernel

  The identifier library the program imports ([github.com/google/uuid]) as an
  interface with the documented facts the code relies on, the Go values the
  source takes from the standard library ([time.Time], [float64]), the value
  objects of [internal/shared/customtypes] and the message bases of
  [internal/muflone/message.go]. *)
From S2P Require Import Prelude Errors.
From Stdlib Require Import SpecFloat Ascii.

(** ** [github.com/google/uuid] *)

(** The type [uuid.UUID] with the functions the program calls. [uuid_Parse]
    returns [None] for an error; [uuid_New n] is the [n]-th identifier the
    process generates. The two laws are documented: [Parse] decodes what
    [String] encodes, and the empty string is not an identifier. *)
Class UuidLib := {
  UUID : Type;
  UUID_eq_dec :: EqDecision UUID;
  uuid_Nil : UUID;
  uuid_Parse : string → option UUID;
  uuid_String : UUID → string;
  uuid_New : nat → UUID;
  uuid_Parse_String : ∀ u, uuid_Parse (uuid_String u) = Some u;
  uuid_Parse_empty : uuid_Parse "" = None;
}.

Section uuid.
Context `{UuidLib}.

(** [uuid.MustParse]: panics on a malformed identifier. *)
Definition uuid_MustParse (s : string) : result UUID :=
  match uuid_Parse s with
  | Some u => Ok u
  | None => Panic "uuid: Parse(" 
  end.

#[global] Instance uuid_String_inj : Inj (=) (=) uuid_String.
Proof.
  intros u v E. pose proof (uuid_Parse_String u) as Hu.
  rewrite E, uuid_Parse_String in Hu. congruence.
Qed.

Lemma uuid_MustParse_String u : uuid_MustParse (uuid_String u) = Ok u.
Proof. unfold uuid_MustParse. by rewrite uuid_Parse_String. Qed.

Lemma uuid_String_nonempty u : uuid_String u ≠ "".
Proof.
  intros E. pose proof (uuid_Parse_String u) as Hu.
  rewrite E, uuid_Parse_empty in Hu. discriminate.
Qed.
End uuid.

(** A concrete identifier library for evaluating examples: an identifier is a
    string, printed behind the letter [u]. *)
Module DemoUuid.
Definition parse (s : string) : option string :=
  match s with
  | String c r => if decide (c = "u"%char) then Some r else None
  | EmptyString => None
  end.

Definition lib : UuidLib := {|
  UUID := string;
  uuid_Nil := "";
  uuid_Parse := parse;
  uuid_String := String "u"%char;
  uuid_New n := ("new-" +:+ pretty (Z.of_nat n))%string;
  uuid_Parse_String u := eq_refl;
  uuid_Parse_empty := eq_refl;
|}.

Definition id (s : string) : @UUID lib := s.
End DemoUuid.
Abbreviation uid := DemoUuid.id (only parsing).

(** ** [time.Time] and [float64] *)

(** An instant, in nanoseconds since the zero [time.Time] (January 1, year 1,
    UTC), so that [IsZero] is equality with 0. *)
Definition Time := Z.
Definition IsZero (t : Time) : bool := t =? 0.
Definition Before (t u : Time) : bool := t <? u.

(** [time.Duration], in nanoseconds. *)
Definition Millisecond : Z := 1000000.
Definition Second : Z := 1000 * Millisecond.

(** IEEE-754 doubles, as the specification type of the standard library. *)
Definition float64 := spec_float.

#[export] Instance float64_eq_dec : EqDecision float64.
Proof. unfold float64. solve_decision. Defined.

(** ** [internal/shared/customtypes] *)

(** An amount in a unit of measure; [Value] is a Go [int]. *)
Record Quantity := NewQuantity { Value : Z; UnitOfMeasure : string }.

#[export] Instance Quantity_eq_dec : EqDecision Quantity.
Proof. solve_decision. Defined.

(** [Quantity.String]: [fmt.Sprintf("%d %s", q.Value, q.UnitOfMeasure)]. *)
Definition Quantity_String (q : Quantity) : string :=
  (pretty (Value q) +:+ " " +:+ UnitOfMeasure q)%string.

Record Price := NewPrice { PriceValue : float64; Currency : string }.

#[export] Instance Price_eq_dec : EqDecision Price.
Proof. solve_decision. Defined.

Definition DefaultPageLimit : Z := 50.
Definition MaxPageLimit : Z := 200.

Record Page := mkPage { Limit : Z; Offset : Z }.

(** [NewPage] clamps out-of-range values, one [if] after the other. *)
Definition NewPage (limit offset : Z) : Page :=
  let limit := if limit <=? 0 then DefaultPageLimit else limit in
  let limit := if limit >? MaxPageLimit then MaxPageLimit else limit in
  let offset := if offset <? 0 then 0 else offset in
  {| Limit := limit; Offset := offset |}.

(** The loop both in-memory read models page with:
    [for index := page.Offset; index < len(all) && len(out) < page.Limit; index++]
    as a recursion on the elements not yet visited; [index] is the position of
    the head of [rest] and [got] is [len(out)]. *)
Fixpoint page_loop {A} (page : Page) (index got : Z) (rest : list A) : list A :=
  match rest with
  | [] => []
  | x :: rest =>
      if index <? Offset page then page_loop page (index + 1) got rest
      else if got <? Limit page then x :: page_loop page (index + 1) (got + 1) rest
      else []
  end.

(** The whole window: [make([]T, 0, page.Limit)] panics on a negative capacity
    and indexing at a negative offset panics, neither of which a [NewPage] page
    can cause. *)
Definition page_window {A} (page : Page) (all : list A) : result (list A) :=
  if Limit page <? 0 then Panic "runtime error: makeslice: cap out of range"
  else if (Offset page <? 0) && (0 <? Limit page)
  then Panic "runtime error: index out of range"
  else Ok (page_loop page 0 0 all).

(** ** [internal/muflone/message.go] *)
Section message.
Context `{UuidLib}.

Record CommandBase := NewCommandBase {
  cmd_AggregateId : UUID; cmd_CommitId : UUID }.

Record DomainEventBase := NewDomainEventBase {
  ev_AggregateId : UUID; ev_CommitId : UUID }.

Record IntegrationEventBase := NewIntegrationEventBase { ie_CommitId : UUID }.

#[global] Instance CommandBase_eq_dec : EqDecision CommandBase.
Proof. solve_decision. Defined.
#[global] Instance DomainEventBase_eq_dec : EqDecision DomainEventBase.
Proof. solve_decision. Defined.
#[global] Instance IntegrationEventBase_eq_dec : EqDecision IntegrationEventBase.
Proof. solve_decision. Defined.
End message.

(** The three faces of a message the generic code of [muflone] uses:
    [Message.MessageName], and [CommitID] / [AggregateID] of events. *)
Class Message (M : Type) := MessageName : M → string.

Class DomainEvent `{UuidLib} (E : Type) := {
  DomainEvent_Message :: Message E;
  EventBase : E → DomainEventBase;
}.

Class Command `{UuidLib} (C : Type) := {
  Command_Message :: Message C;
  CmdBase : C → CommandBase;
}.

Section bases.
Context `{UuidLib}.
Definition AggregateID `{DomainEvent E} (e : E) : UUID := ev_AggregateId (EventBase e).
Definition CommitID `{DomainEvent E} (e : E) : UUID := ev_CommitId (EventBase e).
End bases.

(** ** Paging facts *)

Lemma NewPage_bounds limit offset :
  1 ≤ Limit (NewPage limit offset) ≤ MaxPageLimit ∧ 0 ≤ Offset (NewPage limit offset).
Proof.
  unfold NewPage, MaxPageLimit, DefaultPageLimit. simpl. repeat case_match; lia.
Qed.

Lemma page_loop_taking {A} page index got (rest : list A) :
  Offset page ≤ index → 0 ≤ got →
  page_loop page index got rest = take (Z.to_nat (Limit page - got)) rest.
Proof.
  revert index got. induction rest as [|x rest IH]; intros index got Hi Hg; simpl.
  { by rewrite take_nil. }
  rewrite (proj2 (Z.ltb_ge _ _)) by lia. destruct (Z.ltb_spec got (Limit page)).
  - rewrite IH by lia. replace (Z.to_nat (Limit page - got))
      with (S (Z.to_nat (Limit page - (got + 1)))) by lia. done.
  - by replace (Z.to_nat (Limit page - got)) with O by lia.
Qed.

Lemma page_loop_skipping {A} page index (rest : list A) :
  index ≤ Offset page →
  page_loop page index 0 rest
  = take (Z.to_nat (Limit page)) (drop (Z.to_nat (Offset page - index)) rest).
Proof.
  revert index. induction rest as [|x rest IH]; intros index Hi.
  { by rewrite drop_nil, take_nil. }
  destruct (Z.eq_dec index (Offset page)) as [->|Hne].
  - rewrite page_loop_taking by lia. by rewrite Z.sub_0_r, Z.sub_diag.
  - simpl. rewrite (proj2 (Z.ltb_lt _ _)) by lia. rewrite IH by lia.
    by replace (Z.to_nat (Offset page - index))
      with (S (Z.to_nat (Offset page - (index + 1)))) by lia.
Qed.

(** The paging loop is the window [all[offset : offset+limit]]. *)
Lemma page_window_spec {A} limit offset (all : list A) :
  let page := NewPage limit offset in
  page_window page all
  = Ok (take (Z.to_nat (Limit page)) (drop (Z.to_nat (Offset page)) all)).
Proof.
  intros page. unfold page_window. pose proof (NewPage_bounds limit offset).
  rewrite (proj2 (Z.ltb_ge _ _)) by (subst page; lia).
  rewrite (proj2 (Z.ltb_ge _ 0)) by (subst page; lia). simpl.
  rewrite page_loop_skipping by (subst page; lia). by rewrite Z.sub_0_r.
Qed.

(** Page [i] of size [n], and the pages laid end to end. *)
Definition page_at (n : Z) (i : nat) : Page := NewPage n (Z.of_nat i * n).

Lemma pages_concat {A} (all : list A) n k :
  1 ≤ n ≤ MaxPageLimit →
  mjoin ((λ i, default [] (match page_window (page_at n i) all with Ok l => Some l | _ => None end))
           <$> seq 0 k)
  = take (k * Z.to_nat n) all.
Proof.
  intros Hn. induction k as [|k IH]; [done|].
  rewrite seq_S, fmap_app, join_app, IH. simpl. rewrite app_nil_r.
  unfold page_at. rewrite page_window_spec. unfold NewPage. simpl.
  rewrite (proj2 (Z.leb_gt n 0)) by lia.
  destruct (Z.gtb_spec n MaxPageLimit); [lia|].
  destruct (Z.ltb_spec (Z.of_nat k * n) 0); [lia|].
  replace (Z.to_nat (Z.of_nat k * n)) with (k * Z.to_nat n)%nat by lia.
  rewrite take_take_drop. f_equal. lia.
Qed.
