(* ===== verification/Aggregate.v ===== *)
(** * Event-sourced aggregates ([internal/muflone/aggregate.go])

  The aggregate base and its two verbs: [ApplyEvent] runs the router and bumps
  the version, [RaiseEvent] additionally records the event as uncommitted.
  Concrete aggregates give a [Route] and an embedding of the root; the laws
  they promise (a router leaves version and uncommitted events alone) are what
  the repository's theorems are proved against. *)
From S2P Require Import Prelude Errors Kernel.

Section root.
Context `{UuidLib}.

(** The [AggregateRoot] struct; [router] is the [Route] of the class below. *)
Record AggregateRoot (E : Type) := mkRoot {
  root_id : UUID;
  root_version : Z;
  root_uncommitted : list E;
}.
Arguments mkRoot {E} _ _ _.
Arguments root_id {E} _.
Arguments root_version {E} _.
Arguments root_uncommitted {E} _.

(** The zero value of the struct, before any event. *)
Definition new_root {E} : AggregateRoot E := mkRoot uuid_Nil 0 [].

Definition root_SetID {E} (id : UUID) (r : AggregateRoot E) : AggregateRoot E :=
  mkRoot id (root_version r) (root_uncommitted r).
End root.
Arguments mkRoot {_ E} _ _ _.
Arguments root_id {_ E} _.
Arguments root_version {_ E} _.
Arguments root_uncommitted {_ E} _.

(** A concrete aggregate: how it embeds the root, and its event router. *)
Class Aggregate `{UuidLib} (E A : Type) := {
  agg_root : A → AggregateRoot E;
  set_root : AggregateRoot E → A → A;
  Route : E → A → A;
}.

Section operations.
Context `{Aggregate E A}.

Definition ID (a : A) : UUID := root_id (agg_root a).
Definition Version (a : A) : Z := root_version (agg_root a).
Definition UncommittedEvents (a : A) : list E := root_uncommitted (agg_root a).

Definition SetID (id : UUID) (a : A) : A :=
  set_root (root_SetID id (agg_root a)) a.

(** [a.router.Route(event); a.version++]. *)
Definition ApplyEvent (event : E) (a : A) : A :=
  let a := Route event a in
  let r := agg_root a in
  set_root (mkRoot (root_id r) (root_version r + 1) (root_uncommitted r)) a.

Definition RaiseEvent (event : E) (a : A) : A :=
  let a := ApplyEvent event a in
  let r := agg_root a in
  set_root (mkRoot (root_id r) (root_version r) (root_uncommitted r ++ [event])) a.

Definition ClearUncommittedEvents (a : A) : A :=
  let r := agg_root a in
  set_root (mkRoot (root_id r) (root_version r) []) a.

(** Replaying a list of events, and raising a list of events. *)
Definition ApplyAll (events : list E) (a : A) : A :=
  foldl (λ a e, ApplyEvent e a) a events.
Definition RaiseAll (events : list E) (a : A) : A :=
  foldl (λ a e, RaiseEvent e a) a events.
End operations.

(** What a concrete aggregate promises. *)
Class AggregateLaws `{Aggregate E A} := {
  agg_root_set : ∀ r a, agg_root (set_root r a) = r;
  set_root_set : ∀ r r' a, set_root r (set_root r' a) = set_root r a;
  Route_version : ∀ e a, root_version (agg_root (Route e a)) = root_version (agg_root a);
  Route_uncommitted : ∀ e a,
    root_uncommitted (agg_root (Route e a)) = root_uncommitted (agg_root a);
  Route_set_root : ∀ e v us a,
    let r := agg_root a in let r' := agg_root (Route e a) in
    Route e (set_root (mkRoot (root_id r) v us) a)
    = set_root (mkRoot (root_id r') v us) (Route e a);
}.
Arguments AggregateLaws {_} E A {_}.

Section laws.
Context `{AggregateLaws E A}.

Lemma RaiseAll_snoc es e (a : A) :
  RaiseAll (es ++ [e]) a = RaiseEvent e (RaiseAll es a).
Proof. unfold RaiseAll. by rewrite foldl_snoc. Qed.

Lemma ApplyAll_app es es' (a : A) :
  ApplyAll (es ++ es') a = ApplyAll es' (ApplyAll es a).
Proof. unfold ApplyAll. by rewrite foldl_app. Qed.

Lemma Version_ApplyEvent e (a : A) : Version (ApplyEvent e a) = Version a + 1.
Proof.
  unfold Version, ApplyEvent. rewrite agg_root_set. simpl. by rewrite Route_version.
Qed.

Lemma UncommittedEvents_ApplyEvent e (a : A) :
  UncommittedEvents (ApplyEvent e a) = UncommittedEvents a.
Proof.
  unfold UncommittedEvents, ApplyEvent. rewrite agg_root_set. simpl.
  by rewrite Route_uncommitted.
Qed.

Lemma Version_RaiseEvent e (a : A) : Version (RaiseEvent e a) = Version a + 1.
Proof.
  rewrite <- (Version_ApplyEvent e). unfold Version, RaiseEvent.
  by rewrite agg_root_set.
Qed.

Lemma UncommittedEvents_RaiseEvent e (a : A) :
  UncommittedEvents (RaiseEvent e a) = UncommittedEvents a ++ [e].
Proof.
  rewrite <- (UncommittedEvents_ApplyEvent e a).
  unfold UncommittedEvents, RaiseEvent. by rewrite agg_root_set.
Qed.

Lemma ID_RaiseEvent e (a : A) : ID (RaiseEvent e a) = ID (Route e a).
Proof. unfold ID, RaiseEvent, ApplyEvent. by rewrite !agg_root_set. Qed.

Lemma Version_ApplyAll es (a : A) :
  Version (ApplyAll es a) = Version a + Z.of_nat (length es).
Proof.
  revert a. induction es as [|e es IH]; intros a; simpl; [lia|].
  unfold ApplyAll in *. simpl. rewrite IH, Version_ApplyEvent. lia.
Qed.

Lemma UncommittedEvents_ApplyAll es (a : A) :
  UncommittedEvents (ApplyAll es a) = UncommittedEvents a.
Proof.
  revert a. induction es as [|e es IH]; intros a; [done|].
  unfold ApplyAll in *. simpl. by rewrite IH, UncommittedEvents_ApplyEvent.
Qed.

Lemma Version_RaiseAll es (a : A) :
  Version (RaiseAll es a) = Version a + Z.of_nat (length es).
Proof.
  revert a. induction es as [|e es IH]; intros a; simpl; [lia|].
  unfold RaiseAll in *. simpl. rewrite IH, Version_RaiseEvent. lia.
Qed.

Lemma UncommittedEvents_RaiseAll es (a : A) :
  UncommittedEvents (RaiseAll es a) = UncommittedEvents a ++ es.
Proof.
  revert a. induction es as [|e es IH]; intros a; [by rewrite app_nil_r|].
  unfold RaiseAll in *. simpl. rewrite IH, UncommittedEvents_RaiseEvent.
  by rewrite <- app_assoc.
Qed.

(** Raising differs from applying only in what is recorded as uncommitted:
    clearing commutes with both. *)
Lemma Clear_ApplyEvent e (a : A) :
  ClearUncommittedEvents (ApplyEvent e a) = ApplyEvent e (ClearUncommittedEvents a).
Proof.
  unfold ClearUncommittedEvents, ApplyEvent.
  rewrite Route_set_root, !agg_root_set, !set_root_set. simpl.
  by rewrite Route_version.
Qed.

Lemma Clear_RaiseEvent e (a : A) :
  ClearUncommittedEvents (RaiseEvent e a) = ApplyEvent e (ClearUncommittedEvents a).
Proof.
  rewrite <- Clear_ApplyEvent. unfold ClearUncommittedEvents, RaiseEvent.
  by rewrite !agg_root_set, !set_root_set.
Qed.

Lemma Clear_RaiseAll es (a : A) :
  ClearUncommittedEvents (RaiseAll es a) = ApplyAll es (ClearUncommittedEvents a).
Proof.
  revert a. induction es as [|e es IH]; intros a; [done|].
  unfold RaiseAll, ApplyAll in *. simpl. by rewrite IH, Clear_RaiseEvent.
Qed.

Lemma UncommittedEvents_Clear (a : A) :
  UncommittedEvents (ClearUncommittedEvents a) = [].
Proof. unfold UncommittedEvents, ClearUncommittedEvents. by rewrite agg_root_set. Qed.

Lemma Version_Clear (a : A) : Version (ClearUncommittedEvents a) = Version a.
Proof. unfold Version, ClearUncommittedEvents. by rewrite agg_root_set. Qed.
End laws.

#[export] Hint Rewrite @Version_ApplyAll @UncommittedEvents_ApplyAll @Version_RaiseAll
  @UncommittedEvents_RaiseAll @UncommittedEvents_Clear @Version_Clear : brew_rw.
