(* ===== verification/EventStore.v ===== *)
(** * The event store ([internal/muflone/eventstore.go])

  The [EventStore] and [StreamLister] interfaces as classes, the laws an
  implementation promises to its clients ([EventStoreLaws], over an abstract
  view of the streams), and [InMemoryEventStore] with the proof that it keeps
  the promise. *)
From S2P Require Import Prelude Errors Kernel.
From stdpp Require Import sorting.
#[local] Open Scope Z_scope.

(** One event persisted in a stream. *)
Record StoredEvent `{UuidLib} (E : Type) := mkStoredEvent {
  StreamID : string;
  StoredVersion : Z;
  StoredCommitID : UUID;
  OccurredAt : Time;
  Event : E;
}.
Arguments mkStoredEvent {_ E} _ _ _ _ _.
Arguments StreamID {_ E} _.
Arguments StoredVersion {_ E} _.
Arguments StoredCommitID {_ E} _.
Arguments OccurredAt {_ E} _.
Arguments Event {_ E} _.

(** The interfaces. [Append] takes the clock reading of the call. *)
Class EventStore `{UuidLib} (E S : Type) := {
  ReadStream : string → GoM S (list (StoredEvent E));
  Append : Time → string → Z → UUID → list E → GoM S unit;
}.

Class StreamLister (S : Type) := ListStreams : string → GoM S (list string).

(** The records [Append] adds: contiguous versions after [expectedVersion], one
    commit identifier and one time stamp for the batch. *)
Definition new_records `{UuidLib} {E}
    (streamID : string) (expectedVersion : Z) (commitID : UUID) (now : Time)
    (events : list E) : list (StoredEvent E) :=
  imap (λ i e, mkStoredEvent streamID (expectedVersion + Z.of_nat i + 1) commitID now e)
    events.

Section new_records.
Context `{UuidLib} {E : Type}.

Lemma new_records_lookup id v c now (es : list E) i r :
  new_records id v c now es !! i = Some r →
  StoredVersion r = v + Z.of_nat i + 1 ∧ es !! i = Some (Event r).
Proof.
  unfold new_records. rewrite list_lookup_imap.
  destruct (es !! i); simpl; [|done]. by intros [= <-].
Qed.

Lemma new_records_Event id v c now (es : list E) :
  Event <$> new_records id v c now es = es.
Proof.
  apply list_eq. intros i. unfold new_records.
  rewrite list_lookup_fmap, list_lookup_imap. by destruct (es !! i).
Qed.

Lemma new_records_length id v c now (es : list E) :
  length (new_records id v c now es) = length es.
Proof. apply length_imap. Qed.
End new_records.

(** The contract: reads report the stream, a successful append extends exactly
    one stream and only when the expected version is its length, a failed call
    changes no stream. *)
Class EventStoreLaws `{EventStore E St} (stream : St → string → list (StoredEvent E)) := {
  read_ok : ∀ id s l s', ReadStream id s = (Ok l, s') →
    l = stream s id ∧ ∀ id', stream s' id' = stream s id';
  read_err : ∀ id s e s', ReadStream id s = (Err e, s') →
    errors_Is e ErrAggregateNotFound = false ∧ ∀ id', stream s' id' = stream s id';
  read_no_panic : ∀ id s m s', ReadStream id s ≠ (Panic m, s');
  append_ok : ∀ now id v c es s s', Append now id v c es s = (Ok tt, s') →
    v = Z.of_nat (length (stream s id)) ∧
    (∃ at_, stream s' id = stream s id ++ new_records id v c at_ es) ∧
    ∀ id', id' ≠ id → stream s' id' = stream s id';
  append_err : ∀ now id v c es s e s', Append now id v c es s = (Err e, s') →
    ∀ id', stream s' id' = stream s id';
  append_no_panic : ∀ now id v c es s m s', Append now id v c es s ≠ (Panic m, s');
}.

(** A prefix without the characters that a SQL [LIKE] pattern reads specially. *)
Definition plain_char (c : ascii) : bool :=
  negb (bool_decide (c = "%"%char) || bool_decide (c = "_"%char) || bool_decide (c = "\"%char)).
Fixpoint plain (s : string) : bool :=
  match s with EmptyString => true | String c s => plain_char c && plain s end.

(** A lister finds every stream under a plain prefix that holds an event, and
    changes none. *)
Class StreamListerLaws `{EventStore E St} (lister : StreamLister St)
    (stream : St → string → list (StoredEvent E)) := {
  list_streams : ∀ p s r s', ListStreams p s = (r, s') → ∀ id, stream s' id = stream s id;
  list_complete : ∀ p s l s', plain p = true → ListStreams p s = (Ok l, s') →
    ∀ id, GoStrings.HasPrefix id (p +:+ "-")%string = true → stream s id ≠ [] → id ∈ l;
  list_sound : ∀ p s l s', plain p = true → ListStreams p s = (Ok l, s') →
    ∀ id, id ∈ l → GoStrings.HasPrefix id (p +:+ "-")%string = true;
  list_no_panic : ∀ p s m s', ListStreams p s ≠ (Panic m, s');
}.

(** ** [InMemoryEventStore] *)
Module InMemory.
Section store.
Context `{UuidLib} {E : Type} `{!DomainEvent E}.

Record InMemoryEventStore := mkStore {
  streams : gmap string (list (StoredEvent E));
  appended : list E;
}.

Definition NewInMemoryEventStore : InMemoryEventStore := mkStore ∅ [].

(** Go's [s.streams[streamID]]: the nil slice when the key is absent. *)
Definition stream_of (s : InMemoryEventStore) (streamID : string)
    : list (StoredEvent E) :=
  default [] (streams s !! streamID).

Definition ReadStream_mem (streamID : string)
    : GoM InMemoryEventStore (list (StoredEvent E)) :=
  gets (λ s, stream_of s streamID).

(** The [for i, event := range events] loop of [Append]: the stream and the
    appended log grow together. *)
Fixpoint append_loop (streamID : string) (expectedVersion : Z) (commitID : UUID)
    (now : Time) (i : Z) (events : list E)
    (stream : list (StoredEvent E)) (appended : list E)
    : list (StoredEvent E) * list E :=
  match events with
  | [] => (stream, appended)
  | event :: events =>
      append_loop streamID expectedVersion commitID now (i + 1) events
        (stream ++ [mkStoredEvent streamID (expectedVersion + i + 1) commitID now event])
        (appended ++ [event])
  end.

Definition Append_mem (now : Time) (streamID : string) (expectedVersion : Z)
    (commitID : UUID) (events : list E) : GoM InMemoryEventStore unit := λ s,
  let stream := stream_of s streamID in
  let len := Z.of_nat (length stream) in
  if negb (len =? expectedVersion) then
    (Err (Errorf ("stream " +:+ streamID +:+ " is at version " +:+ pretty len
                  +:+ ", expected " +:+ pretty expectedVersion)%string ErrConcurrency), s)
  else
    let '(stream, appended) :=
      append_loop streamID expectedVersion commitID now 0 events stream (appended s) in
    (Ok tt, mkStore (<[streamID := stream]> (streams s)) appended).

(** Go iterates the map in an unspecified order and sorts the result. *)
Definition ListStreams_mem (streamPrefix : string) : GoM InMemoryEventStore (list string) :=
  gets (λ s, merge_sort String.le
    (filter (λ id, GoStrings.HasPrefix id (streamPrefix +:+ "-")%string = true)
      (map_to_list (streams s)).*1)).

(** [Seed]: [len(stream)] is read inside the loop, after the previous
    iterations extended [stream]. *)
Fixpoint seed_loop (streamID : string) (i : Z) (events : list E)
    (stream : list (StoredEvent E)) : list (StoredEvent E) :=
  match events with
  | [] => stream
  | event :: events =>
      seed_loop streamID (i + 1) events
        (stream ++ [mkStoredEvent streamID (Z.of_nat (length stream) + i + 1)
                      (CommitID event) 0 event])
  end.

Definition Seed (streamID : string) (events : list E) (s : InMemoryEventStore)
    : InMemoryEventStore :=
  mkStore (<[streamID := seed_loop streamID 0 events (stream_of s streamID)]> (streams s))
    (appended s).

Definition Appended (s : InMemoryEventStore) : list E := appended s.

#[global] Instance InMemory_EventStore : EventStore E InMemoryEventStore := {
  ReadStream := ReadStream_mem; Append := Append_mem }.
#[global] Instance InMemory_StreamLister : StreamLister InMemoryEventStore :=
  ListStreams_mem.

(** *** What the operations do *)

Lemma append_loop_spec id v c now k events stream log :
  append_loop id v c now k events stream log
  = (stream ++ new_records id (v + k) c now events, log ++ events).
Proof.
  revert k stream log. induction events as [|e es IH]; intros k stream log; simpl.
  { by rewrite !app_nil_r. }
  rewrite IH, <- !app_assoc. unfold new_records. simpl. f_equal. f_equal. f_equal.
  - f_equal. lia.
  - apply imap_ext. intros i x _. simpl. f_equal. lia.
Qed.

(** The whole of [Append]: a version conflict changes nothing; otherwise the
    batch lands at the end of its stream with the next version numbers. *)
Lemma Append_mem_spec now id v c events s :
  Append now id v c events s =
  if Z.of_nat (length (stream_of s id)) =? v then
    (Ok tt, mkStore (<[id := stream_of s id ++ new_records id v c now events]> (streams s))
              (appended s ++ events))
  else (Err (Errorf ("stream " +:+ id +:+ " is at version "
               +:+ pretty (Z.of_nat (length (stream_of s id)))
               +:+ ", expected " +:+ pretty v)%string ErrConcurrency), s).
Proof.
  unfold Append, InMemory_EventStore, Append_mem.
  destruct (_ =? v) eqn:E1; simpl; [|done].
  rewrite append_loop_spec. by rewrite Z.add_0_r.
Qed.

Lemma stream_of_insert s id id' l log :
  stream_of (mkStore (<[id := l]> (streams s)) log) id'
  = if decide (id = id') then l else stream_of s id'.
Proof.
  unfold stream_of. simpl. case_decide; subst.
  - by rewrite lookup_insert_eq.
  - by rewrite lookup_insert_ne.
Qed.

#[global] Instance InMemory_laws : EventStoreLaws stream_of.
Proof.
  split.
  - intros id s l s' [= <- <-]. done.
  - intros id s e s' [=].
  - intros id s m s' [=].
  - intros now id v c es s s'. rewrite Append_mem_spec.
    destruct (Z.eqb_spec (Z.of_nat (length (stream_of s id))) v); [|done].
    intros [= <-]. split; [done|]. split.
    + exists now. by rewrite stream_of_insert, decide_True.
    + intros id' Hne. by rewrite stream_of_insert, decide_False.
  - intros now id v c es s e s'. rewrite Append_mem_spec.
    destruct (_ =? v); [done|]. by intros [= _ <-].
  - intros now id v c es s m s'. rewrite Append_mem_spec. by destruct (_ =? v).
Qed.

Lemma ListStreams_mem_spec p s :
  ∃ l, ListStreams p s = (Ok l, s) ∧ Sorted String.le l ∧ NoDup l ∧
    ∀ id, id ∈ l ↔ GoStrings.HasPrefix id (p +:+ "-")%string = true ∧
                     is_Some (streams s !! id).
Proof.
  eexists. split; [reflexivity|]. split; [apply Sorted_merge_sort; apply _|].
  split.
  - rewrite merge_sort_Permutation. apply NoDup_filter, NoDup_fst_map_to_list.
  - intros id. rewrite merge_sort_Permutation, list_elem_of_filter.
    apply and_iff_compat_l. rewrite list_elem_of_fmap. split.
    + intros ([k x] & -> & Hk%elem_of_map_to_list). by exists x.
    + intros [x Hx]. exists (id, x). split; [done|]. by apply elem_of_map_to_list.
Qed.

#[global] Instance InMemory_lister_laws : StreamListerLaws InMemory_StreamLister stream_of.
Proof.
  split.
  - intros p s r s'. destruct (ListStreams_mem_spec p s) as (l & -> & _). by intros [= _ <-].
  - intros p s l s' _. destruct (ListStreams_mem_spec p s) as (l' & -> & _ & _ & Hl).
    intros [= <- <-] id Hp Hne. apply Hl. split; [done|]. unfold stream_of in Hne.
    destruct (streams s !! id); [done|by destruct Hne].
  - intros p s l s' _. destruct (ListStreams_mem_spec p s) as (l' & -> & _ & _ & Hl).
    intros [= <- <-] id Hin. by apply Hl in Hin as [? _].
  - intros p s m s'. by destruct (ListStreams_mem_spec p s) as (l & -> & _).
Qed.

(** *** Well-formed stores: every stream carries versions 1, 2, 3, ... *)
Definition versions_contiguous (l : list (StoredEvent E)) : Prop :=
  ∀ i r, l !! i = Some r → StoredVersion r = Z.of_nat i + 1.

Definition store_wf (s : InMemoryEventStore) : Prop :=
  ∀ id, versions_contiguous (stream_of s id).

Lemma versions_contiguous_app id c now es l :
  versions_contiguous l →
  versions_contiguous (l ++ new_records id (Z.of_nat (length l)) c now es).
Proof.
  intros Hl i r [Hi|[Hlen Hi]]%lookup_app_Some; [by apply Hl|].
  apply new_records_lookup in Hi as [-> _]. lia.
Qed.

End store.
Arguments InMemoryEventStore {_} E.
End InMemory.
