(* ===== verification/World.v ===== *)
(** * The world a handler runs in

  What a message handler can touch: its module's event store, the service
  bus, the clock and the identifier generator. *)
From S2P Require Import Prelude Errors Kernel.
#[local] Open Scope Z_scope.

Record World (St B : Type) := mkWorld {
  w_store : St;
  w_bus : B;
  w_now : Time;
  w_minted : nat;
}.
Arguments mkWorld {St B} _ _ _ _.
Arguments w_store {St B} _.
Arguments w_bus {St B} _.
Arguments w_now {St B} _.
Arguments w_minted {St B} _.

Section world.
Context `{UuidLib} {St B : Type}.
Implicit Types w : World St B.

Definition put_store (s : St) w : World St B :=
  mkWorld s (w_bus w) (w_now w) (w_minted w).
Definition put_bus (b : B) w : World St B :=
  mkWorld (w_store w) b (w_now w) (w_minted w).

Definition on_store {A} (m : GoM St A) : GoM (World St B) A := zoom w_store put_store m.
Definition on_bus {A} (m : GoM B A) : GoM (World St B) A := zoom w_bus put_bus m.

(** [time.Now()] and [uuid.New()]. *)
Definition time_Now : GoM (World St B) Time := gets w_now.
Definition uuid_New_ : GoM (World St B) UUID := λ w,
  (Ok (uuid_New (w_minted w)),
   mkWorld (w_store w) (w_bus w) (w_now w) (S (w_minted w))).

Lemma on_store_inv {A} (m : GoM St A) w r w' :
  on_store m w = (r, w') →
  ∃ s', m (w_store w) = (r, s') ∧ w' = put_store s' w.
Proof. unfold on_store, zoom. destruct (m _) as [? s']. intros [= <- <-]. eauto. Qed.

Lemma on_bus_inv {A} (m : GoM B A) w r w' :
  on_bus m w = (r, w') →
  ∃ b', m (w_bus w) = (r, b') ∧ w' = put_bus b' w.
Proof. unfold on_bus, zoom. destruct (m _) as [? b']. intros [= <- <-]. eauto. Qed.

(** Bus calls, however they end, leave the store alone. *)
Lemma for_each_on_bus_store {A} (xs : list A) (f : A → GoM B unit) w r w' :
  for_each xs (λ x, on_bus (f x)) w = (r, w') → w_store w' = w_store w.
Proof.
  intros Hf. pattern w'. eapply for_each_invariant; [|exact Hf|done].
  intros x w1 r1 w2 (b & _ & ->)%on_bus_inv. done.
Qed.
End world.
