(* ===== verification/Repository.v ===== *)
(** * The event-store repository ([internal/muflone/repository.go])

  [GetByID] rebuilds an aggregate by replaying its stream, [Save] appends the
  uncommitted events under an optimistic-concurrency check and then publishes
  them. The theorems hold for every event store that keeps [EventStoreLaws]
  and every aggregate that keeps [AggregateLaws]. *)
From S2P Require Import Prelude Errors Kernel Aggregate EventStore World.
#[local] Open Scope Z_scope.

Section repository.
Context `{UuidLib} {E A St B : Type} `{!EventStore E St, !Aggregate E A}.

(** The struct; [publisher] is nil-able. The store is the interface
    instance. *)
Record EventStoreRepository := NewEventStoreRepository {
  factory : A;
  streamName : string;
  publisher : option (E → GoM B unit);
}.

(** [r.streamName + "-" + id.String()]. *)
Definition stream (r : EventStoreRepository) (id : UUID) : string :=
  (streamName r +:+ "-" +:+ uuid_String id)%string.

(** The aggregate a list of events rebuilds. *)
Definition replay (r : EventStoreRepository) (events : list E) : A :=
  ApplyAll events (factory r).

Definition GetByID (r : EventStoreRepository) (id : UUID) : GoM (World St B) A :=
  stored ← on_store (ReadStream (stream r id));
  if Z.of_nat (length stored) =? 0 then
    throw (Errorf (streamName r +:+ "/" +:+ uuid_String id)%string ErrAggregateNotFound)
  else
    mret (foldl (λ aggregate record, ApplyEvent (Event record) aggregate)
            (factory r) stored).

(** [if r.publisher != nil { for _, event := range uncommitted { ... } }]. *)
Definition publish_all (r : EventStoreRepository) (uncommitted : list E)
    : GoM (World St B) unit :=
  match publisher r with
  | Some publish => for_each uncommitted (λ event, on_bus (publish event))
  | None => mret tt
  end.

(** [Save]; the returned aggregate is the caller's object after the call. *)
Definition Save (r : EventStoreRepository) (aggregate : A) (commitID : UUID)
    : GoM (World St B) A :=
  let uncommitted := UncommittedEvents aggregate in
  if Z.of_nat (length uncommitted) =? 0 then mret aggregate
  else
    let expectedVersion := Version aggregate - Z.of_nat (length uncommitted) in
    now ← time_Now;
    _ ← on_store (Append now (stream r (ID aggregate)) expectedVersion commitID uncommitted);
    _ ← publish_all r uncommitted;
    mret (ClearUncommittedEvents aggregate).
End repository.
Arguments EventStoreRepository E A B : clear implicits.
Arguments NewEventStoreRepository {E A B} _ _ _.
Arguments factory {E A B} _.
Arguments streamName {E A B} _.
Arguments publisher {E A B} _.

Section facts.
Context `{UuidLib} {E A St B : Type} `{!EventStore E St, !Aggregate E A}.
Context (view : St → string → list (StoredEvent E)) `{!EventStoreLaws view}.
Context `{!AggregateLaws E A}.
Implicit Types (r : EventStoreRepository E A B) (w : World St B) (a : A).

(** The domain events of an aggregate's stream. *)
Definition history r w (id : UUID) : list E := Event <$> view (w_store w) (stream r id).

Lemma stream_inj r id id' : stream r id = stream r id' → id = id'.
Proof.
  unfold stream. intros E1. apply GoStrings.app_inj_l, GoStrings.app_inj_l in E1.
  by apply (inj uuid_String) in E1.
Qed.

(** Whether a stream belongs to an aggregate of this repository. *)
#[global] Instance stream_dec r sid : Decision (∃ id, sid = stream r id).
Proof.
  destruct (GoStrings.CutPrefix sid (streamName r +:+ "-")%string) as [rest|] eqn:Hc.
  - destruct (uuid_Parse rest) as [id|] eqn:Hp.
    + destruct (decide (uuid_String id = rest)) as [Hs|Hs].
      * left. exists id. apply GoStrings.CutPrefix_Some in Hc. unfold stream.
        by rewrite Hc, Hs, <- GoStrings.app_assoc.
      * right. intros [id' ->]. apply Hs. unfold stream in Hc.
        rewrite GoStrings.app_assoc, GoStrings.CutPrefix_app in Hc. injection Hc as <-.
        rewrite uuid_Parse_String in Hp. by injection Hp as ->.
    + right. intros [id' ->]. unfold stream in Hc.
      rewrite GoStrings.app_assoc, GoStrings.CutPrefix_app in Hc. injection Hc as <-.
      by rewrite uuid_Parse_String in Hp.
  - right. intros [id' ->]. unfold stream in Hc.
    by rewrite GoStrings.app_assoc, GoStrings.CutPrefix_app in Hc.
Defined.

Lemma replay_fold r (l : list (StoredEvent E)) :
  foldl (λ a record, ApplyEvent (Event record) a) (factory r) l
  = replay r (Event <$> l).
Proof.
  unfold replay, ApplyAll. generalize (factory r).
  induction l as [|x l IH]; intros a; simpl; [done | apply IH].
Qed.

Lemma history_nil r w id :
  history r w id = [] ↔ Z.of_nat (length (view (w_store w) (stream r id))) = 0.
Proof. unfold history. destruct (view _ _); simpl; split; try done; lia. Qed.

(** What a call that only reads leaves behind. *)
Definition same_streams (w w' : World St B) : Prop :=
  ∀ sid, view (w_store w') sid = view (w_store w) sid.

(** [GetByID], case by case: the replayed aggregate of a non-empty stream;
    [ErrAggregateNotFound] exactly on an empty stream; any other error comes
    from the store. No stream and no bus changes. *)
Lemma GetByID_spec r id w res w' :
  GetByID r id w = (res, w') →
  same_streams w w' ∧ w_bus w' = w_bus w ∧
  w_now w' = w_now w ∧ w_minted w' = w_minted w ∧
  match res with
  | Ok a => history r w id ≠ [] ∧ a = replay r (history r w id)
  | Err e => errors_Is e ErrAggregateNotFound = true → history r w id = []
  | Panic _ => False
  end.
Proof.
  unfold GetByID, mbind, GoM_bind.
  destruct (on_store _ w) as [rs w1] eqn:E1. apply on_store_inv in E1 as (s' & E1 & ->).
  destruct rs as [l|e|m].
  - apply read_ok in E1 as [-> Hs]. destruct (Z.eqb_spec
      (Z.of_nat (length (view (w_store w) (stream r id)))) 0) as [Hz|Hz];
      intros [= <- <-]; repeat (split; [done|]).
    + intros _. by apply history_nil.
    + split; [by rewrite history_nil|]. by rewrite replay_fold.
  - intros [= <- <-]. apply read_err in E1 as [He Hs].
    repeat (split; [done|]). rewrite He. discriminate.
  - by apply read_no_panic in E1.
Qed.

(** An aggregate that was loaded from a stream and then raised [es]. *)
Definition loaded_and_raised r (old : list E) (es : list E) : A :=
  RaiseAll es (replay r old).

(** The factory gives a blank aggregate: version 0, nothing uncommitted. *)
Definition blank_factory r : Prop :=
  Version (factory r) = 0 ∧ UncommittedEvents (factory r) = [] ∧
  ClearUncommittedEvents (factory r) = factory r.

Lemma clear_loaded_and_raised r old es :
  blank_factory r →
  ClearUncommittedEvents (loaded_and_raised r old es) = replay r (old ++ es).
Proof.
  intros (_ & _ & Hc). unfold loaded_and_raised, replay.
  rewrite Clear_RaiseAll, ApplyAll_app. f_equal.
  generalize (factory r) Hc. induction old as [|e old IH]; intros f Hf; [done|].
  unfold ApplyAll in *. simpl. apply IH.
  by rewrite Clear_ApplyEvent, Hf.
Qed.

Lemma expected_version r old es :
  blank_factory r →
  Version (loaded_and_raised r old es) - Z.of_nat (length es) = Z.of_nat (length old).
Proof.
  intros (Hv & _ & _). unfold loaded_and_raised, replay.
  rewrite Version_RaiseAll, Version_ApplyAll, Hv. lia.
Qed.

Lemma uncommitted_raised r old es :
  blank_factory r → UncommittedEvents (loaded_and_raised r old es) = es.
Proof.
  intros (_ & Hu & _). unfold loaded_and_raised, replay.
  by rewrite UncommittedEvents_RaiseAll, UncommittedEvents_ApplyAll, Hu.
Qed.
Lemma publish_all_store r es w res w' :
  publish_all r es w = (res, w') → w_store w' = w_store w.
Proof.
  unfold publish_all. destruct (publisher r).
  - apply for_each_on_bus_store.
  - by intros [= _ <-].
Qed.

(** The three ways [Save] ends: nothing to save; the append went through (and
    then the publisher either delivered every event or failed); the append
    was refused, in which case nothing but the store's own state moved. *)
Lemma Save_cases r a c w res w' :
  Save r a c w = (res, w') →
  (UncommittedEvents a = [] ∧ res = Ok a ∧ w' = w) ∨
  (UncommittedEvents a ≠ [] ∧ ∃ s', 
     Append (w_now w) (stream r (ID a))
       (Version a - Z.of_nat (length (UncommittedEvents a))) c (UncommittedEvents a)
       (w_store w) = (Ok tt, s') ∧ w_store w' = s' ∧
     ∃ pub, publish_all r (UncommittedEvents a) (put_store s' w) = (pub, w') ∧
       res = match pub with
             | Ok _ => Ok (ClearUncommittedEvents a)
             | Err e => Err e | Panic m => Panic m
             end) ∨
  (UncommittedEvents a ≠ [] ∧ ∃ e s',
     Append (w_now w) (stream r (ID a))
       (Version a - Z.of_nat (length (UncommittedEvents a))) c (UncommittedEvents a)
       (w_store w) = (Err e, s') ∧ res = Err e ∧ w' = put_store s' w).
Proof.
  unfold Save. destruct (Z.eqb_spec (Z.of_nat (length (UncommittedEvents a))) 0) as [Hz|Hz].
  { intros [= <- <-]. left. split; [apply nil_length_inv; lia|done]. }
  assert (UncommittedEvents a ≠ []) as Hne by (intros Hu; by rewrite Hu in Hz).
  unfold time_Now. go_run.
  destruct (on_store _ w) as [ra w1] eqn:E1. apply on_store_inv in E1 as (s' & E1 & ->).
  destruct ra as [[]|e|m]; [|naive_solver|by apply append_no_panic in E1].
  intros Hrun. right. left. split; [done|]. exists s'. split; [done|].
  destruct (publish_all _ _ _) as [pub w2] eqn:E2.
  pose proof (publish_all_store _ _ _ _ _ E2) as Hst.
  destruct pub; simplify_eq; eauto 10.
Qed.

(** [Save] of an aggregate that was loaded when its stream held [old], after
    it raised [es]: it can only change that one stream, only by appending
    exactly [es], and only if the stream still holds exactly [old]. On
    success the caller's object is the aggregate the new stream replays to. *)
Lemma Save_spec r id old es c w res w' :
  blank_factory r →
  ID (loaded_and_raised r old es) = id →
  es ≠ [] →
  Save r (loaded_and_raised r old es) c w = (res, w') →
  (∀ sid, sid ≠ stream r id →
     view (w_store w') sid = view (w_store w) sid) ∧
  (history r w' id = history r w id ∧ w_bus w' = w_bus w ∧ (∃ e, res = Err e)
   ∨ length (history r w id) = length old ∧ history r w' id = history r w id ++ es ∧
     match res with Ok a => a = replay r (old ++ es) | _ => True end).
Proof.
  intros Hb Hid Hes [(Hu & _)|[(_ & s' & Ha & Hs & pub & Hp & Hres)
                              |(_ & e & s' & Ha & -> & ->)]]%Save_cases;
    rewrite ?(uncommitted_raised r old es Hb) in *; [done|..];
    rewrite Hid in Ha.
  - rewrite (expected_version r old es Hb) in Ha.
    apply append_ok in Ha as (Hlen & [at_ Hv] & Ho). split; [by rewrite Hs|].
    right. unfold history. rewrite Hs, Hv, fmap_app, new_records_Event, length_fmap.
    split; [lia|]. split; [done|].
    destruct pub; simplify_eq; try done. by apply clear_loaded_and_raised.
  - pose proof (append_err _ _ _ _ _ _ _ _ Ha) as Hv.
    split; [by intros; apply Hv|]. left. unfold history. simpl. rewrite Hv. eauto.
Qed.

(** Streams are only appended to. *)
Definition extends (w w' : World St B) : Prop :=
  ∀ sid, ∃ l, view (w_store w') sid = view (w_store w) sid ++ l.

Lemma extends_same w w' : same_streams w w' → extends w w'.
Proof. intros E1 sid. exists []. by rewrite E1, app_nil_r. Qed.

Lemma extends_trans w w' w'' : extends w w' → extends w' w'' → extends w w''.
Proof.
  intros H1 H2 sid. destruct (H1 sid) as [l1 E1], (H2 sid) as [l2 E2].
  exists (l1 ++ l2). by rewrite E2, E1, (assoc_L (++)).
Qed.

(** A stream with the events it had has the records it had. *)
Lemma extends_records r w w' id :
  extends w w' → history r w' id = history r w id →
  view (w_store w') (stream r id) = view (w_store w) (stream r id).
Proof.
  intros Hx Hh. destruct (Hx (stream r id)) as [l E1].
  apply (f_equal length) in Hh. unfold history in Hh.
  rewrite !length_fmap, E1, length_app in Hh.
  destruct l; [by rewrite E1, app_nil_r|]. simpl in Hh. lia.
Qed.

Lemma Save_extends r a c w res w' : Save r a c w = (res, w') → extends w w'.
Proof.
  intros [(_ & _ & ->)|[(_ & s' & Ha & Hs & _)|(_ & e & s' & Ha & _ & ->)]]%Save_cases.
  - by apply extends_same.
  - apply append_ok in Ha as (_ & [at_ Hv] & Ho). intros sid. rewrite Hs.
    destruct (decide (sid = stream r (ID a))) as [->|Hne]; [by eexists|].
    exists []. by rewrite Ho, app_nil_r.
  - apply extends_same. intros sid. apply (append_err _ _ _ _ _ _ _ _ Ha).
Qed.
End facts.

(** ** The contract of the repository *)
Section contract.
Context `{UuidLib} {E A St B : Type} `{!EventStore E St, !Aggregate E A}.
Context (view : St → string → list (StoredEvent E)) `{!EventStoreLaws view}.
Context `{!AggregateLaws E A}.
Implicit Types (r : EventStoreRepository E A B) (w : World St B) (a : A).

(** C18 Round trip: load an aggregate, raise any events, save it, load it
    again. If the save succeeds, the second load gives exactly the object the
    caller holds (with nothing uncommitted) or fails with an error of the
    store's own; it never reports the aggregate missing. *)
Theorem save_get_roundtrip r id a es c w0 w1 w2 w3 a' res :
  blank_factory r →
  GetByID r id w0 = (Ok a, w1) →
  ID (RaiseAll es a) = id →
  Save r (RaiseAll es a) c w1 = (Ok a', w2) →
  GetByID r id w2 = (res, w3) →
  a' = ClearUncommittedEvents (RaiseAll es a) ∧
  match res with
  | Ok b => b = a'
  | Err e => errors_Is e ErrAggregateNotFound = false
  | Panic _ => False
  end.
Proof using EventStoreLaws0 AggregateLaws0.
  intros Hb (Hs1 & _ & _ & _ & Hne & ->)%(GetByID_spec view) Hid Hsave Hget.
  change (RaiseAll es _) with (loaded_and_raised r (history view r w0 id) es) in *.
  assert (history view r w1 id = history view r w0 id) as Hh
    by (unfold history; by rewrite Hs1).
  apply (GetByID_spec view) in Hget as (_ & _ & _ & _ & Hres).
  assert (a' = replay r (history view r w0 id ++ es) ∧
          history view r w2 id = history view r w0 id ++ es) as [Ha' Hh2].
  { destruct (decide (es = [])) as [->|Hes].
    - unfold Save in Hsave. rewrite (uncommitted_raised r _ [] Hb) in Hsave.
      injection Hsave as <- <-. by rewrite app_nil_r.
    - eapply (Save_spec view) in Hsave as [_ [(_ & _ & ? & [=])|(_ & Hh2 & ->)]]; eauto.
      by rewrite Hh2, Hh. }
  split; [rewrite Ha'; symmetry; by apply clear_loaded_and_raised|].
  rewrite Hh2 in Hres. destruct res as [b|e|]; [|..|done].
  - destruct Hres as [_ ->]. by rewrite Ha'.
  - apply not_true_iff_false. intros He. apply Hres in He.
    by apply app_eq_nil in He as [? _].
Qed.

(** C22 No lost update: an aggregate loaded before somebody else appended to
    its stream cannot be saved. The save fails, no stream changes and nothing
    is published. *)
Theorem stale_save_rejected r id a es extra c w0 w1 w2 res w3 :
  blank_factory r →
  GetByID r id w0 = (Ok a, w1) →
  history view r w2 id = history view r w1 id ++ extra → extra ≠ [] →
  es ≠ [] → ID (RaiseAll es a) = id →
  Save r (RaiseAll es a) c w2 = (res, w3) →
  (∃ e, res = Err e) ∧ w_bus w3 = w_bus w2 ∧
  ∀ sid, view (w_store w3) sid = view (w_store w2) sid.
Proof using EventStoreLaws0 AggregateLaws0.
  intros Hb (Hs1 & _ & _ & _ & _ & ->)%(GetByID_spec view) Hh Hex Hes Hid Hsave.
  change (RaiseAll es _) with (loaded_and_raised r (history view r w0 id) es) in *.
  assert (history view r w1 id = history view r w0 id) as Hh01
    by (unfold history; by rewrite Hs1).
  destruct (Save_cases view _ _ _ _ _ _ Hsave)
    as [(Hu & _)|[(_ & s' & Ha & _)|(_ & e & s' & Ha & -> & ->)]].
  - by rewrite (uncommitted_raised r _ es Hb) in Hu.
  - rewrite (uncommitted_raised r _ es Hb), (expected_version r _ es Hb) in Ha.
    apply append_ok in Ha as (Hlen & _). rewrite Hid in Hlen.
    apply (f_equal length) in Hh. revert Hh. rewrite length_app, Hh01.
    unfold history at 1. rewrite length_fmap. destruct extra; [done|]. simpl. lia.
  - split; [eauto|]. split; [done|]. apply (append_err _ _ _ _ _ _ _ _ Ha).
Qed.
End contract.

(** ** The stub aggregate of [muflone_test.go], to evaluate the repository *)
Module Stub.
#[local] Existing Instance DemoUuid.lib.

Record stubEvent := mkStubEvent { stub_base : DomainEventBase; stub_Name : string }.

Record stubAggregate := mkStub { stub_root : AggregateRoot stubEvent; names : list string }.

#[global] Instance stub_event : DomainEvent stubEvent := {
  DomainEvent_Message := λ _, "test.stub_happened";
  EventBase := stub_base }.

#[global] Instance stub_aggregate : Aggregate stubEvent stubAggregate := {
  agg_root := stub_root;
  set_root r a := mkStub r (names a);
  Route e a := mkStub (root_SetID (ev_AggregateId (stub_base e)) (stub_root a))
                      (names a ++ [stub_Name e]);
}.

#[global] Instance stub_laws : AggregateLaws stubEvent stubAggregate.
Proof. by split. Qed.

Definition repo : EventStoreRepository stubEvent stubAggregate unit :=
  NewEventStoreRepository (mkStub new_root []) "Stub" None.

Definition happened (name : string) : stubEvent :=
  mkStubEvent (NewDomainEventBase "1" "c") name.

(** A world whose store already holds one event of stub [1]. *)
Definition world : World (InMemory.InMemoryEventStore stubEvent) unit :=
  mkWorld (snd (Append 7 "Stub-u1" 0 "c" [happened "first"] InMemory.NewInMemoryEventStore))
    tt 7 0.

(** Stub [1] as [GetByID] loads it from there. *)
Definition loaded : stubAggregate :=
  mkStub (mkRoot (uid "1") 1 []) ["first"].

(** The world after somebody else appended to the stub's stream. *)
Definition raced : World (InMemory.InMemoryEventStore stubEvent) unit :=
  put_store (snd (Append 8 "Stub-u1" 1 (uid "c2") [happened "other"] (w_store world))) world.

Definition more : list stubEvent := [happened "second"; happened "third"].
End Stub.

Section witnesses.
#[local] Existing Instance DemoUuid.lib.

Lemma save_get_roundtrip_witness :
  let saved := Save Stub.repo (RaiseAll Stub.more Stub.loaded) (uid "c2") Stub.world in
  let a' := ClearUncommittedEvents (RaiseAll Stub.more Stub.loaded) in
  let again := GetByID Stub.repo (uid "1") (snd saved) in
  Stub.names a' = ["first"; "second"; "third"] ∧ fst saved = Ok a' ∧
  a' = ClearUncommittedEvents (RaiseAll Stub.more Stub.loaded) ∧
  match fst again with
  | Ok b => b = a'
  | Err e => errors_Is e ErrAggregateNotFound = false
  | Panic _ => False
  end.
Proof.
  intros saved a' again. split; [reflexivity|]. split; [vm_compute; reflexivity|].
  apply (save_get_roundtrip InMemory.stream_of Stub.repo (uid "1") Stub.loaded
           Stub.more (uid "c2") Stub.world Stub.world (snd saved) (snd again) a');
    [repeat split; reflexivity | vm_compute; reflexivity | vm_compute; reflexivity
    | vm_compute; reflexivity | apply surjective_pairing].
Defined.

Lemma stale_save_rejected_witness :
  let saved := Save Stub.repo (RaiseAll Stub.more Stub.loaded) (uid "c3") Stub.raced in
  (∃ e, fst saved = Err e) ∧ w_bus (snd saved) = w_bus Stub.raced ∧
  ∀ sid, InMemory.stream_of (w_store (snd saved)) sid
         = InMemory.stream_of (w_store Stub.raced) sid.
Proof.
  intros saved.
  apply (stale_save_rejected InMemory.stream_of Stub.repo (uid "1") Stub.loaded Stub.more
           [Stub.happened "other"] (uid "c3") Stub.world Stub.world);
    [repeat split; reflexivity | vm_compute; reflexivity | vm_compute; reflexivity
    | discriminate | discriminate | vm_compute; reflexivity | apply surjective_pairing].
Defined.
End witnesses.
