(* ===== verification/Rebuild.v ===== *)
(** * Replaying an event store into a read model
    (the common part of [internal/sales/rebuild.go] and
    [internal/warehouses/rebuild.go])

    Both modules rebuild their read model with the same two loops over the
    streams of a prefix; they differ in the prefix and in the type switch that
    hands an event to its projector. *)
From S2P Require Import Prelude Errors Kernel Aggregate EventStore.
#[local] Open Scope Z_scope.

Section rebuild.
Context {U : UuidLib} {E St R : Type}.
Context `{!EventStore E St, !StreamLister St}.
Context (prefix : string) (project : E → GoM R unit).

Definition in_store {A} (m : GoM St A) : GoM (St * R) A := zoom fst (λ s w, (s, w.2)) m.
Definition in_read_model {A} (m : GoM R A) : GoM (St * R) A := zoom snd (λ r w, (w.1, r)) m.

(** The inner loop: one stream. *)
Definition rebuild_stream (streamID : string) : GoM (St * R) unit :=
  stored ← in_store (ReadStream streamID);
  for_each stored (λ record, in_read_model (project (Event record))).

Definition rebuild_streams : GoM (St * R) unit :=
  streams ← in_store (ListStreams prefix);
  for_each streams rebuild_stream.

Section facts.
Context (view : St → string → list (StoredEvent E)) `{!EventStoreLaws view}.
Context `{!StreamListerLaws StreamLister0 view}.

Lemma project_records (l : list (StoredEvent E)) (s : St) (r : R) s' r' :
  for_each l (λ record, in_read_model (project (Event record))) (s, r) = (Ok tt, (s', r')) →
  s' = s ∧ for_each (Event <$> l) project r = (Ok tt, r').
Proof.
  revert r. induction l as [|x l IH]; intros r; simpl; [by intros [= -> ->]|].
  unfold in_read_model, zoom, mbind, GoM_bind. simpl.
  destruct (project (Event x) r) as [[[]|e|m] rx]; simpl; [apply IH|done..].
Qed.

(** The loops project the concatenation of the streams. *)
Lemma rebuild_concat names s s0 r s' r' :
  (∀ n, view s0 n = view s n) →
  for_each names rebuild_stream (s0, r) = (Ok tt, (s', r')) →
  for_each (mjoin ((λ n, Event <$> view s n) <$> names)) project r = (Ok tt, r').
Proof.
  revert s0 r. induction names as [|n names IH]; intros s0 r Hs0; simpl; [by intros [= _ <-]|].
  intros ([] & [s1 r1] & H1 & H2)%bind_inv_Ok.
  unfold rebuild_stream in H1. apply bind_inv_Ok in H1 as (l & [s2 r2] & Hread & Hproj).
  unfold in_store, zoom in Hread. simpl in Hread.
  destruct (ReadStream n s0) as [rl s3] eqn:Er. injection Hread as -> -> ->.
  apply read_ok in Er as [-> Hs3]. rewrite Hs0 in Hproj.
  apply project_records in Hproj as [-> Hproj].
  rewrite for_each_app. unfold mbind, GoM_bind. rewrite Hproj.
  apply (IH s2); [|done]. intros m. by rewrite Hs3.
Qed.

(** A rebuild that succeeds projected whole streams, one after the other: only
    streams of the prefix, and all of those that hold an event. *)
Lemma rebuild_names s r s' r' :
  plain prefix = true → rebuild_streams (s, r) = (Ok tt, (s', r')) →
  ∃ names,
    for_each (mjoin ((λ n, Event <$> view s n) <$> names)) project r = (Ok tt, r') ∧
    (∀ n, n ∈ names → GoStrings.HasPrefix n (prefix +:+ "-")%string = true) ∧
    ∀ n, GoStrings.HasPrefix n (prefix +:+ "-")%string = true → view s n ≠ [] → n ∈ names.
Proof.
  intros Hplain Hr. unfold rebuild_streams in Hr.
  apply bind_inv_Ok in Hr as (names & [s1 r1] & Hlist & Hloop).
  unfold in_store, zoom in Hlist. simpl in Hlist.
  destruct (ListStreams prefix s) as [rl s2] eqn:El. injection Hlist as -> -> ->.
  exists names. split; [|split].
  - eapply (rebuild_concat names s); [|exact Hloop]. apply (list_streams _ _ _ _ El).
  - intros n. by eapply list_sound.
  - intros n. by eapply list_complete.
Qed.
End facts.
End rebuild.
