(* ===== verification/Frame.v ===== *)
(** * What a handler leaves alone

    A predicate on worlds that every primitive step keeps is kept by the whole
    handler, however it ends. The database [frame] holds the combinators; it is
    used to show that the handlers of one aggregate do not touch the streams of
    another. *)
From S2P Require Import Prelude Errors Kernel Aggregate EventStore World Repository.

Definition preserves {W A} (P : W → Prop) (m : GoM W A) : Prop :=
  ∀ w r w', m w = (r, w') → P w → P w'.

Section combinators.
Context {W : Type} (P : W → Prop).

Lemma preserves_ret {A} (a : A) : preserves P (mret a).
Proof. by intros w r w' [= _ <-]. Qed.

Lemma preserves_lift {A} (r : result A) : preserves P (lift r).
Proof. by intros w ? w' [= _ <-]. Qed.

Lemma preserves_throw {A} e : preserves P (throw e : GoM W A).
Proof. by intros w r w' [= _ <-]. Qed.

Lemma preserves_panic {A} s : preserves P (go_panic s : GoM W A).
Proof. by intros w r w' [= _ <-]. Qed.

Lemma preserves_bind {A B} (m : GoM W A) (f : A → GoM W B) :
  preserves P m → (∀ a, preserves P (f a)) → preserves P (m ≫= f).
Proof.
  intros Hm Hf w r w'. unfold mbind, GoM_bind. destruct (m w) as [ra w1] eqn:E. intros Hr Hw.
  pose proof (Hm _ _ _ E Hw). destruct ra; [by eapply Hf|by injection Hr as _ <-..].
Qed.

Lemma preserves_bind_Ok {A B} (a : A) (f : A → GoM W B) :
  preserves P (f a) → preserves P (lift (Ok a) ≫= f).
Proof. intros Hf w r w'. apply Hf. Qed.

Lemma preserves_attempt {A} (m : GoM W A) : preserves P m → preserves P (attempt m).
Proof.
  intros Hm w r w'. unfold attempt. destruct (m w) as [ra w1] eqn:E. intros Hr Hw.
  pose proof (Hm _ _ _ E Hw). destruct ra; by injection Hr as _ <-.
Qed.

Lemma preserves_for_each {A} (xs : list A) (f : A → GoM W unit) :
  (∀ x, preserves P (f x)) → preserves P (for_each xs f).
Proof. intros Hf w r w' Hr. eapply for_each_invariant; [|exact Hr]. apply Hf. Qed.
End combinators.

Create HintDb frame.
#[export] Hint Resolve preserves_ret preserves_lift preserves_throw preserves_panic
  preserves_bind preserves_attempt preserves_for_each : frame.
#[export] Hint Extern 1 (preserves _ (match ?x with _ => _ end)) => destruct x : frame.

(** Take a handler apart down to its primitive steps. *)
Ltac frame :=
  repeat match goal with
         | |- preserves _ (_ ≫= _) => apply preserves_bind; [|intros ?]
         | |- preserves _ (match ?x with _ => _ end) => destruct x
         | |- preserves _ (for_each _ _) => apply preserves_for_each; intros ?
         end; auto with frame.

(** ** The streams of other aggregates *)
Section streams.
Context {U : UuidLib} {E A St B : Type} `{!EventStore E St, !Aggregate E A, !AggregateLaws E A}.
Context (view : St → string → list (StoredEvent E)) `{!EventStoreLaws view}.
Implicit Types (w : World St B).

(** The streams in [S] hold what [content] says. *)
Definition holds_streams (S : string → Prop) (content : string → list (StoredEvent E)) w : Prop :=
  ∀ sid, S sid → view (w_store w) sid = content sid.

Context (S : string → Prop) (content : string → list (StoredEvent E)).
Abbreviation P := (holds_streams S content).

Lemma frame_on_bus {X} (m : GoM B X) : preserves P (on_bus m).
Proof. by intros w r w' (b & _ & ->)%on_bus_inv. Qed.

Lemma frame_uuid_New : preserves P uuid_New_.
Proof. by intros w r w' [= _ <-]. Qed.

Lemma frame_time_Now : preserves P time_Now.
Proof. by intros w r w' [= _ <-]. Qed.

Lemma frame_ReadStream sid : preserves P (on_store (ReadStream sid)).
Proof.
  intros w r w' (s & Hr & ->)%on_store_inv Hw id Hid. simpl. rewrite <- Hw by done.
  destruct r as [l|e|m]; [apply read_ok in Hr|apply read_err in Hr|by apply read_no_panic in Hr];
    by destruct Hr as [_ ->].
Qed.

Lemma frame_ListStreams `{!StreamLister St, !StreamListerLaws StreamLister0 view} p :
  preserves P (on_store (ListStreams p)).
Proof.
  intros w r w' (s & Hr & ->)%on_store_inv Hw id Hid. simpl. rewrite <- Hw by done.
  by apply (list_streams _ _ _ _ Hr).
Qed.

Lemma frame_GetByID (r : EventStoreRepository E A B) id : preserves P (GetByID r id).
Proof.
  unfold GetByID. apply preserves_bind; [apply frame_ReadStream|]. intros l. frame.
Qed.

(** Saving touches the one stream of the aggregate. *)
Lemma frame_Save (r : EventStoreRepository E A B) a c :
  ¬ S (stream r (ID a)) → preserves P (Save r a c).
Proof.
  intros Hn w res w' Hs Hw sid Hsid. rewrite <- Hw by done.
  assert (sid ≠ stream r (ID a)) as Hne by (by intros ->).
  apply (Save_cases view) in Hs as
    [(_ & _ & ->)|[(_ & s' & Ha & <- & _)|(_ & e & s' & Ha & _ & ->)]]; [done| |].
  - apply append_ok in Ha as (_ & _ & Ho). by apply Ho.
  - simpl. by apply (append_err _ _ _ _ _ _ _ _ Ha).
Qed.

(** ** What a step may add *)

(** The streams hold what [content] says and events in [Q]. *)
Definition adds_only (Q : E → Prop) (content : string → list E) w : Prop :=
  ∀ sid e, e ∈ Event <$> view (w_store w) sid → Q e ∨ e ∈ content sid.

Lemma adds_same Q content' w w' :
  (∀ sid, view (w_store w') sid = view (w_store w) sid) →
  adds_only Q content' w → adds_only Q content' w'.
Proof. intros Hv Hw sid e. rewrite Hv. apply Hw. Qed.

Lemma adds_on_bus Q content' {X} (m : GoM B X) : preserves (adds_only Q content') (on_bus m).
Proof. by intros w r w' (b & _ & ->)%on_bus_inv. Qed.

Lemma adds_uuid_New Q content' : preserves (adds_only Q content') uuid_New_.
Proof. by intros w r w' [= _ <-]. Qed.

Lemma adds_ReadStream Q content' sid : preserves (adds_only Q content') (on_store (ReadStream sid)).
Proof.
  intros w r w' (s & Hr & ->)%on_store_inv. apply adds_same. simpl.
  destruct r as [l|e|m]; [apply read_ok in Hr|apply read_err in Hr|by apply read_no_panic in Hr];
    by destruct Hr as [_ Hr].
Qed.

Lemma adds_GetByID Q content' (r : EventStoreRepository E A B) id :
  preserves (adds_only Q content') (GetByID r id).
Proof. unfold GetByID. apply preserves_bind; [apply adds_ReadStream|]. intros l. frame. Qed.

Lemma adds_ListStreams Q content' `{!StreamLister St, !StreamListerLaws StreamLister0 view} p :
  preserves (adds_only Q content') (on_store (ListStreams p)).
Proof.
  intros w r w' (s & Hr & ->)%on_store_inv. apply adds_same. simpl.
  by apply (list_streams _ _ _ _ Hr).
Qed.

Lemma adds_Save (r : EventStoreRepository E A B) Q content' a c :
  Forall Q (UncommittedEvents a) → preserves (adds_only Q content') (Save r a c).
Proof.
  intros HQ w res w' Hs Hw.
  apply (Save_cases view) in Hs as
    [(_ & _ & ->)|[(_ & s' & Ha & <- & _)|(_ & e & s' & Ha & _ & ->)]]; [done| |].
  - apply append_ok in Ha as (_ & [at_ Hv] & Ho). intros sid e.
    destruct (decide (sid = stream r (ID a))) as [->|Hne]; [|rewrite Ho by done; apply Hw].
    rewrite Hv, fmap_app, new_records_Event, elem_of_app. intros [He|He]; [by apply Hw|].
    left. by eapply Forall_forall in HQ.
  - eapply adds_same; [|exact Hw]. intros sid. simpl. by apply (append_err _ _ _ _ _ _ _ _ Ha).
Qed.
End streams.
#[export] Hint Resolve frame_on_bus frame_uuid_New frame_time_Now frame_ReadStream
  frame_ListStreams frame_GetByID adds_on_bus adds_uuid_New adds_ReadStream adds_GetByID : frame.
