(* ===== verification/Bus.v ===== *)
(** * The service bus ([internal/muflone/servicebus.go]) and the retry policy
    ([internal/muflone/retry.go])

  The wire ([watermill]'s publisher) and the JSON codec are interfaces; the
  bus is the code between them: topics, marshalling, the subscription table,
  the handlers that unmarshal and call the module code, and the retry
  middleware around every handler. *)
From S2P Require Import Prelude Errors Kernel.
#[local] Open Scope Z_scope.

(** ** The wire and the codec *)

(** [message.Publisher]: publishing a payload on a topic succeeds, after which
    the message is on the wire, or fails (possibly after the wire accepted
    it). [published] is the wire's history. *)
Class WirePublisher (B P : Type) := {
  Publish : string → P → GoM B unit;
  published : B → list (string * P);
}.

Class WirePublisherLaws `{WirePublisher B P} := {
  publish_ok : ∀ t p b b', Publish t p b = (Ok tt, b') →
    published b' = published b ++ [(t, p)];
  publish_err : ∀ t p b e b', Publish t p b = (Err e, b') →
    published b' = published b ∨ published b' = published b ++ [(t, p)];
  publish_no_panic : ∀ t p b m b', Publish t p b ≠ (Panic m, b');
}.
Arguments WirePublisherLaws B P {_}.

(** [json.Marshal] of a value of type [M], [json.Unmarshal] into one. *)
Class JsonMarshal (M P : Type) := json_Marshal : M → result P.
Class JsonUnmarshal (M P : Type) := json_Unmarshal : P → result M.

(** Marshalling never panics, and what was marshalled unmarshals to itself. *)
Class JsonCodec (M P : Type) `{JsonMarshal M P, JsonUnmarshal M P} := {
  json_roundtrip : ∀ (m : M) (p : P), json_Marshal m = Ok p → json_Unmarshal p = Ok m;
  json_marshal_no_panic : ∀ (m : M) s, json_Marshal m ≠ (Panic s : result P);
}.

(** What can be encoded. *)
Definition writable `{JsonMarshal M P} (m : M) : Prop := ∃ p : P, json_Marshal m = Ok p.

(** ** Topics *)
Definition commandTopicPrefix : string := "commands.".
Definition domainEventTopicPrefix : string := "events.".
Definition integrationEventTopicPrefix : string := "integrationevents.".
Definition DeadLetterTopic : string := "brewup.dead_letter".

Section publishing.
Context {B P : Type} `{!WirePublisher B P}.

(** [ServiceBus.publish]; the tracing span and the metadata are not part of
    the model. *)
Definition publish `{JsonMarshal M P} (topic : string) (msg : M) : GoM B unit :=
  payload ← lift (result_wrap ("marshal " +:+ topic)%string (json_Marshal msg));
  Publish topic payload.

Definition Send `{Message C, JsonMarshal C P} (command : C) : GoM B unit :=
  publish (commandTopicPrefix +:+ MessageName command)%string command.

Definition PublishDomainEvent `{Message E, JsonMarshal E P} (event : E) : GoM B unit :=
  publish (domainEventTopicPrefix +:+ MessageName event)%string event.

(** Which of the two publishes domain events: the repositories, as they save
    ([direct]), or the outbox relay. *)
Class Publication := direct : bool.

(** [var eventPublisher muflone.DomainEventPublisher = bus], nil in durable mode. *)
Definition eventPublisher `{!Publication} `{Message E, !JsonMarshal E P}
    : option (E → GoM B unit) :=
  if direct then Some PublishDomainEvent else None.

Definition PublishIntegrationEvent `{Message E, JsonMarshal E P} (event : E)
    : GoM B unit :=
  publish (integrationEventTopicPrefix +:+ MessageName event)%string event.
End publishing.

(** ** Subscriptions *)
Section subscriptions.
Context {W P : Type}.

(** [pendingSubscription]; a handler runs in the world [W]. *)
Record pendingSubscription := mkSubscription {
  sub_name : string;
  sub_topic : string;
  sub_handler : P → GoM W unit;
}.

(** [subscribe]: appended to the pending list (tracing aside). *)
Definition subscribe (name topic : string) (handler : P → GoM W unit)
    (pending : list pendingSubscription) : list pendingSubscription :=
  pending ++ [mkSubscription name topic handler].

(** [NewServiceBusWithTransport] registers the dead-letter monitor first. *)
Definition NewServiceBus : list pendingSubscription :=
  subscribe "muflone.dead_letter_monitor" DeadLetterTopic (λ _, mret tt) [].

(** [RegisterCommandHandler[C]]: the prototype's [MessageName] is the
    argument [name]. *)
Definition RegisterCommandHandler `{JsonUnmarshal C P} (name : string)
    (Handle : C → GoM W unit) (pending : list pendingSubscription) :=
  let topic := (commandTopicPrefix +:+ name)%string in
  subscribe ("handler." +:+ name)%string topic
    (λ payload,
       command ← lift (result_wrap ("unmarshal command " +:+ topic)%string
                         (json_Unmarshal payload));
       Handle command) pending.

Definition RegisterDomainEventHandler `{JsonUnmarshal E P} (prototype name : string)
    (handler : E → GoM W unit) (pending : list pendingSubscription) :=
  let topic := (domainEventTopicPrefix +:+ prototype)%string in
  subscribe name topic
    (λ payload,
       event ← lift (result_wrap ("unmarshal event " +:+ topic)%string
                       (json_Unmarshal payload));
       handler event) pending.

Definition SubscribeIntegrationEvent (name messageName : string)
    (handler : P → GoM W unit) (pending : list pendingSubscription) :=
  subscribe name (integrationEventTopicPrefix +:+ messageName)%string handler pending.

(** The subscriptions a message on [topic] reaches: one copy each. *)
Definition subscribers (topic : string) (pending : list pendingSubscription) :=
  filter (λ s, sub_topic s = topic) pending.
End subscriptions.
Arguments pendingSubscription W P : clear implicits.

(** ** Retries *)

Definition genericRetries : Z := 3.
Definition concurrencyRetries : Z := 12.
Definition baseRetryInterval : Z := 50 * Millisecond.
Definition maxRetryInterval : Z := Second.

(** [interval := baseRetryInterval << attempt], capped; the shift is on a
    64-bit [time.Duration] and may overflow. *)
Definition retryBackoff (attempt : nat) : Z :=
  let interval := Int.shl baseRetryInterval attempt in
  if (interval >? maxRetryInterval) || (interval <=? 0) then maxRetryInterval
  else interval.

Section retry.
Context {W A : Type}.
(** [done attempt]: the message's context is cancelled when the wait after
    that attempt is reached; [sleep] is the passage of a duration. *)
Context (done_ : nat → bool) (sleep : Z → W → W).

Definition retry_budget (err : error) : Z :=
  if errors_Is err ErrConcurrency then concurrencyRetries else genericRetries.

(** The loop of [retryMiddleware]. [fuel] bounds the recursion; the loop
    needs at most [concurrencyRetries + 1] iterations ([retry_fuel]). *)
Fixpoint retry_loop (fuel : nat) (attempt : nat) (h : GoM W A) : GoM W A := λ w,
  match h w with
  | (Err err, w') =>
      if Z.of_nat attempt >=? retry_budget err then (Err err, w')
      else if done_ attempt then (Err err, w')
      else match fuel with
           | O => (Err err, w')
           | S fuel => retry_loop fuel (S attempt) h (sleep (retryBackoff attempt) w')
           end
  | r => r
  end.

Definition retry_fuel : nat := 12.

Definition retryMiddleware (h : GoM W A) : GoM W A := retry_loop retry_fuel 0 h.
End retry.

(** ** What the retry policy does *)

(** The backoff is [min(50ms * 2^attempt, 1s)] for every attempt: the overflow
    of the shift never shows. *)
Lemma shl_base_small attempt : (attempt < 5)%nat →
  Int.shl baseRetryInterval attempt = baseRetryInterval * 2 ^ Z.of_nat attempt.
Proof. intros H. do 5 (destruct attempt; [reflexivity|]). lia. Qed.

Lemma shl_base_large attempt : (5 ≤ attempt)%nat →
  maxRetryInterval < Int.shl baseRetryInterval attempt ∨
  Int.shl baseRetryInterval attempt ≤ 0.
Proof.
  intros H. destruct (decide (attempt < 64)%nat) as [Hlt|Hge].
  - pose proof (proj1 (forallb_forall (λ n, (maxRetryInterval <? Int.shl baseRetryInterval n)
        || (Int.shl baseRetryInterval n <=? 0)) (seq 5 59)) ltac:(vm_compute; reflexivity)
        attempt) as Hf. rewrite in_seq in Hf. specialize (Hf ltac:(lia)). lia.
  - right. unfold Int.shl, Int.wrap. rewrite Z.shiftl_mul_pow2 by lia.
    replace (Z.of_nat attempt) with (64 + (Z.of_nat attempt - 64)) by lia.
    rewrite Z.pow_add_r by lia.
    replace (baseRetryInterval * (2 ^ 64 * 2 ^ (Z.of_nat attempt - 64)) + 2 ^ 63)
      with (2 ^ 63 + baseRetryInterval * 2 ^ (Z.of_nat attempt - 64) * 2 ^ 64) by lia.
    rewrite Z.mod_add by lia. rewrite Z.mod_small by lia. lia.
Qed.

(** The wait before retry [attempt] is 50ms doubled [attempt] times, capped
    at one second, for every [attempt]: the overflow of the 64-bit shift (which
    starts at attempt 38) is always caught by the cap. *)
Theorem retryBackoff_spec attempt :
  retryBackoff attempt = Z.min (baseRetryInterval * 2 ^ Z.of_nat attempt) maxRetryInterval.
Proof.
  unfold retryBackoff. destruct (decide (attempt < 5)%nat) as [Hs|Hl].
  - rewrite shl_base_small by done. do 5 (destruct attempt; [reflexivity|]). lia.
  - pose proof (shl_base_large attempt ltac:(lia)) as Hb.
    assert (maxRetryInterval ≤ baseRetryInterval * 2 ^ Z.of_nat attempt) as Hmin.
    { transitivity (baseRetryInterval * 2 ^ 5); [done|].
      apply Z.mul_le_mono_nonneg_l; [done|]. apply Z.pow_le_mono_r; lia. }
    rewrite Z.min_r by done. case_match; [done|]. lia.
Qed.

Section retry_spec.
Context {W A : Type} (done_ : nat → bool) (sleep : Z → W → W) (h : GoM W A).

(** The policy as a relation: starting at attempt [k] in world [w], the
    handler is called [n] times and the message ends as [out]. *)
Inductive retried : nat → W → nat → result A * W → Prop :=
| retried_stop k w r w' :
    h w = (r, w') →
    (∀ e, r = Err e → retry_budget e ≤ Z.of_nat k ∨ done_ k = true) →
    retried k w 1 (r, w')
| retried_again k w e w' n out :
    h w = (Err e, w') → Z.of_nat k < retry_budget e → done_ k = false →
    retried (S k) (sleep (retryBackoff k) w') n out →
    retried k w (S n) out.

Lemma retry_budget_le e : retry_budget e ≤ concurrencyRetries.
Proof. unfold retry_budget, concurrencyRetries, genericRetries. case_match; lia. Qed.

Lemma retry_loop_retried fuel k w :
  concurrencyRetries ≤ Z.of_nat (k + fuel) →
  ∃ n, (n ≤ S fuel)%nat ∧ retried k w n (retry_loop done_ sleep fuel k h w).
Proof.
  revert k w. induction fuel as [|fuel IH]; intros k w Hk; simpl;
    destruct (h w) as [[a|e|s] w'] eqn:E;
    try (exists 1%nat; split; [lia|]; by apply retried_stop).
  - pose proof (retry_budget_le e). rewrite (proj2 (Z.geb_le _ _)) by lia.
    exists 1%nat. split; [lia|]. apply retried_stop; [done|].
    intros ? [= <-]. left. lia.
  - destruct (Z.of_nat k >=? retry_budget e) eqn:Hb.
    { exists 1%nat. split; [lia|]. apply retried_stop; [done|].
      intros ? [= <-]. left. lia. }
    destruct (done_ k) eqn:Hd.
    { exists 1%nat. split; [lia|]. apply retried_stop; [done|]. auto. }
    destruct (IH (S k) (sleep (retryBackoff k) w')) as (n & Hn & Hr); [lia|].
    exists (S n). split; [lia|]. eapply retried_again; eauto. lia.
Qed.

(** What the handler and the waiting keep, the loop keeps. *)
Lemma retry_loop_invariant (I : W → Prop) :
  (∀ w r w', h w = (r, w') → I w → I w') → (∀ d w, I w → I (sleep d w)) →
  ∀ fuel k w r w', retry_loop done_ sleep fuel k h w = (r, w') → I w → I w'.
Proof.
  intros Hh Hs. induction fuel as [|fuel IH]; intros k w r w'; simpl;
    destruct (h w) as [[a|e|s] w1] eqn:E; intros Hr Hw; pose proof (Hh _ _ _ E Hw) as H1;
    try (by injection Hr as _ <-); repeat case_match; try (by injection Hr as _ <-).
  eapply IH; [exact Hr|]. by apply Hs.
Qed.

(** The retry middleware terminates and follows the policy: it calls the
    handler at most 13 times, stops at the first success or panic, otherwise
    stops at the first error whose own budget (12 retries for a concurrency
    conflict, 3 for anything else) is used up or when the context is
    cancelled, and returns that last outcome. *)
Theorem retryMiddleware_policy w :
  ∃ n, (1 ≤ n ≤ 13)%nat ∧ retried 0 w n (retryMiddleware done_ sleep h w).
Proof.
  destruct (retry_loop_retried retry_fuel 0 w) as (n & Hn & Hr); [done|].
  exists n. split; [|done]. unfold retry_fuel in Hn. inversion Hr; lia.
Qed.

(** A handler that keeps failing is called exactly budget + 1 times: four
    times when its errors are no concurrency conflicts, thirteen times when
    they all are. *)
Theorem retry_exhaustion w n out (b : Z) :
  (∀ k, done_ k = false) →
  (∀ w, ∃ e w', h w = (Err e, w') ∧ retry_budget e = b) →
  retried 0 w n out →
  Z.of_nat n = b + 1.
Proof.
  intros Hd Hh Hr.
  enough (∀ k, retried k w n out → Z.of_nat k ≤ b → Z.of_nat n = b + 1 - Z.of_nat k) as He.
  { rewrite (He O Hr); [lia|]. destruct (Hh w) as (e & _ & _ & <-).
    unfold retry_budget, concurrencyRetries, genericRetries. case_match; lia. }
  clear Hr. intros k Hr. induction Hr as [k w r w' E Hs|k w e w' n out E Hk _ _ IH];
    intros Hkb; destruct (Hh w) as (e' & w2 & E2 & <-); rewrite E in E2; simplify_eq.
  - destruct (Hs e' eq_refl) as [|Hdone]; [lia|]. by rewrite Hd in Hdone.
  - specialize (IH ltac:(lia)). lia.
Qed.
End retry_spec.

(** A handler that always meets a conflict, counting its calls. *)
Lemma retry_exhaustion_witness :
  ∃ w', retryMiddleware (λ _, false) (λ _ w, w)
          (λ w : Z, (Err ErrConcurrency : result unit, w + 1)) 0 = (Err ErrConcurrency, w') ∧
        w' = 13 ∧
        retried (λ _, false) (λ _ w, w) (λ w : Z, (Err ErrConcurrency : result unit, w + 1))
          0 0 13 (Err ErrConcurrency, w') ∧ Z.of_nat 13 = concurrencyRetries + 1.
Proof.
  eexists. split; [reflexivity|]. split; [reflexivity|]. 
  assert (retried (λ _, false) (λ _ w, w) (λ w : Z, (Err ErrConcurrency : result unit, w + 1))
          0 0 13 (Err ErrConcurrency, 13)) as Hr.
  { do 12 (eapply retried_again; [reflexivity | vm_compute; reflexivity | reflexivity |]).
    eapply retried_stop; [reflexivity|]. intros e [= <-]. left. vm_compute. discriminate. }
  split; [exact Hr|].
  apply (retry_exhaustion (λ _, false) (λ _ w, w)
           (λ w : Z, (Err ErrConcurrency : result unit, w + 1)) 0 13
           (Err ErrConcurrency, 13) concurrencyRetries); [done| |exact Hr].
  intros w. by exists ErrConcurrency, (w + 1).
Defined.

(** ** A concrete wire

    It keeps what it carried and fails on demand: the head of [failures] says
    whether the next publication fails. *)
Module DemoWire.
Record wire (P : Type) := mkWire { carried : list (string * P); failures : list bool }.
#[global] Arguments mkWire {P} _ _.
#[global] Arguments carried {P} _.
#[global] Arguments failures {P} _.

Section wire.
Context {P : Type}.

#[global] Instance wire_publisher : WirePublisher (wire P) P := {
  Publish topic p b :=
    match failures b with
    | true :: fs => (Err (ErrExternal "wire down"), mkWire (carried b) fs)
    | fs => (Ok tt, mkWire (carried b ++ [(topic, p)]) (tail fs))
    end;
  published := carried }.

(** The repositories publish. *)
#[export] Instance publishes_directly : Publication := true.

#[global] Instance wire_laws : WirePublisherLaws (wire P) P.
Proof.
  split; simpl.
  - intros t p b b'. destruct (failures b) as [|[] fs]; [|done|]; by intros [= <-].
  - intros t p b e b'. destruct (failures b) as [|[] fs]; [done| |done].
    intros [= _ <-]. by left.
  - intros t p b m b'. by destruct (failures b) as [|[] fs].
Qed.
End wire.
End DemoWire.
