(* ===== verification/Transport.v ===== *)
(** * The wire under the bus, and the bus's life
    ([internal/muflone/transport.go], [amqp_transport.go],
    [internal/muflone/servicebus.go])

    A transport makes one subscriber per handler; the bus attaches its pending
    subscriptions once, when it is run. The broker and watermill's router are
    behind parameters: connections are opened and closed by constructors that may
    fail. *)
From S2P Require Import Prelude Errors Kernel Bus.
#[local] Open Scope Z_scope.

(** ** Transports *)

(** [Transport]: [T] is the transport's own state, [W] what is outside of the
    process, [C] the connections. The value of [Close] is the joined error: no
    error is the empty list. A nil publisher is [None]. *)
Class Transport (T W C : Type) := {
  transport_Publisher : T → option C;
  SubscriberFor : string → GoM (T * W) C;
  transport_Close : GoM (T * W) (list error);
}.

(** A call outside of the process, beside the transport's state. *)
Definition outside {T W A} (m : GoM W A) : GoM (T * W) A :=
  zoom snd (λ w x, (fst x, w)) m.

Section transports.
Context {W C : Type}.
(** [Close] of a connection. *)
Context (Close : C → GoM W unit).

(** [closeAll]: every closer is closed; their errors are joined. *)
Fixpoint closeAll (closers : list C) : GoM W (list error) :=
  match closers with
  | [] => mret []
  | closer :: closers =>
      closed ← attempt (Close closer);
      errs ← closeAll closers;
      mret match closed with inl err => err :: errs | inr _ => errs end
  end.

(** *** transport.go *)

(** The one [GoChannel]. *)
Record InMemoryTransport := mkInMemoryTransport { pubSub : C }.

Definition InMemory_Publisher (t : InMemoryTransport) : option C := Some (pubSub t).

Definition InMemory_SubscriberFor (_ : string) : GoM (InMemoryTransport * W) C :=
  gets (λ x, pubSub (fst x)).

Definition InMemory_Close : GoM (InMemoryTransport * W) (list error) :=
  t ← gets fst; outside (closeAll [pubSub t]).

#[global] Instance InMemory_transport : Transport InMemoryTransport W C := {
  transport_Publisher := InMemory_Publisher; SubscriberFor := InMemory_SubscriberFor; transport_Close := InMemory_Close }.

(** *** amqp_transport.go *)

(** What [amqp.NewDurablePubSubConfig] is given: the queue of a topic is the topic,
    an underscore and the suffix. *)
Record amqpConfig := mkAmqpConfig { cfg_url : string; cfg_suffix : string }.
Definition queue_of (c : amqpConfig) (topic : string) : string :=
  (topic +:+ "_" +:+ cfg_suffix c)%string.

Context (newPublisher newSubscriber : amqpConfig → GoM W C).

Record AMQPTransport := mkAMQPTransport {
  url : string;
  publisher_conn : option C;
  subscribers_conn : list C;
}.

Definition amqp_config (t : AMQPTransport) (handlerName : string) : amqpConfig :=
  mkAmqpConfig (url t) handlerName.

(** [connect]. *)
Definition connect : GoM (AMQPTransport * W) unit :=
  t ← gets fst;
  publisher ← wrapping "connect amqp publisher"%string (outside (newPublisher (amqp_config t "publisher")));
  modify (λ x, (mkAMQPTransport (url t) (Some publisher) (subscribers_conn (fst x)), snd x)).

(** [NewAMQPTransport]. *)
Definition NewAMQPTransport (u : string) : GoM W AMQPTransport := λ w,
  let '(r, (t, w)) := connect (mkAMQPTransport u None [], w) in
  (result_bind (λ _, Ok t) r, w).

Definition AMQP_Publisher (t : AMQPTransport) : option C := publisher_conn t.

Definition AMQP_SubscriberFor (handlerName : string) : GoM (AMQPTransport * W) C :=
  t ← gets fst;
  subscriber ← wrapping ("connect amqp subscriber " +:+ handlerName)%string
                 (outside (newSubscriber (amqp_config t handlerName)));
  _ ← modify (λ x, (mkAMQPTransport (url (fst x)) (publisher_conn (fst x))
                      (subscribers_conn (fst x) ++ [subscriber]), snd x));
  mret subscriber.

(** Closing a transport that never connected dereferences a nil publisher. *)
Definition AMQP_Close : GoM (AMQPTransport * W) (list error) :=
  t ← gets fst;
  match AMQP_Publisher t with
  | Some publisher => outside (closeAll (subscribers_conn t ++ [publisher]))
  | None => go_panic "nil pointer dereference"
  end.

#[global] Instance AMQP_transport : Transport AMQPTransport W C := {
  transport_Publisher := AMQP_Publisher; SubscriberFor := AMQP_SubscriberFor; transport_Close := AMQP_Close }.
End transports.
Arguments InMemoryTransport : clear implicits.
Arguments AMQPTransport : clear implicits.

(** ** The bus's life *)
Section bus.
Context {T W C : Type} `{!Transport T W C}.

(** [ServiceBus], without what the handlers do: [attached] is the [sync.Once] and
    the error it left; [consumers] are the router's, [running] its [Running]
    channel. *)
Record ServiceBus := mkServiceBus {
  transport : T;
  pending : list (string * string);
  attached : option (result unit);
  consumers : list (string * string * C);
  running : bool;
}.
Abbreviation M := (GoM (ServiceBus * W)).

Definition with_transport (t : T) (b : ServiceBus) : ServiceBus :=
  mkServiceBus t (pending b) (attached b) (consumers b) (running b).
Definition with_consumers (l : list (string * string * C)) (b : ServiceBus) : ServiceBus :=
  mkServiceBus (transport b) (pending b) (attached b) l (running b).
Definition with_attached (r : result unit) (b : ServiceBus) : ServiceBus :=
  mkServiceBus (transport b) (pending b) (Some r) (consumers b) (running b).
Definition with_running (r : bool) (b : ServiceBus) : ServiceBus :=
  mkServiceBus (transport b) (pending b) (attached b) (consumers b) r.

Definition on_transport {A} (m : GoM (T * W) A) : M A :=
  zoom (λ x, (transport (fst x), snd x)) (λ y x, (with_transport (fst y) (fst x), snd y)) m.

(** watermill panics on a second handler of one name. *)
Definition AddConsumerHandler (name topic : string) (subscriber : C) : M unit := λ x,
  if decide (name ∈ (consumers (fst x)).*1.*1) then (Panic "duplicate handler name", x)
  else (Ok tt, (with_consumers (consumers (fst x) ++ [(name, topic, subscriber)]) (fst x), snd x)).

(** The loop of [attachHandlers]. *)
Definition attach_one (sub : string * string) : M unit :=
  subscriber ← on_transport (SubscriberFor sub.1);
  AddConsumerHandler sub.1 sub.2 subscriber.

(** [attachHandlers]: a second call reports what the first one did. *)
Definition attachHandlers : M unit :=
  once ← gets (λ x, attached (fst x));
  match once with
  | Some r => lift r
  | None => λ x,
      let '(r, (b, w)) := for_each (pending (fst x)) attach_one x in
      (r, (with_attached match r with Panic _ => Ok tt | _ => r end b, w))
  end.

(** [Run], up to the point where the router runs; [start] is the router's start,
    which subscribes every handler and may fail. *)
Definition Bus_Run (start : list (string * string * C) → GoM W unit) : M unit :=
  _ ← attachHandlers;
  l ← gets (λ x, consumers (fst x));
  _ ← (zoom snd (λ w x, (fst x, w)) (start l) : M unit);
  modify (λ x, (with_running true (fst x), snd x)).

(** [Running]: whether the channel is closed. *)
Definition Bus_Running (b : ServiceBus) : bool := running b.

(** [Close]; [router_Close] only if the router ever ran. *)
Definition Bus_Close (router_Close : GoM W unit) : M (list error) :=
  ran ← gets (λ x, Bus_Running (fst x));
  if ran : bool then
    closed ← attempt (zoom snd (λ w x, (fst x, w)) router_Close : M unit);
    errs ← on_transport transport_Close;
    mret match closed with inl err => err :: errs | inr _ => errs end
  else on_transport transport_Close.
End bus.
Arguments ServiceBus : clear implicits.

(** ** What a transport promises the bus *)

(** [SubscriberFor] adopts the connection it gives out, or fails and leaves the
    transport as it was; neither it nor [Close] panics once the transport is
    [ready], and then it has a publisher. *)
Class TransportLaws (T W C : Type) `{!Transport T W C}
    (adopt : C → T → T) (ready : T → Prop) : Prop := {
  subscriber_given name t w : ready t →
    ∃ w', (∃ c, SubscriberFor name (t, w) = (Ok c, (adopt c t, w'))) ∨
          (∃ e, SubscriberFor name (t, w) = (Err e, (t, w')));
  adopt_ready c t : ready t → ready (adopt c t);
  publisher_given t : ready t → is_Some (transport_Publisher t);
  closed_at_all t w : ready t → ∃ errs w', transport_Close (t, w) = (Ok errs, (t, w'));
}.

Section laws.
Context {W C : Type} (Close : C → GoM W unit) (newPublisher newSubscriber : amqpConfig → GoM W C).
Context (Hclose : ∀ c w m, (Close c w).1 ≠ Panic m).
Context (Hnew : ∀ c w m, (newSubscriber c w).1 ≠ Panic m).
Implicit Types (l : list C) (w : W).

(** Every closer is closed, in order, whichever fail; the joined error has the
    errors of those that did. *)
Lemma closeAll_spec l w :
  (closeAll Close l w).2 = foldl (λ w c, (Close c w).2) w l ∧
  ∃ errs, (closeAll Close l w).1 = Ok errs ∧
    (errs = [] ↔ ∀ l1 c l2, l = l1 ++ c :: l2 →
       (Close c (foldl (λ w c, (Close c w).2) w l1)).1 = Ok tt).
Proof.
  revert w. induction l as [|c l IH]; intros w; simpl.
  { split; [done|]. exists []. split; [done|]. split; [|done]. by intros _ [] ? ?. }
  unfold mbind, GoM_bind, attempt.
  pose proof (Hclose c w) as Hc. destruct (Close c w) as [[[]|e|m] w1] eqn:E; simpl in Hc;
    [| |by destruct (Hc m)]; destruct (IH w1) as (Hw & errs & He & Hiff);
    destruct (closeAll Close l w1) as [r w2]; simpl in *; subst r; (split; [done|]).
  - exists errs. split; [done|]. rewrite Hiff. split; intros Hall.
    + intros [|c1 l1] c' l2 [= <- Hl]; simpl; rewrite E; [done|]. simpl. by apply (Hall l1 c' l2).
    + intros l1 c' l2 Hl. specialize (Hall (c :: l1) c' l2). simpl in Hall. rewrite E in Hall.
      apply Hall. by rewrite Hl.
  - eexists. split; [done|]. split; [done|]. intros Hall. specialize (Hall [] c l eq_refl).
    simpl in Hall. by rewrite E in Hall.
Qed.

Lemma closes_outside {T} (t : T) l w :
  ∃ errs w', outside (closeAll Close l) (t, w) = (Ok errs, (t, w')).
Proof.
  destruct (closeAll_spec l w) as (_ & errs & He & _). unfold outside, zoom. simpl.
  destruct (closeAll Close l w) as [r w']. simpl in He. subst r. by exists errs, w'.
Qed.

(** The channel gives itself to every handler. *)
#[local] Instance in_memory : Transport (InMemoryTransport C) W C := InMemory_transport Close.

#[export] Instance InMemory_transport_laws :
  TransportLaws (InMemoryTransport C) W C (λ _ t, t) (λ _, True).
Proof.
  split; [|done| |].
  - intros name t w _. exists w. left. by exists (pubSub t).
  - intros t _. by eexists.
  - intros t w _. by apply (closes_outside t [pubSub t] w).
Qed.

(** A broker's transport keeps each new connection. *)
#[local] Instance amqp : Transport (AMQPTransport C) W C := AMQP_transport Close newSubscriber.

Definition keeps_subscriber (c : C) (t : AMQPTransport C) : AMQPTransport C :=
  mkAMQPTransport (url t) (publisher_conn t) (subscribers_conn t ++ [c]).
Definition connected (t : AMQPTransport C) : Prop := is_Some (publisher_conn t).

#[export] Instance AMQP_transport_laws :
  TransportLaws (AMQPTransport C) W C keeps_subscriber connected.
Proof.
  split; [|done|by intros t Ht|].
  - intros name t w _. unfold SubscriberFor, amqp, AMQP_transport, AMQP_SubscriberFor.
    unfold wrapping, outside, gets, modify, zoom, mbind, GoM_bind. simpl.
    pose proof (Hnew (amqp_config t name) w) as Hp.
    destruct (newSubscriber _ w) as [[c|e|m] w']; simpl in Hp; [| |by destruct (Hp m)];
      exists w'; [left; by exists c|right; by eexists].
  - intros t w [p Hp]. unfold transport_Close, amqp, AMQP_transport, AMQP_Close, AMQP_Publisher.
    unfold gets, mbind, GoM_bind. simpl. rewrite Hp. apply closes_outside.
Qed.

(** A transport that was made is connected. *)
Lemma NewAMQPTransport_connected u w t w' :
  NewAMQPTransport newPublisher u w = (Ok t, w') →
  url t = u ∧ connected t ∧ subscribers_conn t = [].
Proof.
  unfold NewAMQPTransport, connect, wrapping, outside, gets, modify, zoom, mbind, GoM_bind. simpl.
  destruct (newPublisher _ w) as [[c|e|m] w1]; simpl; intros [= <- <-].
  split_and!; [done|by eexists|done].
Qed.

Lemma NewAMQPTransport_no_panic u w :
  (∀ c w m, (newPublisher c w).1 ≠ Panic m) →
  ∀ m, (NewAMQPTransport newPublisher u w).1 ≠ Panic m.
Proof.
  intros Hp m. unfold NewAMQPTransport, connect, wrapping, outside, gets, modify, zoom, mbind, GoM_bind.
  simpl. pose proof (Hp (mkAmqpConfig u "publisher") w) as Hpw.
  change (amqp_config (mkAMQPTransport u None []) "publisher") with (mkAmqpConfig u "publisher").
  destruct (newPublisher _ w) as [[c|e|m'] w1]; simpl in *; [done..|by destruct (Hpw m')].
Qed.
End laws.

(** ** One type for both transports *)
Section either.
Context {T1 T2 W C : Type} `{!Transport T1 W C, !Transport T2 W C}.

Definition on_either {A} (m : GoM (T1 * W) A) (n : GoM (T2 * W) A) : GoM ((T1 + T2) * W) A := λ x,
  match x.1 with
  | inl t => let '(r, (t, w)) := m (t, x.2) in (r, (inl t, w))
  | inr t => let '(r, (t, w)) := n (t, x.2) in (r, (inr t, w))
  end.

#[global] Instance either_transport : Transport (T1 + T2) W C := {
  transport_Publisher t := match t with
    | inl t => transport_Publisher (W := W) t | inr t => transport_Publisher (W := W) t end;
  SubscriberFor name := on_either (SubscriberFor name) (SubscriberFor name);
  transport_Close := on_either transport_Close transport_Close }.

Definition either_adopt (adopt1 : C → T1 → T1) (adopt2 : C → T2 → T2) (c : C) (t : T1 + T2) : T1 + T2 :=
  match t with inl t => inl (adopt1 c t) | inr t => inr (adopt2 c t) end.
Definition either_ready (ready1 : T1 → Prop) (ready2 : T2 → Prop) (t : T1 + T2) : Prop :=
  match t with inl t => ready1 t | inr t => ready2 t end.

#[global] Instance either_transport_laws adopt1 adopt2 ready1 ready2
    `{!TransportLaws T1 W C adopt1 ready1, !TransportLaws T2 W C adopt2 ready2} :
  TransportLaws (T1 + T2) W C (either_adopt adopt1 adopt2) (either_ready ready1 ready2).
Proof.
  split.
  - intros name [t|t] w Hr; unfold SubscriberFor, either_transport, on_either; cbn [fst snd];
      destruct (subscriber_given name t w Hr) as (w' & [(c & ->)|(e & ->)]); eauto.
  - intros c [t|t] Hr; simpl in *; by apply adopt_ready.
  - intros [t|t] Hr; simpl in *; by eapply publisher_given.
  - intros [t|t] w Hr; unfold transport_Close, either_transport, on_either; cbn [fst snd];
      destruct (closed_at_all t w Hr) as (errs & w' & ->); eauto.
Qed.
End either.

(** ** What the bus promises over any such transport *)
Section contract.
Context {T W C : Type} `{!Transport T W C} {adopt : C → T → T} {ready : T → Prop}.
Context {laws : TransportLaws T W C adopt ready}.
Implicit Types (b : ServiceBus T C) (w : W).

(** What a loop over subscriptions [subs] that ended in [r] did to a bus. *)
Definition grown (subs : list (string * string)) (r : result unit) (b b' : ServiceBus T C) : Prop :=
  pending b' = pending b ∧ attached b' = attached b ∧ running b' = running b ∧
  ready (transport b') ∧ (∀ m, r ≠ Panic m) ∧
  ∃ k conns, length conns = k ∧ (k ≤ length subs)%nat ∧
    consumers b' = consumers b ++ zip (take k subs) conns ∧
    transport b' = foldl (λ t c, adopt c t) (transport b) conns ∧
    (r = Ok tt ↔ k = length subs).

Lemma attach_loop subs b w r b' w' :
  NoDup subs.*1 → (∀ name, name ∈ subs.*1 → name ∉ (consumers b).*1.*1) →
  ready (transport b) →
  for_each subs attach_one (b, w) = (r, (b', w')) → grown subs r b b'.
Proof.
  revert b w. induction subs as [|[name topic] subs IH]; intros b w Hnd Hfresh Hready Hr.
  { injection Hr as <- <- <-. split_and!; try done. exists 0%nat, []. rewrite !app_nil_r.
    split_and!; done. }
  simpl in Hnd. apply NoDup_cons in Hnd as [Hname Hnd]. simpl in Hr.
  unfold attach_one, on_transport, mbind, GoM_bind, zoom in Hr. simpl in Hr.
  destruct (subscriber_given name _ w Hready) as (w1 & [(conn & Hs)|(e & Hs)]);
    rewrite Hs in Hr; simpl in Hr.
  2:{ injection Hr as <- <- <-. split_and!; try done. exists 0%nat, []. simpl. rewrite !app_nil_r.
      split_and!; try done. lia. }
  unfold AddConsumerHandler in Hr. simpl in Hr.
  rewrite decide_False in Hr by (apply Hfresh; left). simpl in Hr. unfold with_consumers in Hr. simpl in Hr.
  apply IH in Hr as (Hpe & Hat & Hru & Hre & Hnp & k & conns & Hk & Hle & Hco & Htr & Hiff);
    [|done| |].
  - split_and!; try done. exists (S k), (conn :: conns). simpl in *.
    split_and!; try done; [lia|lia| |].
    + by rewrite Hco, <- app_assoc.
    + rewrite Hiff. lia.
  - simpl. intros n Hn. rewrite !fmap_app, elem_of_app. simpl. rewrite list_elem_of_singleton.
    intros [Hin| ->]; [|done]. eapply Hfresh; [|exact Hin]. by right.
  - simpl. by apply adopt_ready.
Qed.

(** A bus nobody has run, whose subscriptions have names of their own. *)
Record unused b : Prop := {
  unused_names : NoDup (pending b).*1;
  unused_attached : attached b = None;
  unused_consumers : consumers b = [];
  unused_running : running b = false;
  unused_ready : ready (transport b);
}.

Lemma attach_grown b w r b' w' :
  unused b → attachHandlers (b, w) = (r, (b', w')) →
  ∃ b1, grown (pending b) r b b1 ∧ b' = with_attached r b1.
Proof.
  intros [Hnd Hat Hco Hru Hre] Ha.
  unfold attachHandlers, mbind, GoM_bind, gets in Ha. simpl in Ha. rewrite Hat in Ha.
  destruct (for_each _ _ _) as [r1 [b1 w1]] eqn:E. injection Ha as -> <- <-.
  apply attach_loop in E; [|done|by rewrite Hco; intros ? _ ?%elem_of_nil|done].
  exists b1. split; [done|]. destruct E as (_ & _ & _ & _ & Hnp & _).
  by destruct r as [[]|e|m]; [..|destruct (Hnp m)].
Qed.

(** C31 Attaching the bus. When the names of the pending subscriptions differ, the
    handlers are attached in their order, each to a connection that the transport
    adopted for it, until all are or the transport refuses one, whose error is the
    answer of this and of every later call; the bus is not run then. *)
Theorem attach_contract b w r b' w' :
  unused b → attachHandlers (b, w) = (r, (b', w')) →
  (∀ m, r ≠ Panic m) ∧
  (∃ k, (consumers b').*1 = take k (pending b) ∧ (r = Ok tt ↔ k = length (pending b))) ∧
  transport b' = foldl (λ t c, adopt c t) (transport b) (consumers b').*2 ∧
  attachHandlers (b', w') = (r, (b', w')) ∧
  ∀ start, r ≠ Ok tt → Bus_Run start (b', w') = (r, (b', w')).
Proof.
  intros Hb Ha. pose proof (unused_consumers b Hb) as Hco.
  apply attach_grown in Ha as (b1 & (_ & _ & _ & _ & Hnp & k & conns & Hk & Hle & Hc & Ht & Hiff) & ->);
    [|done].
  assert (attachHandlers (with_attached r b1, w') = (r, (with_attached r b1, w'))) as Hagain.
  { unfold attachHandlers, mbind, GoM_bind, gets. simpl.
    destruct r as [[]|e|m]; [done|done|by destruct (Hnp m)]. }
  split; [done|]. split; [|split; [|split; [exact Hagain|]]].
  - exists k. split; [|done]. simpl. rewrite Hc, Hco, app_nil_l.
    apply fst_zip. rewrite Hk, length_take. lia.
  - simpl. rewrite Hc, Hco, Ht, app_nil_l. f_equal. symmetry.
    apply snd_zip. rewrite Hk, length_take. lia.
  - intros start Hr. unfold Bus_Run. unfold mbind, GoM_bind at 1. rewrite Hagain.
    by destruct r as [[]|e|m].
Qed.

(** Running an unused bus: it panics only if the router does, and leaves the
    transport ready. *)
Lemma Bus_Run_unused start b w r b' w' :
  (∀ l w m, (start l w).1 ≠ Panic m) →
  unused b → Bus_Run start (b, w) = (r, (b', w')) →
  (∀ m, r ≠ Panic m) ∧ ready (transport b') ∧ (running b' = true ↔ r = Ok tt).
Proof.
  intros Hstart Hb. unfold Bus_Run, mbind at 1, GoM_bind at 1.
  destruct (attachHandlers (b, w)) as [r1 [b1 w1]] eqn:Ha.
  apply attach_grown in Ha as (b2 & (_ & _ & Hru & Hre & Hnp & _) & ->); [|done].
  rewrite (unused_running b Hb) in Hru.
  destruct r1 as [[]|e|m]; [| |by destruct (Hnp m)].
  - unfold mbind, GoM_bind, gets, zoom, modify. simpl.
    pose proof (Hstart (consumers b2) w1) as Hs.
    destruct (start _ w1) as [[[]|e|m] w2]; simpl in Hs; [| |by destruct (Hs m)];
      intros [= <- <- <-]; simpl; split_and!; try done; by rewrite Hru.
  - intros [= <- <- <-]. simpl. by rewrite Hru.
Qed.

(** Closing never panics, and says whether anything failed. *)
Lemma Bus_Close_returns router_Close b w :
  (∀ w m, (router_Close w).1 ≠ Panic m) → ready (transport b) →
  ∃ errs b' w', Bus_Close router_Close (b, w) = (Ok errs, (b', w')) ∧
    running b' = running b ∧ ready (transport b').
Proof.
  intros Hc Hre. unfold Bus_Close, Bus_Running, mbind, GoM_bind, gets. simpl.
  destruct (running b) eqn:Hru.
  - unfold attempt, zoom at 1. simpl. pose proof (Hc w) as Hcw.
    destruct (router_Close w) as [[[]|e|m] w1]; simpl in Hcw; [| |by destruct (Hcw m)];
      unfold on_transport, zoom; simpl;
      destruct (closed_at_all (transport b) w1 Hre) as (errs & w2 & ->); simpl; by eauto 8.
  - unfold on_transport, zoom. simpl.
    destruct (closed_at_all (transport b) w Hre) as (errs & w1 & ->). simpl. by eauto 8.
Qed.
End contract.
