(* ===== verification/Process.v ===== *)
(** * The process ([internal/app/app.go], [cmd/api/main.go])

    [Run] starts the goroutines of the process one after the other and stops them
    when its context is cancelled or one of them fails. The state is what each
    goroutine has reached; a step is one of them going on. What the handlers do to
    stores and wire meanwhile is [Wiring]'s. *)
From S2P Require Import Prelude Errors Kernel Bus Transport.
From Stdlib Require Import Relations.
#[local] Open Scope Z_scope.

(** A goroutine: not launched, launched, past its set-up, over. *)
Inductive routine := NotStarted | Started | Working | Ended.

(** Where [Run] is. *)
Inductive main_at :=
| AwaitBus                       (** [<-a.bus.Running()] *)
| Supervise                      (** [a.startSagaSupervision] *)
| Listen                         (** the server is launched next *)
| Select                         (** [select] on the context and [errCh] *)
| StopHTTP | StopBus | StopTracing
| Returned (r : result unit).

Section run.
Context {T W C : Type} `{!Transport T W C}.
(** watermill's router and the rest of the process's surroundings: what starting
    and closing them does, and how errors are joined. *)
Context (router_start : list (string * string * C) → GoM W unit) (router_Close : GoM W unit).
Context (errors_Join : list error → error).
(** [cfg.SagaStepTimeout]; the relay's interval, in durable mode. *)
Context (SagaStepTimeout : Z) (relay_interval : option Z).

Record Process := mkProcess {
  p_main : main_at;
  p_bus : ServiceBus T C;
  p_bus_run : routine;           (** the goroutine of [bus.Run] *)
  p_relay : routine;
  p_watchdog : routine;          (** the step-timeout sweeps *)
  p_server : routine;
  p_errCh : list error;          (** [make(chan error, 2)] *)
  p_cancelled : bool;
  p_crash : option string;       (** a panic of a goroutine ends the process *)
  p_world : W;
}.

Definition errCh_capacity : nat := 2.
Definition shutdownTimeout : Z := 10 * Second.

(** [time.NewTicker(d)] panics unless [d > 0]. *)
Definition NewTicker (d : Z) : result unit :=
  if 0 <? d then Ok tt else Panic "non-positive interval for NewTicker".

Definition at_main (m : main_at) (p : Process) : Process :=
  mkProcess m (p_bus p) (p_bus_run p) (p_relay p) (p_watchdog p) (p_server p) (p_errCh p)
    (p_cancelled p) (p_crash p) (p_world p).
Definition with_relay (r : routine) (p : Process) : Process :=
  mkProcess (p_main p) (p_bus p) (p_bus_run p) r (p_watchdog p) (p_server p) (p_errCh p)
    (p_cancelled p) (p_crash p) (p_world p).
Definition with_watchdog (r : routine) (p : Process) : Process :=
  mkProcess (p_main p) (p_bus p) (p_bus_run p) (p_relay p) r (p_server p) (p_errCh p)
    (p_cancelled p) (p_crash p) (p_world p).
Definition with_server (r : routine) (p : Process) : Process :=
  mkProcess (p_main p) (p_bus p) (p_bus_run p) (p_relay p) (p_watchdog p) r (p_errCh p)
    (p_cancelled p) (p_crash p) (p_world p).
Definition with_bus (b : ServiceBus T C) (r : routine) (w : W) (p : Process) : Process :=
  mkProcess (p_main p) b r (p_relay p) (p_watchdog p) (p_server p) (p_errCh p)
    (p_cancelled p) (p_crash p) w.
Definition with_errCh (l : list error) (p : Process) : Process :=
  mkProcess (p_main p) (p_bus p) (p_bus_run p) (p_relay p) (p_watchdog p) (p_server p) l
    (p_cancelled p) (p_crash p) (p_world p).
Definition cancel (p : Process) : Process :=
  mkProcess (p_main p) (p_bus p) (p_bus_run p) (p_relay p) (p_watchdog p) (p_server p) (p_errCh p)
    true (p_crash p) (p_world p).
Definition crash (m : string) (p : Process) : Process :=
  mkProcess (p_main p) (p_bus p) (p_bus_run p) (p_relay p) (p_watchdog p) (p_server p) (p_errCh p)
    (p_cancelled p) (Some m) (p_world p).

(** [errCh <- err]. *)
Definition send (err : error) (p : Process) : Process := with_errCh (p_errCh p ++ [err]) p.

Definition stop_with (msg : string) (next : main_at) (r : result unit) : main_at :=
  match r with
  | Ok _ => next
  | r => Returned (result_wrap msg r)
  end.

(** *** [Run] itself *)
Inductive main_step : Process → Process → Prop :=
| main_bus_runs p :
    p_main p = AwaitBus → Bus_Running (p_bus p) = true →
    main_step p (with_relay (if relay_interval is Some _ then Started else NotStarted) (at_main Supervise p))
| main_supervises p :
    p_main p = Supervise →
    main_step p (with_watchdog (if SagaStepTimeout <=? 0 then NotStarted else Started)
                   (at_main Listen p))
| main_listens p :
    p_main p = Listen → main_step p (with_server Started (at_main Select p))
| main_cancelled p :
    p_main p = Select → p_cancelled p = true → main_step p (at_main StopHTTP p)
| main_fails p err l :
    p_main p = Select → p_errCh p = err :: l →
    main_step p (at_main (Returned (Err err)) (with_errCh l p))
| main_stops_http p r :
    p_main p = StopHTTP → (∀ m, r ≠ Panic m) →
    main_step p (with_server Ended (at_main (stop_with "http shutdown" StopBus r) p))
| main_stops_bus p errs b w :
    p_main p = StopBus → Bus_Close router_Close (p_bus p, p_world p) = (Ok errs, (b, w)) →
    main_step p (with_bus b (p_bus_run p) w
      (at_main (stop_with "bus shutdown" StopTracing
                  match errs with [] => Ok tt | _ => Err (errors_Join errs) end) p))
| main_stops_tracing p r :
    p_main p = StopTracing → (∀ m, r ≠ Panic m) →
    main_step p (at_main (stop_with "tracing shutdown" (Returned (Ok tt)) r) p).

(** *** The other goroutines *)
Inductive other_step : Process → Process → Prop :=
| bus_starts p b w :
    p_bus_run p = Started → Bus_Run router_start (p_bus p, p_world p) = (Ok tt, (b, w)) →
    other_step p (with_bus b Working w p)
| bus_fails p err b w :
    p_bus_run p = Started → Bus_Run router_start (p_bus p, p_world p) = (Err err, (b, w)) →
    (length (p_errCh p) < errCh_capacity)%nat →
    other_step p (send (Errorf "service bus" err) (with_bus b Ended w p))
| bus_panics p m x :
    p_bus_run p = Started → Bus_Run router_start (p_bus p, p_world p) = (Panic m, x) →
    other_step p (crash m p)
| router_ends p :
    p_bus_run p = Working → other_step p (with_bus (p_bus p) Ended (p_world p) p)
| router_fails p err :
    p_bus_run p = Working → (length (p_errCh p) < errCh_capacity)%nat →
    other_step p (send (Errorf "service bus" err) (with_bus (p_bus p) Ended (p_world p) p))
| server_listens p : p_server p = Started → other_step p (with_server Working p)
| server_fails p err :
    p_server p = Started ∨ p_server p = Working → (length (p_errCh p) < errCh_capacity)%nat →
    other_step p (send (Errorf "http server" err) (with_server Ended p))
| relay_ticks p interval :
    p_relay p = Started → relay_interval = Some interval → NewTicker interval = Ok tt →
    other_step p (with_relay Working p)
| relay_panics p interval m :
    p_relay p = Started → relay_interval = Some interval → NewTicker interval = Panic m →
    other_step p (crash m p)
| relay_ends p : p_relay p = Working → p_cancelled p = true → other_step p (with_relay Ended p)
| watchdog_ticks p :
    p_watchdog p = Started → NewTicker (Z.quot SagaStepTimeout 2) = Ok tt →
    other_step p (with_watchdog Working p)
| watchdog_panics p m :
    p_watchdog p = Started → NewTicker (Z.quot SagaStepTimeout 2) = Panic m →
    other_step p (crash m p)
| watchdog_ends p :
    p_watchdog p = Working → p_cancelled p = true → other_step p (with_watchdog Ended p)
| signal p : other_step p (cancel p).

(** The process goes on until [Run] returns or a goroutine panics. *)
Definition alive (p : Process) : Prop :=
  p_crash p = None ∧ ∀ r, p_main p ≠ Returned r.

Inductive process_step : Process → Process → Prop :=
| step_main p p' : alive p → main_step p p' → process_step p p'
| step_other p p' : alive p → other_step p p' → process_step p p'.

(** *** [StartBus], which waits for the bus or for the end of its context

    What [ctx.Err()] is once the context is done; the error of the bus itself is
    discarded. *)
Definition context_Canceled : error := ErrExternal "context canceled".
Definition context_DeadlineExceeded : error := ErrExternal "context deadline exceeded".

Inductive StartBus_returns (p : Process) : result unit → Prop :=
| bus_is_running : running (p_bus p) = true → StartBus_returns p (Ok tt)
| context_done err : p_cancelled p = true →
    err ∈ [context_Canceled; context_DeadlineExceeded] → StartBus_returns p (Err err).

(** [Run] begins: the goroutine of the bus is launched. *)
Definition launched (b : ServiceBus T C) (w : W) : Process :=
  mkProcess AwaitBus b Started NotStarted NotStarted NotStarted [] false None w.

Definition lives (b : ServiceBus T C) (w : W) : Process → Prop := rtc process_step (launched b w).
End run.
Arguments Process : clear implicits.

(** ** What a run of the process keeps to *)
Section facts.
Context {T W C : Type} `{!Transport T W C} {adopt : C → T → T} {ready : T → Prop}.
Context {laws : TransportLaws T W C adopt ready}.
Context (router_start : list (string * string * C) → GoM W unit) (router_Close : GoM W unit).
Context (errors_Join : list error → error).
Context (SagaStepTimeout : Z) (relay_interval : option Z).
Context (Hstart : ∀ l w m, (router_start l w).1 ≠ Panic m).
Context (Hclose : ∀ w m, (router_Close w).1 ≠ Panic m).
Context (b : ServiceBus T C) (w : W) (Hb : unused (ready:=ready) b).
Abbreviation the_main_step := (main_step router_Close errors_Join SagaStepTimeout relay_interval).
Abbreviation the_other_step := (other_step router_start SagaStepTimeout relay_interval).
Abbreviation process_step :=
  (process_step router_start router_Close errors_Join SagaStepTimeout relay_interval).
Abbreviation lives :=
  (lives router_start router_Close errors_Join SagaStepTimeout relay_interval b w).
Implicit Types (p : Process T W C).

(** Where [Run] is on its way to its end. *)
Definition main_rank (m : main_at) : nat :=
  match m with
  | AwaitBus => 7 | Supervise => 6 | Listen => 5 | Select => 4
  | StopHTTP => 3 | StopBus => 2 | StopTracing => 1 | Returned _ => 0
  end.

(** Goroutines that may still report. *)
Definition may_report (r : routine) : nat :=
  match r with Ended => 0 | _ => 1 end.

(** The order of things. *)
Record orderly p : Prop := {
  od_bus : p_bus_run p = Started → p_bus p = b ∧ p_world p = w;
  od_bus_working : p_bus_run p = Working → running (p_bus p) = true;
  od_launched : p_bus_run p ≠ NotStarted;
  od_ready : ready (transport (p_bus p));
  od_running : running (p_bus p) = true ∨ p_main p = AwaitBus;
  od_await : p_main p = AwaitBus → p_relay p = NotStarted ∧ p_watchdog p = NotStarted;
  od_room : (length (p_errCh p) + may_report (p_bus_run p) + may_report (p_server p) ≤ 2)%nat;
  od_server : (4 < main_rank (p_main p))%nat → p_server p = NotStarted;
  od_down : p_main p = StopBus ∨ p_main p = StopTracing ∨ p_main p = Returned (Ok tt) →
    p_server p = Ended ∧ p_cancelled p = true;
  od_stopping : p_main p = StopHTTP → p_cancelled p = true;
  od_crash : is_Some (p_crash p) →
    running (p_bus p) = true ∧
    ((∃ i, relay_interval = Some i ∧ i ≤ 0) ∨ SagaStepTimeout = 1);
  od_watchdog : p_watchdog p = Started → 0 < SagaStepTimeout;
}.

#[local] Ltac settle := split; simpl in *; try done; try lia; try (intros; lia);
  try solve [intros; destruct_or?; simplify_eq; first [done|auto]].

Lemma orderly_launched : orderly (launched b w).
Proof. pose proof (unused_ready b Hb). settle. Qed.

(** A ticker starts on a positive interval only. *)
Lemma NewTicker_panics d m : NewTicker d = Panic m → d ≤ 0.
Proof. unfold NewTicker. case_match; [done|lia]. Qed.

Lemma half_panics d m : 0 < d → NewTicker (Z.quot d 2) = Panic m → d = 1.
Proof.
  intros Hd Hp%NewTicker_panics. rewrite Z.quot_div_nonneg in Hp by lia.
  pose proof (Z.div_mod d 2). pose proof (Z.mod_pos_bound d 2). lia.
Qed.

Ltac ordered H :=
  destruct H as [Hbus Hwork Hlau Hrdy Hrun Hawait Hroom Hserver Hdown Hstop Hcr Hwd].

Lemma orderly_main p p' : orderly p → the_main_step p p' → orderly p'.
Proof.
  intros Ho Hs. ordered Ho. destruct Hs as [p Hm Hr|p Hm|p Hm|p Hm Hc|p err l Hm He|p r Hm Hr
    |p errs b' w' Hm Hclo|p r Hm Hr]; rewrite Hm in Hrun, Hserver, Hdown, Hawait, Hstop; simpl in *.
  - settle.
  - settle. case_match; [done|lia].
  - rewrite (Hserver ltac:(lia)) in Hroom. settle.
  - settle.
  - rewrite He in Hroom. settle.
  - destruct r as [[]|e|m]; [..|by destruct (Hr m)]; settle.
  - destruct Hrun as [Hrun|]; [|done].
    destruct (Bus_Close_returns router_Close (p_bus p) (p_world p) Hclose Hrdy)
      as (errs' & b1 & w1 & E & Hrun' & Hrdy'). rewrite E in Hclo. injection Hclo as -> -> ->.
    assert (p_bus_run p ≠ Started) as Hns.
    { intros Hst. destruct (Hbus Hst) as [Hbb _]. by rewrite Hbb, (unused_running b Hb) in Hrun. }
    rewrite <- Hrun' in Hrun, Hcr, Hwork. destruct errs; settle.
  - destruct r as [[]|e|m]; [..|by destruct (Hr m)]; settle.
Qed.

Lemma orderly_other p p' : orderly p → the_other_step p p' → orderly p'.
Proof.
  intros Ho Hs. ordered Ho.
  assert (∀ r b' w', p_bus_run p = Started → Bus_Run router_start (p_bus p, p_world p) = (r, (b', w')) →
    p_main p = AwaitBus ∧ ¬ is_Some (p_crash p) ∧ (∀ m, r ≠ Panic m) ∧ ready (transport b') ∧
    (running b' = true ↔ r = Ok tt)) as Hboot.
  { intros r b' w' Hst Hr. destruct (Hbus Hst) as [Hbb Hww].
    rewrite Hbb, (unused_running b Hb) in Hrun, Hcr.
    split; [by destruct Hrun|]. split; [by intros [? _]%Hcr|]. rewrite Hbb, Hww in Hr. by apply Bus_Run_unused in Hr. }
  assert (p_relay p ≠ NotStarted ∨ p_watchdog p ≠ NotStarted →
    running (p_bus p) = true ∧ p_main p ≠ AwaitBus) as Hpast.
  { intros Hne. assert (p_main p ≠ AwaitBus) as Hm by (intros Hm; destruct (Hawait Hm); by destruct Hne).
    split; [by destruct Hrun|done]. }
  destruct Hs as [p b' w' Hst Hr|p err b' w' Hst Hr Hlen|p m [b' w'] Hst Hr|p Hst|p err Hst Hlen|p Hst
    |p err Hst Hlen|p i Hst Hi Ht|p i m Hst Hi Ht|p Hst Hc|p Hst Ht|p m Hst Ht|p Hst Hc|p].
  - destruct (Hboot _ _ _ Hst Hr) as (Hm & Hnc & _ & Hrdy' & Hru).
    apply proj2 in Hru. specialize (Hru eq_refl). rewrite Hst in Hroom. settle.
  - destruct (Hboot _ _ _ Hst Hr) as (Hm & Hnc & _ & Hrdy' & Hru).
    rewrite Hst in Hroom. settle.
    rewrite length_app. simpl. lia.
  - destruct (Hboot _ _ _ Hst Hr) as (_ & _ & Hnp & _). by destruct (Hnp m).
  - rewrite Hst in Hroom. settle.
  - rewrite Hst in Hroom. settle. rewrite length_app. simpl. lia.
  - rewrite Hst in Hroom, Hserver, Hdown.
    settle; intros Hx; [by specialize (Hserver Hx)|by destruct (Hdown Hx)].
  - assert (may_report (p_server p) = 1)%nat as Hone by (by destruct Hst as [-> | ->]).
    rewrite Hone in Hroom.
    settle; [rewrite length_app; simpl; lia|intros Hx; specialize (Hserver Hx); destruct Hst; congruence|].
    intros Hx. by destruct (Hdown Hx).
  - destruct Hpast as [Hru Hm]; [left; congruence|]. settle.
  - destruct Hpast as [Hru Hm]; [left; congruence|].
    apply NewTicker_panics in Ht. settle. eauto.
  - destruct Hpast as [Hru Hm]; [left; congruence|]. settle.
  - destruct Hpast as [Hru Hm]; [right; congruence|]. settle.
  - destruct Hpast as [Hru Hm]; [right; congruence|].
    apply half_panics in Ht; [|auto]. settle.
  - destruct Hpast as [Hru Hm]; [right; congruence|]. settle.
  - settle. intros Hx. by destruct (Hdown Hx).
Qed.

Lemma orderly_step p p' : process_step p p' → orderly p → orderly p'.
Proof.
  intros [p1 p2 _ Hs|p1 p2 _ Hs] Ho; [by eapply orderly_main|by eapply orderly_other].
Qed.

Lemma orderly_lives p : lives p → orderly p.
Proof.
  intros Hl. unfold Process.lives in Hl. pose proof orderly_launched as Ho. revert Ho.
  induction Hl as [|p1 p2 p3 Hs _ IH]; [done|]. intros Ho. apply IH. by eapply orderly_step.
Qed.

(** C10 The order [Run] keeps, whatever the goroutines do and however they
    interleave: nothing that needs the bus is launched before the bus runs; the bus
    is closed, and [Run] answers [nil], only after a cancellation and once the
    server has stopped taking requests; no goroutine ever waits to report its
    error. *)
Theorem run_in_order p :
  lives p →
  (p_relay p ≠ NotStarted ∨ p_watchdog p ≠ NotStarted ∨ p_server p ≠ NotStarted →
     running (p_bus p) = true) ∧
  (p_main p = StopBus ∨ p_main p = StopTracing ∨ p_main p = Returned (Ok tt) →
     p_server p = Ended ∧ p_cancelled p = true) ∧
  (p_bus_run p = Started ∨ p_bus_run p = Working ∨ p_server p = Started ∨ p_server p = Working →
     (length (p_errCh p) < errCh_capacity)%nat).
Proof.
  intros Ho%orderly_lives. ordered Ho. unfold errCh_capacity. split_and!; [|done|].
  - intros Hs. destruct Hrun as [|Hm]; [done|]. destruct (Hawait Hm).
    rewrite Hm in Hserver. simpl in Hserver. specialize (Hserver ltac:(lia)). by destruct_or?.
  - intros Hr. destruct (p_bus_run p), (p_server p); simpl in Hroom; (lia || by destruct_or?).
Qed.

(** What [Run] has left to do shrinks with every step of its own, and nobody else's
    step moves it. *)
Lemma process_step_rank p p' :
  process_step p p' →
  p_main p' = p_main p ∨ (main_rank (p_main p') < main_rank (p_main p))%nat.
Proof.
  intros [p1 p2 _ Hs|p1 p2 _ Hs]; [right|left; by destruct Hs].
  destruct Hs as [q Hm Hr|q Hm|q Hm|q Hm Hc|q err l Hm He|q r Hm Hr|q errs b' w' Hm Hclo|q r Hm Hr];
    rewrite Hm; simpl; try lia; [destruct r as [[]|e|m]|destruct errs|destruct r as [[]|e|m]]; simpl; lia.
Qed.

(** C28 A shutdown completes. Once the bus runs and the context is cancelled, [Run]
    is never stuck: until it returns (or a panic ends the process) it has a step to
    take, each of its steps brings the return nearer, and no step of another
    goroutine puts it off. *)
Theorem shutdown_completes p :
  lives p → alive p → running (p_bus p) = true → p_cancelled p = true →
  (∃ p', process_step p p' ∧ (main_rank (p_main p') < main_rank (p_main p))%nat) ∧
  (∀ p', process_step p p' →
     p_main p' = p_main p ∨ (main_rank (p_main p') < main_rank (p_main p))%nat).
Proof.
  intros Ho%orderly_lives Ha Hr Hc. split; [|apply process_step_rank].
  assert (∃ p', the_main_step p p' ∧ p_main p' ≠ p_main p) as (p' & Hs & Hne).
  { destruct (p_main p) eqn:Hm.
    - eexists. split; [by eapply main_bus_runs|done].
    - eexists. split; [by eapply main_supervises|done].
    - eexists. split; [by eapply main_listens|done].
    - eexists. split; [by eapply main_cancelled|done].
    - eexists. split; [by apply (main_stops_http _ _ _ _ _ (Ok tt))|done].
    - destruct (Bus_Close_returns router_Close (p_bus p) (p_world p) Hclose (od_ready _ Ho))
        as (errs & b' & w' & Hcl & _). eexists. split; [by eapply main_stops_bus|by destruct errs].
    - eexists. split; [by apply (main_stops_tracing _ _ _ _ _ (Ok tt))|done].
    - destruct Ha as [_ Ha]. by destruct (Ha r). }
  exists p'. assert (process_step p p') as Hp by by constructor. split; [done|].
  by destruct (process_step_rank _ _ Hp).
Qed.

(** A process whose bus starts comes up. *)
Definition serving (b' : ServiceBus T C) (w' : W) : Process T W C :=
  mkProcess Select b' Working (if relay_interval is Some _ then Started else NotStarted)
    (if SagaStepTimeout <=? 0 then NotStarted else Started) Started [] false None w'.

Lemma comes_up b' w' :
  Bus_Run router_start (b, w) = (Ok tt, (b', w')) → lives (serving b' w').
Proof.
  intros Hr. pose proof (Bus_Run_unused _ _ _ _ _ _ Hstart Hb Hr) as (_ & _ & Hru).
  pose proof (proj2 Hru eq_refl) as Hrun.
  eapply rtc_l; [apply step_other; [done|by apply bus_starts]|].
  eapply rtc_l; [apply step_main; [done|by apply main_bus_runs]|].
  eapply rtc_l; [apply step_main; [done|by apply main_supervises]|].
  eapply rtc_l; [apply step_main; [done|by apply main_listens]|].
  apply rtc_refl.
Qed.

Lemma lives_cancelled p : lives p → alive p → lives (cancel p).
Proof. intros Hl Ha. eapply rtc_r; [exact Hl|]. apply step_other; [exact Ha|apply signal]. Qed.

(** *** A bus that cannot start *)

(** Where such a process stays. *)
Definition stuck_boot p : Prop :=
  p_main p = AwaitBus ∧ p_crash p = None ∧ running (p_bus p) = false ∧
  p_relay p = NotStarted ∧ p_watchdog p = NotStarted ∧ p_server p = NotStarted ∧
  (p_bus_run p = Started ∧ p_bus p = b ∧ p_world p = w ∨ p_bus_run p = Ended).

Lemma stuck_boot_step err x p p' :
  Bus_Run router_start (b, w) = (Err err, x) → process_step p p' → stuck_boot p → stuck_boot p'.
Proof.
  intros Hb' Hs (Hm & Hc & Hr & Hre & Hw & Hse & Hbr). destruct x as [b' w'].
  pose proof (Bus_Run_unused _ _ _ _ _ _ Hstart Hb Hb') as (_ & _ & Hru).
  destruct Hs as [p1 p2 _ Hs|p1 p2 _ Hs]; [destruct Hs; unfold Bus_Running in *; congruence|].
  destruct Hs as [q b1 w1 Hst Hr1|q err1 b1 w1 Hst Hr1 Hlen|q m x Hst Hr1|q Hst|q err1 Hst Hlen|q Hst
    |q err1 Hst Hlen|q i Hst Hi Ht|q i m Hst Hi Ht|q Hst Hc1|q Hst Ht|q m Hst Ht|q Hst Hc1|q];
    try (destruct_or?; destruct_and?; congruence).
  - destruct Hbr as [(_ & Hpb & Hpw)|]; [|congruence]. rewrite Hpb, Hpw, Hb' in Hr1.
    injection Hr1 as <- <- <-. unfold stuck_boot. simpl. split_and!; try done; [|by right].
    destruct (running b'); [|done]. by destruct Hru as [Hru _]; specialize (Hru eq_refl).
  - by unfold stuck_boot.
Qed.

Lemma stuck_boot_final p p' :
  stuck_boot p → p_bus_run p = Ended → p_cancelled p = true → process_step p p' → p' = p.
Proof.
  intros (Hm & Hc & Hr & Hre & Hw & Hse & _) He Hca Hs.
  destruct Hs as [p1 p2 _ Hs|p1 p2 _ Hs]; [destruct Hs; unfold Bus_Running in *; congruence|].
  destruct Hs; try (destruct_or?; congruence). destruct p. simpl in Hca. by subst.
Qed.

Lemma stuck_boot_lives err x p :
  Bus_Run router_start (b, w) = (Err err, x) → lives p → stuck_boot p.
Proof.
  intros Hb' Hl.
  assert (stuck_boot (launched b w)) as H0.
  { pose proof (unused_running b Hb). unfold stuck_boot. simpl. split_and!; auto. }
  revert H0. unfold Process.lives in Hl. induction Hl as [|p1 p2 p3 Hs _ IH]; [done|].
  intros H0. apply IH. by eapply stuck_boot_step.
Qed.

(** C29 A process whose bus cannot start hangs. If attaching the handlers or starting
    the router fails, the error is put where nobody reads it: [Run] waits for the
    bus for ever, in every run, also once its context is cancelled, and one run ends
    in a state that nothing leaves. [StartBus], which waits for the context too,
    answers there, with an error of the context and not with that of the bus. *)
Theorem failed_boot_hangs err x :
  Bus_Run router_start (b, w) = (Err err, x) →
  (∀ p, lives p → p_main p = AwaitBus ∧ p_crash p = None) ∧
  ∃ p, lives p ∧ p_cancelled p = true ∧ p_errCh p = [Errorf "service bus" err] ∧
    (∀ p', process_step p p' → p' = p) ∧ (∃ e, StartBus_returns p (Err e)) ∧
    ∀ r, StartBus_returns p r → ∃ e, r = Err e ∧ e ∈ [context_Canceled; context_DeadlineExceeded].
Proof.
  intros Hb'. split.
  - intros p Hl. by destruct (stuck_boot_lives _ _ _ Hb' Hl) as (Hm & Hc & _).
  - destruct x as [b' w'].
    pose proof (Bus_Run_unused _ _ _ _ _ _ Hstart Hb Hb') as (_ & _ & Hru).
    assert (running b' = false) as Hrn.
    { destruct (running b'); [|done]. by destruct Hru as [Hru _]; specialize (Hru eq_refl). }
    eexists. split; [|split; [|split; [|split; [|split]]]].
    + eapply rtc_l; [apply step_other; [done|by eapply bus_fails; [..|simpl; unfold errCh_capacity; lia]]|].
      eapply rtc_l; [apply step_other; [done|by apply signal]|apply rtc_refl].
    + done.
    + done.
    + intros p'. apply stuck_boot_final; [|done..]. unfold stuck_boot. simpl.
      split_and!; try done; by right.
    + exists context_Canceled. constructor; [done|]. by left.
    + intros r0 [Hrun|e _ He]; [simpl in Hrun; congruence|eauto].
Qed.

(** C30 The only panics. A process whose bus can start dies of a panic in some run
    exactly when an interval of its configuration starts no ticker: the relay's, if
    it is not positive, or half the saga's step timeout, if that is one nanosecond;
    a process whose bus cannot start never panics. *)
Theorem panics_exactly :
  (∃ p, lives p ∧ is_Some (p_crash p)) ↔
  (∃ x, Bus_Run router_start (b, w) = (Ok tt, x)) ∧
  ((∃ i, relay_interval = Some i ∧ i ≤ 0) ∨ SagaStepTimeout = 1).
Proof.
  split.
  - intros (p & Hl & Hc). pose proof (od_crash p (orderly_lives p Hl) Hc) as [Hr Hi].
    split; [|done]. destruct (Bus_Run router_start (b, w)) as [[[]|err|m] x] eqn:E; [by eexists| |].
    + destruct (stuck_boot_lives _ _ _ E Hl) as (_ & Hn & _). rewrite Hn in Hc. by destruct Hc.
    + destruct x as [b' w']. apply Bus_Run_unused in E as (Hnp & _); [|done..]. by destruct (Hnp m).
  - intros [[[b' w'] Hr] Hi].
    pose proof (Bus_Run_unused _ _ _ _ _ _ Hstart Hb Hr) as (_ & _ & Hru).
    pose proof (proj2 Hru eq_refl) as Hrun.
    set (p1 := with_bus b' Working w' (launched b w)).
    set (p2 := with_relay (if relay_interval is Some _ then Started else NotStarted) (at_main Supervise p1)).
    assert (lives p2) as Hp2.
    { eapply rtc_l; [apply step_other; [done|by apply bus_starts]|].
      apply rtc_once, step_main; [done|by apply main_bus_runs]. }
    destruct Hi as [(i & Hi & Hle)|Ht].
    + exists (crash "non-positive interval for NewTicker" p2). split; [|by eexists].
      eapply rtc_r; [exact Hp2|]. apply step_other; [done|].
      eapply relay_panics; [by unfold p2; rewrite Hi|exact Hi|].
      unfold NewTicker. by rewrite (proj2 (Z.ltb_ge _ _) Hle).
    + set (p3 := with_watchdog Started (at_main Listen p2)).
      exists (crash "non-positive interval for NewTicker" p3). split; [|by eexists].
      eapply rtc_r; [eapply rtc_r; [exact Hp2|]|].
      * apply step_main; [done|].
        pose proof (main_supervises router_Close errors_Join SagaStepTimeout relay_interval p2 eq_refl) as Hs.
        by destruct (Z.leb_spec SagaStepTimeout 0); [lia|].
      * apply step_other; [done|]. eapply watchdog_panics; [done|]. by rewrite Ht.
Qed.
End facts.
