(* ===== verification/Json.v ===== *)
(** * JSON on the wire and in the store

    [encoding/json] as the program uses it: structs become objects keyed by
    their tags, an embedded base struct lends its keys to the object around it,
    and a consumer decodes into a struct of its own. A document is a tree; its
    text, and the text of numbers and dates, belong to the standard library and
    are the classes [GoText] and [JsonText]. *)
From S2P Require Import Prelude Errors Kernel Bus.
#[local] Open Scope Z_scope.

(** ** Text *)

(** [strconv]'s and [time]'s text: a literal is what stands in a JSON document
    for a number. The laws are documented: a number or date that has a text
    reads back as itself ([NaN], the infinities and years of five digits have
    none, hence the options). *)
Class GoText := {
  literal : Type;
  FormatInt : Z → literal;
  ParseInt : literal → option Z;
  FormatFloat : float64 → option literal;
  ParseFloat : literal → option float64;
  time_MarshalText : Time → option string;
  time_UnmarshalText : string → option Time;
  ParseInt_FormatInt : ∀ z, Int.in_range z → ParseInt (FormatInt z) = Some z;
  ParseFloat_FormatFloat : ∀ f l, FormatFloat f = Some l → ParseFloat l = Some f;
  time_text : ∀ t s, time_MarshalText t = Some s → time_UnmarshalText s = Some t;
}.

Inductive json `{GoText} :=
| JNull
| JBool (b : bool)
| JNumber (l : literal)
| JString (s : string)
| JArray (items : list json)
| JObject (members : list (string * json)).

(** A document as bytes of type [P]: what was printed parses back. *)
Class JsonText `{GoText} (P : Type) := {
  print_json : json → P;
  parse_json : P → result json;
  parse_print_json : ∀ j, parse_json (print_json j) = Ok j;
}.

(** ** Encoders and decoders *)

(** Decoding works on a variable that has a value already: a member that is
    missing, or [null], leaves it as it is. *)
Class ToJson `{GoText} (A : Type) := to_json : A → result json.
Class FromJson `{GoText} (A : Type) := {
  zero_value : A;
  from_json : json → A → result A;
}.

(** A document may come back from a database column (PostgreSQL's [jsonb]) as
    another document of the same content: the members of an object in another
    order, of several members with one key the last one only, and numbers in
    another spelling. *)
Definition last_member `{GoText} (key : string) (ms : list (string * json)) : option json :=
  foldl (λ found m, if bool_decide (m.1 = key) then Some m.2 else found) None ms.

Inductive same_content `{GoText} : json → json → Prop :=
| same_document j : same_content j j
| same_number l l' :
    ParseInt l' = ParseInt l → ParseFloat l' = ParseFloat l →
    same_content (JNumber l) (JNumber l')
| same_array items items' :
    Forall2 same_content items items' → same_content (JArray items) (JArray items')
| same_object ms ms' :
    NoDup ms'.*1 →
    (∀ key, option_Forall2 same_content (last_member key ms) (last_member key ms')) →
    same_content (JObject ms) (JObject ms').

(** A producer's [A] is read by a consumer as the [B] that [f] says, also when
    the document was in a database column meanwhile. *)
Class JsonReads `{GoText} {A B : Type} `{!ToJson A, !FromJson B} (f : A → B) :=
  json_reads : ∀ a j j' prior, to_json a = Ok j → same_content j j' →
    from_json j' prior = Ok (f a).
Arguments JsonReads {_} A B {_ _} f.

Definition unsupported_value : error := ErrExternal "json: unsupported value".
Definition type_mismatch : error := ErrExternal "json: cannot unmarshal value".

Section leaves.
Context `{GoText}.

(** A Go [int] is in range; the guard keeps the rest of [Z] out. *)
#[global] Instance int_to_json : ToJson Z := λ z,
  if decide (- 2 ^ 63 ≤ z ∧ z < 2 ^ 63) then Ok (JNumber (FormatInt z)) else Err unsupported_value.
#[global] Instance int_from_json : FromJson Z := {
  zero_value := 0;
  from_json j prior :=
    match j with
    | JNull => Ok prior
    | JNumber l => match ParseInt l with Some z => Ok z | None => Err type_mismatch end
    | _ => Err type_mismatch
    end }.

#[global] Instance string_to_json : ToJson string := λ s, Ok (JString s).
#[global] Instance string_from_json : FromJson string := {
  zero_value := "";
  from_json j prior :=
    match j with JNull => Ok prior | JString s => Ok s | _ => Err type_mismatch end }.

Definition float_to_json (f : float64) : result json :=
  match FormatFloat f with Some l => Ok (JNumber l) | None => Err unsupported_value end.
Definition float_from_json (j : json) (prior : float64) : result float64 :=
  match j with
  | JNull => Ok prior
  | JNumber l => match ParseFloat l with Some f => Ok f | None => Err type_mismatch end
  | _ => Err type_mismatch
  end.

Definition time_to_json (t : Time) : result json :=
  match time_MarshalText t with Some s => Ok (JString s) | None => Err unsupported_value end.
Definition time_from_json (j : json) (prior : Time) : result Time :=
  match j with
  | JNull => Ok prior
  | JString s => match time_UnmarshalText s with Some t => Ok t | None => Err type_mismatch end
  | _ => Err type_mismatch
  end.

(** [uuid.UUID] implements [TextMarshaler] with [String] and [Parse]. *)
#[global] Instance uuid_to_json `{UuidLib} : ToJson UUID := λ u, Ok (JString (uuid_String u)).
#[global] Instance uuid_from_json `{UuidLib} : FromJson UUID := {
  zero_value := uuid_Nil;
  from_json j prior :=
    match j with
    | JNull => Ok prior
    | JString s => match uuid_Parse s with Some u => Ok u | None => Err type_mismatch end
    | _ => Err type_mismatch
    end }.

(** *** Slices *)
Fixpoint all_ok {A} (rs : list (result A)) : result (list A) :=
  match rs with
  | [] => Ok []
  | r :: rs => result_bind (λ a, result_bind (λ l, Ok (a :: l)) (all_ok rs)) r
  end.

#[global] Instance slice_to_json `{!ToJson A} : ToJson (list A) := λ l,
  result_bind (λ items, Ok (JArray items)) (all_ok (map to_json l)).
#[global] Instance slice_from_json `{!FromJson A} : FromJson (list A) := {
  zero_value := [];
  from_json j prior :=
    match j with
    | JNull => Ok []
    | JArray items => all_ok (map (λ item, from_json item zero_value) items)
    | _ => Err type_mismatch
    end }.

(** *** Structs *)

(** The members of an object, in the order of the fields. *)
Fixpoint members (fields : list (string * result json)) : result (list (string * json)) :=
  match fields with
  | [] => Ok []
  | (tag, r) :: fields =>
      result_bind (λ j, result_bind (λ l, Ok ((tag, j) :: l)) (members fields)) r
  end.

Definition object (fields : list (string * result json)) : result json :=
  result_bind (λ l, Ok (JObject l)) (members fields).

(** A key names a field up to the case of its (ASCII) letters. *)
Definition lower (c : ascii) : ascii :=
  let n := nat_of_ascii c in
  if (65 <=? n)%nat && (n <=? 90)%nat then ascii_of_nat (n + 32) else c.

Fixpoint fold_eq (s t : string) : bool :=
  match s, t with
  | EmptyString, EmptyString => true
  | String c s, String d t => bool_decide (lower c = lower d) && fold_eq s t
  | _, _ => false
  end.

(** Decode the members that name the field [tag], in document order. *)
Fixpoint field_with {A} (dec : json → A → result A) (tag : string)
    (ms : list (string * json)) (prior : A) : result A :=
  match ms with
  | [] => Ok prior
  | (key, j) :: ms =>
      if fold_eq tag key then result_bind (field_with dec tag ms) (dec j prior)
      else field_with dec tag ms prior
  end.

Definition field `{!FromJson A} : string → list (string * json) → A → result A :=
  field_with from_json.

(** A struct from its members; [null] leaves the variable alone. *)
Definition struct_from_json {A} (dec : list (string * json) → A → result A)
    (j : json) (prior : A) : result A :=
  match j with
  | JNull => Ok prior
  | JObject ms => dec ms prior
  | _ => Err type_mismatch
  end.
End leaves.

(** ** [json.Marshal] and [json.Unmarshal] *)
Section marshal.
Context `{GoText} {P : Type} `{!JsonText P}.

#[global] Instance marshal_json `{!ToJson A} : JsonMarshal A P := λ a,
  result_bind (λ j, Ok (print_json j)) (to_json a).
#[global] Instance unmarshal_json `{!FromJson A} : JsonUnmarshal A P := λ p,
  result_bind (λ j, from_json j zero_value) (parse_json p).

Lemma unmarshal_reads `{!ToJson A, !FromJson B, !JsonReads A B f} (a : A) (p : P) :
  json_Marshal a = Ok p → json_Unmarshal p = Ok (f a).
Proof.
  unfold json_Marshal, marshal_json, json_Unmarshal, unmarshal_json, result_bind.
  destruct (to_json a) as [j|e|m] eqn:Hj; [|done..]. intros [= <-].
  rewrite parse_print_json. apply (json_reads a j j zero_value Hj). constructor.
Qed.

Lemma marshal_no_panic `{!ToJson A} (a : A) :
  (∀ m, to_json a ≠ Panic m) → ∀ m, json_Marshal a ≠ (Panic m : result P).
Proof.
  intros Ha m. unfold json_Marshal, marshal_json, result_bind.
  destruct (to_json a) eqn:E; [done..|]. by destruct (Ha _ eq_refl).
Qed.
End marshal.

(** ** What is written is read back *)
Section reads.
Context `{GoText}.

#[global] Instance int_reads : JsonReads Z Z (λ z, z).
Proof.
  intros z j j' prior Hz Hj. unfold to_json, int_to_json in Hz. case_decide; [|done].
  injection Hz as <-. inversion Hj as [|? ? Hi _| |]; simplify_eq; simpl;
    by rewrite ?Hi, ParseInt_FormatInt.
Qed.

#[global] Instance string_reads : JsonReads string string (λ s, s).
Proof. intros s j j' prior [= <-] Hj. by inversion Hj. Qed.

#[global] Instance uuid_reads `{UuidLib} : JsonReads UUID UUID (λ u, u).
Proof.
  intros u j j' prior [= <-] Hj. inversion Hj. simpl. by rewrite uuid_Parse_String.
Qed.

Lemma float_reads f j j' prior :
  float_to_json f = Ok j → same_content j j' → float_from_json j' prior = Ok f.
Proof.
  unfold float_to_json. destruct (FormatFloat f) as [l|] eqn:E; [|done]. intros [= <-] Hj.
  inversion Hj as [|? ? _ Hf| |]; simplify_eq; simpl;
    by rewrite ?Hf, (ParseFloat_FormatFloat f l E).
Qed.

Lemma time_reads t j j' prior :
  time_to_json t = Ok j → same_content j j' → time_from_json j' prior = Ok t.
Proof.
  unfold time_to_json. destruct (time_MarshalText t) as [s|] eqn:E; [|done].
  intros [= <-] Hj. inversion Hj; subst. simpl. by rewrite (time_text t s E).
Qed.

Lemma same_array_inv items j' :
  same_content (JArray items) j' →
  ∃ items', j' = JArray items' ∧ Forall2 same_content items items'.
Proof.
  intros Hj. inversion Hj; subst; eexists; (split; [done|]); [|done].
  apply Forall_Forall2_diag, Forall_true. constructor.
Qed.

#[global] Instance slice_reads `{!ToJson A, !FromJson B, !JsonReads A B f} :
  JsonReads (list A) (list B) (map f).
Proof.
  intros l j j' prior. unfold to_json, slice_to_json, result_bind.
  destruct (all_ok _) as [items|e|m] eqn:Hl; [|done..].
  intros [= <-] (items' & -> & Hi)%same_array_inv. simpl.
  revert items items' Hl Hi. induction l as [|a l IH]; intros items items' Hl Hi; simpl in *.
  - injection Hl as <-. by inversion Hi.
  - unfold result_bind in Hl. destruct (to_json a) as [ja|e|m] eqn:Ha; [|done..].
    destruct (all_ok (map to_json l)) as [js|e|m]; [|done..]. injection Hl as <-.
    inversion Hi as [|? j' ? js' Hj' Hjs']; subst. simpl.
    rewrite (json_reads (f := f) a ja j' zero_value Ha Hj'). simpl.
    by rewrite (IH js js' eq_refl Hjs').
Qed.

(** Objects, one member at a time. *)
Lemma members_cons tag r fields l :
  members ((tag, r) :: fields) = Ok l →
  ∃ j l', r = Ok j ∧ members fields = Ok l' ∧ l = (tag, j) :: l'.
Proof.
  simpl. unfold result_bind. destruct r as [j|e|m]; [|done..].
  destruct (members fields) as [l'|e|m]; [|done..]. intros [= <-]. eauto.
Qed.

(** The members a field reads. *)
Definition named (tag : string) (ms : list (string * json)) : list (string * json) :=
  base.filter (λ m, fold_eq tag m.1 = true) ms.

Lemma field_named {A} (dec : json → A → result A) tag ms prior :
  field_with dec tag ms prior = field_with dec tag (named tag ms) prior.
Proof.
  unfold named. revert prior. induction ms as [|[key j] ms IH]; intros prior; [done|].
  rewrite filter_cons. simpl. destruct (fold_eq tag key) eqn:Hk; simpl; [|apply IH].
  rewrite Hk. unfold result_bind. by destruct (dec j prior).
Qed.

Lemma last_member_Some key ms j :
  last_member key ms = Some j → (key, j) ∈ ms.
Proof.
  unfold last_member. induction ms as [|[k x] ms IH] using rev_ind; [done|].
  rewrite foldl_app. simpl. case_bool_decide; subst; rewrite elem_of_app.
  - intros [= ->]. right. by left.
  - intros Hj. left. by apply IH.
Qed.

Lemma last_member_is_Some key j ms :
  (key, j) ∈ ms → is_Some (last_member key ms).
Proof.
  unfold last_member. induction ms as [|[k x] ms IH] using rev_ind; [by intros ?%elem_of_nil|].
  rewrite foldl_app. simpl. case_bool_decide; [by eexists|].
  rewrite elem_of_app, list_elem_of_singleton. intros [?|[= -> ->]]; [by apply IH|done].
Qed.

(** What a field reads of a document that came back. *)
Lemma same_object_inv ms j' :
  same_content (JObject ms) j' →
  ∃ ms', j' = JObject ms' ∧
    (∀ tag, named tag ms = [] → named tag ms' = []) ∧
    (∀ tag k j, named tag ms = [(k, j)] →
       ∃ j', named tag ms' = [(k, j')] ∧ same_content j j').
Proof.
  intros Hj. inversion Hj as [| | |? ms' Hnd Hlast]; subst.
  { exists ms. split; [done|]. split; [done|]. intros. eexists. split; [done|constructor]. }
  exists ms'. split; [done|].
  assert (∀ tag k x, (k, x) ∈ named tag ms' → ∃ y, (k, y) ∈ named tag ms ∧ same_content y x)
    as Hback.
  { intros tag k x [Hk Hx]%list_elem_of_filter. specialize (Hlast k).
    assert (last_member k ms' = Some x) as Hl.
    { destruct (last_member_is_Some _ _ _ Hx) as [x' Hx']. rewrite Hx'. f_equal.
      apply last_member_Some in Hx'. apply list_elem_of_lookup in Hx as [i Hi].
      apply list_elem_of_lookup in Hx' as [i' Hi'].
      assert (i' = i) as ->.
      { eapply NoDup_lookup; [exact Hnd|..]; rewrite list_lookup_fmap.
        - by rewrite Hi'.
        - by rewrite Hi. }
      by simplify_eq. }
    rewrite Hl in Hlast. inversion Hlast as [y ? Hy Hy'|]; subst. exists y.
    split; [|done]. apply list_elem_of_filter. split; [done|]. by apply last_member_Some. }
  split.
  - intros tag Hn. destruct (named tag ms') as [|[k x] rest] eqn:E; [done|].
    destruct (Hback tag k x) as (y & Hy & _); [rewrite E; left|].
    rewrite Hn in Hy. by apply elem_of_nil in Hy.
  - intros tag k j Hn.
    assert ((k, j) ∈ ms ∧ fold_eq tag k = true) as [Hin Hk].
    { assert ((k, j) ∈ named tag ms) as Hm by (rewrite Hn; left).
      by apply list_elem_of_filter in Hm as [? ?]. }
    assert (∃ x, (k, x) ∈ named tag ms') as [x Hx].
    { destruct (last_member_is_Some _ _ _ Hin) as [y Hy]. specialize (Hlast k).
      rewrite Hy in Hlast. inversion Hlast as [? x Hyx Hy1 Hx|]; subst. exists x.
      apply list_elem_of_filter. split; [done|]. by apply last_member_Some. }
    assert (NoDup (named tag ms').*1) as Hnd'.
    { eapply sublist_NoDup; [exact Hnd|]. apply fmap_sublist, sublist_filter. }
    destruct (named tag ms') as [|[k1 x1] [|[k2 x2] rest]] eqn:E.
    + by apply elem_of_nil in Hx.
    + destruct (Hback tag k1 x1) as (y & Hy & Hyx); [rewrite E; left|].
      rewrite Hn in Hy. apply list_elem_of_singleton in Hy as [= -> ->]. eauto.
    + destruct (Hback tag k1 x1) as (y & Hy & _); [rewrite E; left|].
      destruct (Hback tag k2 x2) as (z & Hz & _); [rewrite E; right; left|].
      rewrite Hn in Hy, Hz. apply list_elem_of_singleton in Hy as [= -> _], Hz as [= -> _].
      simpl in Hnd'. apply NoDup_cons in Hnd' as [[] _]. left.
Qed.

Lemma field_none {A} (dec : json → A → result A) tag ms ms' prior :
  (∀ tag, named tag ms = [] → named tag ms' = []) →
  named tag ms = [] → field_with dec tag ms' prior = Ok prior.
Proof. intros H1 H2. by rewrite field_named, (H1 _ H2). Qed.

Lemma field_one {A} (dec : json → A → result A) tag ms ms' k j prior a :
  (∀ tag k j, named tag ms = [(k, j)] →
     ∃ j', named tag ms' = [(k, j')] ∧ same_content j j') →
  named tag ms = [(k, j)] → (∀ j', same_content j j' → dec j' prior = Ok a) →
  field_with dec tag ms' prior = Ok a.
Proof.
  intros H1 H2 H3. rewrite field_named. destruct (H1 _ _ _ H2) as (j' & -> & Hj').
  assert (fold_eq tag k = true) as Hk.
  { assert ((k, j) ∈ named tag ms) as Hm by (rewrite H2; left).
    by apply list_elem_of_filter in Hm as [? _]. }
  simpl. by rewrite Hk, (H3 _ Hj').
Qed.

Lemma object_inv fields j :
  object fields = Ok j → ∃ l, j = JObject l ∧ members fields = Ok l.
Proof.
  unfold object, result_bind. destruct (members fields) as [l|e|m]; [|done..].
  intros [= <-]. eauto.
Qed.
End reads.

#[global] Instance result_mbind : MBind result := @result_bind.

(** ** Embedded base structs *)
Section bases.
Context `{GoText} {U : UuidLib}.

(** The members an embedded base struct lends to the struct around it. *)
Definition command_members (b : CommandBase) : list (string * result json) :=
  [("aggregate_id", to_json (cmd_AggregateId b)); ("commit_id", to_json (cmd_CommitId b))]%string.
Definition command_base (ms : list (string * json)) (prior : CommandBase) : result CommandBase :=
  aggregate_id ← field "aggregate_id" ms (cmd_AggregateId prior);
  commit_id ← field "commit_id" ms (cmd_CommitId prior);
  Ok (NewCommandBase aggregate_id commit_id).

Definition event_members (b : DomainEventBase) : list (string * result json) :=
  [("aggregate_id", to_json (ev_AggregateId b)); ("commit_id", to_json (ev_CommitId b))]%string.
Definition event_base (ms : list (string * json)) (prior : DomainEventBase)
    : result DomainEventBase :=
  aggregate_id ← field "aggregate_id" ms (ev_AggregateId prior);
  commit_id ← field "commit_id" ms (ev_CommitId prior);
  Ok (NewDomainEventBase aggregate_id commit_id).

Definition integration_members (b : IntegrationEventBase) : list (string * result json) :=
  [("commit_id", to_json (ie_CommitId b))]%string.
Definition integration_base (ms : list (string * json)) (prior : IntegrationEventBase)
    : result IntegrationEventBase :=
  commit_id ← field "commit_id" ms (ie_CommitId prior);
  Ok (NewIntegrationEventBase commit_id).

Definition zero_command : CommandBase := NewCommandBase uuid_Nil uuid_Nil.
Definition zero_event : DomainEventBase := NewDomainEventBase uuid_Nil uuid_Nil.
Definition zero_integration : IntegrationEventBase := NewIntegrationEventBase uuid_Nil.
End bases.

(** Solve [JsonReads] for a struct: take the object apart, member by member,
    and read each member with its own field. *)
Ltac take_members H :=
  let j := fresh "j" in let l := fresh "l" in let Hj := fresh "Hj" in
  let Hl := fresh "Hl" in
  match type of H with
  | members ?fields = ?r => let fields' := eval hnf in fields in change (members fields' = r) in H
  end;
  first
    [ apply members_cons in H as (j & l & Hj & Hl & ->); take_members Hl
    | simpl in H; injection H as <- ].

Ltac read_member :=
  let j' := fresh "j" in let Hc := fresh "Hc" in
  intros j' Hc;
  match goal with
  | Hj : to_json ?a = Ok ?j |- from_json j' ?prior = _ => exact (json_reads a j j' prior Hj Hc)
  | Hj : float_to_json ?a = Ok ?j |- float_from_json j' ?prior = _ =>
      exact (float_reads a j j' prior Hj Hc)
  | Hj : time_to_json ?a = Ok ?j |- time_from_json j' ?prior = _ =>
      exact (time_reads a j j' prior Hj Hc)
  end.

(** [Hnone] and [Hone] are what [same_object_inv] says of the members [ms]. *)
Ltac read_field Hnone Hone ms :=
  match goal with
  | |- context [field_with ?d ?t ?ms' ?p] =>
      let n := eval vm_compute in (named t ms) in
      match n with
      | [] => rewrite (field_none d t ms ms' p Hnone eq_refl)
      | [(?k, ?j)] => erewrite (field_one d t ms ms' k j p _ Hone eq_refl) by read_member
      end
  end.

Ltac read_object H Hc :=
  apply object_inv in H as (? & -> & H); take_members H;
  apply same_object_inv in Hc as (? & -> & ? & ?);
  unfold from_json at 1; cbn -[to_json from_json field_with named];
  unfold command_base, event_base, integration_base, field;
  match goal with
  | Hnone : (∀ tag, named tag ?ms = [] → _),
    Hone : (∀ tag k j, named tag ?ms = [(k, j)] → _) |- _ =>
      repeat (read_field Hnone Hone ms; cbn -[to_json from_json field_with named])
  end.

Ltac solve_reads :=
  let a := fresh "a" in let j := fresh "j" in let j' := fresh "j" in
  let prior := fresh "prior" in let H := fresh "H" in let Hc := fresh "Hc" in
  intros a j j' prior H Hc; read_object H Hc;
  clear - a; destruct a; simpl; rewrite ?map_id;
  repeat match goal with
    | |- context [cmd_AggregateId ?b] => destruct b; simpl
    | |- context [ev_AggregateId ?b] => destruct b; simpl
    end;
  reflexivity.

(** ** The structs of the shared packages *)
Section kernel.
Context `{GoText} {U : UuidLib}.

#[global] Instance Quantity_to_json : ToJson Quantity := λ q,
  object [("value", to_json (Value q)); ("unit_of_measure", to_json (UnitOfMeasure q))]%string.
#[global] Instance Quantity_from_json : FromJson Quantity := {
  zero_value := NewQuantity 0 "";
  from_json := struct_from_json (λ ms prior,
    value ← field "value" ms (Value prior);
    unit_of_measure ← field "unit_of_measure" ms (UnitOfMeasure prior);
    Ok (NewQuantity value unit_of_measure)) }.
#[global] Instance Quantity_reads : JsonReads Quantity Quantity (λ q, q).
Proof. solve_reads. Qed.

#[global] Instance Price_to_json : ToJson Price := λ p,
  object [("value", float_to_json (PriceValue p)); ("currency", to_json (Currency p))]%string.
#[global] Instance Price_from_json : FromJson Price := {
  zero_value := NewPrice (SpecFloat.S754_zero false) "";
  from_json := struct_from_json (λ ms prior,
    value ← field_with float_from_json "value" ms (PriceValue prior);
    currency ← field "currency" ms (Currency prior);
    Ok (NewPrice value currency)) }.
#[global] Instance Price_reads : JsonReads Price Price (λ p, p).
Proof. solve_reads. Qed.

End kernel.

(** ** A concrete text library

    Documents are their own text, numbers their own literals, and a date is
    written in binary, the lowest bit first. *)
Module DemoText.
Fixpoint print_positive (p : positive) : string :=
  match p with
  | xH => "."
  | xO p => String "0" (print_positive p)
  | xI p => String "1" (print_positive p)
  end.

Fixpoint parse_positive (s : string) : option positive :=
  match s with
  | String "." EmptyString => Some xH
  | String "0" s => xO <$> parse_positive s
  | String "1" s => xI <$> parse_positive s
  | _ => None
  end.

Lemma parse_print_positive p : parse_positive (print_positive p) = Some p.
Proof. induction p as [p IH|p IH|]; simpl; by rewrite ?IH. Qed.

Definition print_Z (z : Z) : string :=
  match z with
  | Z0 => "z"
  | Zpos p => String "p" (print_positive p)
  | Zneg p => String "n" (print_positive p)
  end.

Definition parse_Z (s : string) : option Z :=
  match s with
  | String "z" EmptyString => Some 0
  | String "p" s => Zpos <$> parse_positive s
  | String "n" s => Zneg <$> parse_positive s
  | _ => None
  end.

Lemma parse_print_Z z : parse_Z (print_Z z) = Some z.
Proof. destruct z; simpl; by rewrite ?parse_print_positive. Qed.

Definition finite (f : float64) : bool :=
  match f with SpecFloat.S754_zero _ | SpecFloat.S754_finite _ _ _ => true | _ => false end.

Definition ParseInt (l : Z + float64) : option Z :=
  match l with
  | inl z => if (- 2 ^ 63 <=? z) && (2 ^ 63 >? z) then Some z else None
  | inr _ => None
  end.
Definition FormatFloat (f : float64) : option (Z + float64) :=
  if finite f then Some (inr f) else None.
Definition ParseFloat (l : Z + float64) : option float64 :=
  match l with inr f => Some f | inl _ => None end.

Lemma parse_int z : Int.in_range z → ParseInt (inl z) = Some z.
Proof. intros [Hl Hu]. simpl. by rewrite (proj2 (Z.leb_le _ _) Hl), (proj2 (Z.gtb_gt _ _) (Z.lt_gt _ _ Hu)). Qed.

Lemma parse_float f l : FormatFloat f = Some l → ParseFloat l = Some f.
Proof. unfold FormatFloat. by destruct (finite f); intros [= <-]. Qed.

Lemma parse_time t s : Some (print_Z t) = Some s → parse_Z s = Some t.
Proof. intros [= <-]. apply parse_print_Z. Qed.

#[export] Instance text : GoText := {|
  literal := Z + float64;
  FormatInt := inl;
  Json.ParseInt := ParseInt;
  Json.FormatFloat := FormatFloat;
  Json.ParseFloat := ParseFloat;
  time_MarshalText t := Some (print_Z t);
  time_UnmarshalText := parse_Z;
  ParseInt_FormatInt := parse_int;
  ParseFloat_FormatFloat := parse_float;
  time_text := parse_time |}.

#[export] Instance tree : JsonText json := {|
  print_json j := j;
  parse_json := Ok;
  parse_print_json j := eq_refl |}.
End DemoText.
