(* ===== verification/Wire.v ===== *)
(** * Messages that went out, however their sender ended

    What a handler may have put on the wire when it ends, errors in the middle
    included: the counterpart of a post-condition for everything a publication
    can do. *)
From S2P Require Import Prelude Errors Kernel Aggregate EventStore World Repository.
From S2P Require Import Bus Json.
#[local] Open Scope Z_scope.

Section emitted.
Context {U : UuidLib} {B P : Type} `{!WirePublisher B P, !WirePublisherLaws B P}.

(** Everything new on the wire satisfies [Φ]. *)
Definition emitted (Φ : string * P → Prop) (b b' : B) : Prop :=
  ∃ l, published b' = published b ++ l ∧ Forall Φ l.

Lemma emitted_refl Φ b : emitted Φ b b.
Proof. exists []. by rewrite app_nil_r. Qed.

Lemma emitted_eq Φ b b' : b' = b → emitted Φ b b'.
Proof. intros ->. apply emitted_refl. Qed.

Lemma emitted_trans Φ b b' b'' : emitted Φ b b' → emitted Φ b' b'' → emitted Φ b b''.
Proof.
  intros (l & Hl & Hf) (l' & Hl' & Hf').
  exists (l ++ l'). split; [by rewrite Hl', Hl, (assoc_L (++))|]. by apply Forall_app.
Qed.

Lemma emitted_mono (Φ Ψ : string * P → Prop) b b' :
  (∀ tp, Φ tp → Ψ tp) → emitted Φ b b' → emitted Ψ b b'.
Proof. intros Hi (l & Hl & Hf). exists l. split; [done|]. by eapply Forall_impl. Qed.

(** Publishing one message, whatever comes of it. *)
Lemma payload_emitted msg topic (rp : result P) b r b' (Φ : string * P → Prop) :
  (∀ p, rp = Ok p → Φ (topic, p)) →
  (payload ← lift (result_wrap msg rp); Publish topic payload) b = (r, b') →
  emitted Φ b b'.
Proof.
  intros HΦ. go_run. destruct rp as [p|e|s]; [|by intros [= _ <-]; apply emitted_refl..].
  intros Hb. destruct r as [[]|e|s].
  - apply publish_ok in Hb. exists [(topic, p)]. split; [done|]. constructor; auto.
  - apply publish_err in Hb as [Hb|Hb]; [exists []; by rewrite app_nil_r|].
    exists [(topic, p)]. split; [done|]. constructor; auto.
  - by apply publish_no_panic in Hb.
Qed.

Lemma for_each_emitted {St A} (xs : list A) (f : A → GoM (World St B) unit)
    (w w' : World St B) r Φ :
  (∀ x w r w', x ∈ xs → f x w = (r, w') → emitted Φ (w_bus w) (w_bus w')) →
  for_each xs f w = (r, w') → emitted Φ (w_bus w) (w_bus w').
Proof.
  intros Hf. revert w. induction xs as [|x xs IH]; intros w; simpl.
  - intros [= _ <-]. apply emitted_refl.
  - unfold mbind, GoM_bind. destruct (f x w) as [rx w1] eqn:Ex.
    apply Hf in Ex; [|by left]. intros Hr. eapply emitted_trans; [exact Ex|].
    destruct rx; [|injection Hr as _ <-; apply emitted_refl..].
    eapply IH; [|exact Hr]. intros x' ???? Hx. eapply Hf; [by right|exact Hx].
Qed.

(** Saving publishes raised events only. *)
Lemma Save_emitted `{!Aggregate E A} `{!EventStore E St} `{!AggregateLaws E A}
    (view : St → string → list (StoredEvent E)) `{!EventStoreLaws view}
    (rep : EventStoreRepository E A B) a c w r w' Φ :
  (∀ pub e b rb b', publisher rep = Some pub → e ∈ UncommittedEvents a →
     pub e b = (rb, b') → emitted Φ b b') →
  Save rep a c w = (r, w') → emitted Φ (w_bus w) (w_bus w').
Proof.
  intros HΦ Hs. apply (Save_cases view) in Hs as
    [(_ & _ & ->)|[(_ & s' & _ & _ & pub & Hpub & _)|(_ & e & s' & _ & _ & ->)]];
    [apply emitted_refl| |apply emitted_refl].
  change (w_bus w) with (w_bus (put_store s' w)). unfold publish_all in Hpub.
  destruct (publisher rep) as [f|]; [|injection Hpub as _ <-; apply emitted_refl].
  eapply for_each_emitted; [|exact Hpub]. simpl.
  intros e w1 r1 w2 He (b & Hb & ->)%on_bus_inv. simpl. by eapply HΦ.
Qed.

(** A repository that publishes on the bus. *)
Context `{!Publication, !DomainEvent E, !JsonMarshal E P, !Aggregate E A, !AggregateLaws E A} `{!EventStore E St}.
Context (view : St → string → list (StoredEvent E)) `{!EventStoreLaws view}.

(** The wire entry of a domain event. *)
Definition announces (e : E) (tp : string * P) : Prop :=
  tp.1 = (domainEventTopicPrefix +:+ MessageName e)%string ∧ json_Marshal e = Ok tp.2.

(** Saving an aggregate that raised one event: another aggregate's log is left
    alone; either nothing happened, or the event is the next of the log and at
    most its announcement went out. *)
Lemma Save_one (rep : EventStoreRepository E A B) old e id c (w : World St B) r w' :
  blank_factory rep → publisher rep = eventPublisher →
  ID (RaiseEvent e (replay rep old)) = id →
  Save rep (RaiseEvent e (replay rep old)) c w = (r, w') →
  (∀ id', id' ≠ id → history view rep w' id' = history view rep w id') ∧
  (history view rep w' id = history view rep w id ∧ w_bus w' = w_bus w ∨
   length (history view rep w id) = length old ∧
   history view rep w' id = history view rep w id ++ [e] ∧
   emitted (announces e) (w_bus w) (w_bus w')).
Proof.
  intros Hb Hp Hid Hs.
  change (RaiseEvent e (replay rep old)) with (loaded_and_raised rep old [e]) in *.
  pose proof Hs as [Ho Hc]%(Save_spec view rep id); [|done..]. split.
  { intros id' Hne. unfold history. rewrite Ho; [done|]. by intros ?%stream_inj. }
  destruct Hc as [(? & ? & _)|(? & ? & _)]; [by left|right]. split; [done|]. split; [done|].
  eapply (Save_emitted view); [|exact Hs]. intros pub e' b rb b'.
  rewrite Hp, (uncommitted_raised rep old [e] Hb), list_elem_of_singleton. unfold eventPublisher.
  destruct direct; [|done]. intros [= <-] -> Hpub.
  unfold PublishDomainEvent, publish in Hpub. eapply payload_emitted; [|exact Hpub].
  by intros p Hj.
Qed.
End emitted.

(** ** Messages that say an event *)
Section conveys.
Context `{GoText} {P : Type} `{!JsonText P}.

(** A document that was written and may have been in a database column since. *)
Lemma unmarshal_same `{!ToJson A, !FromJson C, !JsonReads A C f} (a : A) (p : P) j j' :
  to_json a = Ok j → parse_json p = Ok j' → same_content j j' → json_Unmarshal p = Ok (f a).
Proof.
  intros Hj Hp Hs. unfold json_Unmarshal, unmarshal_json, result_bind. rewrite Hp.
  by apply (json_reads a j j').
Qed.

Context `{!Message E, !ToJson E}.

(** The event under its topic, up to what a column does to a document. *)
Definition conveys (e : E) (tp : string * P) : Prop :=
  tp.1 = (domainEventTopicPrefix +:+ MessageName e)%string ∧
  ∃ j j', to_json e = Ok j ∧ parse_json tp.2 = Ok j' ∧ same_content j j'.

Lemma marshalled_conveys e p topic :
  topic = (domainEventTopicPrefix +:+ MessageName e)%string → json_Marshal e = Ok p →
  conveys e (topic, p).
Proof.
  intros -> Hp. split; [done|]. unfold json_Marshal, marshal_json, result_bind in Hp.
  destruct (to_json e) as [j|err|m]; [|done..]. injection Hp as <-. exists j, j.
  split; [done|]. split; [apply parse_print_json|constructor].
Qed.
End conveys.

(** ** The outbox relay, as the rest of the process sees it

    A dispatch changes the bus, and of the store what no stream shows. *)
Class OutboxRelay (St B : Type) := relays : St → B → St → B → Prop.

Class RelayLaws `{GoText} {U : UuidLib} {St B P E : Type} `{!JsonText P, !WirePublisher B P}
    `{!Message E, !ToJson E, !OutboxRelay St B} (view : St → string → list (StoredEvent E)) := {
  relay_streams : ∀ st (b : B) st' b', relays st b st' b' → ∀ sid, view st' sid = view st sid;
  relay_emits : ∀ st (b : B) st' b', relays st b st' b' →
    emitted (λ tp : string * P, ∃ sid e, e ∈ Event <$> view st sid ∧ conveys e tp) b b';
}.

(** In memory there is none. *)
#[export] Instance InMemory_relay `{GoText} {U : UuidLib} {E B} `{!DomainEvent E} :
  OutboxRelay (InMemory.InMemoryEventStore E) B := λ _ _ _ _, False.
#[export] Instance InMemory_relay_laws `{GoText} {U : UuidLib} {E B P}
    `{!DomainEvent E, !ToJson E, !JsonText P, !WirePublisher B P} :
  RelayLaws (B := B) (P := P) (InMemory.stream_of (E := E)).
Proof. split; by intros. Qed.
