(* ===== verification/Reliable.v ===== *)
(** * An environment in which nothing fails

    What a handler promises in any environment is in the files of the handlers.
    This one is about what it promises when the store answers, accepts an append
    at the right version, and the wire accepts every message: then the calls
    that handlers are made of succeed. *)
From S2P Require Import Prelude Errors Kernel Aggregate EventStore World Repository.
From S2P Require Import Bus Json Wire Frame.
#[local] Open Scope Z_scope.

(** A store that answers, and whose only reason to refuse an append is a conflict. *)
Class ReliableStore `{EventStore E St} (view : St → string → list (StoredEvent E)) : Prop := {
  read_answers : ∀ sid st, ∃ st', ReadStream sid st = (Ok (view st sid), st');
  append_accepted : ∀ now sid c es st, ∃ st',
    Append now sid (Z.of_nat (length (view st sid))) c es st = (Ok tt, st');
}.

(** A wire that accepts. *)
Class ReliableWire (B P : Type) `{WirePublisher B P} : Prop :=
  publish_accepted : ∀ t p b, ∃ b', Publish t p b = (Ok tt, b').

#[export] Instance InMemory_reliable `{UuidLib} {E} `{!DomainEvent E} :
  ReliableStore (InMemory.stream_of (E := E)).
Proof.
  split.
  - intros sid st. by eexists.
  - intros now sid c es st. rewrite InMemory.Append_mem_spec, Z.eqb_refl. by eexists.
Qed.

(** A wire that keeps what it carries. *)
Module SureWire.
Section wire.
Context {P : Type}.
#[export] Instance sure_wire : WirePublisher (list (string * P)) P := {
  Publish topic p b := (Ok tt, b ++ [(topic, p)]); published b := b }.
#[export] Instance sure_wire_laws : WirePublisherLaws (list (string * P)) P.
Proof.
  split; [by intros t p b b' [= <-]|by intros t p b e b' [=]|by intros t p b m b' [=]].
Qed.
#[export] Instance sure_wire_reliable : ReliableWire (list (string * P)) P.
Proof. intros t p b. by eexists. Qed.
End wire.
End SureWire.

(** ** The wire only grows *)
Section growing.
Context {U : UuidLib} {St B P : Type} `{!WirePublisher B P, !WirePublisherLaws B P}.
Implicit Types (w : World St B).

Abbreviation grown b b' := (emitted (P := P) (λ _, True) b b').

(** The wire is [b] and what went out since. *)
Definition carries (b : B) w : Prop := grown b (w_bus w).

Lemma grown_elem b b' tp : grown b b' → tp ∈ published b → tp ∈ published b'.
Proof. intros (l & -> & _) Hin. apply elem_of_app. by left. Qed.

Lemma Publish_grown t p b r b' : Publish t p b = (r, b') → grown b b'.
Proof.
  intros Hb. destruct r as [[]|e|s].
  - apply publish_ok in Hb. exists [(t, p)]. by split; [|repeat constructor].
  - apply publish_err in Hb as [Hb|Hb]; [exists []; by rewrite app_nil_r|].
    exists [(t, p)]. by split; [|repeat constructor].
  - by apply publish_no_panic in Hb.
Qed.

(** What went out before is still there. *)
Lemma grows_wire {A} (m : GoM (World St B) A) w r w' :
  (∀ b0, preserves (carries b0) m) → m w = (r, w') → grown (w_bus w) (w_bus w').
Proof. intros Hm Hr. eapply Hm; [exact Hr|]. apply emitted_refl. Qed.

Lemma publish_grown `{!JsonMarshal M P} t (m : M) b r b' : publish t m b = (r, b') → grown b b'.
Proof. intros Hb. unfold publish in Hb. by eapply payload_emitted in Hb. Qed.

Context (b0 : B).
Abbreviation K := (carries b0).

Lemma frame_sends {A} (m : GoM B A) :
  (∀ b r b', m b = (r, b') → grown b b') → preserves K (on_bus m).
Proof.
  intros Hm w r w' (b & Hb & ->)%on_bus_inv Hw. by eapply emitted_trans; [|eapply Hm].
Qed.

Lemma frame_stores {A} (m : GoM St A) : preserves K (on_store m).
Proof. by intros w r w' (s & _ & ->)%on_store_inv. Qed.

Lemma carries_uuid_New : preserves K uuid_New_.
Proof. by intros w r w' [= _ <-]. Qed.

Lemma carries_time_Now : preserves K time_Now.
Proof. by intros w r w' [= _ <-]. Qed.

Lemma carries_send `{!Message C, !JsonMarshal C P} (c : C) : preserves K (on_bus (Send c)).
Proof. apply frame_sends. intros b r b'. apply publish_grown. Qed.

Lemma carries_integration `{!Message C, !JsonMarshal C P} (c : C) :
  preserves K (on_bus (PublishIntegrationEvent c)).
Proof. apply frame_sends. intros b r b'. apply publish_grown. Qed.

Context `{!Publication, !DomainEvent E, !JsonMarshal E P, !Aggregate E A} `{!EventStore E St}.

Lemma carries_GetByID (r : EventStoreRepository E A B) id : preserves K (GetByID r id).
Proof. unfold GetByID. apply preserves_bind; [apply frame_stores|intros l; frame]. Qed.

Lemma carries_Save (r : EventStoreRepository E A B) a c :
  publisher r = eventPublisher (P := P) → preserves K (Save r a c).
Proof.
  intros Hp. unfold Save, publish_all. rewrite Hp. unfold eventPublisher.
  destruct (_ =? _); [apply preserves_ret|].
  repeat (apply preserves_bind; [|intros ?]);
    [apply carries_time_Now|apply frame_stores| |apply preserves_ret].
  destruct direct; [|apply preserves_ret]. apply preserves_for_each. intros e.
  apply frame_sends. intros b res b'. apply publish_grown.
Qed.
End growing.
#[export] Hint Resolve frame_stores carries_uuid_New carries_time_Now carries_send
  carries_integration carries_GetByID carries_Save : frame.

(** ** Calls that succeed *)
Section total.
Context {U : UuidLib} {St B P : Type} `{!WirePublisher B P, !ReliableWire B P}.
Implicit Types (w : World St B).

Lemma publish_goes_out `{!JsonMarshal M P} t (m : M) b :
  writable m → ∃ b', publish t m b = (Ok tt, b').
Proof.
  intros [p Hp]. unfold publish, mbind, GoM_bind, lift. rewrite Hp. simpl. apply publish_accepted.
Qed.

Lemma on_bus_goes_out (m : GoM B unit) w :
  (∀ b, ∃ b', m b = (Ok tt, b')) → ∃ b', on_bus m w = (Ok tt, put_bus b' w).
Proof. intros Hm. unfold on_bus, zoom. destruct (Hm (w_bus w)) as [b' ->]. by eexists. Qed.

Lemma send_goes_out `{!Message C, !JsonMarshal C P} (c : C) w :
  writable c → ∃ w', on_bus (Send c) w = (Ok tt, w').
Proof.
  intros Hc. destruct (on_bus_goes_out (Send c) w) as [b' ->]; [|by eexists].
  intros b. by apply publish_goes_out.
Qed.

Lemma integration_goes_out `{!Message C, !JsonMarshal C P} (c : C) w :
  writable c → ∃ w', on_bus (PublishIntegrationEvent c) w = (Ok tt, w').
Proof.
  intros Hc. destruct (on_bus_goes_out (PublishIntegrationEvent c) w) as [b' ->]; [|by eexists].
  intros b. by apply publish_goes_out.
Qed.

Lemma for_each_goes_out {X} (xs : list X) (f : X → GoM (World St B) unit) w :
  (∀ x w, x ∈ xs → ∃ w', f x w = (Ok tt, w')) → ∃ w', for_each xs f w = (Ok tt, w').
Proof.
  revert w. induction xs as [|x xs IH]; intros w Hf; simpl; [by eexists|].
  unfold mbind, GoM_bind. destruct (Hf x w ltac:(left)) as [w1 ->].
  apply IH. intros x' w' Hin. apply Hf. by right.
Qed.

Context `{!Publication, !DomainEvent E, !JsonMarshal E P, !Aggregate E A, !AggregateLaws E A}.
Context `{!EventStore E St}.
Context (view : St → string → list (StoredEvent E)) `{!EventStoreLaws view, !ReliableStore view}.
Implicit Types (r : EventStoreRepository E A B).

(** Loading answers: what the stream replays to, or that there is none. *)
Lemma GetByID_answers r id w :
  ∃ w', same_streams view w w' ∧ w_bus w' = w_bus w ∧
    GetByID r id w =
      (match history view r w id with
       | [] => Err (Errorf (streamName r +:+ "/" +:+ uuid_String id)%string ErrAggregateNotFound)
       | l => Ok (replay r l) end, w').
Proof.
  destruct (GetByID r id w) as [res w'] eqn:Hg. exists w'.
  pose proof (GetByID_spec view r id w res w' Hg) as (Hs & Hb & _).
  split; [done|]. split; [done|]. rewrite <- Hg. clear Hs Hb.
  assert (w' = (GetByID r id w).2) as -> by (by rewrite Hg). clear Hg res.
  unfold GetByID, mbind, GoM_bind, on_store, zoom.
  destruct (read_answers (stream r id) (w_store w)) as [st' ->].
  unfold history. destruct (view (w_store w) (stream r id)) as [|x l] eqn:Hv; [done|].
  destruct (Z.eqb_spec (Z.of_nat (length (x :: l))) 0) as [Hz|_]; [by simpl in Hz|].
  rewrite fmap_cons, <- (fmap_cons Event x l), <- replay_fold. done.
Qed.

(** Saving what was loaded just now succeeds, if what it publishes can be encoded. *)
Lemma Save_succeeds r old es id c w :
  blank_factory r → publisher r = eventPublisher (P := P) → ID (loaded_and_raised r old es) = id →
  history view r w id = old → (∀ e, e ∈ es → direct = true → writable e) →
  ∃ a w', Save r (loaded_and_raised r old es) c w = (Ok a, w').
Proof.
  intros Hb Hp Hid Hlog Hes. unfold Save. rewrite (uncommitted_raised r old es Hb).
  destruct (_ =? 0); [by eexists _, _|].
  unfold time_Now. go_run. rewrite Hid, (expected_version r old es Hb).
  unfold on_store, zoom.
  replace (length old) with (length (view (w_store w) (stream r id)))
    by (rewrite <- Hlog; unfold history; by rewrite length_fmap).
  destruct (append_accepted (w_now w) (stream r id) c es (w_store w)) as [st' ->].
  unfold publish_all. rewrite Hp. unfold eventPublisher.
  destruct direct eqn:Hd; [|by eexists _, _].
  destruct (for_each_goes_out es (λ event, on_bus (PublishDomainEvent event)) (put_store st' w))
    as [w' ->]; [|by eexists _, _].
  intros e w1 He. destruct (on_bus_goes_out (PublishDomainEvent e) w1) as [b' ->]; [|by eexists].
  intros b. apply publish_goes_out. by apply Hes.
Qed.

(** A save that succeeded announced every event that was raised. *)
Context `{!WirePublisherLaws B P}.

Lemma for_each_announces es w w' :
  for_each es (λ e, on_bus (PublishDomainEvent e)) w = (Ok tt, w') →
  ∀ e, e ∈ es → ∃ tp, announces e tp ∧ tp ∈ published (w_bus w').
Proof.
  revert w. induction es as [|e es IH]; intros w; simpl; [by intros _ e ?%elem_of_nil|].
  intros ([] & w1 & H1 & H2)%bind_inv_Ok e' [->|Hin]%elem_of_cons; [|by eapply IH].
  apply on_bus_inv in H1 as (b & Hb & ->). unfold PublishDomainEvent, publish in Hb. go_run.
  destruct (json_Marshal e) as [p|err|m] eqn:Hp; [|done..].
  exists ((domainEventTopicPrefix +:+ MessageName e)%string, p). split; [done|].
  assert (carries (P := P) b w') as Hg.
  { eapply preserves_for_each; [|exact H2|apply emitted_refl]. intros x.
    apply frame_sends. intros b1 r1 b2. apply publish_grown. }
  eapply grown_elem; [exact Hg|]. apply publish_ok in Hb. rewrite Hb. set_solver.
Qed.

Lemma Save_announces r old es c w a w' :
  blank_factory r → publisher r = eventPublisher (P := P) → direct = true →
  Save r (loaded_and_raised r old es) c w = (Ok a, w') →
  ∀ e, e ∈ es → ∃ tp, announces e tp ∧ tp ∈ published (w_bus w').
Proof.
  intros Hb Hp Hd Hs. apply (Save_cases view) in Hs;
    rewrite (uncommitted_raised r old es Hb) in Hs.
  destruct Hs as [(-> & _)|[(_ & s' & _ & _ & pub & Hpub & Hr)|(_ & e & s' & _ & [=] & _)]];
    [by intros e ?%elem_of_nil|].
  destruct pub as [[]|e|m]; [|done..]. unfold publish_all in Hpub. rewrite Hp in Hpub.
  unfold eventPublisher in Hpub. rewrite Hd in Hpub. by eapply for_each_announces.
Qed.
End total.
