(* ===== verification/WarehouseKernel.v ===== *)
(** * The published language of the Warehouses module
    ([internal/warehouses/sharedkernel])

  Custom types, commands, domain events (of the [Availability] aggregate and
  of the order-allocation saga) and integration events, with the constructors
  and wire names of the source. *)
From S2P Require Import Prelude Errors Kernel.
#[local] Open Scope Z_scope.

Section kernel.
Context `{UuidLib}.

(** ** customtypes.go *)
Record BeerId := mkBeerId { BeerId_Value : UUID }.
Record BeerName := mkBeerName { BeerName_Value : string }.

#[global] Instance BeerId_eq_dec : EqDecision BeerId.
Proof. solve_decision. Defined.
#[global] Instance BeerName_eq_dec : EqDecision BeerName.
Proof. solve_decision. Defined.

(** ** commands.go *)
Record UpdateAvailabilityDueToProductionOrder := mkUpdateAvailabilityDueToProductionOrder {
  uapo_base : CommandBase; uapo_BeerId : BeerId; uapo_BeerName : BeerName;
  uapo_Quantity : Quantity }.

Definition NewUpdateAvailabilityDueToProductionOrder
    (beerId : BeerId) (commitId : UUID) (beerName : BeerName) (quantity : Quantity) :=
  mkUpdateAvailabilityDueToProductionOrder
    (NewCommandBase (BeerId_Value beerId) commitId) beerId beerName quantity.

Record UpdateAvailabilityDueToSalesOrder := mkUpdateAvailabilityDueToSalesOrder {
  uaso_base : CommandBase; uaso_BeerId : BeerId; uaso_BeerName : BeerName;
  uaso_Quantity : Quantity; uaso_SalesOrderId : string }.

Definition NewUpdateAvailabilityDueToSalesOrder
    (beerId : BeerId) (commitId : UUID) (beerName : BeerName) (quantity : Quantity)
    (salesOrderId : string) :=
  mkUpdateAvailabilityDueToSalesOrder
    (NewCommandBase (BeerId_Value beerId) commitId) beerId beerName quantity salesOrderId.

Record CompensateAvailabilityDueToFailedAllocation :=
  mkCompensateAvailabilityDueToFailedAllocation {
  cafa_base : CommandBase; cafa_BeerId : BeerId; cafa_Quantity : Quantity;
  cafa_SalesOrderId : string }.

Definition NewCompensateAvailabilityDueToFailedAllocation
    (beerId : BeerId) (commitId : UUID) (quantity : Quantity) (salesOrderId : string) :=
  mkCompensateAvailabilityDueToFailedAllocation
    (NewCommandBase (BeerId_Value beerId) commitId) beerId quantity salesOrderId.

#[global] Instance UpdateAvailabilityDueToProductionOrder_Command :
    Command UpdateAvailabilityDueToProductionOrder := {
  Command_Message := λ _, "warehouses.update_availability_due_to_production_order";
  CmdBase := uapo_base }.
#[global] Instance UpdateAvailabilityDueToSalesOrder_Command :
    Command UpdateAvailabilityDueToSalesOrder := {
  Command_Message := λ _, "warehouses.update_availability_due_to_sales_order";
  CmdBase := uaso_base }.
#[global] Instance CompensateAvailabilityDueToFailedAllocation_Command :
    Command CompensateAvailabilityDueToFailedAllocation := {
  Command_Message := λ _, "warehouses.compensate_availability_due_to_failed_allocation";
  CmdBase := cafa_base }.

(** ** events.go *)
Record AvailabilityUpdatedDueToProductionOrder :=
  mkAvailabilityUpdatedDueToProductionOrder {
  aupo_base : DomainEventBase; aupo_BeerId : BeerId; aupo_BeerName : BeerName;
  aupo_Quantity : Quantity }.

Definition NewAvailabilityUpdatedDueToProductionOrder
    (beerId : BeerId) (commitId : UUID) (beerName : BeerName) (quantity : Quantity) :=
  mkAvailabilityUpdatedDueToProductionOrder
    (NewDomainEventBase (BeerId_Value beerId) commitId) beerId beerName quantity.

Record BeerAvailabilityUpdated := mkBeerAvailabilityUpdated {
  bau_base : DomainEventBase; bau_BeerId : BeerId; bau_BeerName : BeerName;
  bau_Quantity : Quantity; bau_SalesOrderId : string }.

Definition NewBeerAvailabilityUpdated
    (beerId : BeerId) (commitId : UUID) (beerName : BeerName) (quantity : Quantity)
    (salesOrderId : string) :=
  mkBeerAvailabilityUpdated
    (NewDomainEventBase (BeerId_Value beerId) commitId) beerId beerName quantity salesOrderId.

Record QuantityNotFound := mkQuantityNotFound {
  qnf_base : DomainEventBase; qnf_BeerId : BeerId; qnf_SalesOrderId : string;
  qnf_Requested : Quantity; qnf_Available : Quantity }.

Definition NewQuantityNotFound
    (beerId : BeerId) (commitId : UUID) (salesOrderId : string)
    (requested available : Quantity) :=
  mkQuantityNotFound
    (NewDomainEventBase (BeerId_Value beerId) commitId) beerId salesOrderId
    requested available.

Record AvailabilityCompensated := mkAvailabilityCompensated {
  ac_base : DomainEventBase; ac_BeerId : BeerId; ac_BeerName : BeerName;
  ac_Quantity : Quantity; ac_SalesOrderId : string }.

Definition NewAvailabilityCompensated
    (beerId : BeerId) (commitId : UUID) (beerName : BeerName) (quantity : Quantity)
    (salesOrderId : string) :=
  mkAvailabilityCompensated
    (NewDomainEventBase (BeerId_Value beerId) commitId) beerId beerName quantity salesOrderId.

(** ** saga_events.go *)
Record SagaRowData := mkSagaRowData {
  row_BeerId : string; row_BeerName : string; row_Quantity : Z;
  row_UnitOfMeasure : string }.

Record OrderAllocationStarted := mkOrderAllocationStarted {
  oas_base : DomainEventBase; oas_SalesOrderId : string; oas_Rows : list SagaRowData }.
Definition NewOrderAllocationStarted (salesOrderId commitId : UUID)
    (rows : list SagaRowData) :=
  mkOrderAllocationStarted (NewDomainEventBase salesOrderId commitId)
    (uuid_String salesOrderId) rows.

Record AllocationStepSucceeded := mkAllocationStepSucceeded {
  ass_base : DomainEventBase; ass_SalesOrderId : string; ass_BeerId : string }.
Definition NewAllocationStepSucceeded (salesOrderId commitId : UUID) (beerId : string) :=
  mkAllocationStepSucceeded (NewDomainEventBase salesOrderId commitId)
    (uuid_String salesOrderId) beerId.

Record AllocationStepFailed := mkAllocationStepFailed {
  asf_base : DomainEventBase; asf_SalesOrderId : string; asf_BeerId : string;
  asf_Reason : string }.
Definition NewAllocationStepFailed (salesOrderId commitId : UUID)
    (beerId reason : string) :=
  mkAllocationStepFailed (NewDomainEventBase salesOrderId commitId)
    (uuid_String salesOrderId) beerId reason.

Record AllocationStepCompensated := mkAllocationStepCompensated {
  asc_base : DomainEventBase; asc_SalesOrderId : string; asc_BeerId : string }.
Definition NewAllocationStepCompensated (salesOrderId commitId : UUID)
    (beerId : string) :=
  mkAllocationStepCompensated (NewDomainEventBase salesOrderId commitId)
    (uuid_String salesOrderId) beerId.

Record OrderAllocationCompleted := mkOrderAllocationCompleted {
  oac_base : DomainEventBase; oac_SalesOrderId : string }.
Definition NewOrderAllocationCompleted (salesOrderId commitId : UUID) :=
  mkOrderAllocationCompleted (NewDomainEventBase salesOrderId commitId)
    (uuid_String salesOrderId).

Record OrderAllocationRejected := mkOrderAllocationRejected {
  oar_base : DomainEventBase; oar_SalesOrderId : string; oar_Reason : string }.
Definition NewOrderAllocationRejected (salesOrderId commitId : UUID) (reason : string) :=
  mkOrderAllocationRejected (NewDomainEventBase salesOrderId commitId)
    (uuid_String salesOrderId) reason.

(** The dynamic types a [muflone.DomainEvent] of this module can have. *)
Inductive WarehouseEvent :=
| EvAvailabilityUpdatedDueToProductionOrder (e : AvailabilityUpdatedDueToProductionOrder)
| EvBeerAvailabilityUpdated (e : BeerAvailabilityUpdated)
| EvQuantityNotFound (e : QuantityNotFound)
| EvAvailabilityCompensated (e : AvailabilityCompensated)
| EvOrderAllocationStarted (e : OrderAllocationStarted)
| EvAllocationStepSucceeded (e : AllocationStepSucceeded)
| EvAllocationStepFailed (e : AllocationStepFailed)
| EvAllocationStepCompensated (e : AllocationStepCompensated)
| EvOrderAllocationCompleted (e : OrderAllocationCompleted)
| EvOrderAllocationRejected (e : OrderAllocationRejected).

(** Each type's [MessageName]. *)
Definition WarehouseEvent_name (e : WarehouseEvent) : string :=
  match e with
  | EvAvailabilityUpdatedDueToProductionOrder _ =>
      "warehouses.availability_updated_due_to_production_order"
  | EvBeerAvailabilityUpdated _ => "warehouses.beer_availability_updated"
  | EvQuantityNotFound _ => "warehouses.quantity_not_found"
  | EvAvailabilityCompensated _ => "warehouses.availability_compensated"
  | EvOrderAllocationStarted _ => "warehouses.order_allocation_started"
  | EvAllocationStepSucceeded _ => "warehouses.allocation_step_succeeded"
  | EvAllocationStepFailed _ => "warehouses.allocation_step_failed"
  | EvAllocationStepCompensated _ => "warehouses.allocation_step_compensated"
  | EvOrderAllocationCompleted _ => "warehouses.order_allocation_completed"
  | EvOrderAllocationRejected _ => "warehouses.order_allocation_rejected"
  end.

Definition WarehouseEvent_base (e : WarehouseEvent) : DomainEventBase :=
  match e with
  | EvAvailabilityUpdatedDueToProductionOrder e => aupo_base e
  | EvBeerAvailabilityUpdated e => bau_base e
  | EvQuantityNotFound e => qnf_base e
  | EvAvailabilityCompensated e => ac_base e
  | EvOrderAllocationStarted e => oas_base e
  | EvAllocationStepSucceeded e => ass_base e
  | EvAllocationStepFailed e => asf_base e
  | EvAllocationStepCompensated e => asc_base e
  | EvOrderAllocationCompleted e => oac_base e
  | EvOrderAllocationRejected e => oar_base e
  end.

#[global] Instance WarehouseEvent_DomainEvent : DomainEvent WarehouseEvent := {
  DomainEvent_Message := WarehouseEvent_name;
  EventBase := WarehouseEvent_base }.
End kernel.

(** ** integrationevents/order_allocation.go *)
Module IntegrationEvents.
Section integration.
Context `{UuidLib}.

Definition OrderAllocationCompletedName : string := "warehouses.order_allocation_completed".
Definition OrderAllocationRejectedName : string := "warehouses.order_allocation_rejected".

Record OrderAllocationCompleted := mkOrderAllocationCompleted {
  oac_base : IntegrationEventBase; oac_SalesOrderId : string }.
Definition NewOrderAllocationCompleted (salesOrderId : string) (commitId : UUID) :=
  mkOrderAllocationCompleted (NewIntegrationEventBase commitId) salesOrderId.

Record OrderAllocationRejected := mkOrderAllocationRejected {
  oar_base : IntegrationEventBase; oar_SalesOrderId : string; oar_Reason : string }.
Definition NewOrderAllocationRejected (salesOrderId : string) (commitId : UUID)
    (reason : string) :=
  mkOrderAllocationRejected (NewIntegrationEventBase commitId) salesOrderId reason.

#[global] Instance OrderAllocationCompleted_Message : Message OrderAllocationCompleted :=
  λ _, OrderAllocationCompletedName.
#[global] Instance OrderAllocationRejected_Message : Message OrderAllocationRejected :=
  λ _, OrderAllocationRejectedName.
End integration.
End IntegrationEvents.
