(* ===== verification/WarehouseJson.v ===== *)
(** * The JSON contracts of the Warehouses module

    One encoder and one decoder per struct of [internal/warehouses/sharedkernel],
    with the struct's tags; what an encoder writes, the decoder reads back. *)
From S2P Require Import Prelude Errors Kernel Bus Json.
From S2P Require Import WarehouseKernel.
#[local] Open Scope Z_scope.

Section codecs.
Context `{GoText} {U : UuidLib}.

#[global] Instance BeerId_to_json : ToJson BeerId := λ x,
  object [("value", to_json (BeerId_Value x))]%string.
#[global] Instance BeerId_from_json : FromJson BeerId := {
  zero_value := mkBeerId uuid_Nil;
  from_json := struct_from_json (λ ms x,
    value ← field "value" ms (BeerId_Value x);
    Ok (mkBeerId value)) }.
#[global] Instance BeerId_reads : JsonReads BeerId BeerId (λ x, x).
Proof. solve_reads. Qed.

#[global] Instance BeerName_to_json : ToJson BeerName := λ x,
  object [("value", to_json (BeerName_Value x))]%string.
#[global] Instance BeerName_from_json : FromJson BeerName := {
  zero_value := mkBeerName "";
  from_json := struct_from_json (λ ms x,
    value ← field "value" ms (BeerName_Value x);
    Ok (mkBeerName value)) }.
#[global] Instance BeerName_reads : JsonReads BeerName BeerName (λ x, x).
Proof. solve_reads. Qed.

#[global] Instance production_to_json : ToJson UpdateAvailabilityDueToProductionOrder := λ x,
  object (command_members (uapo_base x) ++
    [("beer_id", to_json (uapo_BeerId x));
     ("beer_name", to_json (uapo_BeerName x));
     ("quantity", to_json (uapo_Quantity x))]%string).
#[global] Instance production_from_json : FromJson UpdateAvailabilityDueToProductionOrder := {
  zero_value := mkUpdateAvailabilityDueToProductionOrder zero_command zero_value zero_value zero_value;
  from_json := struct_from_json (λ ms x,
    base ← command_base ms (uapo_base x);
    beer_id ← field "beer_id" ms (uapo_BeerId x);
    beer_name ← field "beer_name" ms (uapo_BeerName x);
    quantity ← field "quantity" ms (uapo_Quantity x);
    Ok (mkUpdateAvailabilityDueToProductionOrder base beer_id beer_name quantity)) }.
#[global] Instance production_reads : JsonReads UpdateAvailabilityDueToProductionOrder UpdateAvailabilityDueToProductionOrder (λ x, x).
Proof. solve_reads. Qed.

#[global] Instance allocate_to_json : ToJson UpdateAvailabilityDueToSalesOrder := λ x,
  object (command_members (uaso_base x) ++
    [("beer_id", to_json (uaso_BeerId x));
     ("beer_name", to_json (uaso_BeerName x));
     ("quantity", to_json (uaso_Quantity x));
     ("sales_order_id", to_json (uaso_SalesOrderId x))]%string).
#[global] Instance allocate_from_json : FromJson UpdateAvailabilityDueToSalesOrder := {
  zero_value := mkUpdateAvailabilityDueToSalesOrder zero_command zero_value zero_value zero_value "";
  from_json := struct_from_json (λ ms x,
    base ← command_base ms (uaso_base x);
    beer_id ← field "beer_id" ms (uaso_BeerId x);
    beer_name ← field "beer_name" ms (uaso_BeerName x);
    quantity ← field "quantity" ms (uaso_Quantity x);
    sales_order_id ← field "sales_order_id" ms (uaso_SalesOrderId x);
    Ok (mkUpdateAvailabilityDueToSalesOrder base beer_id beer_name quantity sales_order_id)) }.
#[global] Instance allocate_reads : JsonReads UpdateAvailabilityDueToSalesOrder UpdateAvailabilityDueToSalesOrder (λ x, x).
Proof. solve_reads. Qed.

#[global] Instance compensate_to_json : ToJson CompensateAvailabilityDueToFailedAllocation := λ x,
  object (command_members (cafa_base x) ++
    [("beer_id", to_json (cafa_BeerId x));
     ("quantity", to_json (cafa_Quantity x));
     ("sales_order_id", to_json (cafa_SalesOrderId x))]%string).
#[global] Instance compensate_from_json : FromJson CompensateAvailabilityDueToFailedAllocation := {
  zero_value := mkCompensateAvailabilityDueToFailedAllocation zero_command zero_value zero_value "";
  from_json := struct_from_json (λ ms x,
    base ← command_base ms (cafa_base x);
    beer_id ← field "beer_id" ms (cafa_BeerId x);
    quantity ← field "quantity" ms (cafa_Quantity x);
    sales_order_id ← field "sales_order_id" ms (cafa_SalesOrderId x);
    Ok (mkCompensateAvailabilityDueToFailedAllocation base beer_id quantity sales_order_id)) }.
#[global] Instance compensate_reads : JsonReads CompensateAvailabilityDueToFailedAllocation CompensateAvailabilityDueToFailedAllocation (λ x, x).
Proof. solve_reads. Qed.

#[global] Instance aupo_to_json : ToJson AvailabilityUpdatedDueToProductionOrder := λ x,
  object (event_members (aupo_base x) ++
    [("beer_id", to_json (aupo_BeerId x));
     ("beer_name", to_json (aupo_BeerName x));
     ("quantity", to_json (aupo_Quantity x))]%string).
#[global] Instance aupo_from_json : FromJson AvailabilityUpdatedDueToProductionOrder := {
  zero_value := mkAvailabilityUpdatedDueToProductionOrder zero_event zero_value zero_value zero_value;
  from_json := struct_from_json (λ ms x,
    base ← event_base ms (aupo_base x);
    beer_id ← field "beer_id" ms (aupo_BeerId x);
    beer_name ← field "beer_name" ms (aupo_BeerName x);
    quantity ← field "quantity" ms (aupo_Quantity x);
    Ok (mkAvailabilityUpdatedDueToProductionOrder base beer_id beer_name quantity)) }.
#[global] Instance aupo_reads : JsonReads AvailabilityUpdatedDueToProductionOrder AvailabilityUpdatedDueToProductionOrder (λ x, x).
Proof. solve_reads. Qed.

#[global] Instance bau_to_json : ToJson BeerAvailabilityUpdated := λ x,
  object (event_members (bau_base x) ++
    [("beer_id", to_json (bau_BeerId x));
     ("beer_name", to_json (bau_BeerName x));
     ("quantity", to_json (bau_Quantity x));
     ("sales_order_id", to_json (bau_SalesOrderId x))]%string).
#[global] Instance bau_from_json : FromJson BeerAvailabilityUpdated := {
  zero_value := mkBeerAvailabilityUpdated zero_event zero_value zero_value zero_value "";
  from_json := struct_from_json (λ ms x,
    base ← event_base ms (bau_base x);
    beer_id ← field "beer_id" ms (bau_BeerId x);
    beer_name ← field "beer_name" ms (bau_BeerName x);
    quantity ← field "quantity" ms (bau_Quantity x);
    sales_order_id ← field "sales_order_id" ms (bau_SalesOrderId x);
    Ok (mkBeerAvailabilityUpdated base beer_id beer_name quantity sales_order_id)) }.
#[global] Instance bau_reads : JsonReads BeerAvailabilityUpdated BeerAvailabilityUpdated (λ x, x).
Proof. solve_reads. Qed.

#[global] Instance qnf_to_json : ToJson QuantityNotFound := λ x,
  object (event_members (qnf_base x) ++
    [("beer_id", to_json (qnf_BeerId x));
     ("sales_order_id", to_json (qnf_SalesOrderId x));
     ("requested", to_json (qnf_Requested x));
     ("available", to_json (qnf_Available x))]%string).
#[global] Instance qnf_from_json : FromJson QuantityNotFound := {
  zero_value := mkQuantityNotFound zero_event zero_value "" zero_value zero_value;
  from_json := struct_from_json (λ ms x,
    base ← event_base ms (qnf_base x);
    beer_id ← field "beer_id" ms (qnf_BeerId x);
    sales_order_id ← field "sales_order_id" ms (qnf_SalesOrderId x);
    requested ← field "requested" ms (qnf_Requested x);
    available ← field "available" ms (qnf_Available x);
    Ok (mkQuantityNotFound base beer_id sales_order_id requested available)) }.
#[global] Instance qnf_reads : JsonReads QuantityNotFound QuantityNotFound (λ x, x).
Proof. solve_reads. Qed.

#[global] Instance ac_to_json : ToJson AvailabilityCompensated := λ x,
  object (event_members (ac_base x) ++
    [("beer_id", to_json (ac_BeerId x));
     ("beer_name", to_json (ac_BeerName x));
     ("quantity", to_json (ac_Quantity x));
     ("sales_order_id", to_json (ac_SalesOrderId x))]%string).
#[global] Instance ac_from_json : FromJson AvailabilityCompensated := {
  zero_value := mkAvailabilityCompensated zero_event zero_value zero_value zero_value "";
  from_json := struct_from_json (λ ms x,
    base ← event_base ms (ac_base x);
    beer_id ← field "beer_id" ms (ac_BeerId x);
    beer_name ← field "beer_name" ms (ac_BeerName x);
    quantity ← field "quantity" ms (ac_Quantity x);
    sales_order_id ← field "sales_order_id" ms (ac_SalesOrderId x);
    Ok (mkAvailabilityCompensated base beer_id beer_name quantity sales_order_id)) }.
#[global] Instance ac_reads : JsonReads AvailabilityCompensated AvailabilityCompensated (λ x, x).
Proof. solve_reads. Qed.

#[global] Instance row_to_json : ToJson SagaRowData := λ x,
  object [("beer_id", to_json (row_BeerId x));
     ("beer_name", to_json (row_BeerName x));
     ("quantity", to_json (row_Quantity x));
     ("unit_of_measure", to_json (row_UnitOfMeasure x))]%string.
#[global] Instance row_from_json : FromJson SagaRowData := {
  zero_value := mkSagaRowData "" "" 0 "";
  from_json := struct_from_json (λ ms x,
    beer_id ← field "beer_id" ms (row_BeerId x);
    beer_name ← field "beer_name" ms (row_BeerName x);
    quantity ← field "quantity" ms (row_Quantity x);
    unit_of_measure ← field "unit_of_measure" ms (row_UnitOfMeasure x);
    Ok (mkSagaRowData beer_id beer_name quantity unit_of_measure)) }.
#[global] Instance row_reads : JsonReads SagaRowData SagaRowData (λ x, x).
Proof. solve_reads. Qed.

#[global] Instance oas_to_json : ToJson OrderAllocationStarted := λ x,
  object (event_members (oas_base x) ++
    [("sales_order_id", to_json (oas_SalesOrderId x));
     ("rows", to_json (oas_Rows x))]%string).
#[global] Instance oas_from_json : FromJson OrderAllocationStarted := {
  zero_value := mkOrderAllocationStarted zero_event "" [];
  from_json := struct_from_json (λ ms x,
    base ← event_base ms (oas_base x);
    sales_order_id ← field "sales_order_id" ms (oas_SalesOrderId x);
    rows ← field "rows" ms (oas_Rows x);
    Ok (mkOrderAllocationStarted base sales_order_id rows)) }.
#[global] Instance oas_reads : JsonReads OrderAllocationStarted OrderAllocationStarted (λ x, x).
Proof. solve_reads. Qed.

#[global] Instance ass_to_json : ToJson AllocationStepSucceeded := λ x,
  object (event_members (ass_base x) ++
    [("sales_order_id", to_json (ass_SalesOrderId x));
     ("beer_id", to_json (ass_BeerId x))]%string).
#[global] Instance ass_from_json : FromJson AllocationStepSucceeded := {
  zero_value := mkAllocationStepSucceeded zero_event "" "";
  from_json := struct_from_json (λ ms x,
    base ← event_base ms (ass_base x);
    sales_order_id ← field "sales_order_id" ms (ass_SalesOrderId x);
    beer_id ← field "beer_id" ms (ass_BeerId x);
    Ok (mkAllocationStepSucceeded base sales_order_id beer_id)) }.
#[global] Instance ass_reads : JsonReads AllocationStepSucceeded AllocationStepSucceeded (λ x, x).
Proof. solve_reads. Qed.

#[global] Instance asf_to_json : ToJson AllocationStepFailed := λ x,
  object (event_members (asf_base x) ++
    [("sales_order_id", to_json (asf_SalesOrderId x));
     ("beer_id", to_json (asf_BeerId x));
     ("reason", to_json (asf_Reason x))]%string).
#[global] Instance asf_from_json : FromJson AllocationStepFailed := {
  zero_value := mkAllocationStepFailed zero_event "" "" "";
  from_json := struct_from_json (λ ms x,
    base ← event_base ms (asf_base x);
    sales_order_id ← field "sales_order_id" ms (asf_SalesOrderId x);
    beer_id ← field "beer_id" ms (asf_BeerId x);
    reason ← field "reason" ms (asf_Reason x);
    Ok (mkAllocationStepFailed base sales_order_id beer_id reason)) }.
#[global] Instance asf_reads : JsonReads AllocationStepFailed AllocationStepFailed (λ x, x).
Proof. solve_reads. Qed.

#[global] Instance asc_to_json : ToJson AllocationStepCompensated := λ x,
  object (event_members (asc_base x) ++
    [("sales_order_id", to_json (asc_SalesOrderId x));
     ("beer_id", to_json (asc_BeerId x))]%string).
#[global] Instance asc_from_json : FromJson AllocationStepCompensated := {
  zero_value := mkAllocationStepCompensated zero_event "" "";
  from_json := struct_from_json (λ ms x,
    base ← event_base ms (asc_base x);
    sales_order_id ← field "sales_order_id" ms (asc_SalesOrderId x);
    beer_id ← field "beer_id" ms (asc_BeerId x);
    Ok (mkAllocationStepCompensated base sales_order_id beer_id)) }.
#[global] Instance asc_reads : JsonReads AllocationStepCompensated AllocationStepCompensated (λ x, x).
Proof. solve_reads. Qed.

#[global] Instance oac_to_json : ToJson OrderAllocationCompleted := λ x,
  object (event_members (oac_base x) ++
    [("sales_order_id", to_json (oac_SalesOrderId x))]%string).
#[global] Instance oac_from_json : FromJson OrderAllocationCompleted := {
  zero_value := mkOrderAllocationCompleted zero_event "";
  from_json := struct_from_json (λ ms x,
    base ← event_base ms (oac_base x);
    sales_order_id ← field "sales_order_id" ms (oac_SalesOrderId x);
    Ok (mkOrderAllocationCompleted base sales_order_id)) }.
#[global] Instance oac_reads : JsonReads OrderAllocationCompleted OrderAllocationCompleted (λ x, x).
Proof. solve_reads. Qed.

#[global] Instance oar_to_json : ToJson OrderAllocationRejected := λ x,
  object (event_members (oar_base x) ++
    [("sales_order_id", to_json (oar_SalesOrderId x));
     ("reason", to_json (oar_Reason x))]%string).
#[global] Instance oar_from_json : FromJson OrderAllocationRejected := {
  zero_value := mkOrderAllocationRejected zero_event "" "";
  from_json := struct_from_json (λ ms x,
    base ← event_base ms (oar_base x);
    sales_order_id ← field "sales_order_id" ms (oar_SalesOrderId x);
    reason ← field "reason" ms (oar_Reason x);
    Ok (mkOrderAllocationRejected base sales_order_id reason)) }.
#[global] Instance oar_reads : JsonReads OrderAllocationRejected OrderAllocationRejected (λ x, x).
Proof. solve_reads. Qed.

(** A domain event is encoded as the struct its dynamic type is. *)
#[global] Instance WarehouseEvent_to_json : ToJson WarehouseEvent := λ e,
  match e with
  | EvAvailabilityUpdatedDueToProductionOrder e => to_json e
  | EvBeerAvailabilityUpdated e => to_json e
  | EvQuantityNotFound e => to_json e
  | EvAvailabilityCompensated e => to_json e
  | EvOrderAllocationStarted e => to_json e
  | EvAllocationStepSucceeded e => to_json e
  | EvAllocationStepFailed e => to_json e
  | EvAllocationStepCompensated e => to_json e
  | EvOrderAllocationCompleted e => to_json e
  | EvOrderAllocationRejected e => to_json e
  end.

(** ** Integration events *)
#[global] Instance completed_to_json : ToJson IntegrationEvents.OrderAllocationCompleted := λ x,
  object (integration_members (IntegrationEvents.oac_base x) ++
    [("sales_order_id", to_json (IntegrationEvents.oac_SalesOrderId x))]%string).
#[global] Instance rejected_to_json : ToJson IntegrationEvents.OrderAllocationRejected := λ x,
  object (integration_members (IntegrationEvents.oar_base x) ++
    [("sales_order_id", to_json (IntegrationEvents.oar_SalesOrderId x));
     ("reason", to_json (IntegrationEvents.oar_Reason x))]%string).
End codecs.
