(* ===== verification/Availability.v ===== *)
(** * The [Availability] aggregate ([internal/warehouses/domain/availability.go])

  How much of one beer the warehouse can sell, and which sales orders hold
  stock of it. Quantities are Go [int]s: additions wrap at 64 bits. *)
From S2P Require Import Prelude Errors Kernel Aggregate WarehouseKernel.
#[local] Open Scope Z_scope.

Section availability.
Context {U : UuidLib}.

Definition StreamName : string := "Availability".

Definition ErrInvalidQuantity : error := ErrInvalid "quantity must be positive".

Record Availability := mkAvailability {
  av_root : AggregateRoot WarehouseEvent;
  beerId : BeerId;
  beerName : BeerName;
  quantity : Quantity;
  held : gset string;
}.

Definition NewAvailability : Availability :=
  mkAvailability new_root (mkBeerId uuid_Nil) (mkBeerName "") (NewQuantity 0 "") ∅.

Definition with_av_root (r : AggregateRoot WarehouseEvent) (a : Availability) :=
  mkAvailability r (beerId a) (beerName a) (quantity a) (held a).

Definition with_held (h : gset string) (a : Availability) :=
  mkAvailability (av_root a) (beerId a) (beerName a) (quantity a) h.

Definition applyAvailabilityUpdated (bId : BeerId) (bName : BeerName) (q : Quantity)
    (a : Availability) : Availability :=
  mkAvailability (root_SetID (BeerId_Value bId) (av_root a)) bId bName q (held a).

(** [Route]: a type switch without default, so the saga's events fall
    through. *)
Definition Availability_Route (event : WarehouseEvent) (a : Availability) : Availability :=
  match event with
  | EvAvailabilityUpdatedDueToProductionOrder e =>
      applyAvailabilityUpdated (aupo_BeerId e) (aupo_BeerName e) (aupo_Quantity e) a
  | EvBeerAvailabilityUpdated e =>
      let a := applyAvailabilityUpdated (bau_BeerId e) (bau_BeerName e) (bau_Quantity e) a in
      if decide (bau_SalesOrderId e ≠ "") then
        with_held ({[bau_SalesOrderId e]} ∪ held a) a
      else a
  | EvAvailabilityCompensated e =>
      let a := applyAvailabilityUpdated (ac_BeerId e) (ac_BeerName e) (ac_Quantity e) a in
      with_held (held a ∖ {[ac_SalesOrderId e]}) a
  | EvQuantityNotFound e =>
      let s := qnf_BeerId e in
      mkAvailability (root_SetID (BeerId_Value s) (av_root a)) s (beerName a)
        (quantity a) (held a)
  | _ => a
  end.

#[global] Instance Availability_Aggregate : Aggregate WarehouseEvent Availability := {
  agg_root := av_root; set_root := with_av_root; Route := Availability_Route }.

#[global] Instance Availability_laws : AggregateLaws WarehouseEvent Availability.
Proof.
  split; [done|done|..]; intros []; cbv zeta; intros; simpl; try done;
    destruct (decide _); reflexivity.
Qed.

(** ** The aggregate's operations *)

Definition CreateAvailability (bId : BeerId) (commitId : UUID) (bName : BeerName)
    (q : Quantity) : result Availability :=
  if Value q <=? 0 then Err ErrInvalidQuantity
  else Ok (RaiseEvent (EvAvailabilityUpdatedDueToProductionOrder
             (NewAvailabilityUpdatedDueToProductionOrder bId commitId bName q))
             NewAvailability).

Definition UpdateDueToProductionOrder (commitId : UUID) (bName : BeerName) (q : Quantity)
    (a : Availability) : result Availability :=
  if Value q <=? 0 then Err ErrInvalidQuantity
  else
    let newTotal := NewQuantity (Int.add (Value (quantity a)) (Value q)) (UnitOfMeasure q) in
    Ok (RaiseEvent (EvAvailabilityUpdatedDueToProductionOrder
          (NewAvailabilityUpdatedDueToProductionOrder (beerId a) commitId bName newTotal)) a).

Definition UpdateDueToSalesOrder (commitId : UUID) (q : Quantity) (salesOrderId : string)
    (a : Availability) : result Availability :=
  if Value q <=? 0 then Err ErrInvalidQuantity
  else if decide (salesOrderId ∈ held a) then
    Ok (RaiseEvent (EvBeerAvailabilityUpdated
          (NewBeerAvailabilityUpdated (beerId a) commitId (beerName a) (quantity a)
             salesOrderId)) a)
  else if Value q >? Value (quantity a) then
    Ok (RaiseEvent (EvQuantityNotFound
          (NewQuantityNotFound (beerId a) commitId salesOrderId q (quantity a))) a)
  else
    let remaining := NewQuantity (Int.sub (Value (quantity a)) (Value q))
                       (UnitOfMeasure (quantity a)) in
    Ok (RaiseEvent (EvBeerAvailabilityUpdated
          (NewBeerAvailabilityUpdated (beerId a) commitId (beerName a) remaining
             salesOrderId)) a).

Definition RefuseUnknownBeer (bId : BeerId) (commitId : UUID) (requested : Quantity)
    (salesOrderId : string) : Availability :=
  RaiseEvent (EvQuantityNotFound
    (NewQuantityNotFound bId commitId salesOrderId requested
       (NewQuantity 0 (UnitOfMeasure requested)))) NewAvailability.

Definition CompensateDueToFailedAllocation (commitId : UUID) (q : Quantity)
    (salesOrderId : string) (a : Availability) : result Availability :=
  if Value q <=? 0 then Err ErrInvalidQuantity
  else if decide (salesOrderId ∉ held a) then
    Ok (RaiseEvent (EvAvailabilityCompensated
          (NewAvailabilityCompensated (beerId a) commitId (beerName a) (quantity a)
             salesOrderId)) a)
  else
    let newTotal := NewQuantity (Int.add (Value (quantity a)) (Value q))
                      (UnitOfMeasure (quantity a)) in
    Ok (RaiseEvent (EvAvailabilityCompensated
          (NewAvailabilityCompensated (beerId a) commitId (beerName a) newTotal
             salesOrderId)) a).
End availability.

(** ** What raising an event does to the state *)
Section facts.
Context {U : UuidLib}.
Implicit Types a : Availability.

(** The stock on hand. *)
Definition stock a : Z := Value (quantity a).

Lemma quantity_RaiseEvent e a : quantity (RaiseEvent e a) = quantity (Route e a).
Proof. reflexivity. Qed.
Lemma held_RaiseEvent e a : held (RaiseEvent e a) = held (Route e a).
Proof. reflexivity. Qed.
Lemma beerId_RaiseEvent e a : beerId (RaiseEvent e a) = beerId (Route e a).
Proof. reflexivity. Qed.
Lemma beerName_RaiseEvent e a : beerName (RaiseEvent e a) = beerName (Route e a).
Proof. reflexivity. Qed.
Lemma held_Route_updated e a :
  held (Route (EvBeerAvailabilityUpdated e) a)
  = if decide (bau_SalesOrderId e ≠ "") then {[bau_SalesOrderId e]} ∪ held a else held a.
Proof. simpl. by case_decide. Qed.
Lemma quantity_Route_updated e a :
  quantity (Route (EvBeerAvailabilityUpdated e) a) = bau_Quantity e.
Proof. simpl. by case_decide. Qed.

(** Two availabilities with the same beer, stock and holders (they may differ
    in version and uncommitted events). *)
Definition same_stock a a' : Prop :=
  beerId a' = beerId a ∧ beerName a' = beerName a ∧
  quantity a' = quantity a ∧ held a' = held a.

(** The stock a value can reach without wrapping. *)
Definition stock_ok a : Prop := 0 ≤ stock a ∧ Int.in_range (stock a).
End facts.

#[export] Hint Rewrite @quantity_RaiseEvent @held_RaiseEvent @beerId_RaiseEvent
  @beerName_RaiseEvent @held_Route_updated @quantity_Route_updated : brew_rw.

Section properties.
Context {U : UuidLib}.
Implicit Types a : Availability.

(** The branches of [UpdateDueToSalesOrder], for the proofs below. *)
Lemma update_cases c q o a :
  stock_ok a → o ≠ "" →
  (Value q ≤ 0 ∧ UpdateDueToSalesOrder c q o a = Err ErrInvalidQuantity) ∨
  (0 < Value q ∧ ∃ a' e,
     UpdateDueToSalesOrder c q o a = Ok a' ∧
     UncommittedEvents a' = UncommittedEvents a ++ [e] ∧
     ((o ∈ held a ∧ same_stock a a' ∧
       e = EvBeerAvailabilityUpdated
             (NewBeerAvailabilityUpdated (beerId a) c (beerName a) (quantity a) o)) ∨
      (o ∉ held a ∧ stock a < Value q ∧ same_stock a a' ∧
       e = EvQuantityNotFound (NewQuantityNotFound (beerId a) c o q (quantity a))) ∨
      (o ∉ held a ∧ Value q ≤ stock a ∧
       quantity a' = NewQuantity (stock a - Value q) (UnitOfMeasure (quantity a)) ∧
       held a' = {[o]} ∪ held a ∧
       e = EvBeerAvailabilityUpdated
             (NewBeerAvailabilityUpdated (beerId a) c (beerName a) (quantity a') o)))).
Proof.
  intros [Hs Hr] Ho. unfold UpdateDueToSalesOrder.
  destruct (Z.leb_spec (Value q) 0) as [Hq|Hq]; [by left|]. right. split; [done|].
  case_decide as Hh.
  { eexists _, _. split; [done|]. split; [apply UncommittedEvents_RaiseEvent|]. left.
    split; [done|]. split; [|done].
    unfold same_stock. autorewrite with brew_rw. simpl. rewrite !decide_True by done.
    repeat split. set_solver. }
  destruct (Z.gtb_spec (Value q) (Value (quantity a))) as [Hgt|Hle].
  { eexists _, _. split; [done|]. split; [apply UncommittedEvents_RaiseEvent|].
    right. left. repeat split; try done; unfold stock; lia. }
  eexists _, _. split; [done|]. split; [apply UncommittedEvents_RaiseEvent|].
  right. right. autorewrite with brew_rw. simpl. rewrite decide_True by done.
  unfold stock in *. rewrite Int.sub_available by (done || lia). repeat split; try done; lia.
Qed.

(** Compensating an allocation that moved stock undoes it. *)
Lemma allocated_compensated c c' q o a a1 a2 :
  stock_ok a → o ≠ "" → o ∉ held a → Value q ≤ stock a →
  UpdateDueToSalesOrder c q o a = Ok a1 →
  CompensateDueToFailedAllocation c' q o a1 = Ok a2 →
  quantity a2 = quantity a ∧ held a2 = held a.
Proof.
  intros Hok Ho Hh Hle H1 H2.
  destruct (update_cases c q o a Hok Ho) as [[_ E]|(Hq & b & e & E & _ & Hb)];
    rewrite E in H1; [done|]. apply (inj Ok) in H1 as ->.
  destruct Hb as [(? & _)|[(_ & ? & _)|(_ & _ & Hq1 & Hh1 & _)]]; [done|lia|].
  unfold CompensateDueToFailedAllocation in H2.
  rewrite (proj2 (Z.leb_gt _ _) Hq), decide_False in H2 by set_solver.
  apply (inj Ok) in H2 as <-. destruct Hok as [Hs Hr]. unfold stock in *.
  autorewrite with brew_rw. simpl. rewrite Hq1, Hh1. simpl. split; [|set_solver].
  rewrite Int.add_exact by (unfold Int.in_range in *; lia).
  replace (_ - _ + _) with (Value (quantity a)) by lia. by destruct (quantity a).
Qed.

(** [UpdateDueToSalesOrder] on every branch, for an order [o] (a non-empty
    identifier) asking for [Value q]: a non-positive amount is an error and
    changes nothing; an order that already holds stock gets the unchanged
    quantity re-emitted; a shortage raises [QuantityNotFound] with what was
    asked and what is there, and moves nothing; otherwise exactly [Value q]
    leaves the stock and the order becomes a holder. Exactly one event is
    raised in each non-error case. *)
Theorem UpdateDueToSalesOrder_spec c q o a :
  stock_ok a → o ≠ "" →
  (Value q ≤ 0 ∧ UpdateDueToSalesOrder c q o a = Err ErrInvalidQuantity) ∨
  (0 < Value q ∧ ∃ a' e,
     UpdateDueToSalesOrder c q o a = Ok a' ∧
     UncommittedEvents a' = UncommittedEvents a ++ [e] ∧
     ((o ∈ held a ∧ same_stock a a' ∧
       e = EvBeerAvailabilityUpdated
             (NewBeerAvailabilityUpdated (beerId a) c (beerName a) (quantity a) o)) ∨
      (o ∉ held a ∧ stock a < Value q ∧ same_stock a a' ∧
       e = EvQuantityNotFound (NewQuantityNotFound (beerId a) c o q (quantity a))) ∨
      (o ∉ held a ∧ Value q ≤ stock a ∧
       quantity a' = NewQuantity (stock a - Value q) (UnitOfMeasure (quantity a)) ∧
       held a' = {[o]} ∪ held a ∧
       e = EvBeerAvailabilityUpdated
             (NewBeerAvailabilityUpdated (beerId a) c (beerName a) (quantity a') o)))).
Proof. apply update_cases. Qed.

(** A re-driven allocation moves stock once: handling the same step again,
    with whatever commit, leaves stock and holders as the first one left
    them. *)
Theorem allocation_idempotent c c' q o a a1 a2 :
  stock_ok a → o ≠ "" →
  UpdateDueToSalesOrder c q o a = Ok a1 →
  UpdateDueToSalesOrder c' q o a1 = Ok a2 →
  same_stock a1 a2.
Proof.
  intros Hok Ho H1 H2.
  destruct (update_cases c q o a Hok Ho) as [[_ E]|(Hq & b & e & E & _ & Hb)];
    rewrite E in H1; [done|]. injection H1 as ->.
  assert (stock_ok a1 ∧ (o ∈ held a1 ∨ o ∉ held a1 ∧ stock a1 < Value q)) as [Hok1 Hc].
  { unfold stock_ok, stock, same_stock, Int.in_range in *.
    destruct Hb as [(? & (? & ? & Hq1 & Hh1) & _)
                   |[(? & ? & (? & ? & Hq1 & Hh1) & _)|(? & ? & Hq1 & Hh1 & _)]];
      rewrite Hq1, Hh1; simpl; split; auto; [lia | left; set_solver]. }
  destruct (update_cases c' q o a1 Hok1 Ho)
    as [[? _]|(_ & b & e' & E' & _ & Hb')]; [lia|].
  rewrite E' in H2. injection H2 as ->. naive_solver lia.
Qed.

(** The compensating transaction undoes the step: compensating an
    allocation that moved stock restores the stock and the holders exactly,
    and a re-driven compensation changes nothing more. *)
Theorem compensation_restores c c' c'' q o a a1 a2 a3 :
  stock_ok a → o ≠ "" → o ∉ held a → Value q ≤ stock a →
  UpdateDueToSalesOrder c q o a = Ok a1 →
  CompensateDueToFailedAllocation c' q o a1 = Ok a2 →
  CompensateDueToFailedAllocation c'' q o a2 = Ok a3 →
  quantity a2 = quantity a ∧ held a2 = held a ∧ same_stock a2 a3.
Proof.
  intros Hok Ho Hh Hle H1 H2 H3.
  destruct (allocated_compensated c c' q o a a1 a2) as [Hq Hhe]; [done..|].
  split; [done|]. split; [done|].
  unfold CompensateDueToFailedAllocation in H3. case_match; [done|].
  rewrite decide_True in H3 by (by rewrite Hhe).
  apply (inj Ok) in H3 as <-. unfold same_stock. autorewrite with brew_rw. simpl.
  repeat split. set_solver.
Qed.

(** An allocation that is delivered again after its compensation is a new
    allocation: the order holds stock once more. (Holding is remembered, having
    given back is not.) *)
Theorem redelivery_after_compensation c c' c'' q o a a1 a2 :
  stock_ok a → o ≠ "" → o ∉ held a → 0 < Value q ≤ stock a →
  UpdateDueToSalesOrder c q o a = Ok a1 →
  CompensateDueToFailedAllocation c' q o a1 = Ok a2 →
  ∃ a3, UpdateDueToSalesOrder c'' q o a2 = Ok a3 ∧
    o ∈ held a3 ∧ stock a3 = stock a - Value q.
Proof.
  intros Hok Ho Hh [Hq Hle] H1 H2.
  destruct (allocated_compensated c c' q o a a1 a2) as [Hq2 Hh2]; [done..|].
  assert (stock_ok a2) as Hok2 by (unfold stock_ok, stock in *; by rewrite Hq2).
  destruct (update_cases c'' q o a2 Hok2 Ho) as [[? _]|(_ & a3 & e & E & _ & Hb)]; [lia|].
  exists a3. split; [done|]. unfold stock in *. rewrite Hq2, Hh2 in Hb.
  destruct Hb as [(? & _)|[(_ & ? & _)|(_ & _ & Hq3 & Hh3 & _)]]; [done|lia|].
  rewrite Hq3, Hh3. split; [set_solver|done].
Qed.

(** The "quantity must be positive" guard does not bound the total: two
    accepted production orders can overflow the 64-bit stock to a negative
    amount, after which every allocation is refused. *)
Theorem production_overflow b c n u :
  ∃ a1 a2,
    CreateAvailability b c n (NewQuantity (2 ^ 63 - 1) u) = Ok a1 ∧
    UpdateDueToProductionOrder c n (NewQuantity 1 u) a1 = Ok a2 ∧
    stock a2 = - 2 ^ 63 ∧
    ∀ q o, 0 < Value q → ∃ a3, UpdateDueToSalesOrder c q o a2 = Ok a3 ∧
      UncommittedEvents a3 = UncommittedEvents a2 ++
        [EvQuantityNotFound (NewQuantityNotFound b c o q (NewQuantity (- 2 ^ 63) u))].
Proof.
  eexists _, _. split; [reflexivity|]. split; [reflexivity|]. split; [reflexivity|].
  intros q o Hq. unfold UpdateDueToSalesOrder.
  rewrite (proj2 (Z.leb_gt _ _) Hq), decide_False by apply not_elem_of_empty.
  match goal with |- context [Value q >? ?x] => replace (Value q >? x) with true end.
  - eexists. split; [done|]. by rewrite UncommittedEvents_RaiseEvent.
  - symmetry. apply Z.gtb_lt. change (- 2 ^ 63 < Value q). lia.
Qed.
End properties.

(** ** Evaluated instances: 100 litres of one beer, an order for 30 *)
Module Sample.
#[local] Existing Instance DemoUuid.lib.

Definition ipa : Availability :=
  mkAvailability (mkRoot (uid "b") 1 []) (mkBeerId (uid "b")) (mkBeerName "IPA") (NewQuantity 100 "Lt") ∅.

Definition thirty : Quantity := NewQuantity 30 "Lt".

(** What [UpdateDueToSalesOrder] makes of it for order [o1]. *)
Definition allocated : Availability :=
  RaiseEvent (EvBeerAvailabilityUpdated
    (NewBeerAvailabilityUpdated (mkBeerId (uid "b")) (uid "c") (mkBeerName "IPA") (NewQuantity 70 "Lt") "o1"))
    ipa.

Definition compensated (c : UUID) (a : Availability) : Availability :=
  RaiseEvent (EvAvailabilityCompensated
    (NewAvailabilityCompensated (mkBeerId (uid "b")) c (mkBeerName "IPA") (NewQuantity 100 "Lt") "o1"))
    a.

Lemma ipa_ok : stock_ok ipa.
Proof. by vm_compute. Qed.
End Sample.

Section witnesses.
#[local] Existing Instance DemoUuid.lib.

Lemma UpdateDueToSalesOrder_spec_witness :
  UpdateDueToSalesOrder (uid "c") Sample.thirty "o1" Sample.ipa = Ok Sample.allocated ∧
  ((Value Sample.thirty ≤ 0 ∧
    UpdateDueToSalesOrder (uid "c") Sample.thirty "o1" Sample.ipa = Err ErrInvalidQuantity) ∨
   (0 < Value Sample.thirty ∧ ∃ a' e,
     UpdateDueToSalesOrder (uid "c") Sample.thirty "o1" Sample.ipa = Ok a' ∧
     UncommittedEvents a' = UncommittedEvents Sample.ipa ++ [e])).
Proof.
  split; [reflexivity|].
  destruct (UpdateDueToSalesOrder_spec (uid "c") Sample.thirty "o1" Sample.ipa Sample.ipa_ok
              ltac:(done)) as [?|(? & a' & e & ? & ? & _)]; [by left|].
  right. split; [done|]. by exists a', e.
Defined.

Lemma allocation_idempotent_witness :
  let again := RaiseEvent (EvBeerAvailabilityUpdated
    (NewBeerAvailabilityUpdated (mkBeerId (uid "b")) (uid "c2") (mkBeerName "IPA")
       (NewQuantity 70 "Lt") "o1")) Sample.allocated in
  stock Sample.ipa = 100 ∧ stock Sample.allocated = 70 ∧
  same_stock Sample.allocated again.
Proof.
  intros again. split; [reflexivity|]. split; [reflexivity|].
  apply (allocation_idempotent (uid "c") (uid "c2") Sample.thirty "o1" Sample.ipa);
    [apply Sample.ipa_ok | done | reflexivity | reflexivity].
Defined.

Lemma compensation_restores_witness :
  let a2 := Sample.compensated (uid "c2") Sample.allocated in
  let a3 := Sample.compensated (uid "c3") a2 in
  quantity a2 = quantity Sample.ipa ∧ held a2 = held Sample.ipa ∧ same_stock a2 a3.
Proof.
  intros a2 a3.
  apply (compensation_restores (uid "c") (uid "c2") (uid "c3") Sample.thirty "o1" Sample.ipa Sample.allocated);
    [apply Sample.ipa_ok | done | apply not_elem_of_empty | done
    | reflexivity | reflexivity | reflexivity].
Defined.

Lemma redelivery_after_compensation_witness :
  let a2 := Sample.compensated (uid "c2") Sample.allocated in
  ∃ a3, UpdateDueToSalesOrder (uid "c3") Sample.thirty "o1" a2 = Ok a3 ∧
    "o1" ∈ held a3 ∧ stock a3 = 70.
Proof.
  intros a2.
  apply (redelivery_after_compensation (uid "c") (uid "c2") (uid "c3") Sample.thirty "o1"
           Sample.ipa Sample.allocated a2);
    [apply Sample.ipa_ok | done | apply not_elem_of_empty | done | reflexivity | reflexivity].
Defined.
End witnesses.
