(* ===== verification/Saga.v ===== *)
(** * The order-allocation saga ([internal/warehouses/domain/order_allocation_saga.go])

  The event-sourced process that allocates one sales order row by row and, on
  a failed step, compensates the rows already allocated. The concrete
  aggregate comes first, then the abstract protocol it implements and the
  refinement between the two. *)
From S2P Require Import Prelude Errors Kernel Aggregate WarehouseKernel.
#[local] Open Scope Z_scope.

Section saga.
Context {U : UuidLib}.

Definition SagaStreamName : string := "OrderAllocationSaga".

(** The Go string type, with its zero value [""] before the first event. *)
Inductive SagaStatus := SagaUnset | SagaRunning | SagaCompensating | SagaCompleted | SagaRejected.

Inductive sagaRowState := rowPending | rowAllocated | rowFailed | rowCompensated.

#[global] Instance SagaStatus_eq_dec : EqDecision SagaStatus.
Proof. solve_decision. Defined.
#[global] Instance sagaRowState_eq_dec : EqDecision sagaRowState.
Proof. solve_decision. Defined.

Record sagaRow := mkSagaRow { data : SagaRowData; state : sagaRowState }.

Record OrderAllocationSaga := mkSaga {
  saga_root : AggregateRoot WarehouseEvent;
  salesOrderId : string;
  rows : list sagaRow;
  status : SagaStatus;
  reason : string;
}.

Definition NewOrderAllocationSaga : OrderAllocationSaga :=
  mkSaga new_root "" [] SagaUnset "".

Definition with_saga_root (r : AggregateRoot WarehouseEvent) (s : OrderAllocationSaga) :=
  mkSaga r (salesOrderId s) (rows s) (status s) (reason s).
Definition with_rows (rs : list sagaRow) (s : OrderAllocationSaga) :=
  mkSaga (saga_root s) (salesOrderId s) rs (status s) (reason s).
Definition with_status (st : SagaStatus) (s : OrderAllocationSaga) :=
  mkSaga (saga_root s) (salesOrderId s) (rows s) st (reason s).
Definition with_reason (re : string) (s : OrderAllocationSaga) :=
  mkSaga (saga_root s) (salesOrderId s) (rows s) (status s) re.

(** ** Row queries *)

Definition rowInState (bId : string) (st : sagaRowState) (s : OrderAllocationSaga) : bool :=
  existsb (λ row, bool_decide (row_BeerId (data row) = bId) && bool_decide (state row = st))
    (rows s).

Definition allRowsIn (st : sagaRowState) (s : OrderAllocationSaga) : bool :=
  forallb (λ row, bool_decide (state row = st)) (rows s).

(** [setRowState] updates every row of the beer. *)
Definition setRowState (bId : string) (st : sagaRowState) (s : OrderAllocationSaga)
    : OrderAllocationSaga :=
  with_rows (map (λ row, if decide (row_BeerId (data row) = bId)
                         then mkSagaRow (data row) st else row) (rows s)) s.

Fixpoint first_pending (rs : list sagaRow) : option SagaRowData :=
  match rs with
  | [] => None
  | row :: rs => if decide (state row = rowPending) then Some (data row)
                 else first_pending rs
  end.

(** [(row, true)] as [Some row], [(SagaRowData{}, false)] as [None]. *)
Definition NextPendingRow (s : OrderAllocationSaga) : option SagaRowData :=
  if decide (status s = SagaRunning) then first_pending (rows s) else None.

Definition RowsToCompensate (s : OrderAllocationSaga) : list SagaRowData :=
  if decide (status s ≠ SagaCompensating) then []
  else map data (filter (λ row, state row = rowAllocated) (rows s)).

(** ** Events *)

Definition Saga_Route (event : WarehouseEvent) (s : OrderAllocationSaga)
    : OrderAllocationSaga :=
  match event with
  | EvOrderAllocationStarted e =>
      mkSaga (root_SetID (ev_AggregateId (oas_base e)) (saga_root s)) (oas_SalesOrderId e)
        (map (λ row, mkSagaRow row rowPending) (oas_Rows e)) SagaRunning (reason s)
  | EvAllocationStepSucceeded e => setRowState (ass_BeerId e) rowAllocated s
  | EvAllocationStepFailed e =>
      with_reason (asf_Reason e)
        (with_status SagaCompensating (setRowState (asf_BeerId e) rowFailed s))
  | EvAllocationStepCompensated e => setRowState (asc_BeerId e) rowCompensated s
  | EvOrderAllocationCompleted _ => with_status SagaCompleted s
  | EvOrderAllocationRejected e => with_reason (oar_Reason e) (with_status SagaRejected s)
  | _ => s
  end.

#[global] Instance Saga_Aggregate : Aggregate WarehouseEvent OrderAllocationSaga := {
  agg_root := saga_root; set_root := with_saga_root; Route := Saga_Route }.

#[global] Instance Saga_laws : AggregateLaws WarehouseEvent OrderAllocationSaga.
Proof. split; [done|done|..]; intros []; cbv zeta; intros; simpl; done. Qed.

(** ** Operations *)

Definition StartOrderAllocation (orderId commitId : UUID) (rs : list SagaRowData)
    : OrderAllocationSaga :=
  let saga := RaiseEvent (EvOrderAllocationStarted
                (NewOrderAllocationStarted orderId commitId rs)) NewOrderAllocationSaga in
  if Z.of_nat (length rs) =? 0 then
    RaiseEvent (EvOrderAllocationCompleted (NewOrderAllocationCompleted orderId commitId)) saga
  else saga.

(** The [Record*] methods report whether anything changed; [uuid.MustParse]
    of the stored order id may panic. *)
Definition RecordAllocationSucceeded (commitId : UUID) (bId : string)
    (s : OrderAllocationSaga) : result (bool * OrderAllocationSaga) :=
  if negb (bool_decide (status s = SagaRunning)) || negb (rowInState bId rowPending s) then
    Ok (false, s)
  else result_bind (λ orderId,
    let s := RaiseEvent (EvAllocationStepSucceeded
               (NewAllocationStepSucceeded orderId commitId bId)) s in
    let s := if allRowsIn rowAllocated s then
               RaiseEvent (EvOrderAllocationCompleted
                 (NewOrderAllocationCompleted orderId commitId)) s
             else s in
    Ok (true, s)) (uuid_MustParse (salesOrderId s)).

Definition RecordQuantityNotFound (commitId : UUID) (bId re : string)
    (s : OrderAllocationSaga) : result (bool * OrderAllocationSaga) :=
  if negb (bool_decide (status s = SagaRunning)) || negb (rowInState bId rowPending s) then
    Ok (false, s)
  else result_bind (λ orderId,
    let s := RaiseEvent (EvAllocationStepFailed
               (NewAllocationStepFailed orderId commitId bId re)) s in
    let s := if Z.of_nat (length (RowsToCompensate s)) =? 0 then
               RaiseEvent (EvOrderAllocationRejected
                 (NewOrderAllocationRejected orderId commitId re)) s
             else s in
    Ok (true, s)) (uuid_MustParse (salesOrderId s)).

Definition RecordCompensated (commitId : UUID) (bId : string)
    (s : OrderAllocationSaga) : result (bool * OrderAllocationSaga) :=
  if negb (bool_decide (status s = SagaCompensating)) || negb (rowInState bId rowAllocated s)
  then Ok (false, s)
  else result_bind (λ orderId,
    let s := RaiseEvent (EvAllocationStepCompensated
               (NewAllocationStepCompensated orderId commitId bId)) s in
    let s := if Z.of_nat (length (RowsToCompensate s)) =? 0 then
               RaiseEvent (EvOrderAllocationRejected
                 (NewOrderAllocationRejected orderId commitId (reason s))) s
             else s in
    Ok (true, s)) (uuid_MustParse (salesOrderId s)).

(** The three observations as one operation. *)
Inductive observation :=
| Succeeded (bId : string)
| NotFound (bId re : string)
| Compensated (bId : string).

Definition record (c : UUID) (o : observation) (s : OrderAllocationSaga)
    : result (bool * OrderAllocationSaga) :=
  match o with
  | Succeeded b => RecordAllocationSucceeded c b s
  | NotFound b re => RecordQuantityNotFound c b re s
  | Compensated b => RecordCompensated c b s
  end.

(** ** Reachable sagas *)
Inductive reachable (orderId : UUID) : OrderAllocationSaga → Prop :=
| reachable_start c rs : reachable orderId (StartOrderAllocation orderId c rs)
| reachable_record c o s b s' :
    reachable orderId s → record c o s = Ok (b, s') → reachable orderId s'
| reachable_saved s : reachable orderId s → reachable orderId (ClearUncommittedEvents s).
End saga.

(** ** What one observation does *)
Section effect.
Context {U : UuidLib}.
Implicit Types (s : OrderAllocationSaga) (rs : list sagaRow) (o : observation).

Definition set_rows (b : string) (st : sagaRowState) rs : list sagaRow :=
  map (λ row, if decide (row_BeerId (data row) = b) then mkSagaRow (data row) st else row) rs.

Definition some_row (b : string) (st : sagaRowState) rs : bool :=
  existsb (λ row, bool_decide (row_BeerId (data row) = b) && bool_decide (state row = st)) rs.

Definition observed_beer o : string :=
  match o with Succeeded b | NotFound b _ | Compensated b => b end.

Definition observed_state o : sagaRowState :=
  match o with
  | Succeeded _ => rowAllocated | NotFound _ _ => rowFailed | Compensated _ => rowCompensated
  end.

Definition enabled o s : bool :=
  match o with
  | Succeeded b | NotFound b _ =>
      bool_decide (status s = SagaRunning) && some_row b rowPending (rows s)
  | Compensated b =>
      bool_decide (status s = SagaCompensating) && some_row b rowAllocated (rows s)
  end.

Definition next_rows o rs : list sagaRow := set_rows (observed_beer o) (observed_state o) rs.

Definition none_allocated rs : bool :=
  forallb (λ row, negb (bool_decide (state row = rowAllocated))) rs.

Definition next_status o rs : SagaStatus :=
  match o with
  | Succeeded _ =>
      if forallb (λ row, bool_decide (state row = rowAllocated)) rs
      then SagaCompleted else SagaRunning
  | _ => if none_allocated rs then SagaRejected else SagaCompensating
  end.

Definition next_reason o (re : string) : string :=
  match o with NotFound _ re' => re' | _ => re end.

(** The events an enabled observation raises: the step, and the settlement
    when the transition settles the saga. *)
Definition step_event (orderId c : UUID) o : WarehouseEvent :=
  match o with
  | Succeeded b => EvAllocationStepSucceeded (NewAllocationStepSucceeded orderId c b)
  | NotFound b re => EvAllocationStepFailed (NewAllocationStepFailed orderId c b re)
  | Compensated b => EvAllocationStepCompensated (NewAllocationStepCompensated orderId c b)
  end.

Definition settle_events (orderId c : UUID) (st : SagaStatus) (re : string)
    : list WarehouseEvent :=
  match st with
  | SagaCompleted => [EvOrderAllocationCompleted (NewOrderAllocationCompleted orderId c)]
  | SagaRejected => [EvOrderAllocationRejected (NewOrderAllocationRejected orderId c re)]
  | _ => []
  end.

Definition raised_events (orderId c : UUID) o s : list WarehouseEvent :=
  let rs := next_rows o (rows s) in
  step_event orderId c o ::
  settle_events orderId c (next_status o rs) (next_reason o (reason s)).

Lemma RowsToCompensate_compensating s :
  status s = SagaCompensating →
  (Z.of_nat (length (RowsToCompensate s)) =? 0) = none_allocated (rows s).
Proof.
  intros Hs. unfold RowsToCompensate. rewrite decide_False by congruence.
  unfold none_allocated. rewrite length_map.
  induction (rows s) as [|row rs IH]; [done|].
  rewrite filter_cons. simpl. case_decide as Hd.
  - rewrite bool_decide_eq_true_2 by done. done.
  - rewrite bool_decide_eq_false_2 by done. done.
Qed.

(** The three [Record*] methods in one equation: a disabled observation is a
    no-op, an enabled one raises [raised_events]. *)
Lemma record_effect orderId c o s :
  salesOrderId s = uuid_String orderId →
  record c o s =
  if enabled o s then Ok (true, RaiseAll (raised_events orderId c o s) s) else Ok (false, s).
Proof.
  intros Hid. unfold enabled. destruct o as [b|b re|b]; simpl;
    unfold RecordAllocationSucceeded, RecordQuantityNotFound, RecordCompensated;
    rewrite Hid, uuid_MustParse_String; simpl;
    change (rowInState b) with (λ st s, some_row b st (rows s)); simpl;
    destruct (bool_decide (status s = _)) eqn:Hst; simpl; try done;
    destruct (some_row b _ (rows s)); simpl; try done;
    unfold raised_events; simpl.
  - change (allRowsIn rowAllocated ?x) with
      (forallb (λ row, bool_decide (state row = rowAllocated)) (next_rows (Succeeded b) (rows s))).
    destruct (forallb _ _); done.
  - rewrite RowsToCompensate_compensating by done.
    change (rows (RaiseEvent _ s)) with (next_rows (NotFound b re) (rows s)).
    destruct (none_allocated _); done.
  - apply bool_decide_eq_true in Hst.
    rewrite RowsToCompensate_compensating by done.
    change (rows (RaiseEvent _ s)) with (next_rows (Compensated b) (rows s)).
    destruct (none_allocated _); done.
Qed.

Lemma record_cases orderId c o s b s' :
  record c o s = Ok (b, s') → salesOrderId s = uuid_String orderId →
  (enabled o s = false ∧ b = false ∧ s' = s) ∨
  (enabled o s = true ∧ b = true ∧ s' = RaiseAll (raised_events orderId c o s) s).
Proof.
  intros Hr Hid. rewrite (record_effect orderId) in Hr by done.
  destruct (enabled o s); [right | left]; repeat split; congruence.
Qed.

(** The fields after an enabled observation. *)
Lemma raised_fields orderId c o s :
  enabled o s = true →
  let s' := RaiseAll (raised_events orderId c o s) s in
  rows s' = next_rows o (rows s) ∧
  status s' = next_status o (next_rows o (rows s)) ∧
  reason s' = next_reason o (reason s) ∧
  salesOrderId s' = salesOrderId s ∧ ID s' = ID s.
Proof.
  unfold enabled. intros He.
  destruct o as [b|b re|b]; apply andb_true_iff in He as [Hst%bool_decide_eq_true _];
    unfold raised_events; simpl.
  - destruct (forallb _ _); simpl; rewrite ?Hst; done.
  - destruct (none_allocated _); simpl; done.
  - destruct (none_allocated _); simpl; rewrite ?Hst; done.
Qed.
End effect.

(** ** Row lemmas *)
Section rows.
Context {U : UuidLib}.
Implicit Types (rs : list sagaRow) (row : sagaRow).

Definition beer row : string := row_BeerId (data row).

(** Rows of one beer are always in the same state. *)
Definition coherent rs : Prop :=
  ∀ r r', r ∈ rs → r' ∈ rs → beer r = beer r' → state r = state r'.

Lemma elem_of_set_rows b st rs row :
  row ∈ set_rows b st rs ↔
  ∃ r, r ∈ rs ∧ data row = data r ∧ state row = if decide (beer r = b) then st else state r.
Proof.
  unfold set_rows. rewrite list_elem_of_fmap. split.
  - intros (r & -> & Hr). exists r. split; [done|]. unfold beer. by case_decide.
  - intros (r & Hr & Hd & Hs). exists r. split; [|done]. destruct row; simpl in *.
    unfold beer in Hs. case_decide; subst; [done|]. by destruct r.
Qed.

Lemma some_row_true b st rs :
  some_row b st rs = true ↔ ∃ r, r ∈ rs ∧ beer r = b ∧ state r = st.
Proof.
  unfold some_row. rewrite existsb_exists. split.
  - intros (r & Hr%list_elem_of_In & [Hb%bool_decide_eq_true Hs%bool_decide_eq_true]%andb_true_iff).
    eauto.
  - intros (r & Hr%list_elem_of_In & Hb & Hs). exists r. split; [done|].
    unfold beer in Hb. by rewrite !bool_decide_eq_true_2.
Qed.

Lemma all_in_true st rs :
  forallb (λ row, bool_decide (state row = st)) rs = true ↔ ∀ r, r ∈ rs → state r = st.
Proof.
  rewrite forallb_forall. split.
  - intros Hf r Hr%list_elem_of_In. by apply Hf, bool_decide_eq_true in Hr.
  - intros Hf r Hr%list_elem_of_In. by apply bool_decide_eq_true_2, Hf.
Qed.

Lemma all_in_false st rs :
  forallb (λ row, bool_decide (state row = st)) rs = false ↔ ∃ r, r ∈ rs ∧ state r ≠ st.
Proof.
  induction rs as [|r rs IH]; simpl.
  { split; [done|]. by intros (r & Hr%elem_of_nil & _). }
  rewrite andb_false_iff, IH, bool_decide_eq_false. split.
  - intros [Hr|(r' & Hr' & Hs)]; [exists r | exists r']; set_solver.
  - intros (r' & [->|Hr']%elem_of_cons & Hs); eauto.
Qed.

Lemma none_allocated_true rs :
  none_allocated rs = true ↔ ∀ r, r ∈ rs → state r ≠ rowAllocated.
Proof.
  unfold none_allocated. rewrite forallb_forall. split.
  - intros Hf r Hr%list_elem_of_In. apply Hf, negb_true_iff, bool_decide_eq_false in Hr. done.
  - intros Hf r Hr%list_elem_of_In. apply negb_true_iff, bool_decide_eq_false. by apply Hf.
Qed.

Lemma none_allocated_false rs :
  none_allocated rs = false ↔ ∃ r, r ∈ rs ∧ state r = rowAllocated.
Proof.
  induction rs as [|r rs IH]; simpl.
  { split; [done|]. by intros (r & Hr%elem_of_nil & _). }
  unfold none_allocated in *. simpl.
  rewrite andb_false_iff, IH, negb_false_iff, bool_decide_eq_true. split.
  - intros [Hr|(r' & Hr' & Hs)]; [exists r | exists r']; set_solver.
  - intros (r' & [->|Hr']%elem_of_cons & Hs); eauto.
Qed.

Lemma coherent_set_rows b st rs : coherent rs → coherent (set_rows b st rs).
Proof.
  intros Hc r r' (r0 & H0 & Hd & Hs)%elem_of_set_rows (r1 & H1 & Hd' & Hs')%elem_of_set_rows Hb.
  unfold beer in *. rewrite Hd, Hd' in Hb. rewrite Hs, Hs', Hb.
  case_decide; [done|]. by apply Hc.
Qed.

(** Rows of the beer that an enabled observation finds in state [st] are all
    in that state. *)
Lemma coherent_all b st rs row :
  coherent rs → some_row b st rs = true → row ∈ rs → beer row = b → state row = st.
Proof. intros Hc (r & Hr & Hb & <-)%some_row_true Hrow <-. by apply Hc. Qed.

Lemma first_pending_Some rs :
  (∃ r, r ∈ rs ∧ state r = rowPending) ↔ is_Some (first_pending rs).
Proof.
  induction rs as [|r rs IH]; simpl.
  { split; [by intros (r & ?%elem_of_nil & _)|by intros []]. }
  case_decide as Hs.
  - split; [eauto|]. intros _. exists r. set_solver.
  - rewrite <- IH. split; intros (r' & Hr' & Hs'); exists r'; set_solver.
Qed.

Lemma first_pending_elem rs d :
  first_pending rs = Some d → ∃ r, r ∈ rs ∧ data r = d ∧ state r = rowPending.
Proof.
  induction rs as [|r rs IH]; simpl; [done|]. case_decide as Hs.
  - intros [= <-]. exists r. set_solver.
  - intros (r' & ? & ? & ?)%IH. exists r'. set_solver.
Qed.
End rows.

(** ** The saga invariant *)
Section invariant.
Context {U : UuidLib}.
Implicit Types s : OrderAllocationSaga.

Definition status_ok s : Prop :=
  match status s with
  | SagaUnset => False
  | SagaRunning =>
      (∀ r, r ∈ rows s → state r = rowPending ∨ state r = rowAllocated) ∧
      (∃ r, r ∈ rows s ∧ state r = rowPending)
  | SagaCompleted => ∀ r, r ∈ rows s → state r = rowAllocated
  | SagaCompensating =>
      (∃ r, r ∈ rows s ∧ state r = rowAllocated) ∧
      (∃ r, r ∈ rows s ∧ state r = rowFailed)
  | SagaRejected =>
      (∀ r, r ∈ rows s → state r ≠ rowAllocated) ∧
      (∃ r, r ∈ rows s ∧ state r = rowFailed)
  end.

Record saga_inv (orderId : UUID) s : Prop := {
  inv_order : salesOrderId s = uuid_String orderId;
  inv_id : ID s = orderId;
  inv_coherent : coherent (rows s);
  inv_status : status_ok s;
}.

Lemma elem_of_pending (rs : list SagaRowData) r :
  r ∈ map (λ row, mkSagaRow row rowPending) rs → state r = rowPending.
Proof. by intros (d & -> & _)%list_elem_of_fmap. Qed.

Lemma start_inv orderId c rs : saga_inv orderId (StartOrderAllocation orderId c rs).
Proof.
  assert (coherent (map (λ row, mkSagaRow row rowPending) rs)) as Hc.
  { intros r r' Hr%elem_of_pending Hr'%elem_of_pending _. congruence. }
  unfold StartOrderAllocation. destruct rs as [|d rs]; simpl.
  - split; [done|done|done|]. intros r Hr%elem_of_nil. done.
  - split; [done|done|done|]. split.
    + intros r Hr. left. by apply (elem_of_pending (d :: rs)).
    + exists (mkSagaRow d rowPending). split; [left|done].
Qed.

Lemma record_inv orderId c o s b s' :
  saga_inv orderId s → record c o s = Ok (b, s') → saga_inv orderId s'.
Proof.
  intros [Hord Hid Hc Hst] Hrec.
  destruct (record_cases orderId c o s b s' Hrec Hord) as [(_ & _ & ->)|(He & _ & Hs')];
    [by split|].
  destruct (raised_fields orderId c o s He) as (Hrs & Hs & _ & Ho & Hi).
  rewrite <- Hs' in *. clear Hs'.
  split; [by rewrite Ho | by rewrite Hi | by rewrite Hrs; apply coherent_set_rows|].
  unfold status_ok in *. rewrite Hs, Hrs. unfold next_rows. clear Hrs Hs Ho Hi.
  destruct o as [x|x re|x]; simpl in *; apply andb_true_iff in He as [He Hrow];
    apply bool_decide_eq_true in He; rewrite He in Hst.
  - destruct Hst as [Hall _]. destruct (forallb _ _) eqn:E; [by apply all_in_true|].
    split.
    + intros r (r0 & H0 & _ & ->)%elem_of_set_rows. case_decide; auto.
    + apply all_in_false in E as (r & Hr & Hne). exists r. split; [done|].
      apply elem_of_set_rows in Hr as (r0 & H0 & _ & Hr). case_decide; [congruence|].
      destruct (Hall r0 H0); congruence.
  - apply some_row_true in Hrow as (r & Hr & Hb & Hp).
    assert (∃ r', r' ∈ set_rows x rowFailed (rows s) ∧ state r' = rowFailed) as Hf.
    { exists (mkSagaRow (data r) rowFailed). split; [|done]. apply elem_of_set_rows.
      exists r. by rewrite decide_True. }
    destruct (none_allocated _) eqn:E; split; try done.
    + by apply none_allocated_true.
    + by apply none_allocated_false.
  - assert (∃ r', r' ∈ set_rows x rowCompensated (rows s) ∧ state r' = rowFailed) as Hf.
    { destruct Hst as [_ (r & Hr & Hfail)]. exists r. split; [|done].
      apply elem_of_set_rows. exists r. split; [done|]. split; [done|].
      case_decide as Hb; [|done]. exfalso.
      pose proof (coherent_all _ _ _ _ Hc Hrow Hr Hb). congruence. }
    destruct (none_allocated _) eqn:E; split; try done.
    + by apply none_allocated_true.
    + by apply none_allocated_false.
Qed.

Lemma clear_inv orderId s : saga_inv orderId s → saga_inv orderId (ClearUncommittedEvents s).
Proof. by intros [? ? ? ?]. Qed.

Lemma reachable_inv orderId s : reachable orderId s → saga_inv orderId s.
Proof. induction 1; eauto using start_inv, record_inv, clear_inv. Qed.
End invariant.
#[export] Hint Resolve reachable_inv : brew.

(** ** The abstract protocol *)

(** What the saga promises, without rows, identifiers or events: beers are
    allocated one by one; the first refusal turns the process around and every
    allocated beer is given back; both outcomes are final. *)
Inductive protocol :=
| PRunning (pending allocated : gset string)
| PCompensating (allocated : gset string)
| PCompleted
| PRejected.

Definition give_back (allocated : gset string) : protocol :=
  if decide (allocated = ∅) then PRejected else PCompensating allocated.

Inductive pstep : protocol → observation → protocol → Prop :=
| pstep_allocate p a b : b ∈ p →
    pstep (PRunning p a) (Succeeded b)
      (if decide (p ∖ {[b]} = ∅) then PCompleted else PRunning (p ∖ {[b]}) (a ∪ {[b]}))
| pstep_refuse p a b re : b ∈ p →
    pstep (PRunning p a) (NotFound b re) (give_back a)
| pstep_compensate a b : b ∈ a →
    pstep (PCompensating a) (Compensated b) (give_back (a ∖ {[b]})).

Section refinement.
Context {U : UuidLib}.
Implicit Types (s : OrderAllocationSaga) (rs : list sagaRow).

(** The beers of the rows in a given state. *)
Definition beers_in (st : sagaRowState) rs : gset string :=
  list_to_set (map beer (filter (λ row, state row = st) rs)).

Lemma elem_of_beers_in st rs b :
  b ∈ beers_in st rs ↔ ∃ r, r ∈ rs ∧ beer r = b ∧ state r = st.
Proof.
  unfold beers_in. rewrite elem_of_list_to_set, list_elem_of_fmap.
  setoid_rewrite list_elem_of_filter. naive_solver.
Qed.

Definition abs s : option protocol :=
  match status s with
  | SagaUnset => None
  | SagaRunning => Some (PRunning (beers_in rowPending (rows s)) (beers_in rowAllocated (rows s)))
  | SagaCompensating => Some (PCompensating (beers_in rowAllocated (rows s)))
  | SagaCompleted => Some PCompleted
  | SagaRejected => Some PRejected
  end.

Lemma some_row_beers_in b st rs : some_row b st rs = true ↔ b ∈ beers_in st rs.
Proof. by rewrite some_row_true, elem_of_beers_in. Qed.

(** Moving the rows of [b] from [st] to [st'] moves [b] between the sets. *)
Lemma beers_in_source b st st' rs :
  coherent rs → some_row b st rs = true → st ≠ st' →
  beers_in st (set_rows b st' rs) = beers_in st rs ∖ {[b]}.
Proof.
  intros Hc Hb Hne. apply set_eq. intros x.
  rewrite elem_of_difference, elem_of_singleton, !elem_of_beers_in.
  setoid_rewrite elem_of_set_rows. split.
  - intros (r & (r0 & H0 & Hd & Hs) & <- & Hst). unfold beer in *. rewrite Hd in *.
    case_decide; [congruence|]. split; [|done]. exists r0. naive_solver congruence.
  - intros ((r & Hr & <- & Hst) & Hx). exists r. split; [|done].
    exists r. by rewrite decide_False.
Qed.

Lemma beers_in_target b st st' rs :
  some_row b st rs = true → st ≠ st' →
  beers_in st' (set_rows b st' rs) = beers_in st' rs ∪ {[b]}.
Proof.
  intros (r1 & H1 & Hb1 & _)%some_row_true Hne. apply set_eq. intros x.
  rewrite elem_of_union, elem_of_singleton, !elem_of_beers_in.
  setoid_rewrite elem_of_set_rows. split.
  - intros (r & (r0 & H0 & Hd & Hs) & <- & Hst). unfold beer in *. rewrite Hd in *.
    case_decide; [by right|]. left. exists r0. naive_solver congruence.
  - intros [(r & Hr & <- & Hst)| ->].
    + exists r. split; [|done]. exists r. split; [done|]. split; [done|]. by case_decide.
    + exists (mkSagaRow (data r1) st'). split; [|done].
      exists r1. split; [done|]. split; [done|]. by rewrite decide_True.
Qed.

Lemma beers_in_other b st st' rs :
  (∀ r, r ∈ rs → beer r = b → state r ≠ st) → st ≠ st' →
  beers_in st (set_rows b st' rs) = beers_in st rs.
Proof.
  intros Hb Hne. apply set_eq. intros x. rewrite !elem_of_beers_in.
  setoid_rewrite elem_of_set_rows. split.
  - intros (r & (r0 & H0 & Hd & Hs) & <- & Hst). unfold beer in *. rewrite Hd in *.
    case_decide; [congruence|]. exists r0. naive_solver congruence.
  - intros (r & Hr & <- & Hst). exists r. split; [|done]. exists r.
    split; [done|]. split; [done|]. case_decide; [|done]. by destruct (Hb r Hr).
Qed.

Lemma beers_in_empty st rs :
  beers_in st rs = ∅ ↔ ∀ r, r ∈ rs → state r ≠ st.
Proof.
  split.
  - intros He r Hr Hst. assert (beer r ∈ beers_in st rs) as Hin
      by (apply elem_of_beers_in; eauto). rewrite He in Hin. set_solver.
  - intros Hn. apply set_eq. intros x. rewrite elem_of_beers_in. split; [|set_solver].
    intros (r & Hr & _ & Hst). by destruct (Hn r Hr).
Qed.

Lemma none_allocated_empty rs : none_allocated rs = bool_decide (beers_in rowAllocated rs = ∅).
Proof.
  apply eq_true_iff_eq. by rewrite bool_decide_eq_true, none_allocated_true, beers_in_empty.
Qed.

Lemma all_allocated_empty rs :
  (∀ r, r ∈ rs → state r = rowPending ∨ state r = rowAllocated) →
  forallb (λ row, bool_decide (state row = rowAllocated)) rs
  = bool_decide (beers_in rowPending rs = ∅).
Proof.
  intros Hall. apply eq_true_iff_eq. rewrite bool_decide_eq_true, all_in_true, beers_in_empty.
  split; intros Hr r Hin; destruct (Hall r Hin); rewrite ?(Hr r Hin); naive_solver.
Qed.

(** Disabled observations are exactly those the protocol refuses. *)
Lemma enabled_pstep o s p :
  abs s = Some p → enabled o s = true ↔ ∃ p', pstep p o p'.
Proof.
  unfold abs, enabled. intros Ha.
  destruct o as [b|b re|b]; rewrite andb_true_iff, bool_decide_eq_true, some_row_beers_in;
    split.
  1,3,5: intros [Hs Hb]; rewrite Hs in Ha; injection Ha as <-; eauto using pstep.
  all: intros [p' Hp]; inversion Hp; subst; destruct (status s); simplify_eq; done.
Qed.

Lemma enabled_refines o s p s' :
  status_ok s → coherent (rows s) → abs s = Some p → enabled o s = true →
  rows s' = next_rows o (rows s) → status s' = next_status o (next_rows o (rows s)) →
  ∃ p', abs s' = Some p' ∧ pstep p o p'.
Proof.
  unfold enabled, next_rows, abs, status_ok. intros Hok Hc Hp He Hrs Hst.
  rewrite Hst, Hrs. clear Hst Hrs.
  destruct o as [b|b re|b]; simpl in *; apply andb_true_iff in He as [Hs Hb];
    apply bool_decide_eq_true in Hs; rewrite Hs in *; injection Hp as <-;
    pose proof (proj1 (some_row_beers_in _ _ _) Hb) as Hin.
  - destruct Hok as [Hall _].
    rewrite all_allocated_empty, (beers_in_source b rowPending rowAllocated),
      (beers_in_target b rowPending) by first
      [ done | intros r (r0 & H0 & _ & ->)%elem_of_set_rows; case_decide; auto ].
    eexists. split; [|by apply pstep_allocate].
    rewrite bool_decide_decide. by destruct (decide (_ = ∅)).
  - rewrite none_allocated_empty, beers_in_other.
    + eexists. split; [|by eapply pstep_refuse]. unfold give_back.
      rewrite bool_decide_decide. by destruct (decide (_ = ∅)).
    + intros r Hr Hbr. by rewrite (coherent_all _ _ _ _ Hc Hb Hr Hbr).
    + done.
  - rewrite none_allocated_empty, (beers_in_source b rowAllocated) by done.
    eexists. split; [|by apply pstep_compensate]. unfold give_back.
    rewrite bool_decide_decide. by destruct (decide (_ = ∅)).
Qed.
End refinement.

(** ** Theorems *)
Section theorems.
Context {U : UuidLib}.
Implicit Types s : OrderAllocationSaga.

Lemma abs_some s : status_ok s → ∃ p, abs s = Some p.
Proof. unfold status_ok, abs. case_match; eauto. done. Qed.

(** C14 Refinement: from every reachable saga each [Record*] call returns
    without panic, reports a change exactly when the abstract protocol can
    take that step, then moves to the state the protocol moves to, and
    otherwise leaves the aggregate untouched, version and uncommitted events
    included. *)
Theorem saga_refines_protocol orderId s c o :
  reachable orderId s →
  ∃ p b s', abs s = Some p ∧ record c o s = Ok (b, s') ∧
    if b then ∃ p', abs s' = Some p' ∧ pstep p o p'
    else s' = s ∧ ∀ p', ¬ pstep p o p'.
Proof.
  intros [Hord _ Hc Hok]%reachable_inv.
  destruct (abs_some s Hok) as [p Hp]. exists p.
  rewrite (record_effect orderId) by done.
  destruct (enabled o s) eqn:He; eexists _, _; (split; [done|split; [done|]]).
  - destruct (raised_fields orderId c o s He) as (Hrs & Hs & _).
    by eapply enabled_refines.
  - split; [done|]. intros p' Hp'. apply not_true_iff_false in He. apply He.
    apply (enabled_pstep _ _ p); eauto.
Qed.

(** What each status means in every reachable saga: running has a next
    step to send and every row pending or allocated; completed has every row
    allocated; compensating still has a row to undo and a row that failed;
    rejected holds no row and has a row that failed. *)
Theorem saga_status_meaning orderId s :
  reachable orderId s →
  salesOrderId s = uuid_String orderId ∧ ID s = orderId ∧
  match status s with
  | SagaUnset => False
  | SagaRunning =>
      is_Some (NextPendingRow s) ∧
      ∀ r, r ∈ rows s → state r = rowPending ∨ state r = rowAllocated
  | SagaCompleted => ∀ r, r ∈ rows s → state r = rowAllocated
  | SagaCompensating =>
      RowsToCompensate s ≠ [] ∧ ∃ r, r ∈ rows s ∧ state r = rowFailed
  | SagaRejected =>
      (∀ r, r ∈ rows s → state r ≠ rowAllocated) ∧ ∃ r, r ∈ rows s ∧ state r = rowFailed
  end.
Proof.
  intros [Hord Hid _ Hok]%reachable_inv. split; [done|]. split; [done|].
  unfold status_ok in Hok. destruct (status s) eqn:Hs; try done.
  - destruct Hok as [Hall Hp]. split; [|done].
    unfold NextPendingRow. rewrite decide_True by done. by apply first_pending_Some.
  - destruct Hok as [Ha Hf]. split; [|done]. intros He.
    pose proof (RowsToCompensate_compensating s Hs) as Hn. rewrite He in Hn.
    symmetry in Hn. pose proof (proj1 (none_allocated_true _) Hn).
    destruct Ha as (r & Hr & Hst). by destruct (H r Hr).
Qed.

(** Both outcomes are final: a completed or rejected saga ignores every
    further observation and raises nothing. *)
Theorem saga_settled_final orderId s c o :
  reachable orderId s → status s = SagaCompleted ∨ status s = SagaRejected →
  record c o s = Ok (false, s).
Proof.
  intros [Hord _ _ _]%reachable_inv Hs. rewrite (record_effect orderId) by done.
  unfold enabled. by destruct o; destruct Hs as [-> | ->].
Qed.

(** The work a saga can still do. *)
Definition count_in (st : sagaRowState) (rs : list sagaRow) : nat :=
  length (filter (λ row, state row = st) rs).

Definition remaining s : nat :=
  match status s with
  | SagaRunning => 2 * count_in rowPending (rows s) + count_in rowAllocated (rows s) + 1
  | SagaCompensating => count_in rowAllocated (rows s) + 1
  | _ => 0
  end.

Lemma count_set_rows b st st' rs :
  coherent rs → some_row b st rs = true → st ≠ st' →
  ∃ k, (0 < k)%nat ∧
    count_in st rs = (count_in st (set_rows b st' rs) + k)%nat ∧
    count_in st' (set_rows b st' rs) = (count_in st' rs + k)%nat ∧
    ∀ st'', st'' ≠ st → st'' ≠ st' → count_in st'' (set_rows b st' rs) = count_in st'' rs.
Proof.
  intros Hc Hb Hne.
  assert (∀ r, r ∈ rs → beer r = b → state r = st) as Hall
    by (intros; by eapply coherent_all).
  exists (length (filter (λ r, beer r = b) rs)). split.
  { apply some_row_true in Hb as (r & Hr & Hbr & _).
    assert (r ∈ filter (λ r, beer r = b) rs) as Hin by (by apply list_elem_of_filter).
    destruct (filter _ rs); [by apply elem_of_nil in Hin | simpl; lia]. }
  clear Hb Hc. unfold count_in, set_rows.
  induction rs as [|r rs IH]; [done|]. simpl.
  destruct IH as (H1 & H2 & H3); [intros; apply Hall; set_solver|].
  fold (beer r). rewrite !filter_cons. destruct (decide (beer r = b)) as [Hr|Hr].
  - pose proof (Hall r ltac:(set_solver) Hr) as Hst. simpl.
    rewrite (decide_True (P := state r = st)), (decide_False (P := st' = st)),
      (decide_True (P := st' = st')), (decide_False (P := state r = st')) by congruence.
    simpl. split; [lia|]. split; [lia|]. intros st'' Hn Hn'.
    rewrite !filter_cons. simpl.
    rewrite (decide_False (P := st' = st'')), (decide_False (P := state r = st'')) by congruence.
    by apply H3.
  - split; [repeat case_decide; simpl; lia|]. split; [repeat case_decide; simpl; lia|].
    intros st'' Hn Hn'. rewrite !filter_cons. case_decide; simpl; [f_equal|]; by apply H3.
Qed.

Lemma count_in_pos b st rs : some_row b st rs = true → (0 < count_in st rs)%nat.
Proof.
  intros (r & Hr & _ & Hst)%some_row_true. unfold count_in.
  assert (r ∈ filter (λ row, state row = st) rs) as Hin by (by apply list_elem_of_filter).
  destruct (filter _ rs); [by apply elem_of_nil in Hin | simpl; lia].
Qed.

Lemma length_raised_events orderId c o s :
  length (raised_events orderId c o s) =
  match next_status o (next_rows o (rows s)) with
  | SagaCompleted | SagaRejected => 2%nat
  | _ => 1%nat
  end.
Proof. unfold raised_events. simpl. by destruct (next_status _ _). Qed.

Lemma none_allocated_count rs : none_allocated rs = true → count_in rowAllocated rs = O.
Proof.
  intros Hn. unfold count_in. apply length_zero_iff_nil.
  destruct (filter _ rs) as [|r l] eqn:Hf; [done|].
  assert (r ∈ r :: l) as Hr by left. rewrite <- Hf in Hr.
  apply list_elem_of_filter in Hr as [Hst Hr].
  by destruct (proj1 (none_allocated_true rs) Hn r Hr).
Qed.

(** An enabled observation pays for the events it raises. *)
Lemma remaining_decreases orderId c o s :
  saga_inv orderId s → enabled o s = true →
  (remaining (RaiseAll (raised_events orderId c o s) s)
     + length (raised_events orderId c o s) ≤ remaining s)%nat.
Proof.
  intros [_ _ Hc Hok] He. destruct (raised_fields orderId c o s He) as (Hrs & Hst & _).
  rewrite length_raised_events. unfold remaining. rewrite Hst, Hrs. clear Hst Hrs.
  unfold enabled in He. unfold next_rows.
  destruct o as [b|b re|b]; simpl in *; apply andb_true_iff in He as [Hs Hb];
    apply bool_decide_eq_true in Hs; rewrite Hs in *.
  - destruct (count_set_rows b rowPending rowAllocated (rows s) Hc Hb) as (k & Hk & H1 & H2 & _);
      [done|]. destruct (forallb _ _); lia.
  - pose proof (count_in_pos _ _ _ Hb).
    destruct (count_set_rows b rowPending rowFailed (rows s) Hc Hb) as (k & Hk & H1 & H2 & H3);
      [done|]. specialize (H3 rowAllocated ltac:(done) ltac:(done)).
    destruct (none_allocated _); lia.
  - pose proof (count_in_pos _ _ _ Hb).
    destruct (count_set_rows b rowAllocated rowCompensated (rows s) Hc Hb) as (k & Hk & H1 & _);
      [done|]. destruct (none_allocated _); lia.
Qed.

Lemma length_next_rows o s : length (next_rows o (rows s)) = length (rows s).
Proof. apply length_map. Qed.

Lemma start_counts (rs : list SagaRowData) :
  count_in rowPending (map (λ row, mkSagaRow row rowPending) rs) = length rs ∧
  count_in rowAllocated (map (λ row, mkSagaRow row rowPending) rs) = O.
Proof. unfold count_in. induction rs as [|d rs [IH1 IH2]]; [done|]. simpl. by rewrite IH1. Qed.

Lemma reachable_budget orderId s :
  reachable orderId s → Version s + Z.of_nat (remaining s) ≤ 2 * Z.of_nat (length (rows s)) + 2.
Proof.
  induction 1 as [c rs|c o s b s' Hreach IH Hrec|s Hreach IH].
  - destruct rs as [|d rs]; [unfold Version, remaining; simpl; lia|].
    destruct (start_counts (d :: rs)) as [Hp Ha].
    change (rows (StartOrderAllocation orderId c (d :: rs)))
      with (map (λ row, mkSagaRow row rowPending) (d :: rs)).
    unfold remaining. change (rows (StartOrderAllocation orderId c (d :: rs)))
      with (map (λ row, mkSagaRow row rowPending) (d :: rs)).
    rewrite Hp, Ha, length_map. unfold Version. simpl. lia.
  - pose proof (reachable_inv _ _ Hreach) as Hinv. destruct Hinv as [Hord ? ? ?].
    destruct (record_cases orderId c o s b s' Hrec Hord) as [(_ & _ & ->)|(He & _ & ->)]; [done|].
    pose proof (remaining_decreases orderId c o s ltac:(by split) He).
    destruct (raised_fields orderId c o s He) as (Hrs & _).
    rewrite Hrs, length_next_rows, Version_RaiseAll. lia.
  - done.
Qed.

(** C38 Every saga terminates: each observation that changes it uses up part of
    a finite budget, so that a saga of [n] rows never records more than
    [2 n + 2] events, whatever is delivered, in whatever order and however
    often. *)
Theorem saga_terminates orderId s c o s' :
  reachable orderId s → record c o s = Ok (true, s') →
  (remaining s' < remaining s)%nat ∧ length (rows s') = length (rows s) ∧
  Version s < Version s' ≤ 2 * Z.of_nat (length (rows s')) + 2.
Proof.
  intros Hreach Hrec. pose proof (reachable_inv _ _ Hreach) as Hinv.
  pose proof (reachable_budget _ _ (reachable_record _ _ _ _ _ _ Hreach Hrec)) as Hb.
  destruct (record_cases orderId c o s true s' Hrec (inv_order _ _ Hinv))
    as [(_ & ? & _)|(He & _ & ->)]; [done|].
  pose proof (remaining_decreases orderId c o s Hinv He) as Hd.
  destruct (raised_fields orderId c o s He) as (Hrs & _).
  assert (1 ≤ length (raised_events orderId c o s))%nat
    by (rewrite length_raised_events; case_match; lia).
  revert Hb. rewrite Hrs, length_next_rows, Version_RaiseAll. lia.
Qed.

(** ** Observations take effect once *)

(** The sagas a saga can become. *)
Inductive later s : OrderAllocationSaga → Prop :=
| later_refl : later s s
| later_record c o s1 b s2 : later s s1 → record c o s1 = Ok (b, s2) → later s s2
| later_saved s1 : later s s1 → later s (ClearUncommittedEvents s1).

Lemma later_trans s s1 s2 : later s s1 → later s1 s2 → later s s2.
Proof. intros H1. induction 1; eauto using later. Qed.

(** The rows an observation waits for are gone for good. *)
Definition spent o s : Prop :=
  match o with
  | Succeeded b | NotFound b _ => ∀ r, r ∈ rows s → beer r = b → state r ≠ rowPending
  | Compensated b =>
      status s ≠ SagaRunning ∧ ∀ r, r ∈ rows s → beer r = b → state r ≠ rowAllocated
  end.

Lemma spent_disabled o s : spent o s → enabled o s = false.
Proof.
  unfold spent, enabled. destruct o as [b|b re|b]; intros Hs; apply andb_false_iff; right;
    apply not_true_iff_false; intros (r & Hr & Hb & Hst)%some_row_true;
    [by apply (Hs r)..|]. by destruct Hs as [_ Hs]; apply (Hs r).
Qed.

Lemma record_spent orderId c o s :
  saga_inv orderId s → enabled o s = true →
  spent o (RaiseAll (raised_events orderId c o s) s).
Proof.
  intros [_ _ Hc _] He. destruct (raised_fields orderId c o s He) as (Hrs & Hst & _).
  unfold spent. rewrite Hrs, Hst. unfold next_rows, next_status.
  destruct o as [b|b re|b]; simpl;
    [intros r (r0 & Hr & Hd & ->)%elem_of_set_rows Hb; unfold beer in *; rewrite Hd in Hb;
     by rewrite decide_True..|].
  split; [by case_match|].
  intros r (r0 & Hr & Hd & ->)%elem_of_set_rows Hb. unfold beer in *. rewrite Hd in Hb.
  by rewrite decide_True.
Qed.

Lemma spent_later_record orderId c o o' s b s' :
  saga_inv orderId s → record c o' s = Ok (b, s') → spent o s → spent o s'.
Proof.
  intros [Hord _ _ _] Hrec Hs.
  destruct (record_cases orderId c o' s b s' Hrec Hord) as [(_ & _ & ->)|(He & _ & Hs')]; [done|].
  destruct (raised_fields orderId c o' s He) as (Hrs & Hst & _). rewrite <- Hs' in *. clear Hs' Hrec.
  assert (∀ x, (∀ r, r ∈ rows s → beer r = x → state r ≠ rowPending) →
    ∀ r, r ∈ rows s' → beer r = x → state r ≠ rowPending) as Hp.
  { intros x Hx r. rewrite Hrs. intros (r0 & Hr & Hd & ->)%elem_of_set_rows Hb.
    unfold beer in *. rewrite Hd in Hb. case_decide; [by destruct o'|by apply Hx]. }
  destruct o as [x|x re|x]; simpl in *; [by apply Hp..|]. destruct Hs as [Hrun Ha].
  unfold enabled in He.
  destruct o' as [y|y re|y]; apply andb_true_iff in He as [He%bool_decide_eq_true _];
    [done|done|]. split; [rewrite Hst; unfold next_status; by case_match|].
  intros r. rewrite Hrs. intros (r0 & Hr & Hd & ->)%elem_of_set_rows Hb.
  unfold beer in *. rewrite Hd in Hb. case_decide; [done|]. by apply Ha.
Qed.

Lemma later_inv orderId o s s' :
  saga_inv orderId s → spent o s → later s s' → saga_inv orderId s' ∧ spent o s'.
Proof.
  intros Hi Hs. induction 1 as [|c o' s1 b s2 _ [IHi IHs] Hrec|s1 _ [IHi IHs]].
  - done.
  - split; [by eapply record_inv|by eapply spent_later_record].
  - split; [by apply clear_inv|done].
Qed.

(** Every observation takes effect at most once in the life of a saga:
    however the saga goes on after it recorded the observation, a redelivery
    changes nothing and raises nothing. *)
Theorem observed_at_most_once orderId s c o s1 s2 c' :
  reachable orderId s → record c o s = Ok (true, s1) → later s1 s2 →
  record c' o s2 = Ok (false, s2).
Proof.
  intros Hreach Hrec Hl. pose proof (reachable_inv _ _ Hreach) as Hinv.
  pose proof (record_inv _ _ _ _ _ _ Hinv Hrec) as Hinv1.
  destruct (record_cases orderId c o s true s1 Hrec (inv_order _ _ Hinv))
    as [(_ & ? & _)|(He & _ & Hs1)]; [done|].
  assert (spent o s1) as Hspent by (rewrite Hs1; by apply record_spent).
  destruct (later_inv orderId o s1 s2 Hinv1 Hspent Hl) as [Hinv2 Hsp2].
  rewrite (record_effect orderId) by apply Hinv2. by rewrite spent_disabled.
Qed.

(** Rows of one beer settle together: when every row of an order names the
    same beer, the first successful step allocates all of them and completes
    the saga, although the step asked the warehouse for one row only. *)
Theorem duplicate_rows_complete_at_once orderId c c' rs b :
  rs ≠ [] → (∀ d, d ∈ rs → row_BeerId d = b) →
  ∃ s', RecordAllocationSucceeded c' b (StartOrderAllocation orderId c rs) = Ok (true, s') ∧
    status s' = SagaCompleted ∧ Version s' = 3 ∧ length (rows s') = length rs.
Proof.
  intros Hne Hb. set (s := StartOrderAllocation orderId c rs).
  assert (rows s = map (λ row, mkSagaRow row rowPending) rs ∧ status s = SagaRunning ∧ Version s = 1)
    as (Hrows & Hst & Hv) by (unfold s, StartOrderAllocation; by destruct rs).
  pose proof (start_inv orderId c rs) as [Hord _ _ _]. fold s in Hord.
  assert (enabled (Succeeded b) s = true) as He.
  { unfold enabled. rewrite Hst, Hrows. simpl. apply some_row_true.
    destruct rs as [|d rs]; [done|]. exists (mkSagaRow d rowPending).
    split; [left|]. split; [|done]. apply Hb. left. }
  change (RecordAllocationSucceeded c' b s) with (record c' (Succeeded b) s).
  rewrite (record_effect orderId), He by done. eexists. split; [done|].
  destruct (raised_fields orderId c' _ _ He) as (Hr & Hs & _).
  rewrite Hs, Hr, length_next_rows, Version_RaiseAll, length_raised_events, Hv.
  assert (forallb (λ row, bool_decide (state row = rowAllocated)) (next_rows (Succeeded b) (rows s))
          = true) as Hall.
  { apply all_in_true. unfold next_rows. simpl. rewrite Hrows.
    intros r (r0 & (d & -> & Hd)%list_elem_of_fmap & _ & ->)%elem_of_set_rows.
    rewrite decide_True; [done|]. by apply Hb. }
  unfold next_status. rewrite Hall, Hrows, length_map. done.
Qed.
End theorems.

(** ** Evaluated instances: an order of two beers *)
Module SampleSaga.
#[local] Existing Instance DemoUuid.lib.

Definition row (b : string) : SagaRowData := mkSagaRowData b "" 10 "Lt".
Definition two : OrderAllocationSaga := StartOrderAllocation (uid "o") (uid "c") [row "ua"; row "ub"].
Definition one_done : OrderAllocationSaga :=
  RaiseAll (raised_events (uid "o") (uid "c1") (Succeeded "ua") two) two.
Definition empty_order : OrderAllocationSaga := StartOrderAllocation (uid "o") (uid "c") [].

Lemma two_reachable : reachable (uid "o") two.
Proof. apply reachable_start. Qed.
End SampleSaga.

Section witnesses.
#[local] Existing Instance DemoUuid.lib.
Import SampleSaga.

Lemma saga_refines_protocol_witness :
  ∃ p b s', abs two = Some p ∧ record (uid "c1") (Succeeded "ua") two = Ok (b, s') ∧
    if b then ∃ p', abs s' = Some p' ∧ pstep p (Succeeded "ua") p'
    else s' = two ∧ ∀ p', ¬ pstep p (Succeeded "ua") p'.
Proof. apply (saga_refines_protocol (uid "o") two (uid "c1") (Succeeded "ua") two_reachable). Defined.

Lemma saga_status_meaning_witness :
  salesOrderId two = "uo" ∧ ID two = uid "o" ∧ is_Some (NextPendingRow two) ∧
  ∀ r, r ∈ rows two → state r = rowPending ∨ state r = rowAllocated.
Proof. apply (saga_status_meaning (uid "o") two two_reachable). Defined.

Lemma saga_settled_final_witness :
  record (uid "c1") (NotFound "ua" "none left") empty_order = Ok (false, empty_order).
Proof.
  apply (saga_settled_final (uid "o") empty_order (uid "c1") (NotFound "ua" "none left"));
    [apply reachable_start | by left].
Defined.

Lemma saga_terminates_witness :
  record (uid "c1") (Succeeded "ua") two = Ok (true, one_done) ∧
  ((remaining one_done < remaining two)%nat ∧ length (rows one_done) = length (rows two) ∧
   Version two < Version one_done ≤ 2 * Z.of_nat (length (rows one_done)) + 2).
Proof.
  split; [reflexivity|].
  apply (saga_terminates (uid "o") two (uid "c1") (Succeeded "ua") one_done two_reachable); reflexivity.
Defined.

Lemma duplicate_rows_complete_at_once_witness :
  ∃ s', RecordAllocationSucceeded (uid "c1") "ua" (StartOrderAllocation (uid "o") (uid "c") [row "ua"; row "ua"])
          = Ok (true, s') ∧
    status s' = SagaCompleted ∧ Version s' = 3 ∧ length (rows s') = 2%nat.
Proof.
  apply (duplicate_rows_complete_at_once (uid "o") (uid "c") (uid "c1") [row "ua"; row "ua"] "ua"); [done|].
  intros d Hd. set_solver.
Defined.

Lemma observed_at_most_once_witness :
  record (uid "c1") (Succeeded "ua") two = Ok (true, one_done) ∧
  record (uid "c2") (Succeeded "ua") (ClearUncommittedEvents one_done)
  = Ok (false, ClearUncommittedEvents one_done).
Proof.
  split; [reflexivity|].
  apply (observed_at_most_once (uid "o") two (uid "c1") (Succeeded "ua") one_done
           (ClearUncommittedEvents one_done) (uid "c2") two_reachable); [reflexivity|].
  apply later_saved, later_refl.
Defined.
End witnesses.
