(* ===== verification/WarehouseHandlers.v ===== *)
(** * The Warehouses command handlers
    ([internal/warehouses/domain/commandhandlers/handlers.go])

    Each handler loads a beer's [Availability], runs one operation on it and
    saves it. The first half of the file is the code; the second half proves
    what the handlers do to a beer's stream and, for any number of replicas
    handling deliveries concurrently, that no stock is lost or invented. *)
From S2P Require Import Prelude Errors Kernel Aggregate EventStore World Repository.
From S2P Require Import WarehouseKernel Availability.
#[local] Open Scope Z_scope.

Section handlers.
Context {U : UuidLib} {St B : Type} `{!EventStore WarehouseEvent St}.
Context (repository : EventStoreRepository WarehouseEvent Availability B).
Abbreviation M := (GoM (World St B)).

(** [return h.repository.Save(ctx, aggregate, uuid.New())]. *)
Definition save_new (aggregate : Availability) : M unit :=
  commit ← uuid_New_;
  _ ← Save repository aggregate commit;
  mret tt.

Definition HandleUpdateDueToProductionOrder
    (command : UpdateAvailabilityDueToProductionOrder) : M unit :=
  loaded ← attempt (GetByID repository (cmd_AggregateId (uapo_base command)));
  match loaded with
  | inl err =>
      if negb (errors_Is err ErrAggregateNotFound) then throw err
      else
        aggregate ← lift (CreateAvailability (uapo_BeerId command)
                            (cmd_CommitId (uapo_base command))
                            (uapo_BeerName command) (uapo_Quantity command));
        save_new aggregate
  | inr aggregate =>
      aggregate ← lift (UpdateDueToProductionOrder (cmd_CommitId (uapo_base command))
                          (uapo_BeerName command) (uapo_Quantity command) aggregate);
      save_new aggregate
  end.

Definition HandleUpdateDueToSalesOrder
    (command : UpdateAvailabilityDueToSalesOrder) : M unit :=
  loaded ← attempt (GetByID repository (cmd_AggregateId (uaso_base command)));
  match loaded with
  | inl err =>
      if negb (errors_Is err ErrAggregateNotFound) then throw err
      else
        save_new (RefuseUnknownBeer (uaso_BeerId command) (cmd_CommitId (uaso_base command))
                    (uaso_Quantity command) (uaso_SalesOrderId command))
  | inr aggregate =>
      aggregate ← lift (UpdateDueToSalesOrder (cmd_CommitId (uaso_base command))
                          (uaso_Quantity command) (uaso_SalesOrderId command) aggregate);
      save_new aggregate
  end.

Definition HandleCompensate
    (command : CompensateAvailabilityDueToFailedAllocation) : M unit :=
  aggregate ← GetByID repository (cmd_AggregateId (cafa_base command));
  aggregate ← lift (CompensateDueToFailedAllocation (cmd_CommitId (cafa_base command))
                      (cafa_Quantity command) (cafa_SalesOrderId command) aggregate);
  save_new aggregate.

(** ** The three commands as one delivery *)
Inductive delivery :=
| Produce (c : UpdateAvailabilityDueToProductionOrder)
| Allocate (c : UpdateAvailabilityDueToSalesOrder)
| Compensate (c : CompensateAvailabilityDueToFailedAllocation).

Definition handle (d : delivery) : M unit :=
  match d with
  | Produce c => HandleUpdateDueToProductionOrder c
  | Allocate c => HandleUpdateDueToSalesOrder c
  | Compensate c => HandleCompensate c
  end.

Definition target (d : delivery) : UUID :=
  match d with
  | Produce c => cmd_AggregateId (uapo_base c)
  | Allocate c => cmd_AggregateId (uaso_base c)
  | Compensate c => cmd_AggregateId (cafa_base c)
  end.

(** The aggregate a delivery wants to save, given what [GetByID] returned. *)
Definition decide_delivery (d : delivery) (loaded : error + Availability)
    : result Availability :=
  match d, loaded with
  | Produce c, inl err =>
      if negb (errors_Is err ErrAggregateNotFound) then Err err
      else CreateAvailability (uapo_BeerId c) (cmd_CommitId (uapo_base c))
             (uapo_BeerName c) (uapo_Quantity c)
  | Produce c, inr a =>
      UpdateDueToProductionOrder (cmd_CommitId (uapo_base c)) (uapo_BeerName c)
        (uapo_Quantity c) a
  | Allocate c, inl err =>
      if negb (errors_Is err ErrAggregateNotFound) then Err err
      else Ok (RefuseUnknownBeer (uaso_BeerId c) (cmd_CommitId (uaso_base c))
                 (uaso_Quantity c) (uaso_SalesOrderId c))
  | Allocate c, inr a =>
      UpdateDueToSalesOrder (cmd_CommitId (uaso_base c)) (uaso_Quantity c)
        (uaso_SalesOrderId c) a
  | Compensate c, inl err => Err err
  | Compensate c, inr a =>
      CompensateDueToFailedAllocation (cmd_CommitId (cafa_base c)) (cafa_Quantity c)
        (cafa_SalesOrderId c) a
  end.

(** A handler's two halves: everything before the save, and the save. *)
Definition load_half (d : delivery) : M Availability :=
  loaded ← attempt (GetByID repository (target d));
  lift (decide_delivery d loaded).

(** Every handler is its load half followed by the save. *)
Lemma handle_halves d w : handle d w = (load_half d ≫= save_new) w.
Proof.
  destruct d as [c|c|c]; unfold handle, load_half, HandleUpdateDueToProductionOrder,
    HandleUpdateDueToSalesOrder, HandleCompensate, target; simpl; go_run;
    destruct (GetByID _ _ w) as [[a|e|m] w1]; simpl; try done.
  all: repeat case_match; simplify_eq/=; done.
Qed.
End handlers.
Arguments load_half {U St B EventStore0} repository d.
Arguments handle {U St B EventStore0} repository d.
Arguments save_new {U St B EventStore0} repository aggregate.

(** ** What one delivery does to the stock *)
Section transitions.
Context {U : UuidLib}.
Implicit Types (d : delivery) (a : Availability).

Definition amount d : Z :=
  match d with
  | Produce c => Value (uapo_Quantity c)
  | Allocate c => Value (uaso_Quantity c)
  | Compensate c => Value (cafa_Quantity c)
  end.

Definition order d : string :=
  match d with
  | Produce _ => ""
  | Allocate c => uaso_SalesOrderId c
  | Compensate c => cafa_SalesOrderId c
  end.

(** A command as its constructor builds it: addressed to its own beer, naming
    its order, with a Go [int] for a quantity. *)
Definition well_formed d : Prop :=
  Int.in_range (amount d) ∧
  match d with
  | Produce c => BeerId_Value (uapo_BeerId c) = cmd_AggregateId (uapo_base c)
  | Allocate c =>
      BeerId_Value (uaso_BeerId c) = cmd_AggregateId (uaso_base c) ∧ uaso_SalesOrderId c ≠ ""
  | Compensate c => BeerId_Value (cafa_BeerId c) = cmd_AggregateId (cafa_base c)
  end.

Inductive transition d a a' : Prop :=
| transition_produced c : d = Produce c → 0 < amount d →
    stock a' = Int.add (stock a) (amount d) → held a' = held a → transition d a a'
| transition_unmoved : (∀ c, d ≠ Produce c) → stock a' = stock a →
    held a' = held a → transition d a a'
| transition_allocated c : d = Allocate c → 0 < amount d ≤ stock a → order d ∉ held a →
    stock a' = Int.sub (stock a) (amount d) → held a' = {[order d]} ∪ held a →
    transition d a a'
| transition_compensated c : d = Compensate c → order d ∈ held a →
    stock a' = Int.add (stock a) (amount d) → held a' = held a ∖ {[order d]} →
    transition d a a'.

(** The aggregate of beer [b] that a load half works on: the loaded one, or a
    blank one for an unknown beer. *)
Definition working (b : UUID) (loaded : error + Availability) a : Prop :=
  match loaded with
  | inr a' => a' = a ∧ BeerId_Value (beerId a) = b
  | inl err => errors_Is err ErrAggregateNotFound = true → a = NewAvailability
  end.

(** The raised event addresses the beer of [H]. *)
Ltac raises H :=
  eexists; split; [reflexivity|]; split; [exact H|]; split; [exact H|].

(** A delivery that is not refused raises exactly one event, on its own beer,
    and moves the stock in one of the four ways. *)
Lemma decide_transition d loaded a a' :
  well_formed d → working (target d) loaded a →
  decide_delivery d loaded = Ok a' →
  ∃ e, a' = RaiseEvent e a ∧ ID a' = target d ∧ BeerId_Value (beerId a') = target d ∧
    transition d a a'.
Proof.
  intros [Hr Hw] Hl Hd. destruct d as [c|c|c], loaded as [err|a0]; simpl in *.
  - destruct (errors_Is err _); simpl in Hd; [|done]. rewrite Hl by done. clear Hl.
    unfold CreateAvailability in Hd. case_match eqn:Hq; [done|]. apply (inj Ok) in Hd as <-.
    raises Hw. eapply transition_produced; simpl; [done | lia | | done].
    symmetry. by apply Int.wrap_id.
  - destruct Hl as [-> Hb]. unfold UpdateDueToProductionOrder in Hd.
    case_match eqn:Hq; [done|]. apply (inj Ok) in Hd as <-.
    raises Hb. by eapply transition_produced; [done | simpl; lia |..].
  - destruct (errors_Is err _); simpl in Hd; [|done]. rewrite Hl by done. clear Hl.
    apply (inj Ok) in Hd as <-. destruct Hw as [Hw _].
    raises Hw. by apply transition_unmoved.
  - destruct Hl as [-> Hb], Hw as [Hw Ho]. unfold UpdateDueToSalesOrder in Hd.
    case_match eqn:Hq; [done|]. case_decide as Hh; [|case_match eqn:Hgt];
      apply (inj Ok) in Hd as <-; (eexists; split; [reflexivity|]).
    + unfold ID, stock. autorewrite with brew_rw. simpl. rewrite !decide_True by done. simpl.
      split; [exact Hb|]; split; [exact Hb|]. apply transition_unmoved; [done|..];
        unfold stock; autorewrite with brew_rw; simpl; rewrite ?decide_True by done; [done|].
      set_solver.
    + split; [exact Hb|]; split; [exact Hb|]. by apply transition_unmoved.
    + unfold ID. autorewrite with brew_rw. simpl. rewrite !decide_True by done. simpl.
      split; [exact Hb|]; split; [exact Hb|]. eapply transition_allocated; unfold stock;
        autorewrite with brew_rw; simpl; rewrite ?decide_True by done; try done. lia.
  - done.
  - destruct Hl as [-> Hb]. unfold CompensateDueToFailedAllocation in Hd.
    case_match eqn:Hq; [done|]. case_decide as Hh; apply (inj Ok) in Hd as <-;
      raises Hb.
    + apply transition_unmoved; [done|done|]. simpl. set_solver.
    + by eapply transition_compensated.
Qed.
End transitions.

(** ** Replicas handling deliveries concurrently *)
Section concurrent.
Context {U : UuidLib} {St B : Type} `{!EventStore WarehouseEvent St}.
Context (publisher_ : option (WarehouseEvent → GoM B unit)).
Implicit Types (w : World St B) (d : delivery).

(** The module's repository, as [NewModule] builds it. *)
Definition availabilities : EventStoreRepository WarehouseEvent Availability B :=
  NewEventStoreRepository NewAvailability StreamName publisher_.

Context (view : St → string → list (StoredEvent WarehouseEvent)) `{!EventStoreLaws view}.
Abbreviation book w b := (history view availabilities w b).

(** A system of replicas: [ds] are the deliveries handled so far (redeliveries
    included), [pool] the handlers between their load and their save. A handler
    may die between the two; everything else in the process may run at any
    time, as long as it leaves the availability streams alone. *)
Inductive concurrent (w0 : World St B) :
    list delivery → list (delivery * Availability) → World St B → Prop :=
| concurrent_start : concurrent w0 [] [] w0
| concurrent_load ds pool w d a w' :
    concurrent w0 ds pool w → load_half availabilities d w = (Ok a, w') →
    concurrent w0 (d :: ds) ((d, a) :: pool) w'
| concurrent_refused ds pool w d e w' :
    concurrent w0 ds pool w → load_half availabilities d w = (Err e, w') →
    concurrent w0 (d :: ds) pool w'
| concurrent_save ds pool pool' d a w r w' :
    concurrent w0 ds (pool ++ (d, a) :: pool') w →
    save_new availabilities a w = (r, w') →
    concurrent w0 ds (pool ++ pool') w'
| concurrent_crash ds pool pool' d a w :
    concurrent w0 ds (pool ++ (d, a) :: pool') w →
    concurrent w0 ds (pool ++ pool') w
| concurrent_other ds pool w w' :
    concurrent w0 ds pool w → (∀ b, book w' b = book w b) → concurrent w0 ds pool w'.

Lemma blank : blank_factory availabilities.
Proof. by split. Qed.

Definition availability_of w b : Availability := replay availabilities (book w b).

(** What [save_new] does to the books: the stale case changes nothing, the
    fresh one adds the one raised event to one beer's book. *)
Lemma save_new_books old e b w r w' :
  ID (RaiseEvent e (replay availabilities old)) = b →
  save_new availabilities (RaiseEvent e (replay availabilities old)) w = (r, w') →
  (∀ b', b' ≠ b → book w' b' = book w b') ∧
  (book w' b = book w b ∧ (∃ err, r = Err err) ∨
   length (book w b) = length old ∧ book w' b = book w b ++ [e]).
Proof.
  intros Hid Hs. unfold save_new, uuid_New_ in Hs. go_run.
  set (w1 := mkWorld _ _ _ _) in Hs.
  destruct (Save _ _ _ w1) as [rs w2] eqn:E. assert (w2 = w') as -> by (by destruct rs; simplify_eq).
  change (RaiseEvent e (replay availabilities old))
    with (loaded_and_raised availabilities old [e]) in *.
  apply (Save_spec view availabilities b) in E as [Ho Hc]; [|apply blank|done|done].
  split.
  - intros b' Hne. unfold history. rewrite Ho; [done|]. by intros ?%stream_inj.
  - destruct Hc as [(-> & _ & err & ->)|(? & -> & _)]; [left | by right].
    simplify_eq. eauto.
Qed.

(** What [load_half] returns, given the beer's book. *)
Lemma load_half_books d w r w' :
  load_half availabilities d w = (r, w') →
  (∀ b, book w' b = book w b) ∧
  ∃ loaded, r = decide_delivery d loaded ∧
    match loaded with
    | inr a => book w (target d) ≠ [] ∧ a = availability_of w (target d)
    | inl err => errors_Is err ErrAggregateNotFound = true → book w (target d) = []
    end.
Proof.
  intros Hl. unfold load_half in Hl. go_run.
  destruct (GetByID _ _ w) as [rs w1] eqn:E.
  apply (GetByID_spec view) in E as (Hs & _ & _ & _ & Hr).
  assert (w1 = w') as <- by (by destruct rs; simplify_eq).
  split; [intros b; unfold history; by rewrite Hs|].
  destruct rs as [a|err|]; simplify_eq; [by exists (inr a) | by exists (inl err) | done].
Qed.

(** ** Conservation *)

(** What an accepted delivery adds to the beer, and what all the deliveries to
    a beer could add. *)
Definition gain d : list Z :=
  match d with
  | Produce _ => if 0 <? amount d then [amount d] else []
  | _ => []
  end.

Definition produced b (ds : list delivery) : list Z :=
  mbind (λ d, if decide (target d = b) then gain d else []) ds.

(** Every order asks beer [b] for one quantity, the same in each delivery of
    its allocation and of its compensation. *)
Definition consistent b (demand : string → Z) d : Prop :=
  target d = b →
  match d with Produce _ => True | _ => amount d = demand (order d) end.

Definition balanced (demand : string → Z) (accepted : list Z) (a : Availability) : Prop :=
  stock a + sum_over demand (held a) = Zsum accepted ∧ 0 ≤ stock a.

(** The books and the pool: a beer's book is about that beer, and a handler in
    the pool holds one event raised on a prefix of its beer's book. *)
Record books_inv (ds : list delivery) (pool : list (delivery * Availability)) w : Prop := {
  books_beer : ∀ b, book w b ≠ [] → BeerId_Value (beerId (availability_of w b)) = b;
  books_pool : ∀ d a, (d, a) ∈ pool → d ∈ ds ∧
    ∃ old e extra, book w (target d) = old ++ extra ∧
      a = RaiseEvent e (replay availabilities old) ∧ ID a = target d ∧
      BeerId_Value (beerId a) = target d ∧ transition d (replay availabilities old) a;
}.

(** The account of one beer: no delivery is accepted twice, and what was
    accepted is in stock or held. *)
Definition account_inv b demand ds (pool : list (delivery * Availability)) w : Prop :=
  ∃ accepted, accepted ++ produced b pool.*1 ⊆+ produced b ds ∧
    balanced demand accepted (availability_of w b).

Lemma transition_balanced demand accepted d a a' :
  (∀ o, 0 ≤ demand o) → consistent (target d) demand d →
  Zsum (gain d ++ accepted) < 2 ^ 63 →
  transition d a a' → balanced demand accepted a → balanced demand (gain d ++ accepted) a'.
Proof.
  intros Hd Hc Hmax Ht [Hsum Hpos]. specialize (Hc eq_refl).
  pose proof (sum_over_nonneg demand (held a) ltac:(auto)) as Hheld.
  assert (Int.in_range (stock a)) as Hr.
  { rewrite Zsum_app in Hmax. assert (0 ≤ Zsum (gain d)).
    { unfold gain. destruct d; simpl; [|lia..]. case_match; simpl; lia. }
    unfold Int.in_range. lia. }
  unfold balanced. destruct Ht as [c -> Hq -> ->|Hn -> ->|c -> Hq Hh -> ->|c -> Hh -> ->].
  - unfold gain in *. rewrite (proj2 (Z.ltb_lt _ _) Hq) in *. simpl in *.
    rewrite Int.add_exact by (unfold Int.in_range; lia). lia.
  - destruct d; [by destruct (Hn c)|done..].
  - simpl in *. rewrite sum_over_insert, Int.sub_available by (done || lia).
    rewrite <- Hc. lia.
  - simpl in *. rewrite sum_over_delete by done.
    pose proof (sum_over_nonneg demand (held a ∖ {[order (Compensate c)]}) ltac:(auto)) as H2.
    rewrite sum_over_delete in H2 by done. simpl in *. rewrite Hc.
    pose proof (Hd (cafa_SalesOrderId c)).
    rewrite Int.add_exact by (unfold Int.in_range; lia). lia.
Qed.
Lemma produced_app b ds ds' : produced b (ds ++ ds') = produced b ds ++ produced b ds'.
Proof. apply bind_app. Qed.

Lemma produced_cons b d ds :
  produced b (d :: ds) = (if decide (target d = b) then gain d else []) ++ produced b ds.
Proof. done. Qed.

Lemma produced_nonneg b ds : Forall (λ z, 0 ≤ z) (produced b ds).
Proof.
  induction ds as [|d ds IH]; [constructor|]. rewrite produced_cons. apply Forall_app. split; [|done].
  case_decide; [|constructor]. destruct d; [|constructor..].
  unfold gain. case_match; repeat constructor; lia.
Qed.

(** Applying the event of a raised aggregate gives the same book entry. *)
Lemma replay_snoc old e :
  let a := RaiseEvent e (replay availabilities old) in
  let a' := replay availabilities (old ++ [e]) in
  stock a' = stock a ∧ held a' = held a ∧ beerId a' = beerId a.
Proof. cbv zeta. unfold replay. rewrite ApplyAll_app. done. Qed.

Lemma books_inv_same ds pool w w' :
  books_inv ds pool w → (∀ b, book w' b = book w b) → books_inv ds pool w'.
Proof.
  intros [Hi Hp] E. split; unfold availability_of in *.
  - intros b. rewrite E. apply Hi.
  - intros d a. rewrite E. apply Hp.
Qed.

Lemma account_inv_same b demand ds pool w w' :
  account_inv b demand ds pool w → book w' b = book w b → account_inv b demand ds pool w'.
Proof. unfold account_inv, availability_of. by intros ? ->. Qed.

(** Dropping a handler from the pool. *)
Lemma books_inv_drop ds pool pool' d a w :
  books_inv ds (pool ++ (d, a) :: pool') w → books_inv ds (pool ++ pool') w.
Proof. intros [Hi Hp]. split; [done|]. intros d' a' Hin. apply Hp. set_solver. Qed.

Lemma account_inv_drop b demand ds pool pool' d a w :
  account_inv b demand ds (pool ++ (d, a) :: pool') w →
  account_inv b demand ds (pool ++ pool') w.
Proof.
  intros (acc & Hs & Hb). exists acc. split; [|done]. etrans; [|exact Hs].
  rewrite !fmap_app, fmap_cons, !produced_app, produced_cons. simpl.
  rewrite !(assoc_L (++)). apply submseteq_app; [|done].
  by apply submseteq_inserts_r.
Qed.

Lemma books_inv_load ds pool w d r w' :
  books_inv ds pool w → well_formed d →
  load_half availabilities d w = (r, w') →
  books_inv (d :: ds) (match r with Ok a => (d, a) :: pool | _ => pool end) w'.
Proof.
  intros Hinv Hw (Hsame & loaded & -> & Hl)%load_half_books.
  apply (books_inv_same _ _ w); [|done]. destruct Hinv as [Hi Hp].
  assert (books_inv (d :: ds) pool w) as Hweak.
  { split; [done|]. intros d' a' Hin. destruct (Hp d' a' Hin). split; [by right|done]. }
  destruct (decide_delivery d loaded) as [a|e|m] eqn:Hd; [|done..].
  split; [done|]. intros d' a' [[= -> ->]|Hin]%elem_of_cons; [|by apply Hweak].
  split; [by left|].
  destruct (decide_transition d loaded (availability_of w (target d)) a Hw)
    as (e & -> & ? & ? & ?); [|done|].
  - destruct loaded as [err|a0]; simpl; [|split; [by destruct Hl|]].
    + intros He. unfold availability_of. by rewrite (Hl He).
    + apply Hi. by destruct Hl.
  - exists (book w (target d)), e, []. by rewrite app_nil_r.
Qed.

Lemma account_inv_load b demand ds pool w d r w' :
  account_inv b demand ds pool w →
  load_half availabilities d w = (r, w') →
  account_inv b demand (d :: ds) (match r with Ok a => (d, a) :: pool | _ => pool end) w'.
Proof.
  intros Hinv (Hsame & _)%load_half_books.
  apply (account_inv_same _ _ _ _ w); [|done]. destruct Hinv as (acc & Hs & Hb).
  exists acc. split; [|done]. destruct r as [a| |];
    rewrite ?fmap_cons, !produced_cons; simpl; [|by apply submseteq_inserts_l..].
  rewrite (assoc_L (++)), (comm (++) acc), <- (assoc_L (++)). by apply submseteq_app.
Qed.

(** A save, fresh or stale, on every book. *)
Lemma books_inv_save ds pool pool' d a w r w' :
  books_inv ds (pool ++ (d, a) :: pool') w →
  save_new availabilities a w = (r, w') →
  books_inv ds (pool ++ pool') w' ∧
  ((∀ b, book w' b = book w b) ∨
   (∀ b, b ≠ target d → book w' b = book w b) ∧
   ∃ old, transition d (replay availabilities old) a ∧
     availability_of w (target d) = replay availabilities old ∧
     stock (availability_of w' (target d)) = stock a ∧
     held (availability_of w' (target d)) = held a).
Proof.
  intros Hinv Hsave. pose proof (books_inv_drop _ _ _ _ _ _ Hinv) as Hdrop.
  destruct (books_pool _ _ _ Hinv d a ltac:(set_solver))
    as (_ & old & e & extra & Hbook & -> & Hid & Hbeer & Htr).
  destruct (save_new_books old e (target d) w r w' Hid Hsave) as [Ho [[Hsame _]|[Hlen Hnew]]].
  { assert (∀ b, book w' b = book w b) as Hall.
    { intros b. destruct (decide (b = target d)) as [->|]; auto. }
    split; [by apply (books_inv_same _ _ w)|by left]. }
  assert (extra = []) as ->.
  { rewrite Hbook, length_app in Hlen. apply nil_length_inv. lia. }
  rewrite app_nil_r in Hbook. rewrite Hbook in Hnew.
  destruct (replay_snoc old e) as (Hst & Hhe & Hbe).
  split.
  - destruct Hdrop as [Hi Hp]. split.
    + intros b. destruct (decide (b = target d)) as [->|Hne].
      * intros _. unfold availability_of. by rewrite Hnew, Hbe.
      * unfold availability_of. rewrite Ho by done. apply Hi.
    + intros d' a' Hin. destruct (Hp d' a' Hin) as (Hds & old' & e' & extra' & Hb' & Hrest).
      split; [done|]. destruct (decide (target d' = target d)) as [E|Hne].
      * exists old', e', (extra' ++ [e]). split; [|done].
        by rewrite E, Hnew, (assoc_L (++)), <- Hb', E, Hbook.
      * exists old', e', extra'. split; [|done]. by rewrite Ho.
  - right. split; [done|]. exists old. unfold availability_of. by rewrite Hbook, Hnew.
Qed.

Lemma account_inv_save b demand ds pool pool' d a w r w' :
  (∀ o, 0 ≤ demand o) → consistent b demand d → Zsum (produced b ds) < 2 ^ 63 →
  books_inv ds (pool ++ (d, a) :: pool') w →
  account_inv b demand ds (pool ++ (d, a) :: pool') w →
  save_new availabilities a w = (r, w') →
  account_inv b demand ds (pool ++ pool') w'.
Proof.
  intros Hdem Hc Hmax Hbooks Hacc Hsave.
  pose proof (account_inv_drop _ _ _ _ _ _ _ _ Hacc) as Hdrop.
  destruct (books_inv_save _ _ _ _ _ _ _ _ Hbooks Hsave)
    as [_ [Hsame|(Ho & old & Htr & Hold & Hst & Hhe)]]; [by eapply account_inv_same|].
  destruct (decide (b = target d)) as [->|Hne]; [|by eapply account_inv_same; auto].
  destruct Hacc as (acc & Hs & Hb). exists (gain d ++ acc).
  rewrite fmap_app, fmap_cons, produced_app, produced_cons in Hs. simpl in Hs.
  rewrite decide_True in Hs by done.
  assert ((gain d ++ acc) ++ produced (target d) (pool ++ pool').*1 ⊆+ produced (target d) ds)
    as Hs'.
  { etrans; [|exact Hs]. rewrite fmap_app, produced_app. apply Permutation_submseteq.
    solve_Permutation. }
  split; [done|].
  assert (balanced demand (gain d ++ acc) a) as Ha.
  { apply (transition_balanced demand acc d (replay availabilities old) a); [done|done| |done|].
    - eapply Z.le_lt_trans; [|exact Hmax]. apply Zsum_submseteq; [|apply produced_nonneg].
      etrans; [|exact Hs']. by apply submseteq_inserts_r.
    - by rewrite <- Hold. }
  unfold balanced in *. by rewrite Hst, Hhe.
Qed.

Lemma concurrent_inv w0 ds pool w :
  (∀ b, book w0 b = []) → concurrent w0 ds pool w → Forall well_formed ds →
  books_inv ds pool w ∧
  ∀ b demand, (∀ o, 0 ≤ demand o) → Forall (consistent b demand) ds →
    Zsum (produced b ds) < 2 ^ 63 → account_inv b demand ds pool w.
Proof.
  intros H0 Hc. induction Hc as [|ds pool w d a w' _ IH Hl|ds pool w d e w' _ IH Hl
    |ds pool pool' d a w r w' _ IH Hs|ds pool pool' d a w _ IH|ds pool w w' _ IH Hother];
    intros Hw.
  - split.
    + split; [by intros b; rewrite H0|]. intros ? ? []%elem_of_nil.
    + intros b demand _ _ _. exists []. split; [done|].
      unfold availability_of, balanced. rewrite H0. by cbn.
  - apply Forall_cons in Hw as [Hd Hw]. destruct (IH Hw) as [Hb Hacc]. split.
    + exact (books_inv_load _ _ _ _ _ _ Hb Hd Hl).
    + intros b demand Hdem [_ Hcs]%Forall_cons Hmax.
      eapply (account_inv_load _ _ _ _ _ _ (Ok a)); [|exact Hl]. apply Hacc; [done..|].
      eapply Z.le_lt_trans; [|exact Hmax]. apply Zsum_submseteq; [|apply produced_nonneg].
      rewrite produced_cons. by apply submseteq_inserts_l.
  - apply Forall_cons in Hw as [Hd Hw]. destruct (IH Hw) as [Hb Hacc]. split.
    + exact (books_inv_load _ _ _ _ _ _ Hb Hd Hl).
    + intros b demand Hdem [_ Hcs]%Forall_cons Hmax.
      eapply (account_inv_load _ _ _ _ _ _ (Err e)); [|exact Hl]. apply Hacc; [done..|].
      eapply Z.le_lt_trans; [|exact Hmax]. apply Zsum_submseteq; [|apply produced_nonneg].
      rewrite produced_cons. by apply submseteq_inserts_l.
  - destruct (IH Hw) as [Hb Hacc]. split; [by eapply books_inv_save|].
    intros b demand Hdem Hcs Hmax. eapply account_inv_save; try done; [|by apply Hacc].
    destruct (books_pool _ _ _ Hb d a ltac:(set_solver)) as [Hin _].
    by apply (proj1 (Forall_forall _ _) Hcs).
  - destruct (IH Hw) as [Hb Hacc]. split; [by eapply books_inv_drop|].
    intros. by eapply account_inv_drop, Hacc.
  - destruct (IH Hw) as [Hb Hacc]. split; [by eapply books_inv_same|].
    intros. eapply account_inv_same; [by apply Hacc | done].
Qed.

(** C4 Conservation of stock under concurrency, redelivery and crashes. Any
    number of replicas handle any deliveries in any order, any number of times,
    interleaved between load and save and with writers of other streams. Of the
    commands it supposes that they are built as their constructors build them,
    quantities in the range of a Go [int] and allocations with an order
    ([well_formed]); that of the beer [b] each order asks one quantity that is not
    negative, in all deliveries of its allocation and of its compensation
    ([consistent], [demand]); and that the positive quantities produced of the beer,
    each delivery counted, sum to less than [2 ^ 63]. Then at every moment what is in
    stock of the beer plus what the orders hold of it is exactly the sum of the
    accepted productions, where each delivery of a production order is accepted at
    most once, and the stock is not negative. The last bound is needed: beyond it the
    stock wraps around ([Availability.production_overflow]). *)
Theorem stock_conserved w0 ds pool w b demand :
  (∀ b', book w0 b' = []) → concurrent w0 ds pool w →
  Forall well_formed ds → (∀ o, 0 ≤ demand o) → Forall (consistent b demand) ds →
  Zsum (produced b ds) < 2 ^ 63 →
  ∃ accepted, accepted ⊆+ produced b ds ∧
    stock (availability_of w b) + sum_over demand (held (availability_of w b)) = Zsum accepted ∧
    0 ≤ stock (availability_of w b).
Proof.
  intros H0 Hc Hw Hdem Hcs Hmax.
  destruct (concurrent_inv w0 ds pool w H0 Hc Hw) as [_ Hacc].
  destruct (Hacc b demand Hdem Hcs Hmax) as (acc & Hs & Hb & Hpos).
  exists acc. split; [|done]. etrans; [|exact Hs]. by apply submseteq_inserts_r.
Qed.

(** A load half that goes through decided one event on the beer's state. *)
Lemma load_half_decides d w a w' :
  (∀ b, book w b ≠ [] → BeerId_Value (beerId (availability_of w b)) = b) →
  well_formed d → load_half availabilities d w = (Ok a, w') →
  (∀ b, book w' b = book w b) ∧
  ∃ e, a = RaiseEvent e (availability_of w (target d)) ∧ ID a = target d ∧
    decide_delivery d (if decide (book w (target d) = []) then inl ErrAggregateNotFound
                       else inr (availability_of w (target d))) = Ok a.
Proof.
  intros Hbeer Hw (Hsame & loaded & Hr & Hl)%load_half_books. split; [done|].
  symmetry in Hr. destruct (decide_transition d loaded (availability_of w (target d)) a Hw)
    as (e & -> & Hid & _ & _); [|done|].
  - destruct loaded as [err|a0]; simpl; [|split; [by destruct Hl|apply Hbeer; by destruct Hl]].
    intros He. unfold availability_of. by rewrite (Hl He).
  - exists e. split; [done|]. split; [done|]. rewrite <- Hr.
    destruct loaded as [err|a0]; [|destruct Hl as [Hne ->]; by rewrite decide_False].
    destruct (errors_Is err ErrAggregateNotFound) eqn:He.
    + rewrite decide_True by auto. destruct d; simpl; [by rewrite He..|done].
    + exfalso. destruct d; simpl in Hr; [by rewrite He in Hr..|done].
Qed.

(** A command handler, whole: it either appends exactly the one event its
    operation decides on the current state of the beer to that beer's stream,
    or reports an error and leaves every availability stream alone. *)
Theorem handler_contract d w r w' :
  (∀ b, book w b ≠ [] → BeerId_Value (beerId (availability_of w b)) = b) →
  well_formed d → handle availabilities d w = (r, w') →
  (∀ b, b ≠ target d → book w' b = book w b) ∧
  (book w' (target d) = book w (target d) ∧ (∃ e, r = Err e) ∨
   ∃ e, book w' (target d) = book w (target d) ++ [e] ∧
     decide_delivery d (if decide (book w (target d) = []) then inl ErrAggregateNotFound
                        else inr (availability_of w (target d)))
     = Ok (RaiseEvent e (availability_of w (target d)))).
Proof.
  intros Hbeer Hw. rewrite handle_halves. unfold mbind, GoM_bind.
  destruct (load_half availabilities d w) as [[a|err|m] w1] eqn:Hl.
  - apply load_half_decides in Hl as (Hsame & e & -> & Hid & Hdec); [|done..]. intros Hsave.
    destruct (save_new_books (book w (target d)) e (target d) w1 r w' Hid Hsave) as [Ho Hcases].
    split; [intros; by rewrite Ho|]. rewrite <- Hsame.
    destruct Hcases as [?|[_ Hnew]]; [by left|]. right. exists e. by rewrite Hsame in *.
  - intros [= <- <-]. apply load_half_books in Hl as [Hsame _].
    split; [done|]. left. split; [done|]. by exists err.
  - exfalso. apply load_half_books in Hl as (_ & loaded & Hr & _).
    destruct d as [c|c|c], loaded; simpl in Hr; repeat case_match; try done;
      revert Hr; unfold CreateAvailability, UpdateDueToProductionOrder, UpdateDueToSalesOrder,
        CompensateDueToFailedAllocation; repeat case_match; done.
Qed.
End concurrent.

(** ** Evaluated instance: two replicas race for the last litres *)
Module Race.
#[local] Existing Instance DemoUuid.lib.

Definition shop : World (InMemory.InMemoryEventStore WarehouseEvent) unit :=
  mkWorld InMemory.NewInMemoryEventStore tt 0 0.

Definition ipa : BeerId := mkBeerId (uid "ipa").

Definition brew : delivery :=
  Produce (NewUpdateAvailabilityDueToProductionOrder ipa (uid "c1") (mkBeerName "IPA")
             (NewQuantity 10 "Lt")).
Definition want (o : string) (q : Z) : delivery :=
  Allocate (NewUpdateAvailabilityDueToSalesOrder ipa (uid "c2") (mkBeerName "IPA")
              (NewQuantity q "Lt") o).

Definition repo : EventStoreRepository WarehouseEvent Availability unit := availabilities None.

Definition loads (d : delivery) w : Availability :=
  match fst (load_half repo d w) with Ok a => a | _ => NewAvailability end.

(** Loading from the in-memory store changes nothing. *)
Lemma loads_ok d w :
  match fst (load_half repo d w) with Ok _ => true | _ => false end = true →
  load_half repo d w = (Ok (loads d w), w).
Proof.
  assert (snd (load_half repo d w) = w) as Hw.
  { destruct w. unfold load_half, GetByID. go_run. cbn. by destruct (Z.of_nat _ =? 0). }
  unfold loads. revert Hw. destruct (load_half repo d w) as [[]]; simpl; by intros ->.
Qed.

(** Beer is brewed; both replicas load; the first save wins, the second one is
    stale. *)
Definition brewed := snd (save_new repo (loads brew shop) shop).
Definition first_won := snd (save_new repo (loads (want "o1" 4) brewed) brewed).
Definition second_lost := snd (save_new repo (loads (want "o2" 7) brewed) first_won).

Definition log : list delivery := [want "o2" 7; want "o1" 4; brew].

Lemma raced :
  concurrent None InMemory.stream_of shop log [] second_lost.
Proof.
  pose proof (loads_ok brew shop ltac:(vm_compute; reflexivity)) as L0.
  pose proof (loads_ok (want "o1" 4) brewed ltac:(vm_compute; reflexivity)) as L1.
  pose proof (loads_ok (want "o2" 7) brewed ltac:(vm_compute; reflexivity)) as L2.
  assert (concurrent None InMemory.stream_of shop [brew] [] brewed) as H1.
  { refine (concurrent_save _ _ _ _ [] [] brew (loads brew shop) shop _ _
              (concurrent_load _ _ _ _ _ _ _ _ _ (concurrent_start _ _ _) L0) _).
    exact (surjective_pairing (save_new repo (loads brew shop) shop)). }
  pose proof (concurrent_load _ _ _ _ _ _ _ _ _
                (concurrent_load _ _ _ _ _ _ _ _ _ H1 L1) L2) as H2.
  assert (concurrent None InMemory.stream_of shop log
            [(want "o2" 7, loads (want "o2" 7) brewed)] first_won) as H3.
  { refine (concurrent_save _ _ _ _ [(want "o2" 7, loads (want "o2" 7) brewed)] []
              (want "o1" 4) (loads (want "o1" 4) brewed) brewed _ _ H2 _).
    exact (surjective_pairing (save_new repo (loads (want "o1" 4) brewed) brewed)). }
  refine (concurrent_save _ _ _ _ [] [] (want "o2" 7) (loads (want "o2" 7) brewed)
            first_won _ _ H3 _).
  exact (surjective_pairing (save_new repo (loads (want "o2" 7) brewed) first_won)).
Qed.

Definition asked (o : string) : Z :=
  if decide (o = "o1") then 4 else if decide (o = "o2") then 7 else 0.

Lemma log_well_formed : Forall well_formed log.
Proof.
  repeat (apply Forall_cons; split; [split; [by vm_compute|try split; try done]|]);
    apply Forall_nil_2.
Qed.

Lemma log_consistent : Forall (consistent (uid "ipa") asked) log.
Proof. repeat constructor. Qed.
End Race.

Section witnesses.
#[local] Existing Instance DemoUuid.lib.

Lemma stock_conserved_witness :
  stock (availability_of None InMemory.stream_of Race.second_lost (uid "ipa")) = 6 ∧
  ∃ accepted, accepted ⊆+ [10] ∧
    stock (availability_of None InMemory.stream_of Race.second_lost (uid "ipa"))
      + sum_over Race.asked
          (held (availability_of None InMemory.stream_of Race.second_lost (uid "ipa")))
      = Zsum accepted ∧
    0 ≤ stock (availability_of None InMemory.stream_of Race.second_lost (uid "ipa")).
Proof.
  split; [vm_compute; reflexivity|].
  apply (stock_conserved None InMemory.stream_of Race.shop Race.log [] Race.second_lost
           (uid "ipa") Race.asked);
    [done | apply Race.raced | apply Race.log_well_formed | | apply Race.log_consistent | done].
  intros o. unfold Race.asked. repeat case_decide; lia.
Defined.

Lemma handler_contract_witness :
  let done := handle Race.repo Race.brew Race.shop in
  let book w b := history InMemory.stream_of Race.repo w b in
  book (snd done) (uid "ipa") ≠ [] ∧
  (∀ b, b ≠ uid "ipa" → book (snd done) b = book Race.shop b) ∧
  (book (snd done) (uid "ipa") = book Race.shop (uid "ipa") ∧ (∃ e, fst done = Err e) ∨
   ∃ e, book (snd done) (uid "ipa") = book Race.shop (uid "ipa") ++ [e] ∧
     decide_delivery Race.brew (inl ErrAggregateNotFound)
     = Ok (RaiseEvent e NewAvailability)).
Proof.
  intros done book. split; [vm_compute; discriminate|].
  apply (handler_contract None InMemory.stream_of Race.brew Race.shop (fst done) (snd done));
    [intros b Hb; by destruct Hb
    | apply (Forall_lookup_1 _ _ 2%nat _ Race.log_well_formed eq_refl)
    | exact (surjective_pairing done)].
Defined.
End witnesses.
