(* ===== verification/WarehouseReadModel.v ===== *)
(** * The Warehouses read model
    ([internal/warehouses/readmodel], [internal/warehouses/rebuild.go])

    One row per beer, upserted from every event that carries the new total. The
    writer is an interface with its in-memory implementation; the listing of the
    in-memory service goes through a Go map and [sort.Slice], so its order is
    only as determined as the beer names. *)
From S2P Require Import Prelude Errors Kernel Aggregate EventStore World Repository.
From S2P Require Import Rebuild WarehouseKernel Availability WarehouseHandlers.
From stdpp Require Import sorting.
#[local] Open Scope Z_scope.

(** ** dtos/availability.go *)
Record AvailabilityDto := mkAvailabilityDto {
  dto_BeerId : string; dto_BeerName : string; dto_Quantity : Quantity }.

#[global] Instance AvailabilityDto_eq_dec : EqDecision AvailabilityDto.
Proof. solve_decision. Defined.

(** ** The interface *)

(** The projection writer of [availabilityReadModel]. *)
Class AvailabilityReadModel (R : Type) :=
  rm_UpsertAvailability : AvailabilityDto → GoM R unit.

(** A successful write replaces exactly one row. *)
Class AvailabilityReadModelLaws `{AvailabilityReadModel R}
    (rows : R → gmap string AvailabilityDto) := {
  upsert_ok : ∀ a r r', rm_UpsertAvailability a r = (Ok tt, r') →
    rows r' = <[dto_BeerId a := a]> (rows r);
}.

(** ** services/availability_service.go: the in-memory adapter *)
Module InMemoryAvailability.

Record AvailabilityService := mkService { availabilities : gmap string AvailabilityDto }.

Definition NewAvailabilityService : AvailabilityService := mkService ∅.

Definition UpsertAvailability (availability : AvailabilityDto) : GoM AvailabilityService unit :=
  λ s, (Ok tt, mkService (<[dto_BeerId availability := availability]> (availabilities s))).

Definition GetAvailability (beerId : string) (s : AvailabilityService)
    : result AvailabilityDto :=
  match availabilities s !! beerId with
  | Some a => Ok a
  | None => Err (Errorf ("availability " +:+ beerId)%string ErrNotFound)
  end.

(** [for _, availability := range s.availabilities] visits the rows in an
    unspecified order: [all] is any enumeration of them. *)
Definition enumeration (s : AvailabilityService) (all : list AvailabilityDto) : Prop :=
  all ≡ₚ (map_to_list (availabilities s)).*2.

Definition by_name (a b : AvailabilityDto) : Prop :=
  String.ltb (dto_BeerName b) (dto_BeerName a) = false.

#[global] Instance by_name_dec : RelDecision by_name.
Proof. unfold by_name. intros a b. apply _. Defined.

(** [sort.Slice] with the order on names, which is not stable: [sorted] is any
    ordered rearrangement of the enumeration. *)
Definition sort_Slice (all sorted : list AvailabilityDto) : Prop :=
  all ≡ₚ sorted ∧ StronglySorted by_name sorted.

(** One call of [GetAvailabilities]: what it may return. *)
Definition GetAvailabilities (page : Page) (s : AvailabilityService)
    (shown : result (list AvailabilityDto)) : Prop :=
  ∃ all sorted, enumeration s all ∧ sort_Slice all sorted ∧ shown = page_window page sorted.

#[global] Instance service_read_model : AvailabilityReadModel AvailabilityService :=
  UpsertAvailability.

#[global] Instance service_laws : AvailabilityReadModelLaws availabilities.
Proof. split. by intros a r r' [= <-]. Qed.
End InMemoryAvailability.

(** ** eventhandlers: the projector *)
Section projector.
Context {U : UuidLib} {R : Type} `{!AvailabilityReadModel R}.

(** [AvailabilityProjector.upsert]. *)
Definition upsert (beerId beerName : string) (quantity : Quantity) : GoM R unit :=
  rm_UpsertAvailability (mkAvailabilityDto beerId beerName quantity).

Definition ProjectAvailabilityUpdatedDueToProductionOrder
    (event : AvailabilityUpdatedDueToProductionOrder) : GoM R unit :=
  upsert (uuid_String (BeerId_Value (aupo_BeerId event)))
    (BeerName_Value (aupo_BeerName event)) (aupo_Quantity event).

Definition ProjectBeerAvailabilityUpdated (event : BeerAvailabilityUpdated) : GoM R unit :=
  upsert (uuid_String (BeerId_Value (bau_BeerId event)))
    (BeerName_Value (bau_BeerName event)) (bau_Quantity event).

Definition ProjectAvailabilityCompensated (event : AvailabilityCompensated) : GoM R unit :=
  upsert (uuid_String (BeerId_Value (ac_BeerId event)))
    (BeerName_Value (ac_BeerName event)) (ac_Quantity event).

(** The type switch of [RebuildReadModel]; live, the subscriptions select the
    same handlers. *)
Definition project_availability (event : WarehouseEvent) : GoM R unit :=
  match event with
  | EvAvailabilityUpdatedDueToProductionOrder e =>
      ProjectAvailabilityUpdatedDueToProductionOrder e
  | EvBeerAvailabilityUpdated e => ProjectBeerAvailabilityUpdated e
  | EvAvailabilityCompensated e => ProjectAvailabilityCompensated e
  | _ => mret tt
  end.
End projector.

(** ** rebuild.go *)
Definition RebuildAvailability {U : UuidLib} {St R : Type} `{!EventStore WarehouseEvent St}
    `{!StreamLister St, !AvailabilityReadModel R} : GoM (St * R) unit :=
  rebuild_streams StreamName project_availability.

(** ** What a beer's row shows *)
Section shown.
Context {U : UuidLib}.
Implicit Types (e : WarehouseEvent) (l ds : list WarehouseEvent) (b : UUID).

(** The row an event is projected to. *)
Definition dto_of e : option AvailabilityDto :=
  match e with
  | EvAvailabilityUpdatedDueToProductionOrder e =>
      Some (mkAvailabilityDto (uuid_String (BeerId_Value (aupo_BeerId e)))
              (BeerName_Value (aupo_BeerName e)) (aupo_Quantity e))
  | EvBeerAvailabilityUpdated e =>
      Some (mkAvailabilityDto (uuid_String (BeerId_Value (bau_BeerId e)))
              (BeerName_Value (bau_BeerName e)) (bau_Quantity e))
  | EvAvailabilityCompensated e =>
      Some (mkAvailabilityDto (uuid_String (BeerId_Value (ac_BeerId e)))
              (BeerName_Value (ac_BeerName e)) (ac_Quantity e))
  | _ => None
  end.

(** The beer an availability event is about. *)
Definition event_beer e : option UUID :=
  match e with
  | EvAvailabilityUpdatedDueToProductionOrder e => Some (BeerId_Value (aupo_BeerId e))
  | EvBeerAvailabilityUpdated e => Some (BeerId_Value (bau_BeerId e))
  | EvQuantityNotFound e => Some (BeerId_Value (qnf_BeerId e))
  | EvAvailabilityCompensated e => Some (BeerId_Value (ac_BeerId e))
  | _ => None
  end.

(** The rows of key [k] that [ds] writes, in order. *)
Definition shown (k : string) ds : list AvailabilityDto :=
  omap (λ e, d ← dto_of e; if decide (dto_BeerId d = k) then Some d else None) ds.

Lemma shown_app k ds ds' : shown k (ds ++ ds') = shown k ds ++ shown k ds'.
Proof. unfold shown. by rewrite omap_app. Qed.

Lemma shown_cons k e l :
  shown k (e :: l) = match dto_of e with
                     | Some d => if decide (dto_BeerId d = k) then d :: shown k l else shown k l
                     | None => shown k l
                     end.
Proof. unfold shown. simpl. destruct (dto_of e); simpl; [by case_decide|done]. Qed.

Lemma project_dto `{AvailabilityReadModel R} e (r : R) :
  project_availability e r
  = match dto_of e with Some d => rm_UpsertAvailability d r | None => (Ok tt, r) end.
Proof. by destruct e. Qed.

(** Projecting leaves the last row written. *)
Lemma project_shown `{AvailabilityReadModelLaws R rows} ds (r r' : R) k :
  for_each ds project_availability r = (Ok tt, r') →
  rows r' !! k = match last (shown k ds) with Some d => Some d | None => rows r !! k end.
Proof.
  revert r. induction ds as [|e ds IH]; intros r; [by intros [= <-]|].
  intros ([] & r1 & H1 & H2%IH)%bind_inv_Ok. rewrite H2.
  rewrite (shown_app k [e] ds : shown k (e :: ds) = _), last_app.
  destruct (last (shown k ds)) as [d|]; [done|].
  rewrite project_dto in H1. unfold shown. simpl. destruct (dto_of e) as [d|]; simpl.
  2: { by injection H1 as <-. }
  apply upsert_ok in H1. rewrite H1.
  case_decide as Hd; [subst k; by rewrite lookup_insert_eq|by rewrite lookup_insert_ne].
Qed.

(** The fields of an availability are those of the last row its events project
    to; before any, it is out of stock. *)
Definition row_of_availability (a : Availability) : AvailabilityDto :=
  mkAvailabilityDto (uuid_String (BeerId_Value (beerId a))) (BeerName_Value (beerName a))
    (quantity a).

Lemma shown_beer b l :
  (∀ e, e ∈ l → event_beer e = Some b) → shown (uuid_String b) l = omap dto_of l.
Proof.
  induction l as [|e l IH]; intros Hl; [done|].
  rewrite shown_cons, IH by (intros; apply Hl; by right).
  specialize (Hl e ltac:(left)). destruct e; simpl in *; try done;
    injection Hl as ->; by rewrite decide_True.
Qed.

Lemma shown_other b b' l :
  b ≠ b' → (∀ e, e ∈ l → event_beer e = Some b') → shown (uuid_String b) l = [].
Proof.
  intros Hne. induction l as [|e l IH]; intros Hl; [done|].
  rewrite shown_cons, IH by (intros; apply Hl; by right).
  specialize (Hl e ltac:(left)). destruct e; simpl in *; try done;
    injection Hl as ->; by rewrite decide_False by (by intros ?%(inj uuid_String)).
Qed.

(** An availability replayed from events about one beer. *)
Lemma replay_beer b l :
  (∀ e, e ∈ l → event_beer e = Some b) → l ≠ [] →
  BeerId_Value (beerId (ApplyAll l NewAvailability)) = b.
Proof.
  intros Hl Hne. destruct l as [|e l' _] using rev_ind; [done|].
  rewrite ApplyAll_app. specialize (Hl e ltac:(set_solver)).
  destruct e; simpl in Hl; try done; injection Hl as <-; simpl; try case_decide; done.
Qed.

Lemma replay_row b l :
  (∀ e, e ∈ l → event_beer e = Some b) →
  last (omap dto_of l)
  = if decide (omap dto_of l = []) then None
    else Some (row_of_availability (ApplyAll l NewAvailability)).
Proof.
  induction l as [|e l IH] using rev_ind; intros Hl; [done|].
  rewrite omap_app, ApplyAll_app, last_app.
  specialize (Hl e ltac:(set_solver)) as He.
  assert (∀ e, e ∈ l → event_beer e = Some b) as Hl' by (intros; apply Hl; set_solver).
  destruct e; simpl in He; try done.
  1,2,4: clear IH; simpl; rewrite decide_False by (by intros [_ ?]%app_eq_nil);
    f_equal; unfold row_of_availability; simpl; repeat case_decide; reflexivity.
  simpl. rewrite app_nil_r, IH by done. case_decide as Hd; [done|].
  f_equal. unfold row_of_availability. simpl. f_equal. f_equal. injection He as ->.
  apply (replay_beer b); [done|]. by intros ->.
Qed.
End shown.

(** ** Rebuilding *)
Section rebuilding.
Context {U : UuidLib} {St R : Type} `{!EventStore WarehouseEvent St}.
Context (view : St → string → list (StoredEvent WarehouseEvent)) `{!EventStoreLaws view}.
Context `{!StreamLister St, !StreamListerLaws StreamLister0 view}.
Context `{!AvailabilityReadModel R} (rows : R → gmap string AvailabilityDto).
Context `{!AvailabilityReadModelLaws rows}.

(** The events of a beer's stream in the store, and the beer they rebuild. *)
Definition beer_events (s : St) (b : UUID) : list WarehouseEvent :=
  Event <$> view s (StreamName +:+ "-" +:+ uuid_String b)%string.

Definition beer_of (s : St) (b : UUID) : Availability :=
  ApplyAll (beer_events s b) NewAvailability.

(** A store in which every Availability stream is the stream of a beer. *)
Definition beer_store (s : St) : Prop :=
  (∀ b e, e ∈ beer_events s b → event_beer e = Some b) ∧
  ∀ name, GoStrings.HasPrefix name (StreamName +:+ "-")%string = true →
    view s name ≠ [] → ∃ b, name = (StreamName +:+ "-" +:+ uuid_String b)%string.

Lemma last_join {A} (xs : list (list A)) (L : list A) :
  (∀ l, l ∈ xs → l = [] ∨ l = L) → L ∈ xs ∨ L = [] → last (mjoin xs) = last L.
Proof.
  assert (∀ xs, (∀ l, l ∈ xs → l = [] ∨ l = L) → mjoin xs = [] ∨ last (mjoin xs) = last L)
    as Hall.
  { clear xs. intros xs. induction xs as [|l xs IH]; intros Hl; simpl; [by left|].
    rewrite last_app. destruct IH as [-> | ->]; [intros; apply Hl; by right|..].
    - rewrite app_nil_r. destruct (Hl l ltac:(left)) as [-> | ->]; [by left|by right].
    - right. destruct (last L) eqn:E; [done|].
      apply last_None in E as ->. destruct (Hl l ltac:(left)) as [-> | ->]; done. }
  intros Hl Hin. destruct (Hall xs Hl) as [E|]; [|done]. rewrite E.
  destruct Hin as [Hin| ->]; [|done]. destruct L as [|x L]; [done|]. exfalso.
  apply (not_elem_of_nil x). rewrite <- E. apply list_elem_of_join.
  exists (x :: L). split; [left|done].
Qed.

(** What a rebuild projects of one beer ends with the last row of its stream. *)
Lemma rebuild_last_shown s (r : R) s' r' b :
  beer_store s → RebuildAvailability (s, r) = (Ok tt, (s', r')) →
  ∃ ds, for_each ds project_availability r = (Ok tt, r') ∧
    last (shown (uuid_String b) ds) = last (omap dto_of (beer_events s b)).
Proof.
  intros [Hbeer Hnames] (names & Hp & Hsound & Hcomplete)%(rebuild_names StreamName _ view _ _ _ _ eq_refl).
  eexists. split; [exact Hp|].
  set (L := omap dto_of (beer_events s b)).
  assert (∀ xs, shown (uuid_String b) (mjoin xs) = mjoin (shown (uuid_String b) <$> xs)) as ->.
  { intros xs. induction xs as [|x xs IH]; [done|]. simpl. by rewrite shown_app, IH. }
  rewrite <- list_fmap_compose. apply last_join.
  - intros l (n & -> & Hn)%list_elem_of_fmap. simpl.
    destruct (decide (view s n = [])) as [->|Hne]; [by left|].
    destruct (Hnames n (Hsound n Hn) Hne) as [b' ->].
    change (Event <$> view s (StreamName +:+ "-" +:+ uuid_String b')%string)
      with (beer_events s b').
    destruct (decide (b = b')) as [<-|Hb]; [right; apply shown_beer, Hbeer|].
    left. eapply shown_other; [done|]. apply Hbeer.
  - destruct (decide (L = [])) as [|HL]; [by right|]. left. apply list_elem_of_fmap.
    eexists. split; [symmetry; apply shown_beer, Hbeer|]. apply Hcomplete.
    + rewrite GoStrings.app_assoc. apply GoStrings.HasPrefix_app.
    + intros Hv. apply HL. unfold L, beer_events. by rewrite Hv.
Qed.

(** A rebuilt read model tells the truth: after a rebuild into an empty read
    model, a beer's row is the name and the stock that its event stream replays
    to, and a beer that was never in stock has no row. *)
Theorem rebuild_shows_stock s (empty rebuilt : R) s' b :
  beer_store s → rows empty = ∅ →
  RebuildAvailability (s, empty) = (Ok tt, (s', rebuilt)) →
  rows rebuilt !! uuid_String b =
  if decide (omap dto_of (beer_events s b) = []) then None
  else Some (row_of_availability (beer_of s b)).
Proof.
  intros Hs He (ds & Hp & Hlast)%(rebuild_last_shown _ _ _ _ b); [|done].
  rewrite (project_shown _ _ _ _ Hp), He, lookup_empty, Hlast.
  unfold beer_of. rewrite <- (replay_row b) by (by apply Hs).
  by case_match.
Qed.
End rebuilding.

(** ** The listing of the in-memory service *)
Module Listing.
Import InMemoryAvailability.

Definition all_rows (s : AvailabilityService) : list AvailabilityDto :=
  (map_to_list (availabilities s)).*2.

Lemma by_name_antisym a b : by_name a b → by_name b a → dto_BeerName a = dto_BeerName b.
Proof.
  unfold by_name, String.ltb. intros Hab Hba.
  rewrite String.compare_antisym in Hab.
  destruct (String.compare (dto_BeerName a) (dto_BeerName b)) eqn:E; [|done..].
  by apply String.compare_eq_iff in E.
Qed.

(** With one beer per name, every call lists the rows in the same order. *)
Lemma sorted_unique s all sorted all' sorted' :
  (∀ a b, a ∈ all_rows s → b ∈ all_rows s → dto_BeerName a = dto_BeerName b → a = b) →
  enumeration s all → sort_Slice all sorted →
  enumeration s all' → sort_Slice all' sorted' → sorted = sorted'.
Proof.
  intros Hn He [Hp Hs] He' [Hp' Hs'].
  assert (sorted ≡ₚ all_rows s) as Ha by (by rewrite <- Hp).
  assert (sorted' ≡ₚ all_rows s) as Ha' by (by rewrite <- Hp').
  apply (StronglySorted_unique_strong by_name); [|done|done|by rewrite Ha, Ha'].
  intros x y Hx Hy Hxy Hyx. apply Hn; [by rewrite <- Ha|by rewrite <- Ha'|].
  by apply by_name_antisym.
Qed.

(** Paging over the beers: if no two beers share a name, the pages of any
    size, requested one call after the other, show every beer exactly once. *)
Theorem availability_pages s n k (shown : nat → list AvailabilityDto) :
  (∀ a b, a ∈ all_rows s → b ∈ all_rows s → dto_BeerName a = dto_BeerName b → a = b) →
  1 ≤ n ≤ MaxPageLimit → (length (all_rows s) ≤ k * Z.to_nat n)%nat →
  (∀ i, (i < k)%nat → GetAvailabilities (page_at n i) s (Ok (shown i))) →
  mjoin (shown <$> seq 0 k) ≡ₚ all_rows s.
Proof.
  intros Hn Hsize Hk Hshown. destruct k as [|k].
  { destruct (all_rows s); [done|simpl in Hk; lia]. }
  destruct (Hshown O ltac:(lia)) as (all & sorted & He & Hs & _).
  assert (sorted ≡ₚ all_rows s) as Hp by (destruct Hs as [Hp _]; by rewrite <- Hp).
  assert (shown <$> seq 0 (S k)
    = (λ i, default [] (match page_window (page_at n i) sorted with Ok l => Some l | _ => None end))
        <$> seq 0 (S k)) as ->.
  { apply list_fmap_ext. intros j i Hi. apply lookup_seq in Hi as [-> Hj].
    destruct (Hshown (0 + j)%nat ltac:(lia)) as (all' & sorted' & He' & Hs' & Hw).
    rewrite (sorted_unique s all sorted all' sorted') by done. by rewrite <- Hw. }
  rewrite pages_concat, take_ge; [done| |done]. by rewrite Hp.
Qed.

(** Two beers of one name. *)
Definition ipa1 : AvailabilityDto := mkAvailabilityDto "1" "IPA" (NewQuantity 4 "Lt").
Definition ipa2 : AvailabilityDto := mkAvailabilityDto "2" "IPA" (NewQuantity 9 "Lt").
Definition two_ipas : AvailabilityService :=
  snd (UpsertAvailability ipa2 (snd (UpsertAvailability ipa1 NewAvailabilityService))).

(** Two beers of one name break the paging: the map iteration and the
    unstable sort may order them differently in each call, so the first two
    pages can both show the same beer and none the other. *)
Theorem same_name_hides_beer :
  GetAvailabilities (page_at 1 0) two_ipas (Ok [ipa1]) ∧
  GetAvailabilities (page_at 1 1) two_ipas (Ok [ipa1]).
Proof.
  assert (all_rows two_ipas ≡ₚ [ipa1; ipa2]) as Hrows.
  { apply (bool_decide_unpack _). vm_compute. exact I. }
  split; [exists [ipa1; ipa2], [ipa1; ipa2]|exists [ipa2; ipa1], [ipa2; ipa1]];
    (split; [unfold enumeration; fold (all_rows two_ipas); rewrite Hrows; solve_Permutation|]);
    (split; [|by vm_compute]); (split; [done|]);
    repeat constructor.
Qed.
End Listing.

(** ** Evaluated instances *)
Module SampleStock.
#[local] Existing Instance DemoUuid.lib.

Definition brewed : WarehouseEvent :=
  EvAvailabilityUpdatedDueToProductionOrder
    (NewAvailabilityUpdatedDueToProductionOrder (mkBeerId (uid "ipa")) (uid "c")
       (mkBeerName "IPA") (NewQuantity 10 "Lt")).
Definition sold : WarehouseEvent :=
  EvBeerAvailabilityUpdated
    (NewBeerAvailabilityUpdated (mkBeerId (uid "ipa")) (uid "c") (mkBeerName "IPA")
       (NewQuantity 6 "Lt") "uo").

Definition store : InMemory.InMemoryEventStore WarehouseEvent :=
  InMemory.mkStore
    {[ "Availability-uipa" := new_records "Availability-uipa" 0 (uid "c") 1 [brewed; sold] ]} [].

Lemma store_events b :
  beer_events InMemory.stream_of store b = if decide (b = uid "ipa") then [brewed; sold] else [].
Proof.
  unfold beer_events, InMemory.stream_of, store. simpl. case_decide as E.
  - rewrite E, lookup_singleton_eq. apply new_records_Event.
  - rewrite lookup_singleton_ne; [done|]. intros Hn. apply E.
    change ("Availability-" +:+ "uipa" = "Availability-" +:+ uuid_String b)%string in Hn.
    apply GoStrings.app_inj_l in Hn. by apply (inj uuid_String (uid "ipa") b) in Hn.
Qed.

Lemma store_beers : beer_store InMemory.stream_of store.
Proof.
  split.
  - intros b e. rewrite store_events. case_decide as E; [|by intros ?%elem_of_nil].
    rewrite E. intros [-> | ->%list_elem_of_singleton]%elem_of_cons; done.
  - intros name _ Hv. exists (uid "ipa"). unfold InMemory.stream_of, store in Hv. simpl in Hv.
    destruct (decide ("Availability-uipa" = name)) as [<-|Hne]; [done|].
    by rewrite lookup_singleton_ne in Hv.
Qed.

Definition one_ipa : InMemoryAvailability.AvailabilityService :=
  snd (InMemoryAvailability.UpsertAvailability Listing.ipa1
         InMemoryAvailability.NewAvailabilityService).
End SampleStock.

Section witnesses.
#[local] Existing Instance DemoUuid.lib.
Import SampleStock.

Lemma rebuild_shows_stock_witness :
  let rebuilt := RebuildAvailability (store, InMemoryAvailability.NewAvailabilityService) in
  fst rebuilt = Ok tt ∧
  InMemoryAvailability.availabilities (snd rebuilt).2 !! uuid_String (uid "ipa")
  = (if decide (omap dto_of (beer_events InMemory.stream_of store (uid "ipa")) = []) then None
     else Some (row_of_availability (beer_of InMemory.stream_of store (uid "ipa")))).
Proof.
  intros rebuilt. assert (fst rebuilt = Ok tt) as Hr by (vm_compute; reflexivity).
  split; [exact Hr|].
  apply (rebuild_shows_stock InMemory.stream_of InMemoryAvailability.availabilities store
           InMemoryAvailability.NewAvailabilityService (snd rebuilt).2 (snd rebuilt).1);
    [apply store_beers|done|].
  rewrite <- Hr. fold rebuilt. by destruct rebuilt as [? []].
Defined.

Lemma availability_pages_witness :
  mjoin ((λ _ : nat, [Listing.ipa1]) <$> seq 0 1) ≡ₚ Listing.all_rows one_ipa.
Proof.
  assert (Listing.all_rows one_ipa = [Listing.ipa1]) as E by (vm_compute; reflexivity).
  apply (Listing.availability_pages one_ipa 50 1 (λ _, [Listing.ipa1])).
  - rewrite E. by intros a b ->%list_elem_of_singleton ->%list_elem_of_singleton.
  - unfold MaxPageLimit. lia.
  - rewrite E. simpl. lia.
  - intros i Hi. assert (i = O) as -> by lia. exists [Listing.ipa1], [Listing.ipa1].
    split; [unfold InMemoryAvailability.enumeration; fold (Listing.all_rows one_ipa); by rewrite E|].
    split; [split; [done|repeat constructor]|by vm_compute].
Defined.
End witnesses.
