(* ===== verification/WarehouseFacade.v ===== *)
(** * The Warehouses facade ([internal/warehouses/facade.go]) *)
From S2P Require Import Prelude Errors Kernel World Bus.
From S2P Require Import WarehouseKernel.
#[local] Open Scope Z_scope.

Record ProductionOrderJson := mkProductionOrderJson {
  poj_BeerId : string; poj_BeerName : string; poj_Quantity : Quantity }.

Section facade.
Context {U : UuidLib} {St B P : Type} `{!WirePublisher B P}.
Context `{!JsonMarshal UpdateAvailabilityDueToProductionOrder P}.
Abbreviation M := (GoM (World St B)).

Definition Facade_UpdateAvailabilityDueToProductionOrder (body : ProductionOrderJson)
    : M string :=
  match uuid_Parse (poj_BeerId body) with
  | None => throw (ErrInvalid ("invalid beer id: " +:+ poj_BeerId body)%string)
  | Some beerId =>
      commitId ← uuid_New_;
      let command := NewUpdateAvailabilityDueToProductionOrder (mkBeerId beerId) commitId
                       (mkBeerName (poj_BeerName body)) (poj_Quantity body) in
      _ ← on_bus (Send command);
      mret (uuid_String beerId)
  end.

(** The command a payload becomes, for the beer of its identifier. *)
Definition production_command (body : ProductionOrderJson)
    (c : UpdateAvailabilityDueToProductionOrder) : Prop :=
  uuid_Parse (poj_BeerId body) = Some (BeerId_Value (uapo_BeerId c)) ∧
  BeerId_Value (uapo_BeerId c) = cmd_AggregateId (uapo_base c) ∧
  BeerName_Value (uapo_BeerName c) = poj_BeerName body ∧
  uapo_Quantity c = poj_Quantity body.

Lemma production_run body (w : World St B) r w' :
  Facade_UpdateAvailabilityDueToProductionOrder body w = (r, w') →
  (uuid_Parse (poj_BeerId body) = None ∧ w' = w ∧
   r = Err (ErrInvalid ("invalid beer id: " +:+ poj_BeerId body)%string)) ∨
  ∃ c w1, production_command body c ∧ w_store w1 = w_store w ∧ w_bus w1 = w_bus w ∧
    on_bus (Send c) w1 = (match r with Ok _ => Ok tt | Err e => Err e | Panic m => Panic m end, w') ∧
    ∀ id, r = Ok id → id = uuid_String (BeerId_Value (uapo_BeerId c)).
Proof.
  unfold Facade_UpdateAvailabilityDueToProductionOrder, uuid_New_.
  destruct (uuid_Parse (poj_BeerId body)) as [b|] eqn:Hb; [|intros [= <- <-]; by left].
  go_run. intros Hr. right. unfold production_command. rewrite Hb.
  match type of Hr with context [on_bus (Send ?c) ?w1] =>
    exists c, w1; destruct (on_bus (Send c) w1) as [[[]|?|?] ?] eqn:E end;
    injection Hr as <- <-; split_and!; try done; by intros ? [= <-].
Qed.
End facade.
