(* ===== verification/Histories.v ===== *)
(** * What an event log tells about the aggregate it rebuilds

    Facts about a saga or an availability, read off the events of its stream. *)
From S2P Require Import Prelude Errors Kernel Aggregate.
From S2P Require Import WarehouseKernel Availability Saga.
#[local] Open Scope Z_scope.

Section sagas.
Context {U : UuidLib}.
Implicit Types (l : list WarehouseEvent) (e : WarehouseEvent).

Abbreviation rebuilt l := (ApplyAll l NewOrderAllocationSaga).

Lemma rebuilt_snoc l e : rebuilt (l ++ [e]) = ApplyEvent e (rebuilt l).
Proof. by rewrite ApplyAll_app. Qed.

(** Only its start gives a saga an order. *)
Lemma started_of l :
  salesOrderId (rebuilt l) ≠ "" → ∃ x, EvOrderAllocationStarted x ∈ l.
Proof.
  induction l as [|e l IH] using rev_ind; [done|]. rewrite rebuilt_snoc.
  destruct e as [| | | |x| | | | |]; simpl; intros Hid;
    try (destruct (IH Hid) as [y Hy]; exists y; set_solver).
  exists x. set_solver.
Qed.

Lemma rows_Apply e s :
  (∀ x, e ≠ EvOrderAllocationStarted x) → data <$> rows (ApplyEvent e s) = data <$> rows s.
Proof.
  intros He. destruct e; simpl; try done; [by destruct (He e)|..];
    rewrite <- !list_fmap_compose; apply list_fmap_ext; intros i row _; simpl; by case_decide.
Qed.

(** The rows are those of the start, if all starts agree. *)
Lemma rows_of l R :
  (∃ x, EvOrderAllocationStarted x ∈ l) →
  (∀ x, EvOrderAllocationStarted x ∈ l → oas_Rows x = R) →
  data <$> rows (rebuilt l) = R.
Proof.
  induction l as [|e l IH] using rev_ind; [by intros [x ?%elem_of_nil]|].
  intros [x Hx] Hall. rewrite rebuilt_snoc.
  assert ((∃ y, e = EvOrderAllocationStarted y) ∨ ¬ ∃ y, e = EvOrderAllocationStarted y)
    as [[y ->]|Hn] by (destruct e; naive_solver).
  - rewrite <- (Hall y) by set_solver. simpl. rewrite <- list_fmap_compose. apply list_fmap_id.
  - rewrite rows_Apply by (intros y ->; apply Hn; by exists y).
    apply IH; [|intros y Hy; apply Hall; set_solver].
    apply elem_of_app in Hx as [Hx|Hx%list_elem_of_singleton]; [by exists x|].
    destruct Hn. by exists x.
Qed.

(** An allocated row was reported allocated. *)
Lemma allocated_by l r :
  r ∈ rows (rebuilt l) → state r = rowAllocated →
  ∃ x, EvAllocationStepSucceeded x ∈ l ∧ ass_BeerId x = row_BeerId (data r).
Proof.
  revert r. induction l as [|e l IH] using rev_ind; intros r; [by intros ?%elem_of_nil|].
  assert (r ∈ rows (rebuilt l) → state r = rowAllocated →
    ∃ x, EvAllocationStepSucceeded x ∈ l ++ [e] ∧ ass_BeerId x = row_BeerId (data r)) as Hold.
  { intros Hr Hs. destruct (IH r Hr Hs) as (x & ? & ?). exists x. set_solver. }
  rewrite rebuilt_snoc. destruct e as [| | | |x|x|x|x|x|x]; try exact Hold.
  - intros Hr%(elem_of_pending (oas_Rows x)). by rewrite Hr.
  - intros (r0 & -> & Hr0)%list_elem_of_fmap. simpl. case_decide as Hb; [|].
    + intros _. exists x. split; [set_solver|done].
    + intros Hs. destruct (IH r0 Hr0 Hs) as (y & ? & ?). exists y. set_solver.
  - intros (r0 & -> & Hr0)%list_elem_of_fmap. simpl. case_decide as Hb; [done|].
    intros Hs. destruct (IH r0 Hr0 Hs) as (y & ? & ?). exists y. set_solver.
  - intros (r0 & -> & Hr0)%list_elem_of_fmap. simpl. case_decide as Hb; [done|].
    intros Hs. destruct (IH r0 Hr0 Hs) as (y & ? & ?). exists y. set_solver.
Qed.
End sagas.

Section availabilities.
Context {U : UuidLib}.

(** An order that was allocated and never given back holds its stock. *)
Lemma held_by l u :
  EvBeerAvailabilityUpdated u ∈ l → bau_SalesOrderId u ≠ "" →
  (∀ x, EvAvailabilityCompensated x ∈ l → ac_SalesOrderId x ≠ bau_SalesOrderId u) →
  bau_SalesOrderId u ∈ held (ApplyAll l NewAvailability).
Proof.
  intros Hu Hne. induction l as [|e l IH] using rev_ind; [by apply elem_of_nil in Hu|].
  intros Hc. rewrite ApplyAll_app. simpl.
  assert (EvBeerAvailabilityUpdated u ∈ l →
    bau_SalesOrderId u ∈ held (ApplyAll l NewAvailability)) as Hold.
  { intros Hin. apply IH; [done|]. intros x Hx. apply Hc. set_solver. }
  apply elem_of_app in Hu as [Hu|Hu%list_elem_of_singleton].
  - specialize (Hold Hu). destruct e as [|x|x|x| | | | | |]; simpl; try exact Hold.
    + case_decide; set_solver.
    + specialize (Hc x ltac:(set_solver)). set_solver.
  - subst e. simpl. rewrite decide_True by done. set_solver.
Qed.
End availabilities.
