(* ===== verification/SagaRunner.v ===== *)
(** * The saga runner
    ([internal/warehouses/sagas/order_allocation_saga_handler.go])

    The message handlers that drive the order-allocation saga: the trigger from
    the Sales module, the three step observations, the resumption of unfinished
    sagas after a restart and the step timeout. *)
From S2P Require Import Prelude Errors Kernel Aggregate EventStore World Repository.
From S2P Require Import Bus WarehouseKernel Saga.
#[local] Open Scope Z_scope.

Definition SalesOrderCreatedTopic : string := "sales.sales_order_created".

(** The consumer's own view of the trigger; the anonymous row struct has the
    fields of [SagaRowData], to which the code converts it. *)
Record salesOrderCreatedMessage `{UuidLib} := mkSalesOrderCreatedMessage {
  msg_CommitId : UUID;
  msg_SalesOrderId : string;
  msg_Rows : list SagaRowData;
}.

Section runner.
Context {U : UuidLib} {St B P : Type}.
Context `{!EventStore WarehouseEvent St, !WirePublisher B P}.
Context `{!JsonMarshal UpdateAvailabilityDueToSalesOrder P}
  `{!JsonMarshal CompensateAvailabilityDueToFailedAllocation P}
  `{!JsonMarshal IntegrationEvents.OrderAllocationCompleted P}
  `{!JsonMarshal IntegrationEvents.OrderAllocationRejected P}
  `{!JsonUnmarshal salesOrderCreatedMessage P}.
(** The saga repository, and the store's [StreamLister] side when the type
    assertion [s.store.(muflone.StreamLister)] succeeds. *)
Context (repository : EventStoreRepository WarehouseEvent OrderAllocationSaga B).
Context (lister : option (string → GoM St (list string))).
Abbreviation M := (GoM (World St B)).

(** [SagaRowData{}]. *)
Definition noRow : SagaRowData := mkSagaRowData "" "" 0 "".

(** [fmt.Errorf("saga %s: invalid beer id %q", ...)]: no wrapped error. The
    text of [%q] is the identifier between quotes, without its escapes. *)
Definition invalid_beer_id (saga : OrderAllocationSaga) (id : string) : error :=
  let quote := String (ascii_of_nat 34) EmptyString in
  ErrExternal ("saga " +:+ salesOrderId saga +:+ ": invalid beer id "
               +:+ quote +:+ id +:+ quote)%string.

Definition publishOutcome (saga : OrderAllocationSaga) (commitId : UUID) : M unit :=
  if decide (status saga = SagaCompleted) then
    on_bus (PublishIntegrationEvent
      (IntegrationEvents.NewOrderAllocationCompleted (salesOrderId saga) commitId))
  else
    on_bus (PublishIntegrationEvent
      (IntegrationEvents.NewOrderAllocationRejected (salesOrderId saga) commitId (reason saga))).

Definition sendNextAllocation (saga : OrderAllocationSaga) (commitId : UUID) : M unit :=
  let row := default noRow (NextPendingRow saga) in
  match uuid_Parse (row_BeerId row) with
  | None => throw (invalid_beer_id saga (row_BeerId row))
  | Some beerId =>
      on_bus (Send (NewUpdateAvailabilityDueToSalesOrder (mkBeerId beerId) commitId
                      (mkBeerName (row_BeerName row))
                      (NewQuantity (row_Quantity row) (row_UnitOfMeasure row))
                      (salesOrderId saga)))
  end.

Definition sendCompensation (saga : OrderAllocationSaga) (commitId : UUID)
    (row : SagaRowData) : M unit :=
  match uuid_Parse (row_BeerId row) with
  | None => throw (invalid_beer_id saga (row_BeerId row))
  | Some beerId =>
      on_bus (Send (NewCompensateAvailabilityDueToFailedAllocation (mkBeerId beerId) commitId
                      (NewQuantity (row_Quantity row) (row_UnitOfMeasure row))
                      (salesOrderId saga)))
  end.

Definition sendCompensations (saga : OrderAllocationSaga) (commitId : UUID) : M unit :=
  for_each (RowsToCompensate saga) (sendCompensation saga commitId).

(** [load]: [(nil, false, nil)] as [None]. *)
Definition load (salesOrderId : string) : M (option OrderAllocationSaga) :=
  if decide (salesOrderId = "") then mret None
  else match uuid_Parse salesOrderId with
  | None => mret None
  | Some orderId =>
      loaded ← attempt (GetByID repository orderId);
      match loaded with
      | inl err => if errors_Is err ErrAggregateNotFound then mret None else throw err
      | inr saga => mret (Some saga)
      end
  end.

(** [s.repository.Save(ctx, saga, uuid.New())]. *)
Definition save_saga (saga : OrderAllocationSaga) : M OrderAllocationSaga :=
  commit ← uuid_New_;
  Save repository saga commit.

Definition OnSalesOrderCreated (payload : P) : M unit :=
  message ← lift (result_wrap ("unmarshal " +:+ SalesOrderCreatedTopic)%string
                    (json_Unmarshal payload));
  match uuid_Parse (msg_SalesOrderId message) with
  | None => mret tt
  | Some salesOrderId =>
      loaded ← attempt (GetByID repository salesOrderId);
      match loaded with
      | inr _ => mret tt
      | inl err =>
          if negb (errors_Is err ErrAggregateNotFound) then throw err
          else
            saga ← save_saga (StartOrderAllocation salesOrderId (msg_CommitId message)
                                (msg_Rows message));
            if decide (status saga = SagaCompleted) then
              publishOutcome saga (msg_CommitId message)
            else sendNextAllocation saga (msg_CommitId message)
      end
  end.

Definition OnBeerAvailabilityUpdated (event : BeerAvailabilityUpdated) : M unit :=
  let c := ev_CommitId (bau_base event) in
  loaded ← load (bau_SalesOrderId event);
  match loaded with
  | None => mret tt
  | Some saga =>
      recorded ← lift (RecordAllocationSucceeded c
                         (uuid_String (BeerId_Value (bau_BeerId event))) saga);
      let '(changed, saga) := recorded in
      if negb changed then mret tt
      else
        saga ← save_saga saga;
        if decide (status saga = SagaCompleted) then publishOutcome saga c
        else sendNextAllocation saga c
  end.

Definition quantity_not_found_reason (event : QuantityNotFound) : string :=
  ("beer " +:+ uuid_String (BeerId_Value (qnf_BeerId event)) +:+ ": requested "
   +:+ Quantity_String (qnf_Requested event) +:+ ", available "
   +:+ Quantity_String (qnf_Available event))%string.

Definition OnQuantityNotFound (event : QuantityNotFound) : M unit :=
  let c := ev_CommitId (qnf_base event) in
  loaded ← load (qnf_SalesOrderId event);
  match loaded with
  | None => mret tt
  | Some saga =>
      recorded ← lift (RecordQuantityNotFound c
                         (uuid_String (BeerId_Value (qnf_BeerId event)))
                         (quantity_not_found_reason event) saga);
      let '(changed, saga) := recorded in
      if negb changed then mret tt
      else
        saga ← save_saga saga;
        if decide (status saga = SagaRejected) then publishOutcome saga c
        else sendCompensations saga c
  end.

Definition OnAvailabilityCompensated (event : AvailabilityCompensated) : M unit :=
  let c := ev_CommitId (ac_base event) in
  loaded ← load (ac_SalesOrderId event);
  match loaded with
  | None => mret tt
  | Some saga =>
      recorded ← lift (RecordCompensated c
                         (uuid_String (BeerId_Value (ac_BeerId event))) saga);
      let '(changed, saga) := recorded in
      if negb changed then mret tt
      else
        saga ← save_saga saga;
        if decide (status saga = SagaRejected) then publishOutcome saga c
        else mret tt
  end.

(** ** Durable execution *)

Definition drive (saga : OrderAllocationSaga) (commitId : UUID) : M unit :=
  if decide (status saga = SagaCompensating) then sendCompensations saga commitId
  else sendNextAllocation saga commitId.

Definition in_flight (saga : OrderAllocationSaga) : bool :=
  bool_decide (status saga = SagaRunning) || bool_decide (status saga = SagaCompensating).

(** The loop of [inFlight]: an unparseable stream name is skipped. *)
Fixpoint inFlight_loop (streams : list string) : M (list OrderAllocationSaga) :=
  match streams with
  | [] => mret []
  | streamID :: streams =>
      match uuid_Parse (GoStrings.TrimPrefix streamID (SagaStreamName +:+ "-")%string) with
      | None => inFlight_loop streams
      | Some orderId =>
          saga ← GetByID repository orderId;
          inFlight ← inFlight_loop streams;
          mret (if in_flight saga then saga :: inFlight else inFlight)
      end
  end.

Definition inFlight : M (list OrderAllocationSaga) :=
  match lister with
  | None => mret []
  | Some ListStreams =>
      streams ← on_store (ListStreams SagaStreamName);
      inFlight_loop streams
  end.

Definition ResumeInFlight : M unit :=
  sagasInFlight ← inFlight;
  for_each sagasInFlight (λ saga, commitId ← uuid_New_; drive saga commitId).

(** [stored[len(stored)-1]] panics on an empty stream. *)
Definition lastActivityOf (saga : OrderAllocationSaga) : M Time :=
  orderId ← lift (uuid_MustParse (salesOrderId saga));
  stored ← on_store (ReadStream (SagaStreamName +:+ "-" +:+ uuid_String orderId)%string);
  match last stored with
  | Some record => mret (OccurredAt record)
  | None => go_panic "runtime error: index out of range [-1]"
  end.

(** One iteration of [TimeoutInFlight]'s loop. *)
Definition timeout_one (cutoff : Time) (saga : OrderAllocationSaga) : M unit :=
  lastActivity ← lastActivityOf saga;
  if negb (Before lastActivity cutoff) then mret tt
  else if decide (status saga = SagaCompensating) then
    commitId ← uuid_New_;
    sendCompensations saga commitId
  else
    let row := default noRow (NextPendingRow saga) in
    commitId ← uuid_New_;
    recorded ← lift (RecordQuantityNotFound commitId (row_BeerId row)
                       "allocation step timed out" saga);
    saga ← save_saga (snd recorded);
    if decide (status saga = SagaRejected) then publishOutcome saga commitId
    else sendCompensations saga commitId.

Definition TimeoutInFlight (cutoff : Time) : M unit :=
  sagasInFlight ← inFlight;
  for_each sagasInFlight (timeout_one cutoff).
End runner.

(** ** The observations as one handler *)
Section observe.
Context {U : UuidLib} {St B P : Type}.
Context `{!EventStore WarehouseEvent St, !WirePublisher B P}.
Context `{!JsonMarshal UpdateAvailabilityDueToSalesOrder P}
  `{!JsonMarshal CompensateAvailabilityDueToFailedAllocation P}
  `{!JsonMarshal IntegrationEvents.OrderAllocationCompleted P}
  `{!JsonMarshal IntegrationEvents.OrderAllocationRejected P}.
Context (repository : EventStoreRepository WarehouseEvent OrderAllocationSaga B).
Abbreviation M := (GoM (World St B)).

(** What a handler does once the observation is recorded and saved. *)
Definition react (o : observation) (c : UUID) (saga : OrderAllocationSaga) : M unit :=
  match o with
  | Succeeded _ =>
      if decide (status saga = SagaCompleted) then publishOutcome saga c
      else sendNextAllocation saga c
  | NotFound _ _ =>
      if decide (status saga = SagaRejected) then publishOutcome saga c
      else sendCompensations saga c
  | Compensated _ =>
      if decide (status saga = SagaRejected) then publishOutcome saga c else mret tt
  end.

Definition observe (orderId : string) (c : UUID) (o : observation) : M unit :=
  loaded ← load repository orderId;
  match loaded with
  | None => mret tt
  | Some saga =>
      recorded ← lift (record c o saga);
      let '(changed, saga) := recorded in
      if negb changed then mret tt
      else saga ← save_saga repository saga; react o c saga
  end.

(** The observation a warehouse event carries. *)
Definition observed (e : WarehouseEvent) : option (string * UUID * observation) :=
  match e with
  | EvBeerAvailabilityUpdated e =>
      Some (bau_SalesOrderId e, ev_CommitId (bau_base e),
            Succeeded (uuid_String (BeerId_Value (bau_BeerId e))))
  | EvQuantityNotFound e =>
      Some (qnf_SalesOrderId e, ev_CommitId (qnf_base e),
            NotFound (uuid_String (BeerId_Value (qnf_BeerId e))) (quantity_not_found_reason e))
  | EvAvailabilityCompensated e =>
      Some (ac_SalesOrderId e, ev_CommitId (ac_base e),
            Compensated (uuid_String (BeerId_Value (ac_BeerId e))))
  | _ => None
  end.

(** The three handlers, selected by the event's type as the subscriptions of
    the module do. *)
Definition on_event (e : WarehouseEvent) : M unit :=
  match e with
  | EvBeerAvailabilityUpdated e => OnBeerAvailabilityUpdated repository e
  | EvQuantityNotFound e => OnQuantityNotFound repository e
  | EvAvailabilityCompensated e => OnAvailabilityCompensated repository e
  | _ => mret tt
  end.

Lemma on_event_observe e :
  on_event e = match observed e with
               | Some (orderId, c, o) => observe orderId c o
               | None => mret tt
               end.
Proof. by destruct e. Qed.
End observe.

(** ** What the runner puts on the wire *)
Section wire.
Context {U : UuidLib} {B P : Type} `{!WirePublisher B P, !WirePublisherLaws B P}.
Context `{!JsonMarshal UpdateAvailabilityDueToSalesOrder P}
  `{!JsonMarshal CompensateAvailabilityDueToFailedAllocation P}
  `{!JsonMarshal IntegrationEvents.OrderAllocationCompleted P}
  `{!JsonMarshal IntegrationEvents.OrderAllocationRejected P}
  `{!JsonMarshal WarehouseEvent P}.

(** The messages of the module, before encoding. *)
Inductive wire_message :=
| WireAllocate (c : UpdateAvailabilityDueToSalesOrder)
| WireCompensate (c : CompensateAvailabilityDueToFailedAllocation)
| WireEvent (e : WarehouseEvent)
| WireCompleted (e : IntegrationEvents.OrderAllocationCompleted)
| WireRejected (e : IntegrationEvents.OrderAllocationRejected).

Definition wire_topic (m : wire_message) : string :=
  match m with
  | WireAllocate c => commandTopicPrefix +:+ MessageName c
  | WireCompensate c => commandTopicPrefix +:+ MessageName c
  | WireEvent e => domainEventTopicPrefix +:+ MessageName e
  | WireCompleted e => integrationEventTopicPrefix +:+ MessageName e
  | WireRejected e => integrationEventTopicPrefix +:+ MessageName e
  end%string.

Definition wire_payload (m : wire_message) : result P :=
  match m with
  | WireAllocate c => json_Marshal c
  | WireCompensate c => json_Marshal c
  | WireEvent e => json_Marshal e
  | WireCompleted e => json_Marshal e
  | WireRejected e => json_Marshal e
  end.

Definition encodes (m : wire_message) (tp : string * P) : Prop :=
  tp.1 = wire_topic m ∧ wire_payload m = Ok tp.2.

(** The wire [b'] is [b] after the messages [ms] went out, in that order. *)
Definition sent (ms : list wire_message) (b b' : B) : Prop :=
  ∃ l, published b' = published b ++ l ∧ Forall2 encodes ms l.

Lemma sent_nil b : sent [] b b.
Proof. exists []. by rewrite app_nil_r. Qed.

Lemma sent_app ms ms' b b' b'' : sent ms b b' → sent ms' b' b'' → sent (ms ++ ms') b b''.
Proof.
  intros (l & Hl & Hf) (l' & Hl' & Hf').
  exists (l ++ l'). split; [by rewrite Hl', Hl, (assoc_L (++))|]. by apply Forall2_app.
Qed.

Definition send_wire (m : wire_message) : GoM B unit :=
  match m with
  | WireAllocate c => Send c
  | WireCompensate c => Send c
  | WireEvent e => PublishDomainEvent e
  | WireCompleted e => PublishIntegrationEvent e
  | WireRejected e => PublishIntegrationEvent e
  end.

Lemma send_wire_unfold m b :
  send_wire m b =
  (payload ← lift (result_wrap ("marshal " +:+ wire_topic m)%string (wire_payload m));
   Publish (wire_topic m) payload) b.
Proof. by destruct m. Qed.

(** A send that succeeds puts its one message on the wire; the store is not
    touched either way. *)
Lemma send_wire_ok {St} m (w w' : World St B) :
  on_bus (send_wire m) w = (Ok tt, w') → sent [m] (w_bus w) (w_bus w').
Proof.
  intros (b & Hb & ->)%on_bus_inv. simpl.
  rewrite send_wire_unfold in Hb. go_run.
  destruct (wire_payload m) as [p| |] eqn:Hp; [|done..].
  apply publish_ok in Hb. exists [(wire_topic m, p)]. split; [done|]. by constructor.
Qed.

Lemma send_wire_store {St} m (w w' : World St B) r :
  on_bus (send_wire m) w = (r, w') → w_store w' = w_store w.
Proof. by intros (b & _ & ->)%on_bus_inv. Qed.

Lemma for_each_sent {St} (ms : list wire_message) (w w' : World St B) :
  for_each ms (λ m, on_bus (send_wire m)) w = (Ok tt, w') → sent ms (w_bus w) (w_bus w').
Proof.
  revert w. induction ms as [|m ms IH]; intros w; simpl.
  - intros [= <-]. apply sent_nil.
  - intros ([] & w1 & H1 & H2)%bind_inv_Ok. apply (sent_app [m] ms _ (w_bus w1));
      auto using send_wire_ok.
Qed.
End wire.

(** ** The reaction, as the messages it sends *)
Section reaction.
Context {U : UuidLib} {St B P : Type} `{!WirePublisher B P, !WirePublisherLaws B P}.
Context `{!JsonMarshal UpdateAvailabilityDueToSalesOrder P}
  `{!JsonMarshal CompensateAvailabilityDueToFailedAllocation P}
  `{!JsonMarshal IntegrationEvents.OrderAllocationCompleted P}
  `{!JsonMarshal IntegrationEvents.OrderAllocationRejected P}
  `{!JsonMarshal WarehouseEvent P}.
Implicit Types (s : OrderAllocationSaga) (w : World St B).

Definition outcome_message s (c : UUID) : wire_message :=
  if decide (status s = SagaCompleted) then
    WireCompleted (IntegrationEvents.NewOrderAllocationCompleted (salesOrderId s) c)
  else WireRejected (IntegrationEvents.NewOrderAllocationRejected (salesOrderId s) c (reason s)).

Definition allocation_message s (c : UUID) (row : SagaRowData) : option wire_message :=
  beerId ← uuid_Parse (row_BeerId row);
  Some (WireAllocate (NewUpdateAvailabilityDueToSalesOrder (mkBeerId beerId) c
          (mkBeerName (row_BeerName row)) (NewQuantity (row_Quantity row) (row_UnitOfMeasure row))
          (salesOrderId s))).

Definition compensation_message s (c : UUID) (row : SagaRowData) : option wire_message :=
  beerId ← uuid_Parse (row_BeerId row);
  Some (WireCompensate (NewCompensateAvailabilityDueToFailedAllocation (mkBeerId beerId) c
          (NewQuantity (row_Quantity row) (row_UnitOfMeasure row)) (salesOrderId s))).

(** The next step of a running saga, the compensations of a compensating one;
    [None] when a row's beer is not an identifier. *)
Definition next_step s (c : UUID) : option (list wire_message) :=
  row ← NextPendingRow s; m ← allocation_message s c row; Some [m].

Definition give_back_all s (c : UUID) : option (list wire_message) :=
  mapM (compensation_message s c) (RowsToCompensate s).

Definition reaction (o : observation) (c : UUID) s : option (list wire_message) :=
  match o with
  | Succeeded _ =>
      if decide (status s = SagaCompleted) then Some [outcome_message s c] else next_step s c
  | NotFound _ _ =>
      if decide (status s = SagaRejected) then Some [outcome_message s c] else give_back_all s c
  | Compensated _ => if decide (status s = SagaRejected) then Some [outcome_message s c] else Some []
  end.

Lemma publishOutcome_send s c :
  (publishOutcome s c : GoM (World St B) unit) = on_bus (send_wire (outcome_message s c)).
Proof. unfold publishOutcome, outcome_message. by case_decide. Qed.

Lemma sendNextAllocation_ok s c w w' :
  sendNextAllocation s c w = (Ok tt, w') →
  ∃ ms, next_step s c = Some ms ∧ sent ms (w_bus w) (w_bus w').
Proof.
  unfold sendNextAllocation, next_step, allocation_message.
  destruct (NextPendingRow s) as [row|]; simpl.
  - destruct (uuid_Parse (row_BeerId row)) as [b|]; simpl; [|done].
    intros Hs. eexists. split; [done|].
    exact (send_wire_ok (WireAllocate _) w w' Hs).
  - by rewrite uuid_Parse_empty.
Qed.

Lemma sendCompensations_ok s c w w' :
  sendCompensations s c w = (Ok tt, w') →
  ∃ ms, give_back_all s c = Some ms ∧ sent ms (w_bus w) (w_bus w').
Proof.
  unfold sendCompensations, give_back_all.
  revert w. induction (RowsToCompensate s) as [|row rows IH]; intros w; simpl.
  - intros [= <-]. eexists. split; [done|]. apply sent_nil.
  - intros ([] & w1 & H1 & H2)%bind_inv_Ok. destruct (IH w1 H2) as (ms & -> & Hs).
    unfold sendCompensation, compensation_message in *.
    destruct (uuid_Parse (row_BeerId row)) as [b|]; simpl; [|done].
    eexists. split; [done|]. eapply (sent_app [_]); [|exact Hs].
    exact (send_wire_ok (WireCompensate _) w w1 H1).
Qed.

Lemma react_ok o c s w w' :
  react o c s w = (Ok tt, w') →
  ∃ ms, reaction o c s = Some ms ∧ sent ms (w_bus w) (w_bus w').
Proof.
  unfold react, reaction. rewrite publishOutcome_send.
  destruct o; case_decide; eauto using send_wire_ok, sendNextAllocation_ok, sendCompensations_ok.
  intros [= <-]. eexists. split; [done|]. apply sent_nil.
Qed.

Lemma sendNextAllocation_store s c w r w' :
  sendNextAllocation s c w = (r, w') → w_store w' = w_store w.
Proof.
  unfold sendNextAllocation. case_match; [by intros (b & _ & ->)%on_bus_inv | by intros [= _ <-]].
Qed.

Lemma sendCompensations_store s c w r w' :
  sendCompensations s c w = (r, w') → w_store w' = w_store w.
Proof.
  unfold sendCompensations. intros Hf. pattern w'. eapply for_each_invariant; [|exact Hf|done].
  intros row w1 r1 w2. unfold sendCompensation.
  case_match; [by intros (b & _ & ->)%on_bus_inv | by intros [= _ <-]].
Qed.

Lemma react_store o c s w r w' : react o c s w = (r, w') → w_store w' = w_store w.
Proof.
  unfold react. rewrite publishOutcome_send.
  destruct o; case_decide;
    eauto using send_wire_store, sendNextAllocation_store, sendCompensations_store.
  by intros [= _ <-].
Qed.
End reaction.
