(* ===== verification/SagaContract.v ===== *)
(** * The contract of the saga runner

    What every handler of [SagaRunner] does to the saga streams and to the wire,
    for any event store and any wire that keep their laws; the invariant of a
    process that runs the handlers in any order; redelivery, resumption and the
    step timeout. *)
From S2P Require Import Prelude Errors Kernel Aggregate EventStore World Repository.
From S2P Require Import Bus WarehouseKernel Saga SagaRunner.
#[local] Open Scope Z_scope.

(** ** The runner's contract *)
Section contract.
Context {U : UuidLib} {St B P : Type} `{!EventStore WarehouseEvent St}.
Context `{!WirePublisher B P, !WirePublisherLaws B P}.
Context `{!JsonMarshal UpdateAvailabilityDueToSalesOrder P}
  `{!JsonMarshal CompensateAvailabilityDueToFailedAllocation P}
  `{!JsonMarshal IntegrationEvents.OrderAllocationCompleted P}
  `{!JsonMarshal IntegrationEvents.OrderAllocationRejected P}
  `{!JsonMarshal WarehouseEvent P}.
Context {Pub : Publication}.
Context (view : St → string → list (StoredEvent WarehouseEvent)) `{!EventStoreLaws view}.
Implicit Types (s : OrderAllocationSaga) (w : World St B) (id : UUID).

(** The module's saga repository, in either mode of publication. *)
Definition sagas : EventStoreRepository WarehouseEvent OrderAllocationSaga B :=
  NewEventStoreRepository NewOrderAllocationSaga SagaStreamName eventPublisher.

(** What a save itself sends. *)
Definition announced (es : list WarehouseEvent) : list wire_message :=
  if direct then WireEvent <$> es else [].

Abbreviation log w id := (history view sagas w id).

(** The saga of an order, as its stream rebuilds it. *)
Definition saga_of w id : OrderAllocationSaga := replay sagas (log w id).

(** Every saga in the store came about through the aggregate's operations. *)
Definition sagas_ok w : Prop := ∀ id, log w id ≠ [] → reachable id (saga_of w id).

Lemma saga_blank : blank_factory sagas.
Proof. by split. Qed.

Lemma sagas_ok_same w w' :
  sagas_ok w → (∀ id, log w' id = log w id) → sagas_ok w'.
Proof. intros Hok E id. unfold saga_of. rewrite E. apply Hok. Qed.

(** Saving a reachable saga: other sagas are untouched; a refused save changes
    nothing; an accepted one extends the log by the raised events, and if it
    succeeds it has published them. *)
Lemma save_saga_spec old es id w r w' :
  es ≠ [] → reachable id (loaded_and_raised sagas old es) →
  save_saga sagas (loaded_and_raised sagas old es) w = (r, w') →
  (∀ id', id' ≠ id → log w' id' = log w id') ∧
  (log w' id = log w id ∧ w_bus w' = w_bus w ∧ (∃ e, r = Err e)
   ∨ length (log w id) = length old ∧ log w' id = log w id ++ es ∧
     ∀ s, r = Ok s → s = replay sagas (old ++ es) ∧
       sent (announced es) (w_bus w) (w_bus w')).
Proof.
  intros Hes Hreach Hsave. unfold save_saga, uuid_New_ in Hsave.
  apply reachable_inv in Hreach as [_ Hid _ _].
  go_run. set (w1 := mkWorld _ _ _ _) in Hsave.
  pose proof Hsave as Hcases.
  apply (Save_spec view sagas id) in Hsave as [Ho Hc]; [|apply saga_blank|done|done].
  split; [intros id' Hne; unfold history; rewrite Ho; [done|by intros ?%stream_inj]|].
  destruct Hc as [?|(Hlen & Hlog & Hr)]; [by left|]. right. split; [done|]. split; [done|].
  intros s ->. split; [done|].
  apply (Save_cases view) in Hcases as [(Hu & _)|[(_ & s' & _ & _ & pub & Hpub & Hres)
    |(_ & e & ? & _ & [=] & _)]]; rewrite (uncommitted_raised sagas old es saga_blank) in *;
    [done|].
  destruct pub as [[]|e|m]; [|done..]. unfold publish_all, announced in *. simpl in Hpub.
  unfold eventPublisher in Hpub. destruct direct; [|injection Hpub as <-; apply sent_nil].
  change (w_bus w) with (w_bus (put_store s' w1)). clear -Hpub WirePublisherLaws0.
  revert Hpub. generalize (put_store s' w1). induction es as [|e es IH]; intros w0; simpl.
  - intros [= <-]. apply sent_nil.
  - intros ([] & w2 & H1 & H2)%bind_inv_Ok. apply (sent_app [_] _ _ (w_bus w2)); [|by apply IH].
    exact (send_wire_ok (WireEvent e) _ _ H1).
Qed.

(** Accepted saves keep every saga reachable. *)
Lemma sagas_ok_save old es id w w' :
  sagas_ok w → reachable id (loaded_and_raised sagas old es) →
  (∀ id', id' ≠ id → log w' id' = log w id') → log w' id = old ++ es → sagas_ok w'.
Proof.
  intros Hok Hreach Ho Hlog id'. unfold saga_of.
  destruct (decide (id' = id)) as [->|Hne]; [|rewrite Ho by done; apply Hok].
  intros _. rewrite Hlog, <- (clear_loaded_and_raised sagas old es saga_blank).
  by apply reachable_saved.
Qed.

(** [load], in terms of the logs. *)
Lemma load_spec oid w r w' :
  load sagas oid w = (r, w') →
  same_streams view w w' ∧ w_bus w' = w_bus w ∧
  match r with
  | Ok (Some s) => ∃ id, uuid_Parse oid = Some id ∧ log w id ≠ [] ∧ s = saga_of w id
  | Ok None => ∀ id, oid ≠ "" → uuid_Parse oid = Some id → log w id = []
  | Err _ => True
  | Panic _ => False
  end.
Proof.
  unfold load. case_decide as Hoid; [intros [= <- <-]; done|].
  destruct (uuid_Parse oid) as [id|] eqn:Hp; [|intros [= <- <-]; done].
  go_run. destruct (GetByID _ _ w) as [rg w1] eqn:E.
  apply (GetByID_spec view) in E as (Hs & Hb & _ & _ & Hr).
  destruct rg as [s|err|m]; [|case_match eqn:He|done]; intros [= <- <-];
    (split; [done|]); (split; [done|]); try done.
  - destruct Hr as [Hne ->]. by exists id.
  - intros id' _ [= <-]. by apply Hr.
Qed.

(** Recording an enabled observation on a loaded saga, as a raised list. *)
Lemma record_loaded id c o w :
  reachable id (saga_of w id) →
  record c o (saga_of w id)
  = if enabled o (saga_of w id)
    then Ok (true, loaded_and_raised sagas (log w id) (raised_events id c o (saga_of w id)))
    else Ok (false, saga_of w id).
Proof. intros Hr. apply record_effect. by destruct (reachable_inv _ _ Hr). Qed.

Lemma raised_reachable id c o w :
  reachable id (saga_of w id) → enabled o (saga_of w id) = true →
  reachable id (loaded_and_raised sagas (log w id) (raised_events id c o (saga_of w id))).
Proof.
  intros Hr He. eapply (reachable_record id c o _ true); [exact Hr|].
  by rewrite record_loaded, He.
Qed.

(** A saved transition: the reachable saga [saga_of w id] raised [es]. *)
Lemma save_transition id es w r w' :
  es ≠ [] → reachable id (loaded_and_raised sagas (log w id) es) → sagas_ok w →
  save_saga sagas (loaded_and_raised sagas (log w id) es) w = (r, w') →
  sagas_ok w' ∧
  ((∀ id', log w' id' = log w id') ∧ w_bus w' = w_bus w ∧ (∃ e, r = Err e)
   ∨ (∀ id', id' ≠ id → log w' id' = log w id') ∧ log w' id = log w id ++ es ∧
     ∀ s, r = Ok s → s = saga_of w' id ∧ sent (announced es) (w_bus w) (w_bus w')).
Proof.
  intros Hes Hreach Hok Hs.
  destruct (save_saga_spec _ es id w r w' Hes Hreach Hs)
    as [Ho [(Hsame & Hb & He)|(_ & Hlog & Hr)]].
  - assert (∀ id', log w' id' = log w id') as Hall.
    { intros id'. destruct (decide (id' = id)) as [->|]; auto. }
    split; [by eapply sagas_ok_same|]. by left.
  - split; [by eapply sagas_ok_save|]. right. split; [done|]. split; [done|].
    intros s ->. destruct (Hr s eq_refl) as [-> ?]. split; [|done].
    unfold saga_of. by rewrite Hlog.
Qed.

Lemma store_same_logs w w' : w_store w' = w_store w → ∀ id, log w' id = log w id.
Proof. unfold history. by intros -> id. Qed.

(** Save a recorded observation and react to it, as the three handlers and the
    timeout do. *)
Definition commit_and_react (o : observation) (c : UUID) s : GoM (World St B) unit :=
  saga ← save_saga sagas s; react o c saga.

(** What a handler did about observation [o] of order [id]: the saga moved, and
    if the handler succeeded the wire carries the new events followed by the
    reaction. *)
Definition transitioned id o c w (r : result unit) w' : Prop :=
  let es := raised_events id c o (saga_of w id) in
  log w id ≠ [] ∧ enabled o (saga_of w id) = true ∧
  (∀ id', id' ≠ id → log w' id' = log w id') ∧ log w' id = log w id ++ es ∧
  (r = Ok tt → ∃ ms, reaction o c (saga_of w' id) = Some ms ∧
     sent (announced es ++ ms) (w_bus w) (w_bus w')).

Lemma commit_and_react_spec id o c w r w' :
  sagas_ok w → log w id ≠ [] → enabled o (saga_of w id) = true →
  commit_and_react o c
    (loaded_and_raised sagas (log w id) (raised_events id c o (saga_of w id))) w = (r, w') →
  sagas_ok w' ∧
  ((∀ id', log w' id' = log w id') ∧ w_bus w' = w_bus w ∧ (∃ e, r = Err e)
   ∨ transitioned id o c w r w').
Proof.
  intros Hok Hne He Hc. unfold commit_and_react, mbind, GoM_bind in Hc.
  destruct (save_saga _ _ w) as [rs w2] eqn:Es.
  apply save_transition in Es as [Hok2 Hcase]; [|done|by apply raised_reachable; auto|done].
  destruct Hcase as [(Hall & Hb & err & ->)|(Ho & Hlog & Hr)].
  { simplify_eq. split; [done|]. left. eauto. }
  destruct rs as [s2|e|m].
  2,3: injection Hc as <- <-; split; [done|]; right; by unfold transitioned.
  destruct (Hr s2 eq_refl) as [-> Hsent].
  pose proof (store_same_logs _ _ (react_store _ _ _ _ _ _ Hc)) as Hl3.
  split; [by eapply sagas_ok_same|]. right. split; [done|]. split; [done|].
  split; [intros id' ?; rewrite Hl3; auto|]. split; [by rewrite Hl3|].
  intros ->. apply react_ok in Hc as (ms & Hms & Hsent2). exists ms.
  assert (saga_of w' id = saga_of w2 id) as -> by (unfold saga_of; by rewrite Hl3).
  split; [done|]. by eapply sent_app.
Qed.

(** Nothing happened: no stream moved, nothing is on the wire. *)
Definition ignored w w' : Prop := (∀ id, log w' id = log w id) ∧ w_bus w' = w_bus w.

(** One delivery of a step observation, whatever it finds. *)
Lemma observe_cases oid c o w r w' :
  sagas_ok w → observe sagas oid c o w = (r, w') →
  sagas_ok w' ∧
  (ignored w w' ∧ (∀ m, r ≠ Panic m) ∧
   (r = Ok tt → ∀ id, uuid_Parse oid = Some id → log w id ≠ [] →
      enabled o (saga_of w id) = false)
   ∨ ∃ id, uuid_Parse oid = Some id ∧ transitioned id o c w r w').
Proof.
  intros Hok Hobs. unfold observe, mbind, GoM_bind in Hobs.
  destruct (load sagas oid w) as [rl w1] eqn:El.
  apply load_spec in El as (Hs1 & Hb1 & Hl).
  assert (∀ id, log w1 id = log w id) as Hlog1 by (intros id; unfold history; by rewrite Hs1).
  assert (sagas_ok w1) as Hok1 by (by eapply sagas_ok_same).
  destruct rl as [[s|]|e|m]; [|injection Hobs as <- <-..|done].
  2: { split; [done|]. left. split; [done|]. split; [done|]. intros _ id Hid Hne.
       destruct Hne. apply Hl; [|done]. intros ->. by rewrite uuid_Parse_empty in Hid. }
  2: { split; [done|]. by left. }
  destruct Hl as (id & Hid & Hne & ->). rewrite <- Hlog1 in Hne.
  assert (saga_of w id = saga_of w1 id) as Esaga by (unfold saga_of; by rewrite Hlog1).
  rewrite Esaga in Hobs. unfold lift in Hobs. rewrite record_loaded in Hobs by auto.
  destruct (enabled o (saga_of w1 id)) eqn:He; simpl in Hobs.
  2: { injection Hobs as <- <-. split; [done|]. left. do 2 (split; [done|]).
       intros _ id' Hid' _. rewrite Hid in Hid'. injection Hid' as <-. by rewrite Esaga. }
  destruct (commit_and_react_spec id o c w1 r w' Hok1 Hne He Hobs)
    as [Hok' [(Hall & Hb & err & ->)|Ht]]; (split; [done|]).
  - left. split; [split; congruence|done].
  - right. exists id. split; [done|]. unfold transitioned in *.
    rewrite Esaga, <- Hb1. setoid_rewrite <- Hlog1. done.
Qed.

(** ** The trigger *)
Context `{!JsonUnmarshal salesOrderCreatedMessage P}.

Definition started_events id (c : UUID) (rs : list SagaRowData) : list WarehouseEvent :=
  EvOrderAllocationStarted (NewOrderAllocationStarted id c rs) ::
  match rs with
  | [] => [EvOrderAllocationCompleted (NewOrderAllocationCompleted id c)]
  | _ => []
  end.

Lemma started id c rs :
  StartOrderAllocation id c rs = loaded_and_raised sagas [] (started_events id c rs).
Proof. by destruct rs. Qed.

(** What a new saga sends first: its first step, or at once its completion. *)
Definition first_messages (c : UUID) s : option (list wire_message) :=
  if decide (status s = SagaCompleted) then Some [outcome_message s c] else next_step s c.

(** One delivery of the trigger: ignored when it names no order or one that has
    a saga already; otherwise the saga starts. *)
Lemma trigger_cases payload w r w' :
  sagas_ok w → OnSalesOrderCreated sagas payload w = (r, w') →
  sagas_ok w' ∧
  (ignored w w' ∧
   (r = Ok tt → ∃ message, json_Unmarshal payload = Ok message ∧
      ∀ id, uuid_Parse (msg_SalesOrderId message) = Some id → log w id ≠ [])
   ∨ ∃ message id, json_Unmarshal payload = Ok message ∧
     uuid_Parse (msg_SalesOrderId message) = Some id ∧ log w id = [] ∧
     let es := started_events id (msg_CommitId message) (msg_Rows message) in
     (∀ id', id' ≠ id → log w' id' = log w id') ∧ log w' id = es ∧
     (r = Ok tt → ∃ ms, first_messages (msg_CommitId message) (saga_of w' id) = Some ms ∧
        sent (announced es ++ ms) (w_bus w) (w_bus w'))).
Proof.
  intros Hok Ht. unfold OnSalesOrderCreated, mbind, GoM_bind, lift in Ht.
  destruct (json_Unmarshal payload) as [message|e|m] eqn:Hj; simpl in Ht;
    [|injection Ht as <- <-; split; [done|]; by left..].
  destruct (uuid_Parse (msg_SalesOrderId message)) as [id|] eqn:Hid.
  2: { injection Ht as <- <-. split; [done|]. left. split; [done|]. intros _. exists message.
       split; [done|]. congruence. }
  unfold attempt in Ht. destruct (GetByID sagas id w) as [rg w1] eqn:Eg.
  apply (GetByID_spec view) in Eg as (Hs1 & Hb1 & _ & _ & Hg).
  assert (∀ id, log w1 id = log w id) as Hlog1 by (intros id'; unfold history; by rewrite Hs1).
  assert (sagas_ok w1) as Hok1 by (by eapply sagas_ok_same).
  destruct rg as [s|err|m]; [| |done].
  { injection Ht as <- <-. split; [done|]. left. split; [done|]. intros _. exists message.
    split; [done|]. intros id' Hid'. rewrite Hid in Hid'. injection Hid' as <-. apply Hg. }
  destruct (errors_Is err ErrAggregateNotFound) eqn:He; simpl in Ht.
  2: { injection Ht as <- <-. split; [done|]. by left. }
  specialize (Hg eq_refl). destruct (save_saga _ _ w1) as [rs w2] eqn:Es.
  rewrite started in Es. assert (log w1 id = []) as Hl1 by (by rewrite Hlog1).
  rewrite <- Hl1 in Es.
  apply save_transition in Es as [Hok2 Hc];
    [|done|rewrite Hl1, <- started; apply reachable_start|done].
  destruct Hc as [(Hall & Hb & err' & ->)|(Ho & Hlog & Hr)].
  { injection Ht as <- <-. split; [done|]. left. split; [split; congruence|]. done. }
  rewrite Hlog1, Hg in Hlog. simpl in Hlog.
  assert (∀ id', id' ≠ id → log w2 id' = log w id') as Ho' by (intros; rewrite Ho; auto).
  destruct rs as [s2|e|m].
  2,3: injection Ht as <- <-; split; [done|]; right; exists message, id; done.
  destruct (Hr s2 eq_refl) as [-> Hsent].
  change (react (Succeeded "") (msg_CommitId message) (saga_of w2 id) w2 = (r, w')) in Ht.
  pose proof (store_same_logs _ _ (react_store _ _ _ _ _ _ Ht)) as Hl3.
  split; [by apply (sagas_ok_same w2)|]. right. exists message, id. do 3 (split; [done|]).
  split; [intros id' ?; rewrite Hl3; auto|]. split; [by rewrite Hl3|].
  intros ->. apply react_ok in Ht as (ms & Hf & Hs2). exists ms.
  assert (saga_of w' id = saga_of w2 id) as -> by (unfold saga_of; by rewrite Hl3).
  split; [done|]. rewrite <- Hb1. by eapply sent_app.
Qed.

(** ** Resumption and timeout *)

(** What an in-flight saga waits for, as [drive] re-issues it. *)
Definition pending_messages (c : UUID) s : option (list wire_message) :=
  if decide (status s = SagaCompensating) then give_back_all s c else next_step s c.

Lemma drive_ok s c w w' :
  drive s c w = (Ok tt, w') →
  ∃ ms, pending_messages c s = Some ms ∧ sent ms (w_bus w) (w_bus w').
Proof.
  unfold drive, pending_messages.
  case_decide; eauto using sendCompensations_ok, sendNextAllocation_ok.
Qed.

Lemma drive_store s c w r w' : drive s c w = (r, w') → w_store w' = w_store w.
Proof.
  unfold drive. case_decide; eauto using sendCompensations_store, sendNextAllocation_store.
Qed.

(** A saga that is still running or compensating always waits for something. *)
Lemma pending_messages_nonempty id c s ms :
  reachable id s → in_flight s = true → pending_messages c s = Some ms → ms ≠ [].
Proof.
  intros [_ _ _ Hok]%reachable_inv Hf Hms ->. revert Hms. unfold pending_messages.
  unfold status_ok in Hok. case_decide as Hc.
  - rewrite Hc in Hok. destruct Hok as [(r & Hr & Hst) _].
    unfold give_back_all, RowsToCompensate. rewrite decide_False by congruence.
    intros Hm%length_mapM. rewrite length_map in Hm.
    assert (r ∈ filter (λ row, state row = rowAllocated) (rows s)) as Hin
      by (by apply list_elem_of_filter).
    destruct (filter _ _); [by apply elem_of_nil in Hin|done].
  - unfold next_step. destruct (NextPendingRow s); simpl; [|done].
    by destruct (allocation_message s c _).
Qed.

(** The sagas of a list of stream names, skipping the names that do not parse. *)
Definition stream_ids (names : list string) : list UUID :=
  omap (λ n, uuid_Parse (GoStrings.TrimPrefix n (SagaStreamName +:+ "-")%string)) names.

Lemma stream_ids_cons n names :
  stream_ids (n :: names) =
  match uuid_Parse (GoStrings.TrimPrefix n (SagaStreamName +:+ "-")%string) with
  | Some id => id :: stream_ids names
  | None => stream_ids names
  end.
Proof. done. Qed.

Definition unsettled w (ids : list UUID) : list OrderAllocationSaga :=
  filter (λ s, in_flight s = true) (saga_of w <$> ids).

Lemma inFlight_loop_spec names w r w' :
  inFlight_loop sagas names w = (r, w') →
  (∀ id, log w' id = log w id) ∧ w_bus w' = w_bus w ∧
  match r with
  | Ok l => l = unsettled w (stream_ids names) ∧ ∀ id, id ∈ stream_ids names → log w id ≠ []
  | Err _ => True
  | Panic _ => False
  end.
Proof.
  revert w r w'. induction names as [|n names IH]; intros w r w'; [|rewrite stream_ids_cons; simpl].
  { intros [= <- <-]. split; [done|]. split; [done|]. split; [done|]. by intros ? ?%elem_of_nil. }
  destruct (uuid_Parse _) as [id|] eqn:Hid.
  2: { intros (Hl & Hb & Hr)%IH. done. }
  unfold mbind, GoM_bind. destruct (GetByID sagas id w) as [rg w1] eqn:Eg.
  apply (GetByID_spec view) in Eg as (Hs1 & Hb1 & _ & _ & Hg).
  assert (∀ id, log w1 id = log w id) as Hlog1 by (intros id'; unfold history; by rewrite Hs1).
  destruct rg as [s|err|m]; [|by intros [= <- <-]|done]. destruct Hg as [Hne ->].
  destruct (inFlight_loop sagas names w1) as [rl w2] eqn:El.
  apply IH in El as (Hl2 & Hb2 & Hr).
  assert (∀ id, log w2 id = log w id) as Hlog2 by (intros; by rewrite Hl2).
  assert (w_bus w2 = w_bus w) as Hb by congruence.
  destruct rl as [l|e|m]; [|by intros [= <- <-]|done].
  intros [= <- <-]. split; [done|]. split; [done|]. destruct Hr as [-> Hall]. split.
  - unfold unsettled. rewrite fmap_cons, filter_cons. simpl.
    assert (saga_of w1 <$> stream_ids names = saga_of w <$> stream_ids names) as E.
    { apply list_fmap_ext. intros. unfold saga_of. by rewrite Hlog1. }
    rewrite E. replace (replay sagas (log w id)) with (saga_of w id) by done.
    destruct (in_flight (saga_of w id)) eqn:Hf; [by rewrite decide_True|].
    by rewrite decide_False.
  - intros id' [->|Hin]%elem_of_cons; [done|]. rewrite <- Hlog1. by apply Hall.
Qed.

(** Resuming a list of in-flight sagas sends each one's pending messages. *)
Definition resumed w (id : UUID) (ms : list wire_message) : Prop :=
  in_flight (saga_of w id) = true ∧ ms ≠ [] ∧
  ∃ c, pending_messages c (saga_of w id) = Some ms.

Lemma drive_all w ids w1 r w' :
  (∀ id, id ∈ ids → reachable id (saga_of w id) ∧ in_flight (saga_of w id) = true) →
  for_each (saga_of w <$> ids) (λ saga, commitId ← uuid_New_; drive saga commitId) w1 = (r, w') →
  w_store w' = w_store w1 ∧
  (r = Ok tt → ∃ work, work.*1 = ids ∧ sent (concat work.*2) (w_bus w1) (w_bus w') ∧
     ∀ id ms, (id, ms) ∈ work → resumed w id ms).
Proof.
  revert w1. induction ids as [|id ids IH]; intros w1 Hids; simpl.
  { intros [= <- <-]. split; [done|]. intros _. exists []. split; [done|].
    split; [apply sent_nil|]. by intros ? ? ?%elem_of_nil. }
  unfold mbind at 1, GoM_bind at 1. unfold uuid_New_ at 1, mbind at 1, GoM_bind at 1.
  set (c := uuid_New _). set (w2 := mkWorld _ _ _ _).
  destruct (drive (saga_of w id) c w2) as [rd w3] eqn:Hd.
  pose proof (drive_store _ _ _ _ _ Hd) as Hst. change (w_store w2) with (w_store w1) in Hst.
  destruct rd as [[]|e|m]; [|intros [= <- <-]; by split..].
  intros Hrest. apply IH in Hrest as [Hst' Hok]; [|intros; apply Hids; by right].
  split; [congruence|]. intros ->. destruct (Hok eq_refl) as (work & Hf & Hs & Hwork).
  apply drive_ok in Hd as (ms & Hms & Hsent).
  destruct (Hids id ltac:(left)) as [Hreach Hfl].
  exists ((id, ms) :: work). rewrite !fmap_cons, Hf. split; [done|]. split.
  - simpl. by eapply sent_app.
  - intros id' ms' [[= -> ->]|Hin]%elem_of_cons; [|by apply Hwork].
    split; [done|]. split; [by eapply pending_messages_nonempty|]. by exists c.
Qed.

Lemma unsettled_fmap w ids :
  unsettled w ids = saga_of w <$> filter (λ id, in_flight (saga_of w id) = true) ids.
Proof.
  unfold unsettled. induction ids as [|id ids IH]; [done|].
  rewrite fmap_cons, !filter_cons. case_decide; [|done]. by rewrite fmap_cons, IH.
Qed.

(** A save whose expected version is stale changes no stream. *)
Lemma save_stale old extra es id w r w' :
  es ≠ [] → reachable id (loaded_and_raised sagas old es) →
  log w id = old ++ extra → extra ≠ [] →
  save_saga sagas (loaded_and_raised sagas old es) w = (r, w') →
  (∀ id', log w' id' = log w id') ∧ ∃ e, r = Err e.
Proof.
  intros Hes Hreach Hlog Hex Hs.
  destruct (save_saga_spec old es id w r w' Hes Hreach Hs) as [Ho [(Hsame & _ & He)|(Hlen & _)]].
  - split; [|done]. intros id'. destruct (decide (id' = id)) as [->|]; auto.
  - exfalso. rewrite Hlog, length_app in Hlen. destruct extra; [done|]. simpl in Hlen. lia.
Qed.

Context `{!StreamLister St, !StreamListerLaws StreamLister0 view}.

(** [inFlight] over a listing store finds exactly the unsettled sagas. *)
Lemma inFlight_spec w r w' :
  sagas_ok w → inFlight sagas (Some ListStreams) w = (r, w') →
  (∀ id, log w' id = log w id) ∧ w_bus w' = w_bus w ∧
  match r with
  | Ok l => ∃ ids, l = saga_of w <$> ids ∧
      (∀ id, id ∈ ids → log w id ≠ [] ∧ in_flight (saga_of w id) = true) ∧
      (∀ id, log w id ≠ [] → in_flight (saga_of w id) = true → id ∈ ids)
  | Err _ => True
  | Panic _ => False
  end.
Proof.
  intros Hok. unfold inFlight, mbind, GoM_bind.
  destruct (on_store (ListStreams SagaStreamName) w) as [rs w1] eqn:E.
  apply on_store_inv in E as (s1 & El & ->).
  assert (∀ id, log (put_store s1 w) id = log w id) as Hlog1.
  { intros id. unfold history. simpl. by rewrite (list_streams _ _ _ _ El). }
  destruct rs as [names|e|m]; [|by intros [= <- <-]|by apply list_no_panic in El].
  intros Hloop. apply inFlight_loop_spec in Hloop as (Hlog2 & Hb & Hr).
  split; [intros; by rewrite Hlog2|]. split; [done|].
  destruct r as [l|e|m]; [|done..]. destruct Hr as [-> Hne].
  assert (∀ id, saga_of (put_store s1 w) id = saga_of w id) as Hsaga
    by (intros; unfold saga_of; by rewrite Hlog1).
  rewrite unsettled_fmap. eexists. split.
  { apply list_fmap_ext. intros. apply Hsaga. }
  split.
  - intros id [Hf Hin]%list_elem_of_filter. rewrite Hsaga in Hf. split; [|done].
    rewrite <- Hlog1. by apply Hne.
  - intros id Hid Hf. apply list_elem_of_filter. rewrite Hsaga. split; [done|].
    apply list_elem_of_omap. exists (stream sagas id).
    split.
    + apply (list_complete SagaStreamName _ _ _ eq_refl El).
      * change (stream sagas id) with (SagaStreamName +:+ "-" +:+ uuid_String id)%string.
        rewrite GoStrings.app_assoc. apply GoStrings.HasPrefix_app.
      * intros Hv. apply Hid. unfold history. by rewrite Hv.
    + change (stream sagas id) with (SagaStreamName +:+ "-" +:+ uuid_String id)%string.
      rewrite GoStrings.app_assoc, GoStrings.TrimPrefix_app. apply uuid_Parse_String.
Qed.

Lemma resume_cases w r w' :
  sagas_ok w → ResumeInFlight sagas (Some ListStreams) w = (r, w') →
  (∀ id, log w' id = log w id) ∧
  (r = Ok tt → ∃ work, sent (concat work.*2) (w_bus w) (w_bus w') ∧
     (∀ id ms, (id, ms) ∈ work → resumed w id ms) ∧
     ∀ id, log w id ≠ [] → in_flight (saga_of w id) = true → id ∈ work.*1).
Proof.
  intros Hok. unfold ResumeInFlight. unfold mbind at 1, GoM_bind at 1.
  destruct (inFlight _ _ w) as [rl w1] eqn:El.
  apply inFlight_spec in El as (Hlog1 & Hb & Hr); [|done].
  destruct rl as [l|e|m]; [|by intros [= <- <-]|done].
  destruct Hr as (ids & -> & Hids & Hall). intros Hd.
  apply drive_all in Hd as [Hst Hwork].
  2: { intros id Hin. destruct (Hids id Hin). split; [by apply Hok|done]. }
  split; [intros; by rewrite (store_same_logs _ _ Hst)|].
  intros ->. destruct (Hwork eq_refl) as (work & Hf & Hs & Hw).
  exists work. rewrite <- Hb. split; [done|]. split; [done|]. by rewrite Hf.
Qed.

(** ** The step timeout *)

(** A saga loaded earlier, when its log was a prefix of today's. *)
Definition loaded_from w (old : list WarehouseEvent) id : Prop :=
  reachable id (replay sagas old) ∧ ∃ extra, log w id = old ++ extra.

(** What one step may do to the sagas: logs are only appended to, and a saga
    only moves by recording observations. *)
Definition grows w w' : Prop :=
  sagas_ok w' ∧ ∀ id, (∃ es, log w' id = log w id ++ es) ∧
    (log w id ≠ [] → later (saga_of w id) (saga_of w' id)).

Lemma grows_same w w' : sagas_ok w → (∀ id, log w' id = log w id) → grows w w'.
Proof.
  intros Hok E. split; [by eapply sagas_ok_same|]. intros id. unfold saga_of. rewrite E. split.
  - exists []. by rewrite app_nil_r.
  - intros _. apply later_refl.
Qed.

Lemma grows_trans w w' w'' : grows w w' → grows w' w'' → grows w w''.
Proof.
  intros [_ H1] [Hok H2]. split; [done|]. intros id.
  destruct (H1 id) as [[es E1] L1], (H2 id) as [[es' E2] L2]. split.
  - exists (es ++ es'). by rewrite E2, E1, (assoc_L (++)).
  - intros Hne. eapply later_trans; [by apply L1|]. apply L2. rewrite E1.
    by intros [? _]%app_eq_nil.
Qed.

Lemma transitioned_grows id o c w r w' :
  sagas_ok w → sagas_ok w' → transitioned id o c w r w' → grows w w'.
Proof.
  intros Hok0 Hok (Hne & He & Ho & Hl & _). split; [done|]. intros id'.
  destruct (decide (id' = id)) as [->|Hne'].
  - split; [by eexists|]. intros _. unfold saga_of at 2. rewrite Hl.
    rewrite <- (clear_loaded_and_raised sagas _ _ saga_blank).
    apply later_saved, (later_record _ c o _ true _ (later_refl _)).
    rewrite record_loaded by auto. by rewrite He.
  - unfold saga_of. rewrite Ho by done. split; [exists []; by rewrite app_nil_r|].
    intros _. apply later_refl.
Qed.

Lemma lastActivityOf_streams s w r w' :
  lastActivityOf s w = (r, w') → same_streams view w w' ∧ w_bus w' = w_bus w.
Proof.
  unfold lastActivityOf. go_run. destruct (uuid_MustParse _) as [id|e|m];
    [|by intros [= _ <-]..].
  destruct (on_store _ w) as [rs w1] eqn:E. apply on_store_inv in E as (s1 & Er & ->).
  assert (same_streams view w (put_store s1 w)) as Hs.
  { destruct rs as [l|e|m]; [apply read_ok in Er|apply read_err in Er|by apply read_no_panic in Er];
      by destruct Er as [_ Er]. }
  destruct rs as [l|e|m]; [destruct (last l)|..]; by intros [= _ <-].
Qed.

Lemma lastActivityOf_store s w r w' :
  lastActivityOf s w = (r, w') → (∀ id, log w' id = log w id) ∧ w_bus w' = w_bus w.
Proof. intros [Hs Hb]%lastActivityOf_streams. split; [|done]. intros. unfold history. by rewrite Hs. Qed.

(** The last record of a saga's stream is older than the cutoff. *)
Definition idle w id (cutoff : Time) : Prop :=
  ∃ record, last (view (w_store w) (stream sagas id)) = Some record ∧
    OccurredAt record < cutoff.

Lemma lastActivityOf_spec id s w t w' :
  salesOrderId s = uuid_String id → lastActivityOf s w = (Ok t, w') →
  ∃ record, last (view (w_store w) (stream sagas id)) = Some record ∧ t = OccurredAt record.
Proof.
  unfold lastActivityOf. intros ->. rewrite uuid_MustParse_String. go_run.
  destruct (on_store _ w) as [rs w1] eqn:E. apply on_store_inv in E as (s1 & Er & ->).
  destruct rs as [l|e|m]; [|done..]. apply read_ok in Er as [-> _].
  change (SagaStreamName +:+ "-" +:+ uuid_String id)%string with (stream sagas id).
  destruct (last _) as [record|]; [|done]. intros [= <- _]. by exists record.
Qed.

(** The step a running saga waits for can fail. *)
Lemma running_enabled id s re :
  reachable id s → status s = SagaRunning →
  enabled (NotFound (row_BeerId (default noRow (NextPendingRow s))) re) s = true.
Proof.
  intros [_ _ _ Hok]%reachable_inv Hs. unfold status_ok in Hok. rewrite Hs in Hok.
  destruct Hok as [_ Hp]. apply first_pending_Some in Hp as [row Hrow].
  unfold enabled, NextPendingRow. rewrite decide_True, Hrow by done. simpl.
  rewrite bool_decide_eq_true_2 by done. apply some_row_true.
  apply first_pending_elem in Hrow as (row' & Hin & <- & Hst). by exists row'.
Qed.

(** The tail of [timeout_one], for a saga that was loaded as [replay old]. *)
Lemma timeout_step id old extra re c w r w' :
  let s := replay sagas old in
  let o := NotFound (row_BeerId (default noRow (NextPendingRow s))) re in
  sagas_ok w → reachable id s → log w id = old ++ extra → old ≠ [] →
  (recorded ← lift (record c o s); saga ← save_saga sagas (snd recorded);
   if decide (status saga = SagaRejected) then publishOutcome saga c
   else sendCompensations saga c) w = (r, w') →
  grows w w' ∧
  (status s = SagaRunning →
   extra = [] ∧ transitioned id o c w r w'
   ∨ (∀ id', log w' id' = log w id') ∧ ∃ e, r = Err e).
Proof.
  intros s o Hok Hreach Hlog Hne Hrun.
  pose proof (reachable_inv _ _ Hreach) as [Hord _ _ _].
  unfold mbind at 1, GoM_bind at 1, lift in Hrun.
  rewrite (record_effect id) in Hrun by done.
  destruct (enabled o s) eqn:He; simpl in Hrun.
  - change (commit_and_react o c (loaded_and_raised sagas old (raised_events id c o s)) w
            = (r, w')) in Hrun.
    assert (reachable id (loaded_and_raised sagas old (raised_events id c o s))) as Hreach'.
    { eapply (reachable_record id c o s true); [done|]. by rewrite (record_effect id), He. }
    destruct (decide (extra = [])) as [->|Hex].
    + rewrite app_nil_r in Hlog. subst s. rewrite <- Hlog in *.
      destruct (commit_and_react_spec id o c w r w' Hok Hne He Hrun)
        as [Hok' [(Hsame & Hb & Herr)|Ht]].
      * split; [by apply grows_same|]. by right.
      * split; [by apply (transitioned_grows _ _ _ _ _ _ Hok Hok' Ht)|]. by left.
    + unfold commit_and_react, mbind, GoM_bind in Hrun.
      destruct (save_saga _ _ w) as [rs w2] eqn:Es.
      apply (save_stale old extra _ id) in Es as [Hsame [e ->]]; [|done..].
      injection Hrun as <- <-. split; [by apply grows_same|]. eauto.
  - split.
    + unfold save_saga, uuid_New_, Save in Hrun.
      assert (UncommittedEvents s = []) as Hu
        by exact (uncommitted_raised sagas old [] saga_blank).
      rewrite Hu in Hrun. simpl in Hrun. unfold mbind, GoM_bind, mret, GoM_ret in Hrun.
      simpl in Hrun. apply grows_same; [done|]. apply store_same_logs.
      case_decide; [rewrite publishOutcome_send in Hrun; by apply send_wire_store in Hrun
                   |by apply sendCompensations_store in Hrun].
    + intros Hs. subst o. by rewrite (running_enabled id s re Hreach Hs) in He.
Qed.

(** What the sweep records of a running saga: that the very step it waits for
    failed. *)
Definition step_timed_out s : observation :=
  NotFound (row_BeerId (default noRow (NextPendingRow s))) "allocation step timed out".

(** One iteration of the timeout, for a saga loaded at any earlier time. *)
Lemma timeout_one_cases cutoff id old extra w r w' :
  let s := replay sagas old in
  sagas_ok w → reachable id s → log w id = old ++ extra → old ≠ [] →
  timeout_one sagas cutoff s w = (r, w') →
  grows w w' ∧
  (in_flight s = true →
   extra = [] ∧ idle w id cutoff ∧ status s = SagaRunning ∧
     (∃ c, transitioned id (step_timed_out s) c w r w')
   ∨ (∀ id', log w' id' = log w id') ∧
     (r = Ok tt → w_bus w' = w_bus w ∧ ¬ idle w id cutoff
      ∨ idle w id cutoff ∧ status s = SagaCompensating ∧
        ∃ c ms, give_back_all s c = Some ms ∧ sent ms (w_bus w) (w_bus w'))).
Proof.
  intros s Hok Hreach Hlog Hne. unfold timeout_one. unfold mbind at 1, GoM_bind at 1.
  pose proof (reachable_inv _ _ Hreach) as [Hord _ _ _].
  destruct (lastActivityOf s w) as [rt w1] eqn:El.
  pose proof (lastActivityOf_store _ _ _ _ El) as [Hlog1 Hb1].
  pose proof (grows_same _ _ Hok Hlog1) as Hg1. destruct Hg1 as [Hok1 Hpre1].
  destruct rt as [t|e|m]; [|by intros [= <- <-]; split; [|right]..].
  apply (lastActivityOf_spec id) in El as (record & Hlast & ->); [|done].
  unfold Before. destruct (Z.ltb_spec (OccurredAt record) cutoff) as [Hlt|Hge]; simpl.
  2: { intros [= <- <-]. split; [done|]. intros _. right. split; [done|]. left. split; [done|].
       intros (record' & Hr & Hlt'). rewrite Hlast in Hr. injection Hr as <-. lia. }
  assert (idle w id cutoff) as Hidle by (by exists record).
  case_decide as Hcomp; unfold uuid_New_ at 1; unfold mbind at 1, GoM_bind at 1;
    set (w2 := mkWorld _ _ _ _); intros Hrun.
  - pose proof (store_same_logs _ _ (sendCompensations_store _ _ _ _ _ Hrun)) as Hl3.
    assert (∀ id', log w' id' = log w id') as Hall by (intros; by rewrite Hl3, <- Hlog1).
    split; [by apply grows_same|]. intros _. right. split; [done|]. intros ->. right.
    split; [done|]. split; [done|].
    apply sendCompensations_ok in Hrun as (ms & Hms & Hs). rewrite <- Hb1. eauto.
  - assert (∀ id, log w2 id = log w id) as Hlog2 by exact Hlog1.
    apply (timeout_step id old extra _ _ w2) in Hrun as [Hg Hcase];
      [|done|done|by rewrite Hlog2|done].
    split; [by eapply grows_trans|]. intros Hf.
    assert (status s = SagaRunning) as Hrunning.
    { unfold in_flight in Hf. apply orb_true_iff in Hf as [Hf|Hf];
        apply bool_decide_eq_true in Hf; done. }
    destruct (Hcase Hrunning) as [[Hex Ht]|[Hsame [e ->]]].
    + left. do 3 (split; [done|]). eexists. unfold transitioned, saga_of in *.
      setoid_rewrite Hlog2 in Ht. rewrite <- Hb1. exact Ht.
    + right. split; [|done]. intros id'. by rewrite Hsame.
Qed.

Lemma timeout_one_grows cutoff w id w1 r w' :
  sagas_ok w → log w id ≠ [] → grows w w1 →
  timeout_one sagas cutoff (saga_of w id) w1 = (r, w') → grows w1 w'.
Proof.
  intros Hok Hne [Hok1 Hlogs] Ht. destruct (Hlogs id) as [[extra Hlog] _].
  eapply (timeout_one_cases cutoff id _ extra) in Ht as [Hg _]; [done|done|by apply Hok|done..].
Qed.

Lemma timeout_all cutoff w ids w1 r w' :
  sagas_ok w → (∀ id, id ∈ ids → log w id ≠ []) → grows w w1 →
  for_each (saga_of w <$> ids) (timeout_one sagas cutoff) w1 = (r, w') → grows w1 w'.
Proof.
  intros Hok. revert w1. induction ids as [|id ids IH]; intros w1 Hne Hg; simpl.
  { intros [= _ <-]. by apply grows_same; destruct Hg. }
  unfold mbind, GoM_bind. destruct (timeout_one sagas cutoff (saga_of w id) w1) as [r1 w2] eqn:E.
  apply timeout_one_grows in E as Hg2; [|done|apply Hne; left|done].
  destruct r1 as [[]|e|m]; [|by intros [= _ <-]..].
  intros Hr. eapply grows_trans; [exact Hg2|]. eapply IH; [| |exact Hr].
  - intros id' Hin. apply Hne. by right.
  - by eapply grows_trans.
Qed.

(** *** The whole sweep *)
Abbreviation records w id := (view (w_store w) (stream sagas id)).

Lemma inFlight_streams w r w' :
  inFlight sagas (Some ListStreams) w = (r, w') → same_streams view w w'.
Proof.
  unfold inFlight, mbind, GoM_bind.
  destruct (on_store (ListStreams SagaStreamName) w) as [rs w1] eqn:E.
  apply on_store_inv in E as (s1 & El & ->).
  assert (same_streams view w (put_store s1 w)) as Hs by exact (list_streams _ _ _ _ El).
  destruct rs as [names|e|m]; [|by intros [= _ <-]..].
  enough (∀ names w1 r w', inFlight_loop sagas names w1 = (r, w') → same_streams view w1 w') as H.
  { intros Hl%H sid. by rewrite Hl, Hs. }
  clear -EventStoreLaws0. induction names as [|n names IH]; intros w1 r w'; simpl.
  { by intros [= _ <-]. }
  destruct (uuid_Parse _) as [id|]; [|apply IH].
  unfold mbind, GoM_bind. destruct (GetByID sagas id w1) as [rg w2] eqn:Eg.
  apply (GetByID_spec view) in Eg as (Hs & _).
  destruct rg as [s|e|m]; [|by intros [= _ <-]..].
  destruct (inFlight_loop sagas names w2) as [rl w3] eqn:El. apply IH in El.
  destruct rl; intros [= _ <-] sid; by rewrite El, Hs.
Qed.

Lemma timeout_one_extends cutoff s w r w' :
  timeout_one sagas cutoff s w = (r, w') → extends view w w'.
Proof.
  unfold timeout_one. unfold mbind at 1, GoM_bind at 1.
  destruct (lastActivityOf s w) as [rt w1] eqn:El.
  apply lastActivityOf_streams in El as [Hs1 _]. apply extends_same in Hs1.
  destruct rt as [t|e|m]; [|by intros [= _ <-]..].
  destruct (negb _); [by intros [= _ <-]|].
  assert (∀ w2 w3, w_store w3 = w_store w2 → extends view w2 w3) as Hst.
  { intros w2 w3 E. apply extends_same. intros sid. by rewrite E. }
  case_decide; unfold uuid_New_ at 1; unfold mbind at 1, GoM_bind at 1;
    set (w2 := mkWorld _ _ _ _); intros Hrun; apply (extends_trans _ _ w1); try done;
    apply (extends_trans _ _ w2); try by apply Hst.
  { apply Hst. by eapply sendCompensations_store. }
  unfold mbind at 1, GoM_bind at 1, lift in Hrun.
  destruct (RecordQuantityNotFound _ _ _ _) as [rec|e|m]; [|by injection Hrun as _ <-; apply Hst..].
  unfold mbind at 1, GoM_bind at 1 in Hrun. destruct (save_saga _ _ w2) as [rs w3] eqn:Es.
  apply (extends_trans _ _ w3).
  { unfold save_saga, uuid_New_ in Es. go_run. by apply (Save_extends view) in Es. }
  destruct rs as [s'|e|m]; [|by injection Hrun as _ <-; apply Hst..]. apply Hst.
  revert Hrun. case_decide; [rewrite publishOutcome_send; apply send_wire_store
                            |apply sendCompensations_store].
Qed.

Definition timed_out cutoff w w' id : Prop :=
  log w id ≠ [] ∧ status (saga_of w id) = SagaRunning ∧ idle w id cutoff ∧
  ∃ c row, NextPendingRow (saga_of w id) = Some row ∧
    log w' id = log w id
      ++ raised_events id c (NotFound (row_BeerId row) "allocation step timed out") (saga_of w id).

(** What the sweep did about an idle saga, and the messages it sent for it. *)
Definition swept w w' id (ms : list wire_message) : Prop :=
  status (saga_of w id) = SagaCompensating ∧ log w' id = log w id ∧
    (∃ c, give_back_all (saga_of w id) c = Some ms)
  ∨ status (saga_of w id) = SagaRunning ∧
    ∃ c row answer, NextPendingRow (saga_of w id) = Some row ∧
      let o := NotFound (row_BeerId row) "allocation step timed out" in
      let es := raised_events id c o (saga_of w id) in
      log w' id = log w id ++ es ∧ reaction o c (saga_of w' id) = Some answer ∧
      ms = announced es ++ answer.

(** In the middle of a sweep that began in [w]. *)
Definition sweeping cutoff w w' : Prop :=
  grows w w' ∧ ∀ id, records w' id = records w id ∨ timed_out cutoff w w' id.

Lemma timed_out_moved cutoff w w' id : timed_out cutoff w w' id → log w' id ≠ log w id.
Proof. intros (_ & _ & _ & c & row & _ & ->) H. apply (f_equal length) in H.
  rewrite length_app in H. simpl in H. lia. Qed.

Lemma records_log w w' id : records w' id = records w id → log w' id = log w id.
Proof. unfold history. by intros ->. Qed.

Lemma sweeping_moved cutoff w w' id :
  sweeping cutoff w w' → log w' id = log w id ∨ log w' id ≠ log w id.
Proof. intros [_ Hs]. destruct (Hs id); eauto using records_log, timed_out_moved. Qed.

(** The step a running saga waits for. *)
Lemma waiting_row w id :
  sagas_ok w → log w id ≠ [] → status (saga_of w id) = SagaRunning →
  ∃ row, NextPendingRow (saga_of w id) = Some row ∧
    step_timed_out (saga_of w id) = NotFound (row_BeerId row) "allocation step timed out".
Proof.
  intros Hok Hne Hs. pose proof (reachable_inv _ _ (Hok id Hne)) as [_ _ _ Hst].
  unfold status_ok in Hst. rewrite Hs in Hst.
  destruct Hst as [_ Hp]. apply first_pending_Some in Hp as [row Hrow].
  exists row. unfold step_timed_out, NextPendingRow. by rewrite decide_True, Hrow.
Qed.

(** One saga of the list is visited; the others stay as they are. *)
Lemma sweeping_step cutoff w w1 w2 id :
  sweeping cutoff w w1 → grows w1 w2 → extends view w1 w2 →
  (∀ id', id' ≠ id → log w2 id' = log w1 id') →
  log w2 id = log w1 id ∨ timed_out cutoff w w2 id →
  sweeping cutoff w w2.
Proof.
  intros [Hg Hs] Hg2 Hx Ho Hid. split; [by eapply grows_trans|]. intros id'.
  assert (log w2 id' = log w1 id' → records w2 id' = records w id' ∨ timed_out cutoff w w2 id')
    as Hkeep.
  { intros El. destruct (Hs id') as [E|(H1 & H2 & H3 & H4)].
    - left. rewrite <- E. by apply (extends_records view sagas).
    - right. unfold timed_out. by rewrite El. }
  destruct (decide (id' = id)) as [->|Hne]; [|by apply Hkeep, Ho].
  destruct Hid; [by apply Hkeep|by right].
Qed.

Lemma sweep_one cutoff w w1 id r w2 :
  sagas_ok w → log w id ≠ [] → in_flight (saga_of w id) = true → sweeping cutoff w w1 →
  timeout_one sagas cutoff (saga_of w id) w1 = (r, w2) →
  sweeping cutoff w w2 ∧
  (∀ id', log w1 id' ≠ log w id' → log w2 id' = log w1 id') ∧
  (r = Ok tt →
     w_bus w2 = w_bus w1 ∧ (∀ id', log w2 id' = log w1 id') ∧
       (idle w id cutoff → log w1 id ≠ log w id)
     ∨ idle w id cutoff ∧ log w1 id = log w id ∧ (∀ id', id' ≠ id → log w2 id' = log w1 id') ∧
       ∃ ms, swept w w2 id ms ∧ sent ms (w_bus w1) (w_bus w2)).
Proof.
  intros Hok Hne Hf Hsw Ht. pose proof Hsw as [[Hok1 Hlogs] Hs].
  pose proof (timeout_one_extends _ _ _ _ _ Ht) as Hx.
  destruct (Hlogs id) as [[extra Hlog] _].
  eapply (timeout_one_cases cutoff id _ extra) in Ht as [Hg2 Hc]; [|done|by apply Hok|done..].
  assert (records w1 id = records w id → idle w1 id cutoff ↔ idle w id cutoff) as Hidle
    by (intros E; unfold idle; by rewrite E).
  destruct (Hc Hf) as [(-> & Hi & Hrun & c & Htr)|(Hsame & Hr)]; clear Hc.
  - rewrite app_nil_r in Hlog. destruct Htr as (_ & _ & Ho & Hl & Hr).
    assert (saga_of w1 id = saga_of w id) as Es by (unfold saga_of; by rewrite Hlog).
    change (replay sagas (log w id)) with (saga_of w id) in *. rewrite Es, Hlog in Hl.
    destruct (waiting_row w id Hok Hne Hrun) as (row & Hrow & Hstep). rewrite Hstep, ?Es in *.
    destruct (Hs id) as [E|Hm]; [|by destruct (timed_out_moved _ _ _ _ Hm)].
    apply (Hidle E) in Hi. split; [|split].
    + apply (sweeping_step _ _ w1 _ id); [done..|]. right. do 3 (split; [done|]). eauto.
    + intros id' Hm. apply Ho. by intros ->.
    + intros ->. right. do 3 (split; [done|]).
      destruct (Hr eq_refl) as (answer & Ha & Hsent). eexists.
      split; [right; split; [done|]; by exists c, row, answer|done].
  - split; [apply (sweeping_step _ _ w1 _ id); auto|]. split; [by intros|]. intros ->.
    destruct (Hs id) as [E|Hm].
    + destruct (Hr eq_refl) as [[Hb Hi]|(Hi & Hst & c & ms & Hms & Hsent)].
      * left. do 2 (split; [done|]). by intros ?%(Hidle E).
      * right. split; [by apply Hidle|]. split; [by apply records_log|]. split; [auto|]. exists ms. split; [|done].
        left. split; [done|]. split; [by rewrite Hsame; apply records_log|]. by exists c.
    + left. pose proof (timed_out_moved _ _ _ _ Hm) as Hmv. destruct Hm as (_ & Hrun & _).
      change (replay sagas (log w id)) with (saga_of w id) in Hr.
      destruct (Hr eq_refl) as [[Hb _]|(_ & Hst & _)]; [by split|congruence].
Qed.

Lemma swept_later cutoff w w1 w2 id ms :
  sweeping cutoff w w2 → (log w1 id ≠ log w id → log w2 id = log w1 id) →
  swept w w1 id ms → swept w w2 id ms.
Proof.
  intros [_ Hs] Hkeep [(Hst & _ & Hms)|(Hst & c & row & answer & Hrow & Hl & Ha & ->)].
  - left. split; [done|]. split; [|done]. destruct (Hs id) as [?|(_ & Hrun & _)];
      [by apply records_log|congruence].
  - right. split; [done|]. exists c, row, answer. split; [done|]. simpl.
    assert (log w2 id = log w1 id) as E.
    { apply Hkeep. rewrite Hl. intros E%(f_equal length). rewrite length_app in E. simpl in E. lia. }
    unfold saga_of in *. by rewrite E.
Qed.

(** What a sweep that goes on from [w1] sends, saga by saga. A store may list one
    stream under two spellings of its identifier; a running saga fails once even so. *)
Record work_of cutoff w (ids : list UUID) w1 w' (work : list (UUID * list wire_message)) : Prop := {
  work_sent : sent (concat work.*2) (w_bus w1) (w_bus w');
  work_done : ∀ id ms, (id, ms) ∈ work →
    id ∈ ids ∧ idle w id cutoff ∧ log w1 id = log w id ∧ swept w w' id ms;
  work_all : ∀ id, id ∈ ids → idle w id cutoff → log w1 id = log w id → id ∈ work.*1;
  work_once : NoDup (filter (λ id, status (saga_of w id) = SagaRunning) work.*1);
}.

Lemma work_of_nil cutoff w w1 : work_of cutoff w [] w1 w1 [].
Proof.
  split; [apply sent_nil|by intros ? ? ?%elem_of_nil|by intros ? ?%elem_of_nil|apply NoDup_nil_2].
Qed.

Lemma work_of_skip cutoff w id ids w1 w2 w' work :
  w_bus w2 = w_bus w1 → (∀ id', log w2 id' = log w1 id') →
  (idle w id cutoff → log w1 id ≠ log w id) →
  work_of cutoff w ids w2 w' work → work_of cutoff w (id :: ids) w1 w' work.
Proof.
  intros Hb Hl Hi [Hs Hd Ha Ho]. split; [by rewrite <- Hb| | |done].
  - intros id' ms (? & ? & El & ?)%Hd. rewrite Hl in El. split; [by right|done].
  - intros id' [->|Hin]%elem_of_cons Hidle El; [by destruct (Hi Hidle)|]. apply Ha; [done..|].
    by rewrite Hl.
Qed.

Lemma work_of_cons cutoff w id ids w1 w2 w' work ms :
  idle w id cutoff → log w1 id = log w id → (∀ id', id' ≠ id → log w2 id' = log w1 id') →
  swept w w2 id ms → swept w w' id ms → sent ms (w_bus w1) (w_bus w2) →
  work_of cutoff w ids w2 w' work → work_of cutoff w (id :: ids) w1 w' ((id, ms) :: work).
Proof.
  intros Hi Hl Ho Hsw2 Hsw Hsent [Hs Hd Ha Hn].
  assert (∀ id', log w2 id' = log w id' → log w1 id' = log w id') as Hback.
  { intros id' E2. destruct (decide (id' = id)) as [->|Hne]; [done|]. by rewrite <- Ho. }
  split.
  - simpl. by eapply sent_app.
  - intros id' ms' [[= -> ->]|(? & ? & El & ?)%Hd]%elem_of_cons; [by split; [left|]|].
    split; [by right|]. auto.
  - intros id' [->|Hin]%elem_of_cons Hidle El; [by left|].
    destruct (decide (id' = id)) as [->|Hne]; [by left|]. right. apply Ha; [done..|].
    by rewrite Ho.
  - rewrite fmap_cons, filter_cons. simpl. case_decide as Hrun; [|done].
    apply NoDup_cons. split; [|done].
    intros [_ ((id' & ms') & -> & (_ & _ & El & _)%Hd)%list_elem_of_fmap]%list_elem_of_filter.
    simpl in *. destruct Hsw2 as [(Hst & _)|(_ & c & row & answer & _ & E2 & _)]; [congruence|].
    rewrite El in E2. apply (f_equal length) in E2. rewrite length_app in E2. simpl in E2. lia.
Qed.

(** The loop of the sweep. *)
Lemma sweep_all cutoff w ids w1 r w' :
  sagas_ok w → (∀ id, id ∈ ids → log w id ≠ [] ∧ in_flight (saga_of w id) = true) →
  sweeping cutoff w w1 →
  for_each (saga_of w <$> ids) (timeout_one sagas cutoff) w1 = (r, w') →
  sweeping cutoff w w' ∧ (∀ id, log w1 id ≠ log w id → log w' id = log w1 id) ∧
  (r = Ok tt → ∃ work, work_of cutoff w ids w1 w' work).
Proof.
  intros Hok. revert w1. induction ids as [|id ids IH]; intros w1 Hids Hsw; simpl.
  { intros [= <- <-]. do 2 (split; [done|]). intros _. exists []. apply work_of_nil. }
  destruct (Hids id ltac:(left)) as [Hne Hf].
  unfold mbind, GoM_bind. destruct (timeout_one sagas cutoff (saga_of w id) w1) as [r1 w2] eqn:E.
  apply sweep_one in E as (Hsw2 & Hkeep & Hone); [|done..].
  destruct r1 as [[]|e|m]; [|by intros [= <- <-]..].
  intros Hrest. apply IH in Hrest as (Hsw' & Hkeep' & Hwork); [|intros; apply Hids; by right|done].
  split; [done|]. split.
  { intros id' Hm. pose proof (Hkeep id' Hm) as E. rewrite Hkeep'; [done|]. by rewrite E. }
  intros ->. destruct (Hwork eq_refl) as (work & Hw).
  destruct (Hone eq_refl) as [(Hb & Hl & Hi)|(Hi & Hl & Ho & ms & Hms & Hsent)].
  - exists work. by eapply work_of_skip.
  - exists ((id, ms) :: work). apply (work_of_cons _ _ _ _ w1 w2); try done.
    apply (swept_later cutoff w w2); auto.
Qed.

(** The sweep, whole: [inFlight] and the loop. *)
Lemma TimeoutInFlight_cases cutoff w r w' :
  sagas_ok w → TimeoutInFlight sagas (Some ListStreams) cutoff w = (r, w') →
  sweeping cutoff w w' ∧
  (r = Ok tt → ∃ ids work,
     (∀ id, id ∈ ids ↔ log w id ≠ [] ∧ in_flight (saga_of w id) = true) ∧
     work_of cutoff w ids w w' work).
Proof.
  intros Hok. unfold TimeoutInFlight. unfold mbind at 1, GoM_bind at 1.
  destruct (inFlight _ _ w) as [rl w1] eqn:El.
  pose proof (inFlight_streams _ _ _ El) as Hs1.
  apply inFlight_spec in El as (Hlog1 & Hb & Hl); [|done].
  assert (sweeping cutoff w w1) as Hsw by (split; [by apply grows_same|by left]).
  destruct rl as [l|e|m]; [|by intros [= <- <-]..].
  destruct Hl as (ids & -> & Hids & Hall). intros (Hsw' & _ & Hwork)%sweep_all; [|done..].
  split; [done|]. intros ->. destruct (Hwork eq_refl) as (work & [Hs Hd Ha Hn]).
  exists ids, work. split; [naive_solver|]. split; [by rewrite <- Hb| | |done].
  - intros id ms (? & ? & _ & ?)%Hd. done.
  - intros id Hin Hidle _. by apply Ha.
Qed.

(** The process around the saga: any handler on any message, a resumption, a
    timeout sweep, or anything that leaves the saga streams alone, in any
    order. *)
Inductive runner_step : World St B → World St B → Prop :=
| step_trigger payload w r w' :
    OnSalesOrderCreated sagas payload w = (r, w') → runner_step w w'
| step_event_ e w r w' : on_event sagas e w = (r, w') → runner_step w w'
| step_resume w r w' :
    ResumeInFlight sagas (Some ListStreams) w = (r, w') → runner_step w w'
| step_timeout cutoff w r w' :
    TimeoutInFlight sagas (Some ListStreams) cutoff w = (r, w') → runner_step w w'
| step_other w w' : (∀ id, log w' id = log w id) → runner_step w w'.

Lemma on_event_cases e w r w' :
  sagas_ok w → on_event sagas e w = (r, w') →
  sagas_ok w' ∧
  match observed e with
  | None => r = Ok tt ∧ w' = w
  | Some (oid, c, o) =>
      ignored w w' ∧ (∀ m, r ≠ Panic m) ∧
      (r = Ok tt → ∀ id, uuid_Parse oid = Some id → log w id ≠ [] →
         enabled o (saga_of w id) = false)
      ∨ ∃ id, uuid_Parse oid = Some id ∧ transitioned id o c w r w'
  end.
Proof.
  intros Hok. rewrite on_event_observe. destruct (observed e) as [[[oid c] o]|].
  - by apply observe_cases.
  - by intros [= <- <-].
Qed.

Lemma runner_step_grows w w' : sagas_ok w → runner_step w w' → grows w w'.
Proof.
  intros Hok Hs. destruct Hs as [payload w r w' Ht|e w r w' He|w r w' Hr|cutoff w r w' Ht|w w' Ho].
  - apply trigger_cases in Ht as [Hok' [[[Hi _] _]|(m & id & _ & _ & Hnil & Ho & Hl & _)]];
      [by apply grows_same| |done].
    split; [done|]. intros id'. destruct (decide (id' = id)) as [->|Hne].
    + rewrite Hnil. split; [by eexists|done].
    + unfold saga_of. rewrite Ho by done. split; [exists []; by rewrite app_nil_r|].
      intros _. apply later_refl.
  - apply on_event_cases in He as [Hok' Hc]; [|done].
    destruct (observed e) as [[[oid c] o]|]; [|destruct Hc as [_ ->]; by apply grows_same].
    destruct Hc as [[[Hi _] _]|(id & _ & Ht)]; [by apply grows_same|].
    by eapply transitioned_grows.
  - apply resume_cases in Hr as [Hl _]; [|done]. by apply grows_same.
  - unfold TimeoutInFlight in Ht. unfold mbind at 1, GoM_bind at 1 in Ht.
    destruct (inFlight _ _ w) as [rl w1] eqn:El.
    apply inFlight_spec in El as (Hlog1 & _ & Hl); [|done].
    pose proof (grows_same w w1 Hok Hlog1) as Hg1.
    destruct rl as [l|e|m]; [|by injection Ht as _ <-..].
    destruct Hl as (ids & -> & Hids & _).
    eapply grows_trans; [exact Hg1|].
    eapply timeout_all; [done| |exact Hg1|exact Ht]. intros id Hin. by apply Hids.
  - by apply grows_same.
Qed.

Lemma runner_steps_grow w w' : sagas_ok w → rtc runner_step w w' → grows w w'.
Proof.
  intros Hok. induction 1 as [w|w w1 w2 H1 _ IH]; [by apply grows_same|].
  apply runner_step_grows in H1; [|done]. eapply grows_trans; [done|]. apply IH, H1.
Qed.

(** ** Theorems *)

(** C17 The runner's invariant: whatever messages arrive, in whatever order and
    however often, with resumptions and timeout sweeps in between and errors
    anywhere, every saga in the store has come about through the aggregate's
    operations under its own order's identifier (so the theorems on reachable
    sagas apply to it), and no saga's history is ever rewritten. *)
Theorem runner_invariant w0 w :
  sagas_ok w0 → rtc runner_step w0 w →
  ∀ id, (log w id ≠ [] → reachable id (saga_of w id) ∧ status (saga_of w id) ≠ SagaUnset) ∧
    ∃ es, log w id = log w0 id ++ es.
Proof.
  intros Hok Hsteps id. destruct (runner_steps_grow w0 w Hok Hsteps) as [Hok' Hg].
  split; [|apply Hg]. intros Hne. split; [by apply Hok'|].
  pose proof (reachable_inv _ _ (Hok' id Hne)) as [_ _ _ Hs].
  unfold status_ok in Hs. by destruct (status _).
Qed.

(** C13 A delivered warehouse event, whole. Either nothing happens: no stream
    moves and nothing is sent, and if the handler returned no error the saga was
    not waiting for that fact. Or the saga of the event's order records exactly
    the events of the transition, no other saga moves, and if the handler
    returned no error the wire carries those events (unless the relay publishes
    them) followed by the reaction:
    the next allocation, the compensations, the outcome, or nothing. *)
Theorem step_event_contract e w r w' :
  sagas_ok w → on_event sagas e w = (r, w') →
  match observed e with
  | None => r = Ok tt ∧ w' = w
  | Some (oid, c, o) =>
      ignored w w' ∧ (r = Ok tt → ∀ id, uuid_Parse oid = Some id → log w id ≠ [] →
         record c o (saga_of w id) = Ok (false, saga_of w id))
      ∨ ∃ id, uuid_Parse oid = Some id ∧
        record c o (saga_of w id)
        = Ok (true, RaiseAll (raised_events id c o (saga_of w id)) (saga_of w id)) ∧
        (∀ id', id' ≠ id → log w' id' = log w id') ∧
        log w' id = log w id ++ raised_events id c o (saga_of w id) ∧
        (r = Ok tt → ∃ ms, reaction o c (saga_of w' id) = Some ms ∧
           sent (announced (raised_events id c o (saga_of w id)) ++ ms)
             (w_bus w) (w_bus w'))
  end.
Proof.
  intros Hok He. apply on_event_cases in He as [Hok' Hc]; [|done].
  destruct (observed e) as [[[oid c] o]|]; [|done].
  destruct Hc as [(Hi & _ & Hr)|(id & Hid & Hne & He & Ho & Hl & Hs)].
  - left. split; [done|]. intros Hrt id Hid Hne. rewrite record_loaded by auto.
    by rewrite (Hr Hrt id Hid Hne).
  - right. exists id. split; [done|]. split; [|done]. rewrite record_loaded by auto. by rewrite He.
Qed.

(** C21 The trigger starts at most one saga per order: it is ignored when the
    order has a saga already (or has no identifier); otherwise, and only then,
    the saga starts, and if the handler returned no error the first allocation
    step (or, for an order without rows, the completion) is on the wire. *)
Theorem trigger_contract payload w r w' :
  sagas_ok w → OnSalesOrderCreated sagas payload w = (r, w') →
  ignored w w' ∧
  (r = Ok tt → ∃ message, json_Unmarshal payload = Ok message ∧
     ∀ id, uuid_Parse (msg_SalesOrderId message) = Some id → log w id ≠ [])
  ∨ ∃ message id, json_Unmarshal payload = Ok message ∧
    uuid_Parse (msg_SalesOrderId message) = Some id ∧ log w id = [] ∧
    (∀ id', id' ≠ id → log w' id' = log w id') ∧
    saga_of w' id = ClearUncommittedEvents
      (StartOrderAllocation id (msg_CommitId message) (msg_Rows message)) ∧
    (r = Ok tt → ∃ ms, first_messages (msg_CommitId message) (saga_of w' id) = Some ms ∧
       sent (announced (started_events id (msg_CommitId message) (msg_Rows message)) ++ ms)
         (w_bus w) (w_bus w')).
Proof.
  intros Hok Ht. apply trigger_cases in Ht as [_ [?|(m & id & Hm & Hid & Hnil & Ho & Hl & Hs)]];
    [by left| |done]. right. exists m, id. do 4 (split; [done|]). split; [|done].
  rewrite started, clear_loaded_and_raised by apply saga_blank.
  unfold saga_of. by rewrite Hl.
Qed.

(** Redelivery, and what it costs: once a fact is recorded in a saga, handling
    it again changes no stream and sends nothing, ever after. That holds even
    when the first handling failed after the save, while sending: the retried
    handler does not send what is missing. *)
Theorem recorded_event_ignored e oid c o id w0 r0 w1 w2 r w3 :
  sagas_ok w0 → observed e = Some (oid, c, o) → uuid_Parse oid = Some id →
  on_event sagas e w0 = (r0, w1) → log w1 id ≠ log w0 id →
  rtc runner_step w1 w2 → on_event sagas e w2 = (r, w3) → ignored w2 w3.
Proof.
  intros Hok Ho Hid H0 Hmoved Hsteps H2.
  apply on_event_cases in H0 as [Hok1 Hc]; [|done]. rewrite Ho in Hc.
  destruct Hc as [[[Hi _] _]|(id' & Hid' & Ht)]; [by destruct Hmoved; apply Hi|].
  rewrite Hid in Hid'. injection Hid' as <-.
  destruct (runner_steps_grow w1 w2 Hok1 Hsteps) as [Hok2 Hg].
  apply on_event_cases in H2 as [_ Hc]; [|done]. rewrite Ho in Hc.
  destruct Hc as [[? _]|(id' & Hid' & _ & He & _)]; [done|].
  rewrite Hid in Hid'. injection Hid' as <-. exfalso.
  destruct Ht as (Hne & He0 & _ & Hl & _).
  destruct (Hg id) as [_ Hlater].
  assert (log w1 id ≠ []) as Hne1 by (rewrite Hl; by intros [? _]%app_eq_nil).
  pose proof (reachable_inv _ _ (Hok id Hne)) as Hinv.
  assert (saga_of w1 id
    = ClearUncommittedEvents (RaiseAll (raised_events id c o (saga_of w0 id)) (saga_of w0 id)))
    as Es.
  { unfold saga_of at 1. rewrite Hl. symmetry. apply (clear_loaded_and_raised sagas _ _ saga_blank). }
  pose proof (record_spent id c o _ Hinv He0) as Hsp.
  assert (saga_inv id (RaiseAll (raised_events id c o (saga_of w0 id)) (saga_of w0 id))) as Hinv'.
  { eapply (record_inv id c o _ true); [exact Hinv|]. rewrite record_loaded by auto. by rewrite He0. }
  destruct (later_inv id o _ (saga_of w2 id) Hinv' Hsp) as [_ Hsp2].
  - eapply later_trans; [apply later_saved, later_refl|]. rewrite <- Es. by apply Hlater.
  - by rewrite (spent_disabled _ _ Hsp2) in He.
Qed.

(** C19 Resumption after a restart is complete and does nothing else: it changes
    no stream, and if it returns no error every unsettled saga has been
    re-driven, with at least one message each, and only unsettled sagas. *)
Theorem resume_contract w r w' :
  sagas_ok w → ResumeInFlight sagas (Some ListStreams) w = (r, w') →
  (∀ id, log w' id = log w id) ∧
  (r = Ok tt → ∃ work : list (UUID * list wire_message),
     sent (concat work.*2) (w_bus w) (w_bus w') ∧
     (∀ id ms, (id, ms) ∈ work → in_flight (saga_of w id) = true ∧ ms ≠ [] ∧
        ∃ c, pending_messages c (saga_of w id) = Some ms) ∧
     ∀ id, log w id ≠ [] → in_flight (saga_of w id) = true → id ∈ work.*1).
Proof. apply resume_cases. Qed.

(** C23 The step timeout, over all the sagas of the store. Whatever comes of the
    sweep, the stream of every saga is as it was, record for record, or the saga was
    running, idle since the cutoff, and has recorded the failure of the very step it
    waits for, and nothing else. If the sweep returns no error it dealt with exactly
    the sagas that are in flight and idle, in some order, and what it sent is what it
    sent for each of them and nothing else: the compensations of a compensating saga,
    whose stream stays; for a running saga, once, the events of the failure (unless
    the relay publishes them) and the reaction to it, as if the step had been refused. *)
Theorem timeout_contract cutoff w r w' :
  sagas_ok w → TimeoutInFlight sagas (Some ListStreams) cutoff w = (r, w') →
  (∀ id, records w' id = records w id ∨ timed_out cutoff w w' id) ∧
  (r = Ok tt → ∃ work : list (UUID * list wire_message),
     sent (concat work.*2) (w_bus w) (w_bus w') ∧
     (∀ id, id ∈ work.*1 ↔
        log w id ≠ [] ∧ in_flight (saga_of w id) = true ∧ idle w id cutoff) ∧
     (∀ id ms, (id, ms) ∈ work → swept w w' id ms) ∧
     NoDup (filter (λ id, status (saga_of w id) = SagaRunning) work.*1)).
Proof.
  intros Hok [[_ Hrec] Hwork]%TimeoutInFlight_cases; [|done]. split; [done|]. intros Hr.
  destruct (Hwork Hr) as (ids & work & Hids & [Hs Hd Ha Hn]). exists work.
  split; [done|]. split; [|split; [|done]].
  - intros id. split.
    + intros ((id' & ms) & -> & Hin)%list_elem_of_fmap. destruct (Hd id' ms Hin) as (Hin' & Hi & _).
      apply Hids in Hin' as [? ?]. done.
    + intros (Hne & Hf & Hi). apply Ha; [|done..]. by apply Hids.
  - intros id ms (_ & _ & _ & ?)%Hd. done.
Qed.
End contract.
