(* ===== verification/SagaWire.v ===== *)
(** * What the saga runner says on the wire

    The contracts of [SagaContract] tell what a handler that returns no error has
    sent. This file bounds what any handler can have sent, errors in the middle
    included: a message is on the wire only if the sagas in the store back it, and
    were not settled before: what a settled saga has not told it never tells. *)
From S2P Require Import Prelude Errors Kernel Aggregate EventStore World Repository.
From S2P Require Import Bus Wire WarehouseKernel Saga SagaRunner SagaContract.
#[local] Open Scope Z_scope.

(** ** The sagas back what is said *)
Section speaks.
Context {U : UuidLib} {St B P : Type} `{!EventStore WarehouseEvent St}.
Context `{!WirePublisher B P, !WirePublisherLaws B P}.
Context `{!JsonMarshal UpdateAvailabilityDueToSalesOrder P}
  `{!JsonMarshal CompensateAvailabilityDueToFailedAllocation P}
  `{!JsonMarshal IntegrationEvents.OrderAllocationCompleted P}
  `{!JsonMarshal IntegrationEvents.OrderAllocationRejected P}
  `{!JsonMarshal WarehouseEvent P} `{!Publication}.
Context (view : St → string → list (StoredEvent WarehouseEvent)) `{!EventStoreLaws view}.
Implicit Types (s : OrderAllocationSaga) (w : World St B) (id : UUID) (m : wire_message).

Abbreviation sagas := (SagaContract.sagas (B := B) (P := P)).
Abbreviation log w id := (history view sagas w id).
Abbreviation saga_of w id := (SagaContract.saga_of view w id).
Abbreviation sagas_ok w := (SagaContract.sagas_ok view w).
Abbreviation grows w w' := (SagaContract.grows view w w').

(** A saga in backward recovery, or through with it. *)
Definition failed s : Prop := status s = SagaCompensating ∨ status s = SagaRejected.

(** The events of the saga's own stream. *)
Definition saga_event (e : WarehouseEvent) : Prop :=
  match e with
  | EvOrderAllocationStarted _ | EvAllocationStepSucceeded _ | EvAllocationStepFailed _
  | EvAllocationStepCompensated _ | EvOrderAllocationCompleted _
  | EvOrderAllocationRejected _ => True
  | _ => False
  end.

(** The message is backed by a saga: an allocation command is for an order with
    a saga, a compensation for one whose saga failed, an outcome for one whose
    saga is settled that way. *)
Definition speaks (sg : UUID → OrderAllocationSaga) m : Prop :=
  match m with
  | WireEvent e => saga_event e
  | WireAllocate c =>
      BeerId_Value (uaso_BeerId c) = cmd_AggregateId (uaso_base c) ∧
      ∃ id, uaso_SalesOrderId c = uuid_String id
  | WireCompensate c =>
      BeerId_Value (cafa_BeerId c) = cmd_AggregateId (cafa_base c) ∧
      ∃ id, cafa_SalesOrderId c = uuid_String id ∧ failed (sg id)
  | WireCompleted e =>
      ∃ id c, e = IntegrationEvents.NewOrderAllocationCompleted (uuid_String id) c ∧
        status (sg id) = SagaCompleted
  | WireRejected e =>
      ∃ id c, e = IntegrationEvents.NewOrderAllocationRejected (uuid_String id) c
                    (reason (sg id)) ∧
        status (sg id) = SagaRejected
  end.

(** The wire entries of messages that [sg] backs. *)
Definition backed (sg : UUID → OrderAllocationSaga) (tp : string * P) : Prop :=
  ∃ m, speaks sg m ∧ encodes m tp.

(** *** Backing is for good *)

(** What a saga can become. *)
Record advances s s' : Prop := {
  advances_completed : status s = SagaCompleted → status s' = SagaCompleted;
  advances_rejected : status s = SagaRejected → status s' = SagaRejected ∧ reason s' = reason s;
  advances_failed : failed s → failed s';
  advances_rows : data <$> rows s' = data <$> rows s;
}.

#[global] Instance advances_preorder : PreOrder advances.
Proof.
  split; [by split|]. intros s s1 s2 [c1 r1 f1 d1] [c2 r2 f2 d2]. split.
  - auto.
  - intros [Hs Hr]%r1. apply r2 in Hs as [? ?]. split; congruence.
  - auto.
  - congruence.
Qed.

Lemma data_set_rows b st rs : data <$> set_rows b st rs = data <$> rs.
Proof.
  unfold set_rows. rewrite <- list_fmap_compose. apply list_fmap_ext. intros i row _. simpl.
  by case_decide.
Qed.

Lemma raised_advances id c o s :
  enabled o s = true → advances s (RaiseAll (raised_events id c o s) s).
Proof.
  intros He. destruct (raised_fields id c o s He) as (Hrs & Hst & _).
  assert (status s = SagaRunning ∧ (∀ b, o ≠ Compensated b) ∨
          status s = SagaCompensating ∧ ∃ b, o = Compensated b) as Hs.
  { unfold enabled in He. destruct o as [b|b re|b];
      apply andb_true_iff in He as [He%bool_decide_eq_true _]; naive_solver. }
  split.
  - intros Hc. destruct Hs as [[Hs _]|[Hs _]]; congruence.
  - intros Hc. destruct Hs as [[Hs _]|[Hs _]]; congruence.
  - intros Hf. unfold failed in *. destruct Hs as [[Hs _]|[Hs [b ->]]]; [naive_solver congruence|].
    rewrite Hst. unfold next_status. case_match; auto.
  - rewrite Hrs. apply data_set_rows.
Qed.

Lemma later_advances orderId s s' :
  salesOrderId s = uuid_String orderId → later s s' →
  salesOrderId s' = uuid_String orderId ∧ advances s s'.
Proof.
  intros Hid. induction 1 as [|c o s1 b s2 _ [IHi IH] Hrec|s1 _ [IHi IH]].
  - by split.
  - destruct (record_cases orderId c o s1 b s2 Hrec IHi) as [(_ & _ & ->)|(He & _ & ->)]; [done|].
    split; [|etrans; [exact IH|by apply raised_advances]].
    by destruct (raised_fields orderId c o s1 He) as (_ & _ & _ & -> & _).
  - split; [done|]. etrans; [exact IH|]. by split.
Qed.

Lemma grows_advances w w' id :
  sagas_ok w → grows w w' → log w id ≠ [] → advances (saga_of w id) (saga_of w' id).
Proof.
  intros Hok [_ Hg] Hne. pose proof (reachable_inv _ _ (Hok id Hne)) as [Hord _ _ _].
  eapply later_advances; [exact Hord|]. by apply Hg.
Qed.

Lemma status_log w id : status (saga_of w id) ≠ SagaUnset → log w id ≠ [].
Proof. intros Hs Hl. apply Hs. unfold SagaContract.saga_of. by rewrite Hl. Qed.

(** What is backed stays backed by sagas that advance. *)
Lemma speaks_mono (sg sg' : UUID → OrderAllocationSaga) m :
  (∀ id, status (sg id) ≠ SagaUnset → advances (sg id) (sg' id)) → speaks sg m → speaks sg' m.
Proof.
  intros Ha. destruct m as [c|c|e|e|e]; simpl; [done| |done|..].
  - intros (Hb & id & Hid & Hf). split; [done|]. exists id. split; [done|].
    eapply advances_failed; [|exact Hf]. apply Ha. destruct Hf as [-> | ->]; done.
  - intros (id & c & -> & Hs). exists id, c. split; [done|].
    eapply advances_completed; [|exact Hs]. apply Ha. by rewrite Hs.
  - intros (id & c & -> & Hs).
    destruct (advances_rejected (sg id) (sg' id)) as [Hs' Hr]; [apply Ha; by rewrite Hs|done|].
    exists id, c. by rewrite Hr.
Qed.

Lemma emitted_backed (sg sg' : UUID → OrderAllocationSaga) b b' :
  (∀ id, status (sg id) ≠ SagaUnset → advances (sg id) (sg' id)) →
  emitted (backed sg) b b' → emitted (backed sg') b b'.
Proof.
  intros Ha. apply emitted_mono. intros tp (m & Hm & He). exists m. split; [|done].
  by eapply speaks_mono.
Qed.

Lemma emitted_grows w w' b b' :
  sagas_ok w → grows w w' → emitted (backed (SagaContract.saga_of view w)) b b' →
  emitted (backed (SagaContract.saga_of view w')) b b'.
Proof.
  intros Hok Hg. apply emitted_backed. intros id Hs.
  apply grows_advances; [done..|]. by apply status_log.
Qed.

(** *** Settled sagas are silent *)
Definition settled s : Prop := status s = SagaCompleted ∨ status s = SagaRejected.

Lemma in_flight_unsettled s : in_flight s = true → ¬ settled s.
Proof.
  intros [Hf|Hf]%orb_true_iff; apply bool_decide_eq_true in Hf; unfold settled; rewrite Hf; naive_solver.
Qed.
Lemma enabled_unsettled o s : enabled o s = true → ¬ settled s.
Proof.
  unfold enabled, settled. destruct o; intros [Hf%bool_decide_eq_true _]%andb_true_iff;
    rewrite Hf; naive_solver.
Qed.

(** The sagas that can back what is said between [w] and [w']: those that were not
    settled in [w]. *)
Definition voice w w' : UUID → OrderAllocationSaga := λ id,
  if decide (settled (saga_of w id)) then NewOrderAllocationSaga else saga_of w' id.

Lemma voice_unsettled w w' id : ¬ settled (saga_of w id) → voice w w' id = saga_of w' id.
Proof. intros Hs. unfold voice. by rewrite decide_False. Qed.

Lemma voice_said w w' id :
  status (voice w w' id) ≠ SagaUnset → ¬ settled (saga_of w id) ∧ voice w w' id = saga_of w' id.
Proof. unfold voice. by case_decide. Qed.

Lemma voice_grows w w1 w2 b b' :
  sagas_ok w1 → grows w1 w2 → emitted (backed (voice w w1)) b b' →
  emitted (backed (voice w w2)) b b'.
Proof.
  intros Hok Hg. apply emitted_backed. intros id Hs. apply voice_said in Hs as Hv.
  destruct Hv as [Hu Hv]. rewrite Hv in *. rewrite voice_unsettled by done.
  apply grows_advances; [done..|]. by apply status_log.
Qed.

(** *** The handlers *)
Section handlers.
Context (sg : UUID → OrderAllocationSaga).

Lemma send_wire_emitted m w r w' :
  speaks sg m → on_bus (send_wire m) w = (r, w') → emitted (backed sg) (w_bus w) (w_bus w').
Proof.
  intros Hm (b & Hb & ->)%on_bus_inv. simpl.
  rewrite send_wire_unfold in Hb. eapply payload_emitted; [|exact Hb].
  intros p Hp. exists m. split; [done|]. by split.
Qed.

Lemma publishOutcome_emitted s id c w r w' :
  salesOrderId s = uuid_String id → advances s (sg id) →
  status s = SagaCompleted ∨ status s = SagaRejected →
  publishOutcome s c w = (r, w') → emitted (backed sg) (w_bus w) (w_bus w').
Proof.
  intros Hid [Hc Hr _ _] Hst. rewrite publishOutcome_send. apply send_wire_emitted.
  unfold outcome_message. rewrite Hid. case_decide as Hs; simpl; exists id, c.
  - auto.
  - destruct Hst as [|Hst]; [done|]. destruct (Hr Hst) as [? ->]. done.
Qed.

Lemma sendNextAllocation_emitted s id c w r w' :
  salesOrderId s = uuid_String id →
  sendNextAllocation s c w = (r, w') → emitted (backed sg) (w_bus w) (w_bus w').
Proof.
  intros Hid. unfold sendNextAllocation. destruct (uuid_Parse _) as [b|].
  - intros Hs. eapply (send_wire_emitted (WireAllocate _)); [|exact Hs]. simpl. eauto.
  - intros [= _ <-]. apply emitted_refl.
Qed.

Lemma sendCompensations_emitted s id c w r w' :
  salesOrderId s = uuid_String id → (status s = SagaCompensating → failed (sg id)) →
  sendCompensations s c w = (r, w') → emitted (backed sg) (w_bus w) (w_bus w').
Proof.
  intros Hid Hf Hs. unfold sendCompensations in Hs. eapply for_each_emitted; [|exact Hs].
  intros row w1 r1 w2 Hrow. unfold sendCompensation.
  assert (status s = SagaCompensating) as Hst.
  { unfold RowsToCompensate in Hrow. case_decide as Hd; [by apply elem_of_nil in Hrow|].
    by destruct (status s). }
  destruct (uuid_Parse _) as [b|].
  - intros Hb. eapply (send_wire_emitted (WireCompensate _)); [|exact Hb]. simpl. eauto 6.
  - intros [= _ <-]. apply emitted_refl.
Qed.

Lemma react_emitted o s id c w r w' :
  salesOrderId s = uuid_String id → advances s (sg id) →
  react o c s w = (r, w') → emitted (backed sg) (w_bus w) (w_bus w').
Proof.
  intros Hid Ha. unfold react.
  destruct o; case_decide; try (apply (publishOutcome_emitted _ id); by auto).
  - by apply (sendNextAllocation_emitted _ id).
  - apply (sendCompensations_emitted s id); [done|]. intros Hs.
    apply (advances_failed _ _ Ha). by left.
  - intros [= _ <-]. apply emitted_refl.
Qed.

Lemma drive_emitted s id c w r w' :
  salesOrderId s = uuid_String id → advances s (sg id) →
  drive s c w = (r, w') → emitted (backed sg) (w_bus w) (w_bus w').
Proof.
  intros Hid Ha. unfold drive. case_decide as Hs; [|by apply (sendNextAllocation_emitted _ id)].
  apply (sendCompensations_emitted s id); [done|]. intros _.
  apply (advances_failed _ _ Ha). by left.
Qed.

Lemma save_saga_emitted old es w r w' :
  Forall saga_event es → save_saga sagas (loaded_and_raised sagas old es) w = (r, w') →
  emitted (backed sg) (w_bus w) (w_bus w').
Proof.
  intros Hes Hs. unfold save_saga, uuid_New_ in Hs. go_run.
  set (w1 := mkWorld _ _ _ _) in Hs. change (w_bus w) with (w_bus w1).
  eapply (Save_emitted view); [|exact Hs]. simpl. unfold eventPublisher.
  intros pub e b rb b' Hpub He Hp. destruct direct; [|done]. injection Hpub as <-.
  eapply payload_emitted; [|exact Hp]. intros p Hj. exists (WireEvent e). split; [|by split].
  rewrite (uncommitted_raised sagas old es saga_blank) in He.
  by eapply Forall_forall in Hes.
Qed.
End handlers.

(** *** The steps of the runner *)
Abbreviation truthful w w' :=
  (emitted (backed (SagaContract.saga_of view w')) (w_bus w) (w_bus w')).
(** What is said is backed by sagas that were not settled before. *)
Abbreviation voiced w w' := (emitted (backed (voice w w')) (w_bus w) (w_bus w')).

Lemma voiced_truthful w w' : voiced w w' → truthful w w'.
Proof. apply emitted_backed. by intros id [_ ->]%voice_said. Qed.

Lemma raised_saga_events id c o s : Forall saga_event (raised_events id c o s).
Proof.
  unfold raised_events, settle_events.
  apply Forall_cons. split; [by destruct o|]. destruct (next_status _ _); repeat constructor.
Qed.

Lemma started_saga_events id c rs : Forall saga_event (started_events id c rs).
Proof. unfold started_events. destruct rs; repeat constructor. Qed.

(** Saving a saga and reacting to the new state. *)
Lemma save_react_voiced w0 o id es c w r w' :
  ¬ settled (saga_of w0 id) → es ≠ [] → Forall saga_event es → sagas_ok w →
  reachable id (loaded_and_raised sagas (log w id) es) →
  (saga ← save_saga sagas (loaded_and_raised sagas (log w id) es); react o c saga) w = (r, w') →
  emitted (backed (voice w0 w')) (w_bus w) (w_bus w').
Proof.
  intros Hun Hes Hev Hok Hreach Hc. unfold mbind, GoM_bind in Hc.
  destruct (save_saga _ _ w) as [rs w2] eqn:Es.
  pose proof (save_saga_emitted (voice w0 w') _ _ _ _ _ Hev Es) as Hsave.
  apply (save_transition view id) in Es as [Hok2 Hcase]; [|done..].
  destruct rs as [s2|e|m]; [|by injection Hc as _ <-..].
  destruct Hcase as [(_ & _ & ? & [=])|(_ & Hlog & Hs)]. destruct (Hs s2 eq_refl) as [-> _].
  pose proof (store_same_logs view _ _ (react_store _ _ _ _ _ _ Hc)) as Hl3.
  assert (SagaContract.saga_of view w' id = saga_of w2 id) as Heq
    by (unfold SagaContract.saga_of; by rewrite Hl3).
  eapply emitted_trans; [exact Hsave|]. eapply (react_emitted _ _ _ id); [| |exact Hc].
  - eapply inv_order, reachable_inv, Hok2. rewrite Hlog. by intros [_ ?]%app_eq_nil.
  - by rewrite voice_unsettled, Heq.
Qed.

Lemma observe_voiced oid c o w r w' :
  sagas_ok w → observe sagas oid c o w = (r, w') → voiced w w'.
Proof.
  intros Hok Hobs. unfold observe in Hobs. unfold mbind at 1, GoM_bind at 1 in Hobs.
  destruct (load sagas oid w) as [rl w1] eqn:El.
  apply (load_spec view) in El as (Hs1 & Hb1 & Hl).
  assert (∀ id, log w1 id = log w id) as Hlog1 by (intros id; unfold history; by rewrite Hs1).
  assert (sagas_ok w1) as Hok1 by (by eapply sagas_ok_same).
  rewrite <- Hb1. destruct rl as [[s|]|e|m]; [|by injection Hobs as _ <-; apply emitted_refl..|done].
  destruct Hl as (id & Hid & Hne & ->). rewrite <- Hlog1 in Hne.
  assert (saga_of w id = saga_of w1 id) as Es
    by (unfold SagaContract.saga_of; by rewrite Hlog1).
  rewrite Es in Hobs. unfold mbind at 1, GoM_bind at 1, lift in Hobs.
  rewrite record_loaded in Hobs by auto.
  destruct (enabled o (saga_of w1 id)) eqn:He; simpl in Hobs.
  - eapply (save_react_voiced w _ id); [..|exact Hobs];
      [rewrite Es; by eapply enabled_unsettled|done|apply raised_saga_events|done|by apply raised_reachable; auto].
  - injection Hobs as _ <-. apply emitted_refl.
Qed.

Lemma on_event_voiced e w r w' :
  sagas_ok w → on_event sagas e w = (r, w') → voiced w w'.
Proof.
  intros Hok. rewrite on_event_observe. destruct (observed e) as [[[oid c] o]|].
  - by apply observe_voiced.
  - intros [= _ <-]. apply emitted_refl.
Qed.

Lemma trigger_voiced `{!JsonUnmarshal salesOrderCreatedMessage P} payload w r w' :
  sagas_ok w → OnSalesOrderCreated sagas payload w = (r, w') → voiced w w'.
Proof.
  intros Hok Ht. unfold OnSalesOrderCreated in Ht.
  unfold mbind at 1, GoM_bind at 1, lift in Ht.
  destruct (json_Unmarshal payload) as [message|e|m]; simpl in Ht;
    [|injection Ht as _ <-; apply emitted_refl..].
  destruct (uuid_Parse _) as [id|]; [|injection Ht as _ <-; apply emitted_refl].
  unfold mbind at 1, GoM_bind at 1, attempt in Ht. destruct (GetByID sagas id w) as [rg w1] eqn:Eg.
  apply (GetByID_spec view) in Eg as (Hs1 & Hb1 & _ & _ & Hg).
  assert (∀ id, log w1 id = log w id) as Hlog1 by (intros id'; unfold history; by rewrite Hs1).
  rewrite <- Hb1. destruct rg as [s|err|m]; [injection Ht as _ <-; apply emitted_refl| |done].
  destruct (errors_Is err _); simpl in Ht; [|injection Ht as _ <-; apply emitted_refl].
  specialize (Hg eq_refl). rewrite started in Ht.
  assert (log w1 id = []) as Hl1 by (by rewrite Hlog1).
  rewrite <- Hl1 in Ht.
  apply (save_react_voiced w (Succeeded "") id (started_events id (msg_CommitId message)
           (msg_Rows message)) (msg_CommitId message) w1 r w');
    [unfold SagaContract.saga_of; rewrite Hg; unfold settled; naive_solver
    |by destruct (msg_Rows message)|apply started_saga_events|by eapply sagas_ok_same
    |rewrite Hl1, <- started; apply reachable_start|exact Ht].
Qed.

(** *** Resumption and timeout *)
Context `{!StreamLister St, !StreamListerLaws StreamLister0 view}.

Lemma resume_voiced w r w' :
  sagas_ok w → ResumeInFlight sagas (Some ListStreams) w = (r, w') → voiced w w'.
Proof.
  intros Hok Hr. pose proof Hr as [Hlog _]%(resume_cases view); [|done].
  unfold ResumeInFlight in Hr. unfold mbind at 1, GoM_bind at 1 in Hr.
  destruct (inFlight _ _ w) as [rl w1] eqn:El.
  apply (inFlight_spec view) in El as (_ & Hb & Hl); [|done]. rewrite <- Hb.
  destruct rl as [l|e|m]; [|by injection Hr as _ <-; apply emitted_refl..].
  destruct Hl as (ids & -> & Hids & _). eapply for_each_emitted; [|exact Hr].
  intros s w2 r2 w3 (id & -> & Hin)%list_elem_of_fmap Hd.
  destruct (Hids id Hin) as [Hne Hf]. unfold mbind, GoM_bind, uuid_New_ in Hd.
  set (w2' := mkWorld _ _ _ _) in Hd. change (w_bus w2) with (w_bus w2').
  eapply (drive_emitted _ _ id); [| |exact Hd].
  - by eapply inv_order, reachable_inv, Hok.
  - rewrite voice_unsettled by (by apply in_flight_unsettled).
    unfold SagaContract.saga_of. by rewrite Hlog.
Qed.

Lemma timeout_one_voiced cutoff w id w1 r w' :
  sagas_ok w → log w id ≠ [] → in_flight (saga_of w id) = true → grows w w1 →
  timeout_one sagas cutoff (saga_of w id) w1 = (r, w') →
  emitted (backed (voice w w')) (w_bus w1) (w_bus w').
Proof.
  intros Hok Hne Hf Hg Ht. pose proof (timeout_one_grows view _ _ _ _ _ _ Hok Hne Hg Ht) as Hg'.
  pose proof (reachable_inv _ _ (Hok id Hne)) as [Hord _ _ _].
  assert (advances (saga_of w id) (saga_of w' id)) as Hadv
    by (apply grows_advances; [done|by eapply grows_trans|done]).
  destruct Hg as [Hok1 Hlogs]. destruct (Hlogs id) as [[extra Hlog] _].
  unfold timeout_one in Ht. unfold mbind at 1, GoM_bind at 1 in Ht.
  destruct (lastActivityOf _ w1) as [rt w2] eqn:El.
  apply (lastActivityOf_store view) in El as [Hlog2 Hb2]. rewrite <- Hb2.
  destruct rt as [t|e|m]; [|by injection Ht as _ <-; apply emitted_refl..].
  destruct (negb _); [injection Ht as _ <-; apply emitted_refl|].
  case_decide as Hcomp; unfold uuid_New_ at 1 in Ht; unfold mbind at 1, GoM_bind at 1 in Ht;
    set (w3 := mkWorld _ _ _ _) in Ht; change (w_bus w2) with (w_bus w3).
  { eapply (sendCompensations_emitted _ _ id); [exact Hord| |exact Ht].
    intros _. rewrite voice_unsettled by (by apply in_flight_unsettled). apply (advances_failed _ _ Hadv). by left. }
  assert (status (saga_of w id) = SagaRunning) as Hrun.
  { unfold in_flight in Hf. apply orb_true_iff in Hf as [Hf|Hf];
      apply bool_decide_eq_true in Hf; done. }
  unfold mbind at 1, GoM_bind at 1, lift in Ht.
  change (RecordQuantityNotFound ?c ?b ?re ?s) with (record c (NotFound b re) s) in Ht.
  rewrite record_loaded in Ht by auto. rewrite (running_enabled id) in Ht by auto.
  simpl in Ht. set (o := NotFound _ _) in Ht.
  change ((saga ← save_saga sagas (loaded_and_raised sagas (log w id)
             (raised_events id (uuid_New (w_minted w2)) o (saga_of w id)));
           react o (uuid_New (w_minted w2)) saga) w3 = (r, w')) in Ht.
  assert (reachable id (loaded_and_raised sagas (log w id)
            (raised_events id (uuid_New (w_minted w2)) o (saga_of w id)))) as Hreach.
  { apply raised_reachable; [by apply Hok|]. by apply (running_enabled id); auto. }
  assert (sagas_ok w3) as Hok3 by (eapply (sagas_ok_same view w1); [done|exact Hlog2]).
  assert (log w3 id = log w id ++ extra) as Hlog3 by (by rewrite <- Hlog, <- Hlog2).
  destruct (decide (extra = [])) as [->|Hex].
  - rewrite app_nil_r in Hlog3. rewrite <- Hlog3 in Ht, Hreach.
    eapply (save_react_voiced w _ id); [..|exact Ht];
      [by apply in_flight_unsettled|done|apply raised_saga_events|done|done].
  - unfold mbind, GoM_bind in Ht. destruct (save_saga _ _ w3) as [rs w4] eqn:Es.
    pose proof (save_saga_emitted (voice w w') _ _ _ _ _
                  (raised_saga_events _ _ _ _) Es) as Hsave.
    apply (save_stale view _ extra _ id) in Es as [_ [e ->]]; [|done..].
    by injection Ht as _ <-.
Qed.

Lemma timeout_all_voiced cutoff w ids w1 r w' :
  sagas_ok w → (∀ id, id ∈ ids → log w id ≠ [] ∧ in_flight (saga_of w id) = true) →
  grows w w1 →
  for_each (SagaContract.saga_of view w <$> ids) (timeout_one sagas cutoff) w1 = (r, w') →
  emitted (backed (voice w w')) (w_bus w1) (w_bus w').
Proof.
  intros Hok. revert w1. induction ids as [|id ids IH]; intros w1 Hids Hg; simpl.
  { intros [= _ <-]. apply emitted_refl. }
  destruct (Hids id ltac:(left)) as [Hne Hf].
  unfold mbind, GoM_bind. destruct (timeout_one sagas cutoff (saga_of w id) w1) as [r1 w2] eqn:E.
  pose proof (timeout_one_voiced _ _ _ _ _ _ Hok Hne Hf Hg E) as He.
  pose proof (timeout_one_grows view _ _ _ _ _ _ Hok Hne Hg E) as Hg2.
  assert (grows w w2) as Hg02 by (by eapply grows_trans).
  destruct r1 as [[]|e|m]; [|by intros [= _ <-]..].
  intros Hr. assert (∀ id', id' ∈ ids → log w id' ≠ [] ∧ in_flight (saga_of w id') = true) as Hids'
    by (intros id' Hin; apply Hids; by right).
  eapply emitted_trans; [|by eapply IH].
  eapply voice_grows; [by destruct Hg2| |exact He].
  eapply (timeout_all view); [exact Hok| |exact Hg02|exact Hr]. intros id' Hin. by apply Hids'.
Qed.

Lemma timeout_voiced cutoff w r w' :
  sagas_ok w → TimeoutInFlight sagas (Some ListStreams) cutoff w = (r, w') → voiced w w'.
Proof.
  intros Hok Ht. unfold TimeoutInFlight in Ht. unfold mbind at 1, GoM_bind at 1 in Ht.
  destruct (inFlight _ _ w) as [rl w1] eqn:El.
  apply (inFlight_spec view) in El as (Hlog1 & Hb & Hl); [|done]. rewrite <- Hb.
  destruct rl as [l|e|m]; [|by injection Ht as _ <-; apply emitted_refl..].
  destruct Hl as (ids & -> & Hids & _).
  eapply timeout_all_voiced; [done|done| |exact Ht]. by apply grows_same.
Qed.

(** *** What is said is backed *)
Lemma resume_emitted w r w' :
  sagas_ok w → ResumeInFlight sagas (Some ListStreams) w = (r, w') → truthful w w'.
Proof. intros. apply voiced_truthful. by eapply resume_voiced. Qed.
Lemma timeout_emitted cutoff w r w' :
  sagas_ok w → TimeoutInFlight sagas (Some ListStreams) cutoff w = (r, w') → truthful w w'.
Proof. intros. apply voiced_truthful. by eapply timeout_voiced. Qed.
Lemma on_event_emitted e w r w' :
  sagas_ok w → on_event sagas e w = (r, w') → truthful w w'.
Proof. intros. apply voiced_truthful. by eapply on_event_voiced. Qed.
Lemma trigger_emitted `{!JsonUnmarshal salesOrderCreatedMessage P} payload w r w' :
  sagas_ok w → OnSalesOrderCreated sagas payload w = (r, w') → truthful w w'.
Proof. intros. apply voiced_truthful. by eapply trigger_voiced. Qed.

(** *** After the settlement *)
Context `{!JsonUnmarshal salesOrderCreatedMessage P}.

(** The messages in which the process tells the outcome of an order. *)
Definition tells_outcome id m : Prop :=
  match m with
  | WireCompleted e => IntegrationEvents.oac_SalesOrderId e = uuid_String id
  | WireRejected e => IntegrationEvents.oar_SalesOrderId e = uuid_String id
  | _ => False
  end.

(** A topic that outcomes do not go to. *)
Definition no_outcome_topic (topic : string) : Prop :=
  ∀ id m, tells_outcome id m → topic ≠ wire_topic m.

(** A message on the wire that is not the outcome of order [id]. *)
Definition silent_on id (tp : string * P) : Prop :=
  no_outcome_topic tp.1 ∨ ∃ m, encodes m tp ∧ ¬ tells_outcome id m.

(** Everything the process does about sagas, with anything else in between that
    leaves their streams alone and does not tell outcomes. *)
Inductive saga_life : World St B → World St B → Prop :=
| life_trigger payload w r w' :
    OnSalesOrderCreated sagas payload w = (r, w') → saga_life w w'
| life_event e w r w' : on_event sagas e w = (r, w') → saga_life w w'
| life_resume w r w' :
    ResumeInFlight sagas (Some ListStreams) w = (r, w') → saga_life w w'
| life_timeout cutoff w r w' :
    TimeoutInFlight sagas (Some ListStreams) cutoff w = (r, w') → saga_life w w'
| life_other w w' :
    (∀ id, log w' id = log w id) →
    emitted (λ tp, no_outcome_topic tp.1) (w_bus w) (w_bus w') → saga_life w w'.

Lemma saga_life_runner w w' : saga_life w w' → runner_step view w w'.
Proof. destruct 1; by econstructor. Qed.

(** A settled saga stays as it is. *)
Lemma saga_life_settled w w' id :
  sagas_ok w → settled (saga_of w id) → saga_life w w' → log w' id = log w id.
Proof.
  intros Hok Hs. assert (log w id ≠ []) as Hne
    by (apply status_log; destruct Hs as [-> | ->]; done).
  destruct 1 as [payload w r w' Ht|e w r w' He|w r w' Hr|cutoff w r w' Ht|w w' Ho _]; [..|done].
  - apply (trigger_cases view) in Ht as [_ [[[Hi _] _]|(m & id' & _ & _ & Hnil & Ho & _)]];
      [done| |done]. apply Ho. by intros ->.
  - apply (on_event_cases view) in He as [_ Hc]; [|done].
    destruct (observed e) as [[[oid c] o]|]; [|by destruct Hc as [_ ->]].
    destruct Hc as [[[Hi _] _]|(id' & _ & _ & He & Ho & _)]; [done|]. apply Ho.
    intros ->. by apply enabled_unsettled in He.
  - by apply (resume_cases view) in Hr as [Hl _].
  - apply (TimeoutInFlight_cases view) in Ht as [[_ Hrec] _]; [|done].
    destruct (Hrec id) as [Hl|(_ & Hrun & _)]; [by apply (records_log view)|].
    destruct Hs; congruence.
Qed.

(** A settled saga tells nothing. *)
Lemma voice_silent w w' id b b' :
  settled (saga_of w id) → emitted (backed (voice w w')) b b' → emitted (silent_on id) b b'.
Proof.
  intros Hs. apply emitted_mono. intros tp (m & Hm & He). right. exists m. split; [done|].
  intros Ht. destruct m as [c|c|e|e|e]; try done; destruct Hm as (id' & c & -> & Hst);
    apply (inj uuid_String) in Ht as ->; unfold voice in Hst; by rewrite decide_True in Hst.
Qed.

Lemma saga_life_silent w w' id :
  sagas_ok w → settled (saga_of w id) → saga_life w w' →
  emitted (silent_on id) (w_bus w) (w_bus w').
Proof.
  intros Hok Hs. destruct 1 as [payload w r w' Ht|e w r w' He|w r w' Hr|cutoff w r w' Ht|w w' _ Ho].
  - by eapply (voice_silent w w'), trigger_voiced.
  - by eapply (voice_silent w w'), on_event_voiced.
  - by eapply (voice_silent w w'), resume_voiced.
  - by eapply (voice_silent w w'), timeout_voiced.
  - eapply emitted_mono; [|exact Ho]. intros tp Htp. by left.
Qed.

(** C39 A lost outcome is lost for good. Once the saga of an order is settled, whatever
    the process goes on to do leaves its stream as it is and puts no outcome of that
    order on the wire: triggers and warehouse events delivered again or for the first
    time, the resumption after a restart, step timeouts, whatever each of them
    returns, in any order, and anything else in between. The handlers save the saga
    before they publish its outcome, so if that publication fails, or the process dies
    before it, the order never hears of its outcome. *)
Theorem lost_outcome id w0 w :
  sagas_ok w0 → settled (saga_of w0 id) → rtc saga_life w0 w →
  log w id = log w0 id ∧ emitted (silent_on id) (w_bus w0) (w_bus w).
Proof.
  intros Hok Hs Hsteps. induction Hsteps as [w|w w1 w2 H1 _ IH].
  { split; [done|]. apply emitted_refl. }
  pose proof (saga_life_settled _ _ _ Hok Hs H1) as Hl1.
  pose proof (saga_life_silent _ _ _ Hok Hs H1) as He1.
  apply saga_life_runner, (runner_step_grows view) in H1 as [Hok1 _]; [|done].
  destruct IH as [Hl2 He2]; [done|by unfold SagaContract.saga_of; rewrite Hl1|].
  split; [congruence|]. by eapply emitted_trans.
Qed.
End speaks.
