(* ===== verification/WarehouseSteps.v ===== *)
(** * The two halves of the Warehouses module do not meet in the store

    The beers' streams and the sagas' streams live in one event store. The saga
    runner never touches a beer's stream, the command handlers never touch a
    saga's; and a command handler appends at most one event, of its own beer and
    answering its own command, whatever it returns. *)
From S2P Require Import Prelude Errors Kernel Aggregate EventStore World Repository.
From S2P Require Import Frame Bus Wire WarehouseKernel Availability Saga WarehouseHandlers.
From S2P Require Import WarehouseReadModel SagaRunner SagaContract SagaWire.
#[local] Open Scope Z_scope.

Section steps.
Context {U : UuidLib} {St B P : Type} `{!EventStore WarehouseEvent St}.
Context `{!WirePublisher B P, !WirePublisherLaws B P}.
Context `{!JsonMarshal UpdateAvailabilityDueToSalesOrder P}
  `{!JsonMarshal CompensateAvailabilityDueToFailedAllocation P}
  `{!JsonMarshal IntegrationEvents.OrderAllocationCompleted P}
  `{!JsonMarshal IntegrationEvents.OrderAllocationRejected P}
  `{!JsonMarshal WarehouseEvent P} `{!JsonUnmarshal salesOrderCreatedMessage P} `{!Publication}.
Context (view : St → string → list (StoredEvent WarehouseEvent)) `{!EventStoreLaws view}.
Context `{!StreamLister St, !StreamListerLaws StreamLister0 view}.
Implicit Types (w : World St B) (d : delivery) (e : WarehouseEvent).

Abbreviation sagas := (SagaContract.sagas (B := B) (P := P)).
(** The availability repository, as the module builds it. *)
Definition beers : EventStoreRepository WarehouseEvent Availability B :=
  availabilities eventPublisher.
Abbreviation log w id := (history view sagas w id).
Abbreviation book w b := (history view beers w b).

Definition beer_stream (sid : string) : Prop := ∃ b, sid = stream beers b.
Definition saga_stream (sid : string) : Prop := ∃ id, sid = stream sagas id.
Definition beside_sagas (sid : string) : Prop := ¬ saga_stream sid.
Definition beside_beers (sid : string) : Prop := ¬ beer_stream sid.

Lemma saga_not_beer id : beside_beers (stream sagas id).
Proof. by intros [b Hb]. Qed.

Lemma beer_not_saga b : beside_sagas (stream beers b).
Proof. by intros [id Hid]. Qed.

(** ** The saga runner works on the sagas' streams *)
Section runner.
Context (content : string → list (StoredEvent WarehouseEvent)).
Abbreviation K := (holds_streams (B := B) view beside_sagas content).

Lemma frame_save_saga s : preserves K (save_saga sagas s).
Proof.
  unfold save_saga. frame. apply frame_Save; [done|]. intros Hn. apply Hn. by eexists.
Qed.

Lemma frame_publishOutcome s c : preserves K (publishOutcome s c).
Proof. unfold publishOutcome. frame. Qed.

Lemma frame_sendNextAllocation s c : preserves K (sendNextAllocation s c).
Proof. unfold sendNextAllocation. frame. Qed.

Lemma frame_sendCompensations s c : preserves K (sendCompensations s c).
Proof. unfold sendCompensations, sendCompensation. frame. Qed.

#[local] Hint Resolve frame_save_saga frame_publishOutcome frame_sendNextAllocation
  frame_sendCompensations : frame.

Lemma frame_load oid : preserves K (load sagas oid).
Proof. unfold load. frame. Qed.

Lemma frame_inFlight : preserves K (inFlight sagas (Some ListStreams)).
Proof.
  unfold inFlight. frame; [by eapply frame_ListStreams|].
  match goal with |- preserves _ (inFlight_loop _ ?l) => induction l as [|n l IH] end; simpl; frame.
Qed.

Lemma frame_lastActivityOf s : preserves K (lastActivityOf s).
Proof. unfold lastActivityOf. frame. Qed.
#[local] Hint Resolve frame_load frame_inFlight frame_lastActivityOf : frame.

Lemma frame_on_event e : preserves K (on_event sagas e).
Proof.
  destruct e; simpl; auto with frame;
    unfold OnBeerAvailabilityUpdated, OnQuantityNotFound, OnAvailabilityCompensated; frame.
Qed.

Lemma frame_trigger payload : preserves K (OnSalesOrderCreated sagas payload).
Proof. unfold OnSalesOrderCreated. frame. Qed.

Lemma frame_drive s c : preserves K (drive s c).
Proof. unfold drive. frame. Qed.
#[local] Hint Resolve frame_drive : frame.

Lemma frame_resume : preserves K (ResumeInFlight sagas (Some ListStreams)).
Proof. unfold ResumeInFlight. frame. Qed.

Lemma frame_timeout cutoff : preserves K (TimeoutInFlight sagas (Some ListStreams) cutoff).
Proof. unfold TimeoutInFlight, timeout_one. frame. Qed.
End runner.

(** ** The timeout only fails steps *)

(** Events that neither take stock, start a saga nor complete one of its steps. *)
Definition quiet e : Prop :=
  match e with
  | EvOrderAllocationStarted _ | EvAllocationStepSucceeded _ | EvBeerAvailabilityUpdated _ => False
  | _ => True
  end.

Lemma raised_quiet id c b re s : Forall quiet (raised_events id c (NotFound b re) s).
Proof.
  unfold raised_events, settle_events. constructor; [done|].
  destruct (next_status _ _); repeat constructor.
Qed.

Section timeout.
Context (content : string → list WarehouseEvent).
Abbreviation K := (adds_only (B := B) view quiet content).

Lemma save_quiet es s :
  UncommittedEvents s = [] → Forall quiet es → preserves K (save_saga sagas (RaiseAll es s)).
Proof.
  intros Hs Hes. unfold save_saga. frame. apply adds_Save; [done|].
  by rewrite UncommittedEvents_RaiseAll, Hs.
Qed.

Lemma timeout_one_quiet cutoff id s :
  salesOrderId s = uuid_String id → UncommittedEvents s = [] →
  preserves K (timeout_one sagas cutoff s).
Proof.
  intros Hid Hu.
  assert (∀ s c, preserves K (sendCompensations s c)) as Hsend.
  { intros s' c. unfold sendCompensations, sendCompensation. frame. }
  assert (∀ s c, preserves K (publishOutcome s c)) as Hout.
  { intros s' c. unfold publishOutcome. frame. }
  unfold timeout_one. apply preserves_bind; [unfold lastActivityOf; frame|intros t].
  destruct (negb _); [frame|]. case_decide; [frame|]. apply preserves_bind; [frame|intros c].
  cbv zeta. change (RecordQuantityNotFound ?c ?b ?re ?s) with (record c (NotFound b re) s).
  rewrite (record_effect id) by done.
  destruct (enabled _ _); apply preserves_bind_Ok; cbn [snd]; frame.
  - apply save_quiet; [done|]. apply raised_quiet.
  - by apply (save_quiet []).
Qed.

Lemma inFlight_quiet : preserves K (inFlight sagas (Some ListStreams)).
Proof.
  unfold inFlight. frame; [by eapply adds_ListStreams|].
  match goal with |- preserves _ (inFlight_loop _ ?l) => induction l as [|n l IH] end; simpl; frame.
Qed.

Lemma timeout_quiet cutoff w r w' :
  SagaContract.sagas_ok view w → TimeoutInFlight sagas (Some ListStreams) cutoff w = (r, w') →
  K w → K w'.
Proof.
  intros Hok Ht HK. unfold TimeoutInFlight, mbind, GoM_bind in Ht.
  destruct (inFlight _ _ w) as [rl w1] eqn:El. pose proof (inFlight_quiet _ _ _ El HK) as HK1.
  apply (inFlight_spec view) in El as (_ & _ & Hl); [|done].
  destruct rl as [l|e|m]; [|by injection Ht as _ <-..]. destruct Hl as (ids & -> & Hids & _).
  eapply (for_each_invariant_in K); [|exact Ht|exact HK1].
  intros s w2 r2 w3 (id & -> & Hin)%list_elem_of_fmap. destruct (Hids id Hin) as [Hne _].
  apply (timeout_one_quiet cutoff id).
  - by eapply inv_order, reachable_inv, Hok.
  - exact (uncommitted_raised sagas (log w id) [] saga_blank).
Qed.
End timeout.

(** ** The command handlers work on the beers' streams *)
Lemma frame_handle (content : string → list (StoredEvent WarehouseEvent)) d :
  preserves (holds_streams (B := B) view beside_beers content) (handle beers d).
Proof.
  assert (∀ a, preserves (holds_streams (B := B) view beside_beers content) (save_new beers a)) as Hs.
  { intros a. unfold save_new. frame. apply frame_Save; [done|].
    intros Hn. apply Hn. by eexists. }
  intros w r w'. rewrite handle_halves. revert w r w'.
  change (preserves (holds_streams (B := B) view beside_beers content)
            (load_half beers d ≫= save_new beers)).
  unfold load_half. frame.
Qed.

(** ** One warehouse command *)

(** A command as its constructor builds it; what is produced is a Go [int]. *)
Definition to_its_beer d : Prop :=
  match d with
  | Produce c => BeerId_Value (uapo_BeerId c) = cmd_AggregateId (uapo_base c) ∧
                 Int.in_range (Value (uapo_Quantity c))
  | Allocate c => BeerId_Value (uaso_BeerId c) = cmd_AggregateId (uaso_base c)
  | Compensate c => BeerId_Value (cafa_BeerId c) = cmd_AggregateId (cafa_base c)
  end.

(** Only an allocation command confirms and only a compensation command gives
    back, each for the order it names. *)
Definition on_behalf d e : Prop :=
  match e with
  | EvBeerAvailabilityUpdated e => ∃ c, d = Allocate c ∧ bau_SalesOrderId e = uaso_SalesOrderId c
  | EvAvailabilityCompensated e => ∃ c, d = Compensate c ∧ ac_SalesOrderId e = cafa_SalesOrderId c
  | _ => True
  end.

(** The stock an event leaves is a Go [int]. *)
Definition machine_event e : Prop :=
  match e with
  | EvAvailabilityUpdatedDueToProductionOrder e => Int.in_range (Value (aupo_Quantity e))
  | EvBeerAvailabilityUpdated e => Int.in_range (Value (bau_Quantity e))
  | EvAvailabilityCompensated e => Int.in_range (Value (ac_Quantity e))
  | _ => True
  end.

Lemma stock_in_range l :
  (∀ e, e ∈ l → machine_event e) → Int.in_range (stock (replay beers l)).
Proof.
  intros Hl. induction l as [|e l IH] using rev_ind; [done|].
  unfold replay in *. rewrite ApplyAll_app. specialize (IH ltac:(set_solver)).
  specialize (Hl e ltac:(set_solver)).
  destruct e; simpl; unfold stock; simpl; repeat case_decide; done.
Qed.

(** The beer [a] works on: a loaded one, or a blank one for an unknown beer. *)
Definition works_on (b : UUID) (loaded : error + Availability) (a : Availability) : Prop :=
  match loaded with
  | inr a' => a' = a ∧ BeerId_Value (beerId a) = b
  | inl err => errors_Is err ErrAggregateNotFound = true → a = NewAvailability
  end.

Lemma decide_event d loaded a a' :
  to_its_beer d → works_on (target d) loaded a → Int.in_range (stock a) →
  decide_delivery d loaded = Ok a' →
  ∃ e, a' = RaiseEvent e a ∧ ID a' = target d ∧ event_beer e = Some (target d) ∧
    on_behalf d e ∧ machine_event e.
Proof.
  intros Hw Hl Hst Hd. destruct d as [c|c|c], loaded as [err|a0]; simpl in *; try done;
    try (destruct (errors_Is err _); simpl in Hd; [|done]; rewrite Hl by done; clear Hl);
    try (destruct Hl as [-> Hb]).
  - unfold CreateAvailability in Hd. case_match; [done|]. apply (inj Ok) in Hd as <-.
    destruct Hw as [Hw Hq]. eexists. split; [reflexivity|]. by rewrite <- Hw.
  - unfold UpdateDueToProductionOrder in Hd. case_match; [done|]. apply (inj Ok) in Hd as <-.
    eexists. split; [reflexivity|]. rewrite <- Hb. split_and!; [done..|]. apply Int.wrap_in_range.
  - apply (inj Ok) in Hd as <-. eexists. split; [reflexivity|]. by rewrite <- Hw.
  - unfold UpdateDueToSalesOrder in Hd. case_match; [done|]. case_decide; [|case_match];
      apply (inj Ok) in Hd as <-; (eexists; split; [reflexivity|]);
      unfold ID; autorewrite with brew_rw; simpl; rewrite <- Hb; repeat case_decide;
      split_and!; eauto using Int.wrap_in_range.
  - unfold CompensateDueToFailedAllocation in Hd. case_match; [done|].
    case_decide; apply (inj Ok) in Hd as <-; (eexists; split; [reflexivity|]);
      unfold ID; autorewrite with brew_rw; simpl; rewrite <- Hb;
      split_and!; eauto using Int.wrap_in_range.
Qed.

Lemma load_half_bus d w r w' : load_half beers d w = (r, w') → w_bus w' = w_bus w.
Proof.
  unfold load_half. go_run. destruct (GetByID _ _ w) as [rs w1] eqn:E.
  apply (GetByID_spec view) in E as (_ & Hb & _). by destruct rs; intros [= _ <-].
Qed.

Lemma save_new_effect old e b w r w' :
  ID (RaiseEvent e (replay beers old)) = b →
  save_new beers (RaiseEvent e (replay beers old)) w = (r, w') →
  (∀ b', b' ≠ b → book w' b' = book w b') ∧
  (book w' b = book w b ∧ w_bus w' = w_bus w ∨
   length (book w b) = length old ∧ book w' b = book w b ++ [e] ∧
   emitted (announces e) (w_bus w) (w_bus w')).
Proof.
  intros Hid Hs. unfold save_new, uuid_New_ in Hs. go_run. set (w1 := mkWorld _ _ _ _) in Hs.
  destruct (Save _ _ _ w1) as [rs w2] eqn:E. assert (w2 = w') as -> by (by destruct rs; simplify_eq).
  change (w_bus w) with (w_bus w1).
  apply (Save_one view beers) with (id := b) in E; [exact E|apply blank|done|done].
Qed.

(** However a command handler ends, it added at most one event, to its beer's
    book, and announced at most that event. *)
Lemma handle_effect d w r w' :
  to_its_beer d →
  (∀ e, e ∈ book w (target d) → event_beer e = Some (target d) ∧ machine_event e) →
  handle beers d w = (r, w') →
  (∀ b, b ≠ target d → book w' b = book w b) ∧
  (book w' (target d) = book w (target d) ∧ w_bus w' = w_bus w ∨
   ∃ e, book w' (target d) = book w (target d) ++ [e] ∧
     event_beer e = Some (target d) ∧ on_behalf d e ∧ machine_event e ∧
     emitted (announces e) (w_bus w) (w_bus w')).
Proof.
  intros Hd Hbook. rewrite handle_halves. unfold mbind, GoM_bind.
  destruct (load_half beers d w) as [rl w1] eqn:El.
  pose proof (load_half_bus d w rl w1 El) as Hb.
  apply (load_half_books _ view) in El as (Hlog & loaded & -> & Hloaded).
  destruct (decide_delivery d loaded) as [a|e|m] eqn:Ha.
  2,3: intros [= _ <-]; split; [intros; apply Hlog|left; split; [apply Hlog|done]].
  destruct (decide_event d loaded (replay beers (book w (target d))) a Hd)
    as (e & -> & Hid & Hev & Hg & Hm); [|apply stock_in_range; intros e He; by apply Hbook|done|].
  { destruct loaded as [err|a0]; simpl.
    - intros He. change (book w (target d)) with
        (history view (availabilities eventPublisher) w (target d)).
      by rewrite (Hloaded He).
    - destruct Hloaded as [Hne ->]. split; [done|]. apply replay_beer; [|done].
      intros e He. by apply Hbook. }
  intros Hs. destruct (save_new_effect _ _ _ _ _ _ Hid Hs) as [Ho Hc].
  split; [intros b Hne; rewrite Ho by done; apply Hlog|].
  rewrite Hlog in Hc. rewrite <- Hb. destruct Hc as [[-> ->]|(_ & -> & Hem)]; [by left|].
  right. exists e. done.
Qed.
End steps.
