(* ===== verification/Demo.v ===== *)
(** * Evaluated runs of the warehouse

    A wire that carries typed payloads and fails on demand ([DemoWire]), the module's two
    repositories over the in-memory store, and runs of the handlers on them:
    the witnesses of the saga runner's theorems, with a run that loses an outcome,
    and a run that leaks stock. *)
From S2P Require Import Prelude Errors Kernel Aggregate EventStore World Repository.
From S2P Require Import Bus WarehouseKernel Availability Saga WarehouseHandlers.
From S2P Require Import Wire SagaRunner SagaContract SagaWire.
Import DemoWire.
#[local] Open Scope Z_scope.

(** ** The payloads *)
Section wire.
Context {U : UuidLib}.

Inductive payload :=
| PAllocate (c : UpdateAvailabilityDueToSalesOrder)
| PCompensate (c : CompensateAvailabilityDueToFailedAllocation)
| PEvent (e : WarehouseEvent)
| PCompleted (e : IntegrationEvents.OrderAllocationCompleted)
| PRejected (e : IntegrationEvents.OrderAllocationRejected)
| PTrigger (m : salesOrderCreatedMessage).

#[global] Instance marshal_allocate : JsonMarshal UpdateAvailabilityDueToSalesOrder payload :=
  λ c, Ok (PAllocate c).
#[global] Instance marshal_compensate :
    JsonMarshal CompensateAvailabilityDueToFailedAllocation payload :=
  λ c, Ok (PCompensate c).
#[global] Instance marshal_event : JsonMarshal WarehouseEvent payload := λ e, Ok (PEvent e).
#[global] Instance marshal_completed :
    JsonMarshal IntegrationEvents.OrderAllocationCompleted payload := λ e, Ok (PCompleted e).
#[global] Instance marshal_rejected :
    JsonMarshal IntegrationEvents.OrderAllocationRejected payload := λ e, Ok (PRejected e).
#[global] Instance unmarshal_trigger : JsonUnmarshal salesOrderCreatedMessage payload :=
  λ p, match p with PTrigger m => Ok m | _ => Err (ErrExternal "not a trigger") end.
End wire.

(** ** Runs *)
Module Run.
#[local] Existing Instance DemoUuid.lib.

Abbreviation world := (World (InMemory.InMemoryEventStore WarehouseEvent) (wire payload)).
Abbreviation log w id := (history InMemory.stream_of (sagas (P := payload)) w id).
Abbreviation saga w id := (saga_of (P := payload) InMemory.stream_of w id).

(** An empty shop at time 100; the wire fails as told. *)
Definition shop (fails : list bool) : world :=
  mkWorld InMemory.NewInMemoryEventStore (mkWire [] fails) 100 0.

Definition ipa : BeerId := mkBeerId (uid "ipa").
Definition four_litres : SagaRowData := mkSagaRowData "uipa" "IPA" 4 "Lt".

(** Order [o]: four litres of IPA. *)
Definition trigger : payload :=
  PTrigger (mkSalesOrderCreatedMessage _ (uid "c") "uo" [four_litres]).

Definition after {A} (m : GoM world A) (w : world) : world := snd (m w).
Definition returns {A} (m : GoM world A) (w : world) : result A := fst (m w).

Definition start : GoM world unit := OnSalesOrderCreated sagas trigger.
Definition deliver (e : WarehouseEvent) : GoM world unit := on_event sagas e.
Definition resume : GoM world unit := ResumeInFlight sagas (Some ListStreams).
Definition sweep (cutoff : Time) : GoM world unit :=
  TimeoutInFlight sagas (Some ListStreams) cutoff.

Definition allocated_event : WarehouseEvent :=
  EvBeerAvailabilityUpdated
    (NewBeerAvailabilityUpdated ipa (uid "c") (mkBeerName "IPA") (NewQuantity 6 "Lt") "uo").

(** The topics the wire carried, in order. *)
Definition topics (w : world) : list string := (carried (w_bus w)).*1.

Lemma shop_ok fails : sagas_ok InMemory.stream_of (shop fails).
Proof. intros id Hne. by destruct Hne. Qed.
End Run.

(** ** What the process can lose *)
Section losses.
#[local] Existing Instance DemoUuid.lib.
Import Run.

(** The warehouse side of the same store and wire. *)
Definition cellar : EventStoreRepository WarehouseEvent Availability (wire payload) :=
  availabilities (Some PublishDomainEvent).

Definition brewed : GoM world unit :=
  handle cellar (Produce (NewUpdateAvailabilityDueToProductionOrder ipa (uid "p")
    (mkBeerName "IPA") (NewQuantity 10 "Lt"))).

(** The allocation command the saga sent for its first step. *)
Definition pending_command : GoM world unit :=
  handle cellar (Allocate (NewUpdateAvailabilityDueToSalesOrder ipa (uid "c")
    (mkBeerName "IPA") (NewQuantity 4 "Lt") "uo")).

(** A timeout leaks stock: the saga times out while its allocation command
    is still in the queue, rejects the order and announces it; the command is
    handled later and takes the stock; the event finds a settled saga and is
    ignored; no compensation is ever sent, and the stock stays held for a
    rejected order. *)
Theorem timeout_leaks_stock :
  let w1 := after start (after brewed (shop [])) in
  let w2 := after (sweep 1000) w1 in
  let w3 := after pending_command w2 in
  let w4 := after (deliver allocated_event) w3 in
  let w5 := after resume w4 in
  let beer := availability_of (Some PublishDomainEvent) InMemory.stream_of w5 (uid "ipa") in
  returns (sweep 1000) w1 = Ok tt ∧ returns pending_command w2 = Ok tt ∧
  returns (deliver allocated_event) w3 = Ok tt ∧ returns resume w4 = Ok tt ∧
  status (saga w5 (uid "o")) = SagaRejected ∧
  stock beer = 6 ∧ "uo" ∈ held beer ∧
  topics w5 = ["events.warehouses.availability_updated_due_to_production_order";
               "events.warehouses.order_allocation_started";
               "commands.warehouses.update_availability_due_to_sales_order";
               "events.warehouses.allocation_step_failed";
               "events.warehouses.order_allocation_rejected";
               "integrationevents.warehouses.order_allocation_rejected";
               "events.warehouses.beer_availability_updated"].
Proof.
  intros w1 w2 w3 w4 w5 beer.
  do 6 (split; [vm_compute; reflexivity|]). split; [|vm_compute; reflexivity].
  apply (bool_decide_unpack _). vm_compute. exact I.
Qed.
End losses.

(** ** Instances of the runner's theorems *)
Section witnesses.
#[local] Existing Instance DemoUuid.lib.
Import Run.

Abbreviation step := (runner_step (P := payload) InMemory.stream_of).

Definition started_ : world := after start (shop []).
Definition advanced : world := after (deliver allocated_event) started_.

Lemma step_start : step (shop []) started_.
Proof. eapply step_trigger. exact (surjective_pairing (start (shop []))). Qed.

Lemma step_advanced : step started_ advanced.
Proof. eapply step_event_. exact (surjective_pairing (deliver allocated_event started_)). Qed.

Lemma started_ok : sagas_ok (P := payload) InMemory.stream_of started_.
Proof. apply (runner_step_grows _ _ _ (shop_ok []) step_start). Qed.

Lemma advanced_ok : sagas_ok (P := payload) InMemory.stream_of advanced.
Proof. apply (runner_step_grows _ _ _ started_ok step_advanced). Qed.

Lemma runner_invariant_witness :
  log started_ (uid "o") ≠ [] ∧
  ∀ id, (log advanced id ≠ [] →
           reachable id (saga advanced id) ∧ status (saga advanced id) ≠ SagaUnset) ∧
    ∃ es, log advanced id = log (shop []) id ++ es.
Proof.
  split; [vm_compute; discriminate|].
  apply (runner_invariant InMemory.stream_of (shop []) advanced (shop_ok [])).
  eapply rtc_l; [exact step_start|]. apply rtc_once, step_advanced.
Defined.

Lemma step_event_contract_witness :
  ignored InMemory.stream_of started_ advanced ∧
    (returns (deliver allocated_event) started_ = Ok tt →
     ∀ id, uuid_Parse "uo" = Some id → log started_ id ≠ [] →
       record (uid "c") (Succeeded "uipa") (saga started_ id) = Ok (false, saga started_ id))
  ∨ ∃ id, uuid_Parse "uo" = Some id ∧
      log advanced id = log started_ id
        ++ raised_events id (uid "c") (Succeeded "uipa") (saga started_ id).
Proof.
  destruct (step_event_contract InMemory.stream_of allocated_event started_
              (returns (deliver allocated_event) started_) advanced started_ok
              (surjective_pairing _)) as [?|(id & Hid & _ & _ & Hl & _)].
  - by left.
  - right. by exists id.
Defined.

Lemma trigger_contract_witness :
  ignored InMemory.stream_of (shop []) started_ ∨
  ∃ message id, uuid_Parse (msg_SalesOrderId message) = Some id ∧ log (shop []) id = [] ∧
    saga started_ id = ClearUncommittedEvents
      (StartOrderAllocation id (msg_CommitId message) (msg_Rows message)).
Proof.
  destruct (trigger_contract InMemory.stream_of trigger (shop []) (returns start (shop []))
              started_ (shop_ok []) (surjective_pairing _))
    as [[? _]|(message & id & _ & Hid & Hnil & _ & Hs & _)]; [by left|].
  right. by exists message, id.
Defined.

(** The lost outcome again: the first delivery fails after its save. *)
Lemma recorded_event_ignored_witness :
  let w0 := after start (shop [false; false; false; false; true]) in
  let w1 := after (deliver allocated_event) w0 in
  returns (deliver allocated_event) w0 = Err (ErrExternal "wire down") ∧
  ignored InMemory.stream_of w1 (after (deliver allocated_event) w1).
Proof.
  intros w0 w1. split; [vm_compute; reflexivity|].
  apply (recorded_event_ignored InMemory.stream_of allocated_event "uo" (uid "c")
           (Succeeded "uipa") (uid "o") w0 (returns (deliver allocated_event) w0) w1 w1
           (returns (deliver allocated_event) w1));
    [| reflexivity | reflexivity | exact (surjective_pairing _)
    | vm_compute; discriminate | apply rtc_refl | exact (surjective_pairing _)].
  apply (runner_step_grows _ _ _ (shop_ok [false; false; false; false; true])).
  eapply step_trigger. exact (surjective_pairing _).
Defined.

Lemma resume_contract_witness :
  returns resume started_ = Ok tt ∧
  ∃ work : list (UUID * list wire_message),
    sent (concat work.*2) (w_bus started_) (w_bus (after resume started_)) ∧
    uid "o" ∈ work.*1.
Proof.
  assert (returns resume started_ = Ok tt) as Hr by (vm_compute; reflexivity).
  split; [exact Hr|].
  destruct (resume_contract InMemory.stream_of started_ (returns resume started_)
              (after resume started_) started_ok (surjective_pairing _)) as [_ Hok].
  destruct (Hok Hr) as (work & Hs & _ & Hall). exists work. split; [exact Hs|].
  apply Hall; [vm_compute; discriminate | vm_compute; reflexivity].
Defined.

(** The sweep fails the one step of the started order and rejects the order. *)
Lemma timeout_contract_witness :
  returns (sweep 1000) started_ = Ok tt ∧
  ∃ work : list (UUID * list wire_message),
    sent (concat work.*2) (w_bus started_) (w_bus (after (sweep 1000) started_)) ∧
    uid "o" ∈ work.*1 ∧
    ∀ ms, (uid "o", ms) ∈ work →
      swept InMemory.stream_of started_ (after (sweep 1000) started_) (uid "o") ms.
Proof.
  assert (returns (sweep 1000) started_ = Ok tt) as Hr by (vm_compute; reflexivity).
  split; [exact Hr|].
  destruct (timeout_contract InMemory.stream_of 1000 started_ (returns (sweep 1000) started_)
              (after (sweep 1000) started_) started_ok (surjective_pairing _)) as [_ Hok].
  destruct (Hok Hr) as (work & Hs & Hin & Hd & _). exists work. split; [exact Hs|]. split.
  - apply Hin. split; [vm_compute; discriminate|]. split; [vm_compute; reflexivity|].
    eexists. split; [vm_compute; reflexivity|]. vm_compute. reflexivity.
  - intros ms. apply Hd.
Defined.

(** The wire fails once, on the message that announces the outcome. The handler
    returns the error, so the bus delivers the event again; then the process is
    restarted and sweeps. The saga is completed, and no outcome is on the wire. *)
Abbreviation crashed :=
  (after (deliver allocated_event) (after start (shop [false; false; false; false; true]))).
Abbreviation delivered_again := (after (deliver allocated_event) crashed).
Abbreviation resumed_ := (after resume delivered_again).
Abbreviation swept_ := (after (sweep 1000) resumed_).

Lemma crashed_ok : sagas_ok (P := payload) InMemory.stream_of crashed.
Proof.
  apply (runner_steps_grow InMemory.stream_of (shop [false; false; false; false; true]) crashed
           (shop_ok _)).
  eapply rtc_l; [eapply step_trigger; exact (surjective_pairing _)|].
  apply rtc_once. eapply step_event_. exact (surjective_pairing _).
Qed.

Lemma lost_outcome_witness :
  returns (deliver allocated_event) (after start (shop [false; false; false; false; true]))
  = Err (ErrExternal "wire down") ∧
  status (saga crashed (uid "o")) = SagaCompleted ∧
  topics crashed = ["events.warehouses.order_allocation_started";
                    "commands.warehouses.update_availability_due_to_sales_order";
                    "events.warehouses.allocation_step_succeeded";
                    "events.warehouses.order_allocation_completed"] ∧
  returns (deliver allocated_event) crashed = Ok tt ∧
  returns resume delivered_again = Ok tt ∧ returns (sweep 1000) resumed_ = Ok tt ∧
  log swept_ (uid "o") = log crashed (uid "o") ∧
  emitted (silent_on (uid "o")) (w_bus crashed) (w_bus swept_).
Proof.
  do 6 (split; [vm_compute; reflexivity|]).
  apply (lost_outcome InMemory.stream_of (uid "o") crashed swept_ crashed_ok).
  - left. vm_compute. reflexivity.
  - eapply rtc_l; [eapply life_event; exact (surjective_pairing _)|].
    eapply rtc_l; [eapply life_resume; exact (surjective_pairing _)|].
    apply rtc_once. eapply life_timeout. exact (surjective_pairing _).
Defined.
End witnesses.
