(* ===== verification/SalesKernel.v ===== *)
(** * The published language of the Sales module ([internal/sales/sharedkernel])

    Custom types, commands, domain events and the integration event, with the
    constructors and wire names of the source. The Sales module has its own
    beer types: the two modules share no kernel type. *)
From S2P Require Import Prelude Errors Kernel.
#[local] Open Scope Z_scope.

Section kernel.
Context `{UuidLib}.

(** ** customtypes.go *)
Record SalesOrderId := mkSalesOrderId { SalesOrderId_Value : UUID }.
Record SalesOrderNumber := mkSalesOrderNumber { SalesOrderNumber_Value : string }.
Record OrderDate := mkOrderDate { OrderDate_Value : Time }.
Record CustomerId := mkCustomerId { CustomerId_Value : UUID }.
Record CustomerName := mkCustomerName { CustomerName_Value : string }.
Record BeerId := mkBeerId { BeerId_Value : UUID }.
Record BeerName := mkBeerName { BeerName_Value : string }.

Record SalesOrderRowDto := mkSalesOrderRowDto {
  dto_BeerId : BeerId; dto_BeerName : BeerName;
  dto_Quantity : Quantity; dto_Price : Price }.

(** ** commands *)
Record CreateSalesOrder := mkCreateSalesOrder {
  cso_base : CommandBase;
  cso_SalesOrderId : SalesOrderId;
  cso_SalesOrderNumber : SalesOrderNumber;
  cso_OrderDate : OrderDate;
  cso_CustomerId : CustomerId;
  cso_CustomerName : CustomerName;
  cso_Rows : list SalesOrderRowDto }.

Definition NewCreateSalesOrder (salesOrderId : SalesOrderId) (commitId : UUID)
    (number : SalesOrderNumber) (date : OrderDate) (customerId : CustomerId)
    (customerName : CustomerName) (rows : list SalesOrderRowDto) :=
  mkCreateSalesOrder (NewCommandBase (SalesOrderId_Value salesOrderId) commitId)
    salesOrderId number date customerId customerName rows.

Record MarkSalesOrderAllocated := mkMarkSalesOrderAllocated {
  msa_base : CommandBase; msa_SalesOrderId : SalesOrderId }.

Definition NewMarkSalesOrderAllocated (salesOrderId : SalesOrderId) (commitId : UUID) :=
  mkMarkSalesOrderAllocated
    (NewCommandBase (SalesOrderId_Value salesOrderId) commitId) salesOrderId.

Record MarkSalesOrderAllocationRejected := mkMarkSalesOrderAllocationRejected {
  msr_base : CommandBase; msr_SalesOrderId : SalesOrderId; msr_Reason : string }.

Definition NewMarkSalesOrderAllocationRejected (salesOrderId : SalesOrderId)
    (commitId : UUID) (reason : string) :=
  mkMarkSalesOrderAllocationRejected
    (NewCommandBase (SalesOrderId_Value salesOrderId) commitId) salesOrderId reason.

#[global] Instance CreateSalesOrder_Command : Command CreateSalesOrder := {
  Command_Message := λ _, "sales.create_sales_order"; CmdBase := cso_base }.
#[global] Instance MarkSalesOrderAllocated_Command : Command MarkSalesOrderAllocated := {
  Command_Message := λ _, "sales.mark_sales_order_allocated"; CmdBase := msa_base }.
#[global] Instance MarkSalesOrderAllocationRejected_Command :
    Command MarkSalesOrderAllocationRejected := {
  Command_Message := λ _, "sales.mark_sales_order_allocation_rejected"; CmdBase := msr_base }.

(** ** events *)
Record SalesOrderCreated := mkSalesOrderCreated {
  soc_base : DomainEventBase;
  soc_SalesOrderId : SalesOrderId;
  soc_SalesOrderNumber : SalesOrderNumber;
  soc_OrderDate : OrderDate;
  soc_CustomerId : CustomerId;
  soc_CustomerName : CustomerName;
  soc_Rows : list SalesOrderRowDto }.

Definition NewSalesOrderCreated (salesOrderId : SalesOrderId) (commitId : UUID)
    (number : SalesOrderNumber) (date : OrderDate) (customerId : CustomerId)
    (customerName : CustomerName) (rows : list SalesOrderRowDto) :=
  mkSalesOrderCreated (NewDomainEventBase (SalesOrderId_Value salesOrderId) commitId)
    salesOrderId number date customerId customerName rows.

Record SalesOrderAllocated := mkSalesOrderAllocated {
  soa_base : DomainEventBase; soa_SalesOrderId : SalesOrderId }.

Definition NewSalesOrderAllocated (salesOrderId : SalesOrderId) (commitId : UUID) :=
  mkSalesOrderAllocated
    (NewDomainEventBase (SalesOrderId_Value salesOrderId) commitId) salesOrderId.

Record SalesOrderAllocationRejected := mkSalesOrderAllocationRejected {
  sor_base : DomainEventBase; sor_SalesOrderId : SalesOrderId; sor_Reason : string }.

Definition NewSalesOrderAllocationRejected (salesOrderId : SalesOrderId) (commitId : UUID)
    (reason : string) :=
  mkSalesOrderAllocationRejected
    (NewDomainEventBase (SalesOrderId_Value salesOrderId) commitId) salesOrderId reason.

(** The dynamic types a [muflone.DomainEvent] of this module can have. *)
Inductive SalesEvent :=
| EvSalesOrderCreated (e : SalesOrderCreated)
| EvSalesOrderAllocated (e : SalesOrderAllocated)
| EvSalesOrderAllocationRejected (e : SalesOrderAllocationRejected).

Definition SalesEvent_name (e : SalesEvent) : string :=
  match e with
  | EvSalesOrderCreated _ => "sales.sales_order_created"
  | EvSalesOrderAllocated _ => "sales.sales_order_allocated"
  | EvSalesOrderAllocationRejected _ => "sales.sales_order_allocation_rejected"
  end.

#[global] Instance SalesEvent_DomainEvent : DomainEvent SalesEvent := {
  DomainEvent_Message := SalesEvent_name;
  EventBase e := match e with
                 | EvSalesOrderCreated e => soc_base e
                 | EvSalesOrderAllocated e => soa_base e
                 | EvSalesOrderAllocationRejected e => sor_base e
                 end }.
End kernel.

(** ** integrationevents/sales_order_created.go *)
Module SalesIntegrationEvents.
Section integration.
Context `{UuidLib}.

Definition SalesOrderCreatedName : string := "sales.sales_order_created".

Record SalesOrderCreatedRow := mkSalesOrderCreatedRow {
  ir_BeerId : string; ir_BeerName : string; ir_Quantity : Z; ir_UnitOfMeasure : string }.

Record IntegrationSalesOrderCreated := mkIntegrationSalesOrderCreated {
  isoc_base : IntegrationEventBase; isoc_SalesOrderId : string;
  isoc_Rows : list SalesOrderCreatedRow }.

Definition NewIntegrationSalesOrderCreated (salesOrderId commitId : UUID)
    (rows : list SalesOrderCreatedRow) :=
  mkIntegrationSalesOrderCreated (NewIntegrationEventBase commitId)
    (uuid_String salesOrderId) rows.

#[global] Instance IntegrationSalesOrderCreated_Message :
    Message IntegrationSalesOrderCreated := λ _, SalesOrderCreatedName.
End integration.
End SalesIntegrationEvents.
