(* ===== verification/SalesJson.v ===== *)
(** * The JSON contracts of the Sales module

    One encoder and one decoder per struct of [internal/sales/sharedkernel],
    with the struct's tags; what an encoder writes, the decoder reads back. *)
From S2P Require Import Prelude Errors Kernel Bus Json.
From S2P Require Import SalesKernel.
#[local] Open Scope Z_scope.

Section codecs.
Context `{GoText} {U : UuidLib}.

#[global] Instance SalesOrderId_to_json : ToJson SalesOrderId := λ x,
  object [("value", to_json (SalesOrderId_Value x))]%string.
#[global] Instance SalesOrderId_from_json : FromJson SalesOrderId := {
  zero_value := mkSalesOrderId uuid_Nil;
  from_json := struct_from_json (λ ms x,
    value ← field "value" ms (SalesOrderId_Value x);
    Ok (mkSalesOrderId value)) }.
#[global] Instance SalesOrderId_reads : JsonReads SalesOrderId SalesOrderId (λ x, x).
Proof. solve_reads. Qed.

#[global] Instance SalesOrderNumber_to_json : ToJson SalesOrderNumber := λ x,
  object [("value", to_json (SalesOrderNumber_Value x))]%string.
#[global] Instance SalesOrderNumber_from_json : FromJson SalesOrderNumber := {
  zero_value := mkSalesOrderNumber "";
  from_json := struct_from_json (λ ms x,
    value ← field "value" ms (SalesOrderNumber_Value x);
    Ok (mkSalesOrderNumber value)) }.
#[global] Instance SalesOrderNumber_reads : JsonReads SalesOrderNumber SalesOrderNumber (λ x, x).
Proof. solve_reads. Qed.

#[global] Instance OrderDate_to_json : ToJson OrderDate := λ x,
  object [("value", time_to_json (OrderDate_Value x))]%string.
#[global] Instance OrderDate_from_json : FromJson OrderDate := {
  zero_value := mkOrderDate 0;
  from_json := struct_from_json (λ ms x,
    value ← field_with time_from_json "value" ms (OrderDate_Value x);
    Ok (mkOrderDate value)) }.
#[global] Instance OrderDate_reads : JsonReads OrderDate OrderDate (λ x, x).
Proof. solve_reads. Qed.

#[global] Instance CustomerId_to_json : ToJson CustomerId := λ x,
  object [("value", to_json (CustomerId_Value x))]%string.
#[global] Instance CustomerId_from_json : FromJson CustomerId := {
  zero_value := mkCustomerId uuid_Nil;
  from_json := struct_from_json (λ ms x,
    value ← field "value" ms (CustomerId_Value x);
    Ok (mkCustomerId value)) }.
#[global] Instance CustomerId_reads : JsonReads CustomerId CustomerId (λ x, x).
Proof. solve_reads. Qed.

#[global] Instance CustomerName_to_json : ToJson CustomerName := λ x,
  object [("value", to_json (CustomerName_Value x))]%string.
#[global] Instance CustomerName_from_json : FromJson CustomerName := {
  zero_value := mkCustomerName "";
  from_json := struct_from_json (λ ms x,
    value ← field "value" ms (CustomerName_Value x);
    Ok (mkCustomerName value)) }.
#[global] Instance CustomerName_reads : JsonReads CustomerName CustomerName (λ x, x).
Proof. solve_reads. Qed.

#[global] Instance SalesBeerId_to_json : ToJson BeerId := λ x,
  object [("value", to_json (BeerId_Value x))]%string.
#[global] Instance SalesBeerId_from_json : FromJson BeerId := {
  zero_value := mkBeerId uuid_Nil;
  from_json := struct_from_json (λ ms x,
    value ← field "value" ms (BeerId_Value x);
    Ok (mkBeerId value)) }.
#[global] Instance SalesBeerId_reads : JsonReads BeerId BeerId (λ x, x).
Proof. solve_reads. Qed.

#[global] Instance SalesBeerName_to_json : ToJson BeerName := λ x,
  object [("value", to_json (BeerName_Value x))]%string.
#[global] Instance SalesBeerName_from_json : FromJson BeerName := {
  zero_value := mkBeerName "";
  from_json := struct_from_json (λ ms x,
    value ← field "value" ms (BeerName_Value x);
    Ok (mkBeerName value)) }.
#[global] Instance SalesBeerName_reads : JsonReads BeerName BeerName (λ x, x).
Proof. solve_reads. Qed.

#[global] Instance SalesOrderRowDto_to_json : ToJson SalesOrderRowDto := λ x,
  object [("beer_id", to_json (dto_BeerId x));
     ("beer_name", to_json (dto_BeerName x));
     ("quantity", to_json (dto_Quantity x));
     ("price", to_json (dto_Price x))]%string.
#[global] Instance SalesOrderRowDto_from_json : FromJson SalesOrderRowDto := {
  zero_value := mkSalesOrderRowDto zero_value zero_value zero_value zero_value;
  from_json := struct_from_json (λ ms x,
    beer_id ← field "beer_id" ms (dto_BeerId x);
    beer_name ← field "beer_name" ms (dto_BeerName x);
    quantity ← field "quantity" ms (dto_Quantity x);
    price ← field "price" ms (dto_Price x);
    Ok (mkSalesOrderRowDto beer_id beer_name quantity price)) }.
#[global] Instance SalesOrderRowDto_reads : JsonReads SalesOrderRowDto SalesOrderRowDto (λ x, x).
Proof. solve_reads. Qed.

#[global] Instance cso_to_json : ToJson CreateSalesOrder := λ x,
  object (command_members (cso_base x) ++
    [("sales_order_id", to_json (cso_SalesOrderId x));
     ("sales_order_number", to_json (cso_SalesOrderNumber x));
     ("order_date", to_json (cso_OrderDate x));
     ("customer_id", to_json (cso_CustomerId x));
     ("customer_name", to_json (cso_CustomerName x));
     ("rows", to_json (cso_Rows x))]%string).
#[global] Instance cso_from_json : FromJson CreateSalesOrder := {
  zero_value := mkCreateSalesOrder zero_command zero_value zero_value zero_value zero_value zero_value [];
  from_json := struct_from_json (λ ms x,
    base ← command_base ms (cso_base x);
    sales_order_id ← field "sales_order_id" ms (cso_SalesOrderId x);
    sales_order_number ← field "sales_order_number" ms (cso_SalesOrderNumber x);
    order_date ← field "order_date" ms (cso_OrderDate x);
    customer_id ← field "customer_id" ms (cso_CustomerId x);
    customer_name ← field "customer_name" ms (cso_CustomerName x);
    rows ← field "rows" ms (cso_Rows x);
    Ok (mkCreateSalesOrder base sales_order_id sales_order_number order_date customer_id customer_name rows)) }.
#[global] Instance cso_reads : JsonReads CreateSalesOrder CreateSalesOrder (λ x, x).
Proof. solve_reads. Qed.

#[global] Instance msa_to_json : ToJson MarkSalesOrderAllocated := λ x,
  object (command_members (msa_base x) ++
    [("sales_order_id", to_json (msa_SalesOrderId x))]%string).
#[global] Instance msa_from_json : FromJson MarkSalesOrderAllocated := {
  zero_value := mkMarkSalesOrderAllocated zero_command zero_value;
  from_json := struct_from_json (λ ms x,
    base ← command_base ms (msa_base x);
    sales_order_id ← field "sales_order_id" ms (msa_SalesOrderId x);
    Ok (mkMarkSalesOrderAllocated base sales_order_id)) }.
#[global] Instance msa_reads : JsonReads MarkSalesOrderAllocated MarkSalesOrderAllocated (λ x, x).
Proof. solve_reads. Qed.

#[global] Instance msr_to_json : ToJson MarkSalesOrderAllocationRejected := λ x,
  object (command_members (msr_base x) ++
    [("sales_order_id", to_json (msr_SalesOrderId x));
     ("reason", to_json (msr_Reason x))]%string).
#[global] Instance msr_from_json : FromJson MarkSalesOrderAllocationRejected := {
  zero_value := mkMarkSalesOrderAllocationRejected zero_command zero_value "";
  from_json := struct_from_json (λ ms x,
    base ← command_base ms (msr_base x);
    sales_order_id ← field "sales_order_id" ms (msr_SalesOrderId x);
    reason ← field "reason" ms (msr_Reason x);
    Ok (mkMarkSalesOrderAllocationRejected base sales_order_id reason)) }.
#[global] Instance msr_reads : JsonReads MarkSalesOrderAllocationRejected MarkSalesOrderAllocationRejected (λ x, x).
Proof. solve_reads. Qed.

#[global] Instance soc_to_json : ToJson SalesOrderCreated := λ x,
  object (event_members (soc_base x) ++
    [("sales_order_id", to_json (soc_SalesOrderId x));
     ("sales_order_number", to_json (soc_SalesOrderNumber x));
     ("order_date", to_json (soc_OrderDate x));
     ("customer_id", to_json (soc_CustomerId x));
     ("customer_name", to_json (soc_CustomerName x));
     ("rows", to_json (soc_Rows x))]%string).
#[global] Instance soc_from_json : FromJson SalesOrderCreated := {
  zero_value := mkSalesOrderCreated zero_event zero_value zero_value zero_value zero_value zero_value [];
  from_json := struct_from_json (λ ms x,
    base ← event_base ms (soc_base x);
    sales_order_id ← field "sales_order_id" ms (soc_SalesOrderId x);
    sales_order_number ← field "sales_order_number" ms (soc_SalesOrderNumber x);
    order_date ← field "order_date" ms (soc_OrderDate x);
    customer_id ← field "customer_id" ms (soc_CustomerId x);
    customer_name ← field "customer_name" ms (soc_CustomerName x);
    rows ← field "rows" ms (soc_Rows x);
    Ok (mkSalesOrderCreated base sales_order_id sales_order_number order_date customer_id customer_name rows)) }.
#[global] Instance soc_reads : JsonReads SalesOrderCreated SalesOrderCreated (λ x, x).
Proof. solve_reads. Qed.

#[global] Instance soa_to_json : ToJson SalesOrderAllocated := λ x,
  object (event_members (soa_base x) ++
    [("sales_order_id", to_json (soa_SalesOrderId x))]%string).
#[global] Instance soa_from_json : FromJson SalesOrderAllocated := {
  zero_value := mkSalesOrderAllocated zero_event zero_value;
  from_json := struct_from_json (λ ms x,
    base ← event_base ms (soa_base x);
    sales_order_id ← field "sales_order_id" ms (soa_SalesOrderId x);
    Ok (mkSalesOrderAllocated base sales_order_id)) }.
#[global] Instance soa_reads : JsonReads SalesOrderAllocated SalesOrderAllocated (λ x, x).
Proof. solve_reads. Qed.

#[global] Instance sor_to_json : ToJson SalesOrderAllocationRejected := λ x,
  object (event_members (sor_base x) ++
    [("sales_order_id", to_json (sor_SalesOrderId x));
     ("reason", to_json (sor_Reason x))]%string).
#[global] Instance sor_from_json : FromJson SalesOrderAllocationRejected := {
  zero_value := mkSalesOrderAllocationRejected zero_event zero_value "";
  from_json := struct_from_json (λ ms x,
    base ← event_base ms (sor_base x);
    sales_order_id ← field "sales_order_id" ms (sor_SalesOrderId x);
    reason ← field "reason" ms (sor_Reason x);
    Ok (mkSalesOrderAllocationRejected base sales_order_id reason)) }.
#[global] Instance sor_reads : JsonReads SalesOrderAllocationRejected SalesOrderAllocationRejected (λ x, x).
Proof. solve_reads. Qed.

(** A domain event is encoded as the struct its dynamic type is. *)
#[global] Instance SalesEvent_to_json : ToJson SalesEvent := λ e,
  match e with
  | EvSalesOrderCreated e => to_json e
  | EvSalesOrderAllocated e => to_json e
  | EvSalesOrderAllocationRejected e => to_json e
  end.

(** ** The integration event *)
#[global] Instance integration_row_to_json :
    ToJson SalesIntegrationEvents.SalesOrderCreatedRow := λ x,
  object [("beer_id", to_json (SalesIntegrationEvents.ir_BeerId x));
     ("beer_name", to_json (SalesIntegrationEvents.ir_BeerName x));
     ("quantity", to_json (SalesIntegrationEvents.ir_Quantity x));
     ("unit_of_measure", to_json (SalesIntegrationEvents.ir_UnitOfMeasure x))]%string.
#[global] Instance integration_created_to_json :
    ToJson SalesIntegrationEvents.IntegrationSalesOrderCreated := λ x,
  object (integration_members (SalesIntegrationEvents.isoc_base x) ++
    [("sales_order_id", to_json (SalesIntegrationEvents.isoc_SalesOrderId x));
     ("rows", to_json (SalesIntegrationEvents.isoc_Rows x))]%string).
End codecs.
