(* ===== verification/SalesOrder.v ===== *)
(** * The [SalesOrder] aggregate ([internal/sales/domain/sales_order.go]) *)
From S2P Require Import Prelude Errors Kernel Aggregate SalesKernel.
#[local] Open Scope Z_scope.

Section order.
Context {U : UuidLib}.

Definition OrderStreamName : string := "SalesOrder".

(** The Go string type, with its zero value [""] before the creation event. *)
Inductive AllocationStatus :=
| AllocationUnset | AllocationPending | AllocationDone | AllocationRejected.

#[global] Instance AllocationStatus_eq_dec : EqDecision AllocationStatus.
Proof. solve_decision. Defined.

Definition ErrInvalidSalesOrder : error :=
  ErrInvalid "sales order needs a number, a customer, and an order date".
Definition ErrAllocationConflict : error :=
  ErrInvalid "sales order allocation already settled differently".

Record SalesOrder := mkSalesOrder {
  so_root : AggregateRoot SalesEvent;
  so_salesOrderId : SalesOrderId;
  so_salesOrderNumber : SalesOrderNumber;
  so_orderDate : OrderDate;
  so_customerId : CustomerId;
  so_customerName : CustomerName;
  so_rows : list SalesOrderRowDto;
  so_allocation : AllocationStatus;
  so_rejectionReason : string;
}.

Definition NewSalesOrder : SalesOrder :=
  mkSalesOrder new_root (mkSalesOrderId uuid_Nil) (mkSalesOrderNumber "") (mkOrderDate 0)
    (mkCustomerId uuid_Nil) (mkCustomerName "") [] AllocationUnset "".

Definition with_so_root (r : AggregateRoot SalesEvent) (s : SalesOrder) : SalesOrder :=
  mkSalesOrder r (so_salesOrderId s) (so_salesOrderNumber s) (so_orderDate s)
    (so_customerId s) (so_customerName s) (so_rows s) (so_allocation s) (so_rejectionReason s).

Definition with_allocation (st : AllocationStatus) (reason : string) (s : SalesOrder)
    : SalesOrder :=
  mkSalesOrder (so_root s) (so_salesOrderId s) (so_salesOrderNumber s) (so_orderDate s)
    (so_customerId s) (so_customerName s) (so_rows s) st reason.

Definition applySalesOrderCreated (e : SalesOrderCreated) (s : SalesOrder) : SalesOrder :=
  mkSalesOrder (root_SetID (SalesOrderId_Value (soc_SalesOrderId e)) (so_root s))
    (soc_SalesOrderId e) (soc_SalesOrderNumber e) (soc_OrderDate e) (soc_CustomerId e)
    (soc_CustomerName e) (soc_Rows e) AllocationPending (so_rejectionReason s).

Definition SalesOrder_Route (event : SalesEvent) (s : SalesOrder) : SalesOrder :=
  match event with
  | EvSalesOrderCreated e => applySalesOrderCreated e s
  | EvSalesOrderAllocated _ => with_allocation AllocationDone (so_rejectionReason s) s
  | EvSalesOrderAllocationRejected e => with_allocation AllocationRejected (sor_Reason e) s
  end.

#[global] Instance SalesOrder_Aggregate : Aggregate SalesEvent SalesOrder := {
  agg_root := so_root; set_root := with_so_root; Route := SalesOrder_Route }.

#[global] Instance SalesOrder_laws : AggregateLaws SalesEvent SalesOrder.
Proof. split; [done|done|..]; intros []; cbv zeta; intros; simpl; done. Qed.

(** ** Operations *)

(** [domain.CreateSalesOrder]. *)
Definition create_SalesOrder (salesOrderId : SalesOrderId) (commitId : UUID)
    (number : SalesOrderNumber) (date : OrderDate) (customerId : CustomerId)
    (customerName : CustomerName) (rows : list SalesOrderRowDto) : result SalesOrder :=
  if bool_decide (GoStrings.TrimSpace (SalesOrderNumber_Value number) = "")
     || bool_decide (GoStrings.TrimSpace (CustomerName_Value customerName) = "")
     || IsZero (OrderDate_Value date)
  then Err ErrInvalidSalesOrder
  else Ok (RaiseEvent (EvSalesOrderCreated (NewSalesOrderCreated salesOrderId commitId
             number date customerId customerName rows)) NewSalesOrder).

(** The [Mark*] methods: the boolean and the order, or the error. *)
Definition MarkAllocated (commitId : UUID) (s : SalesOrder) : result (bool * SalesOrder) :=
  match so_allocation s with
  | AllocationDone => Ok (false, s)
  | AllocationRejected => Err ErrAllocationConflict
  | _ => Ok (true, RaiseEvent (EvSalesOrderAllocated
                     (NewSalesOrderAllocated (so_salesOrderId s) commitId)) s)
  end.

Definition MarkAllocationRejected (commitId : UUID) (reason : string) (s : SalesOrder)
    : result (bool * SalesOrder) :=
  match so_allocation s with
  | AllocationRejected => Ok (false, s)
  | AllocationDone => Err ErrAllocationConflict
  | _ => Ok (true, RaiseEvent (EvSalesOrderAllocationRejected
                     (NewSalesOrderAllocationRejected (so_salesOrderId s) commitId reason)) s)
  end.
End order.

(** ** Facts *)
Section facts.
Context {U : UuidLib}.

(** Creating an order: it is refused exactly when the number or the customer
    name is made of white space only or the date is the zero time; otherwise one
    event with the given data is raised and the order is pending. *)
Theorem create_SalesOrder_spec id c number date cust name rows :
  (create_SalesOrder id c number date cust name rows = Err ErrInvalidSalesOrder ↔
   GoStrings.blank (String.list_ascii_of_string (SalesOrderNumber_Value number)) ∨
   GoStrings.blank (String.list_ascii_of_string (CustomerName_Value name)) ∨
   OrderDate_Value date = 0) ∧
  match create_SalesOrder id c number date cust name rows with
  | Err e => e = ErrInvalidSalesOrder
  | Ok s => ID s = SalesOrderId_Value id ∧ so_allocation s = AllocationPending ∧
      so_rows s = rows ∧ Version s = 1 ∧
      UncommittedEvents s =
        [EvSalesOrderCreated (NewSalesOrderCreated id c number date cust name rows)]
  | Panic _ => False
  end.
Proof.
  unfold create_SalesOrder, IsZero. rewrite <- !GoStrings.TrimSpace_empty. split.
  - split.
    + case_match eqn:E; [|done]. intros _.
      apply orb_true_iff in E as [E|E]; [apply orb_true_iff in E as [E|E]|];
        [left; by apply bool_decide_eq_true in E
        | right; left; by apply bool_decide_eq_true in E | right; right; lia].
    + intros [-> | [-> | ->]]; by rewrite ?orb_true_r.
  - destruct (_ || _); [done|]. repeat split.
Qed.

(** An attempt to settle the allocation of an order. *)
Inductive settlement :=
| SettleAllocated (c : UUID)
| SettleRejected (c : UUID) (reason : string).

Definition settle (a : settlement) (s : SalesOrder) : result (bool * SalesOrder) :=
  match a with
  | SettleAllocated c => MarkAllocated c s
  | SettleRejected c reason => MarkAllocationRejected c reason s
  end.

Definition settlement_status (a : settlement) : AllocationStatus :=
  match a with
  | SettleAllocated _ => AllocationDone
  | SettleRejected _ _ => AllocationRejected
  end.

Definition settlement_event (id : SalesOrderId) (a : settlement) : SalesEvent :=
  match a with
  | SettleAllocated c => EvSalesOrderAllocated (NewSalesOrderAllocated id c)
  | SettleRejected c reason =>
      EvSalesOrderAllocationRejected (NewSalesOrderAllocationRejected id c reason)
  end.

(** One attempt: the first moves a pending order, a later one that agrees is a
    no-op, one that disagrees is a conflict. *)
Lemma settle_spec a s :
  settle a s =
  if bool_decide (so_allocation s = settlement_status a) then Ok (false, s)
  else if bool_decide (so_allocation s = AllocationDone ∨ so_allocation s = AllocationRejected)
  then Err ErrAllocationConflict
  else Ok (true, RaiseEvent (settlement_event (so_salesOrderId s) a) s).
Proof.
  destruct a; simpl; unfold MarkAllocated, MarkAllocationRejected;
    destruct (so_allocation s); reflexivity.
Qed.

(** A sequence of attempts on one object; a refused attempt leaves it as it is. *)
Fixpoint settle_all (attempts : list settlement) (s : SalesOrder)
    : list (result bool) * SalesOrder :=
  match attempts with
  | [] => ([], s)
  | a :: attempts =>
      let '(answer, s) := match settle a s with
                          | Ok (changed, s') => (Ok changed, s')
                          | Err e => (Err e, s)
                          | Panic m => (Panic m, s)
                          end in
      let '(answers, s) := settle_all attempts s in (answer :: answers, s)
  end.

(** The answer to an attempt once the order is settled as [st]. *)
Definition late_answer (st : AllocationStatus) (a : settlement) : result bool :=
  if bool_decide (settlement_status a = st) then Ok false else Err ErrAllocationConflict.

Lemma settle_all_settled st attempts s :
  st = AllocationDone ∨ st = AllocationRejected → so_allocation s = st →
  settle_all attempts s = (late_answer st <$> attempts, s).
Proof.
  intros Hst Hs. induction attempts as [|a attempts IH]; [done|].
  simpl. rewrite settle_spec, Hs. unfold late_answer at 1.
  rewrite (bool_decide_ext (st = settlement_status a) (settlement_status a = st)) by done.
  destruct (bool_decide (settlement_status a = st)); [by rewrite IH|].
  rewrite bool_decide_eq_true_2 by done. by rewrite IH.
Qed.

(** First settlement wins: of any sequence of attempts to settle a pending
    order, the first decides the status and raises the one event; every later
    one is acknowledged without effect when it agrees and refused as a conflict
    when it does not. *)
Theorem first_settlement_wins a attempts s :
  so_allocation s = AllocationPending →
  ∃ s', settle_all (a :: attempts) s
        = (Ok true :: (late_answer (settlement_status a) <$> attempts), s') ∧
    so_allocation s' = settlement_status a ∧ Version s' = Version s + 1 ∧
    UncommittedEvents s' = UncommittedEvents s ++ [settlement_event (so_salesOrderId s) a].
Proof.
  intros Hs. simpl. rewrite settle_spec, Hs.
  rewrite bool_decide_eq_false_2 by (by destruct a).
  rewrite bool_decide_eq_false_2 by naive_solver.
  rewrite (settle_all_settled (settlement_status a)); [|destruct a; auto|by destruct a].
  eexists. split; [done|]. split; [by destruct a|].
  by rewrite Version_RaiseEvent, UncommittedEvents_RaiseEvent.
Qed.
End facts.

(** ** Evaluated instances *)
Section witnesses.
#[local] Existing Instance DemoUuid.lib.

Definition sample_order : SalesOrder :=
  RaiseEvent (EvSalesOrderCreated (NewSalesOrderCreated (mkSalesOrderId (uid "o")) (uid "c")
    (mkSalesOrderNumber "1") (mkOrderDate 5) (mkCustomerId (uid "k")) (mkCustomerName "Ann") []))
    NewSalesOrder.

Lemma first_settlement_wins_witness :
  ∃ s', settle_all [SettleRejected (uid "c1") "no stock"; SettleAllocated (uid "c2");
                    SettleRejected (uid "c3") "again"] sample_order
        = ([Ok true; Err ErrAllocationConflict; Ok false], s') ∧
    so_allocation s' = AllocationRejected ∧ Version s' = 2 ∧
    UncommittedEvents s' = UncommittedEvents sample_order ++
      [settlement_event (so_salesOrderId sample_order) (SettleRejected (uid "c1") "no stock")].
Proof.
  apply (first_settlement_wins (SettleRejected (uid "c1") "no stock")
           [SettleAllocated (uid "c2"); SettleRejected (uid "c3") "again"] sample_order
           eq_refl).
Defined.
End witnesses.
