(* ===== verification/SalesHandlers.v ===== *)
(** * The Sales command handlers
    ([internal/sales/domain/commandhandlers])

    Idempotent creation and the two settlement handlers, and the shape they
    give to an order's stream under concurrent and repeated delivery. *)
From S2P Require Import Prelude Errors Kernel Aggregate EventStore World Repository.
From S2P Require Import SalesKernel SalesOrder.
#[local] Open Scope Z_scope.

Section handlers.
Context {U : UuidLib} {St B : Type} `{!EventStore SalesEvent St}.
Context (repository : EventStoreRepository SalesEvent SalesOrder B).
Abbreviation M := (GoM (World St B)).

(** [return h.repository.Save(ctx, aggregate, uuid.New())]. *)
Definition save_order (aggregate : SalesOrder) : M unit :=
  commit ← uuid_New_;
  _ ← Save repository aggregate commit;
  mret tt.

Definition HandleCreateSalesOrder (command : CreateSalesOrder) : M unit :=
  loaded ← attempt (GetByID repository (cmd_AggregateId (cso_base command)));
  match loaded with
  | inr _ => mret tt
  | inl err =>
      if negb (errors_Is err ErrAggregateNotFound) then throw err
      else
        aggregate ← lift (create_SalesOrder (cso_SalesOrderId command)
                            (cmd_CommitId (cso_base command)) (cso_SalesOrderNumber command)
                            (cso_OrderDate command) (cso_CustomerId command)
                            (cso_CustomerName command) (cso_Rows command));
        save_order aggregate
  end.

Definition HandleMarkSalesOrderAllocated (command : MarkSalesOrderAllocated) : M unit :=
  aggregate ← GetByID repository (cmd_AggregateId (msa_base command));
  marked ← lift (MarkAllocated (cmd_CommitId (msa_base command)) aggregate);
  let '(changed, aggregate) := marked in
  if negb changed then mret tt else save_order aggregate.

Definition HandleMarkSalesOrderAllocationRejected
    (command : MarkSalesOrderAllocationRejected) : M unit :=
  aggregate ← GetByID repository (cmd_AggregateId (msr_base command));
  marked ← lift (MarkAllocationRejected (cmd_CommitId (msr_base command)) (msr_Reason command)
                   aggregate);
  let '(changed, aggregate) := marked in
  if negb changed then mret tt else save_order aggregate.

(** ** The three commands as one delivery *)
Inductive sales_delivery :=
| Create (c : CreateSalesOrder)
| Allocated (c : MarkSalesOrderAllocated)
| Rejected (c : MarkSalesOrderAllocationRejected).

Definition handle_sales (d : sales_delivery) : M unit :=
  match d with
  | Create c => HandleCreateSalesOrder c
  | Allocated c => HandleMarkSalesOrderAllocated c
  | Rejected c => HandleMarkSalesOrderAllocationRejected c
  end.

Definition sales_target (d : sales_delivery) : UUID :=
  match d with
  | Create c => cmd_AggregateId (cso_base c)
  | Allocated c => cmd_AggregateId (msa_base c)
  | Rejected c => cmd_AggregateId (msr_base c)
  end.

(** What a delivery does with the loaded order: nothing ([None]), or an order to
    save. *)
Definition decide_sales (d : sales_delivery) (loaded : error + SalesOrder)
    : result (option SalesOrder) :=
  let changed (m : result (bool * SalesOrder)) :=
    result_bind (λ '(b, s), Ok (if b : bool then Some s else None)) m in
  match d, loaded with
  | Create c, inr _ => Ok None
  | Create c, inl err =>
      if negb (errors_Is err ErrAggregateNotFound) then Err err
      else result_bind (λ s, Ok (Some s))
             (create_SalesOrder (cso_SalesOrderId c) (cmd_CommitId (cso_base c))
                (cso_SalesOrderNumber c) (cso_OrderDate c) (cso_CustomerId c)
                (cso_CustomerName c) (cso_Rows c))
  | _, inl err => Err err
  | Allocated c, inr s => changed (MarkAllocated (cmd_CommitId (msa_base c)) s)
  | Rejected c, inr s =>
      changed (MarkAllocationRejected (cmd_CommitId (msr_base c)) (msr_Reason c) s)
  end.

(** A handler's two halves. *)
Definition load_order (d : sales_delivery) : M (option SalesOrder) :=
  loaded ← attempt (GetByID repository (sales_target d));
  lift (decide_sales d loaded).

Definition save_decided (o : option SalesOrder) : M unit :=
  match o with Some s => save_order s | None => mret tt end.

Lemma handle_sales_halves d w : handle_sales d w = (load_order d ≫= save_decided) w.
Proof.
  destruct d as [c|c|c]; unfold handle_sales, load_order, HandleCreateSalesOrder,
    HandleMarkSalesOrderAllocated, HandleMarkSalesOrderAllocationRejected, sales_target; simpl;
    go_run; destruct (GetByID _ _ w) as [[a|e|m] w1]; simpl; try done.
  - destruct (negb _); [done|]. by destruct (create_SalesOrder _ _ _ _ _ _ _).
  - by destruct (MarkAllocated _ _) as [[[] ?]| |].
  - by destruct (MarkAllocationRejected _ _ _) as [[[] ?]| |].
Qed.
End handlers.

(** ** The shape of an order's stream *)
Section shape.
Context {U : UuidLib}.

(** What [create_SalesOrder] accepted. *)
Definition valid_creation (e : SalesOrderCreated) : Prop :=
  GoStrings.TrimSpace (SalesOrderNumber_Value (soc_SalesOrderNumber e)) ≠ "" ∧
  GoStrings.TrimSpace (CustomerName_Value (soc_CustomerName e)) ≠ "" ∧
  OrderDate_Value (soc_OrderDate e) ≠ 0.

(** A stream is empty, or holds the creation of its order from valid data, or
    that and one settlement. *)
Inductive order_shape (id : UUID) : list SalesEvent → Prop :=
| shape_empty : order_shape id []
| shape_created e :
    SalesOrderId_Value (soc_SalesOrderId e) = id → valid_creation e →
    order_shape id [EvSalesOrderCreated e]
| shape_settled e a :
    SalesOrderId_Value (soc_SalesOrderId e) = id → valid_creation e →
    order_shape id [EvSalesOrderCreated e; settlement_event (soc_SalesOrderId e) a].

(** The event a create command asks for. *)
Definition created_by (c : CreateSalesOrder) : SalesOrderCreated :=
  NewSalesOrderCreated (cso_SalesOrderId c) (cmd_CommitId (cso_base c)) (cso_SalesOrderNumber c)
    (cso_OrderDate c) (cso_CustomerId c) (cso_CustomerName c) (cso_Rows c).

(** The event a delivery may add to its order's stream. *)
Definition answers (d : sales_delivery) (e : SalesEvent) : Prop :=
  match d, e with
  | Create c, EvSalesOrderCreated e => e = created_by c
  | Allocated _, EvSalesOrderAllocated _ => True
  | Rejected c, EvSalesOrderAllocationRejected e => sor_Reason e = msr_Reason c
  | _, _ => False
  end.

(** A create command as its constructor builds it. *)
Definition addressed (d : sales_delivery) : Prop :=
  match d with
  | Create c => SalesOrderId_Value (cso_SalesOrderId c) = cmd_AggregateId (cso_base c)
  | _ => True
  end.
End shape.

Section concurrent.
Context {U : UuidLib} {St B : Type} `{!EventStore SalesEvent St}.
Context (publisher_ : option (SalesEvent → GoM B unit)).
Context (view : St → string → list (StoredEvent SalesEvent)) `{!EventStoreLaws view}.
Implicit Types (w : World St B) (id : UUID) (s : SalesOrder).

Definition orders : EventStoreRepository SalesEvent SalesOrder B :=
  NewEventStoreRepository NewSalesOrder OrderStreamName publisher_.

Abbreviation log w id := (history view orders w id).

Lemma orders_blank : blank_factory orders.
Proof. by split. Qed.

(** The handler decides one more event, and the stream keeps its shape. *)
Lemma decide_sales_shape d l loaded s :
  addressed d → order_shape (sales_target d) l →
  match loaded with
  | inr s' => l ≠ [] ∧ s' = replay orders l
  | inl err => errors_Is err ErrAggregateNotFound = true → l = []
  end →
  decide_sales d loaded = Ok (Some s) →
  ∃ e, s = RaiseEvent e (replay orders l) ∧ ID s = sales_target d ∧
    order_shape (sales_target d) (l ++ [e]) ∧ answers d e.
Proof.
  intros Ha Hl Hload Hd.
  assert (∀ a s', l ≠ [] → s' = replay orders l →
    (∀ i, answers d (settlement_event i a)) →
    result_bind (λ '(b, s), Ok (if b : bool then Some s else None)) (settle a s') = Ok (Some s) →
    ∃ e, s = RaiseEvent e (replay orders l) ∧ ID s = sales_target d ∧
      order_shape (sales_target d) (l ++ [e]) ∧ answers d e) as Hsettle.
  { clear Hload Hd. intros a s' Hne -> Hans Hs. rewrite settle_spec in Hs.
    destruct Hl as [|e He Hv|e b He Hv]; [done| |].
    - rewrite bool_decide_eq_false_2 in Hs by (by destruct a).
      rewrite bool_decide_eq_false_2 in Hs by (by intros [?|?]).
      change (Ok (Some (RaiseEvent (settlement_event (soc_SalesOrderId e) a)
                (replay orders [EvSalesOrderCreated e]))) = Ok (Some s)) in Hs.
      apply (inj Ok), (inj Some) in Hs as <-.
      eexists. split; [reflexivity|]. split; [by destruct a|]. split; [by apply shape_settled|done].
    - exfalso. by destruct a, b. }
  destruct d as [c|c|c], loaded as [err|s']; unfold decide_sales in Hd; cbv zeta in Hd; try done.
  - destruct (errors_Is err _); unfold negb in Hd; [|done]. rewrite Hload by done.
    unfold create_SalesOrder in Hd. case_match eqn:Hv; [done|].
    unfold result_bind in Hd. apply (inj Ok), (inj Some) in Hd as <-.
    apply orb_false_iff in Hv as [Hv Hz]. apply orb_false_iff in Hv as [Hn Hc].
    apply bool_decide_eq_false in Hn, Hc. unfold IsZero in Hz.
    eexists. split; [reflexivity|]. split; [exact Ha|]. split; [|done].
    apply shape_created; [exact Ha|]. split; [done|]. split; [done|]. simpl. lia.
  - destruct Hload. by eapply (Hsettle (SettleAllocated _) s').
  - destruct Hload. by eapply (Hsettle (SettleRejected _ _) s').
Qed.

(** Replicas handling sales commands: [pool] holds the orders between the load
    and the save of their handler, with the order's identifier. *)
Inductive sales_system (w0 : World St B) : list (UUID * SalesOrder) → World St B → Prop :=
| sales_start : sales_system w0 [] w0
| sales_load pool w d r w' :
    sales_system w0 pool w → addressed d → load_order orders d w = (r, w') →
    sales_system w0 (match r with Ok (Some s) => (sales_target d, s) :: pool | _ => pool end) w'
| sales_save pool pool' id s w r w' :
    sales_system w0 (pool ++ (id, s) :: pool') w → save_order orders s w = (r, w') →
    sales_system w0 (pool ++ pool') w'
| sales_crash pool pool' x w :
    sales_system w0 (pool ++ x :: pool') w → sales_system w0 (pool ++ pool') w
| sales_other pool w w' :
    sales_system w0 pool w → (∀ id, log w' id = log w id) → sales_system w0 pool w'.

Lemma load_order_logs d w r w' :
  load_order orders d w = (r, w') →
  (∀ id, log w' id = log w id) ∧
  ∃ loaded, r = decide_sales d loaded ∧
    match loaded with
    | inr s => log w (sales_target d) ≠ [] ∧ s = replay orders (log w (sales_target d))
    | inl err => errors_Is err ErrAggregateNotFound = true → log w (sales_target d) = []
    end.
Proof.
  intros Hl. unfold load_order in Hl. go_run. destruct (GetByID _ _ w) as [rs w1] eqn:E.
  apply (GetByID_spec view) in E as (Hs & _ & _ & _ & Hr).
  assert (w1 = w') as <- by (by destruct rs; simplify_eq).
  split; [intros id; unfold history; by rewrite Hs|].
  destruct rs as [a|err|]; simplify_eq; [by exists (inr a) | by exists (inl err) | done].
Qed.

(** Loading sends nothing. *)
Lemma load_order_bus d w r w' : load_order orders d w = (r, w') → w_bus w' = w_bus w.
Proof.
  unfold load_order. go_run. destruct (GetByID _ _ w) as [rs w1] eqn:E.
  apply (GetByID_spec view) in E as (_ & Hb & _). by destruct rs; intros [= _ <-].
Qed.

(** What the pool knows: each waiting order is one decided event ahead of a
    prefix of its stream. *)
Definition waiting_ok w (pool : list (UUID * SalesOrder)) : Prop :=
  ∀ id s, (id, s) ∈ pool → ∃ old e extra, log w id = old ++ extra ∧
    s = RaiseEvent e (replay orders old) ∧ ID s = id ∧ order_shape id (old ++ [e]).

Lemma save_order_logs old e id w r w' :
  ID (RaiseEvent e (replay orders old)) = id →
  save_order orders (RaiseEvent e (replay orders old)) w = (r, w') →
  (∀ id', id' ≠ id → log w' id' = log w id') ∧
  (log w' id = log w id ∨ length (log w id) = length old ∧ log w' id = log w id ++ [e]).
Proof.
  intros Hid Hs. unfold save_order, uuid_New_ in Hs. go_run.
  set (w1 := mkWorld _ _ _ _) in Hs.
  destruct (Save _ _ _ w1) as [rs w2] eqn:E. assert (w2 = w') as -> by (by destruct rs; simplify_eq).
  change (RaiseEvent e (replay orders old)) with (loaded_and_raised orders old [e]) in *.
  apply (Save_spec view orders id) in E as [Ho Hc]; [|apply orders_blank|done|done].
  split; [intros id' Hne; unfold history; rewrite Ho; [done|by intros ?%stream_inj]|].
  destruct Hc as [(-> & _)|(? & -> & _)]; [by left | by right].
Qed.

Lemma waiting_ok_grow w w' pool :
  waiting_ok w pool → (∀ id, ∃ es, log w' id = log w id ++ es) → waiting_ok w' pool.
Proof.
  intros Hp Hg id s Hin. destruct (Hp id s Hin) as (old & e & extra & Hl & Hrest).
  destruct (Hg id) as [es Hes]. exists old, e, (extra ++ es).
  split; [|done]. by rewrite Hes, Hl, (assoc_L (++)).
Qed.

Lemma sales_system_inv w0 pool w :
  (∀ id, log w0 id = []) → sales_system w0 pool w →
  (∀ id, order_shape id (log w id)) ∧ waiting_ok w pool.
Proof.
  intros H0. induction 1 as [|pool w d r w' _ [IHs IHp] Ha Hl|pool pool' id s w r w' _ [IHs IHp] Hs
    |pool pool' x w _ [IHs IHp]|pool w w' _ [IHs IHp] Ho].
  - split; [intros id; rewrite H0; constructor|]. by intros ? ? ?%elem_of_nil.
  - apply load_order_logs in Hl as (Hsame & loaded & Hr & Hloaded).
    split; [intros id; by rewrite Hsame|].
    assert (waiting_ok w' pool) as Hpool.
    { eapply waiting_ok_grow; [done|]. intros id. exists []. by rewrite Hsame, app_nil_r. }
    destruct r as [[s|]|e|m]; [|done..].
    intros id s' [[= -> ->]|Hin]%elem_of_cons; [|by apply Hpool].
    destruct (decide_sales_shape d (log w (sales_target d)) loaded s) as (e & -> & Hid & Hsh & _);
      [done|done|done|done|].
    exists (log w (sales_target d)), e, []. by rewrite Hsame, app_nil_r.
  - destruct (IHp id s ltac:(set_solver)) as (old & e & extra & Hlog & -> & Hid & Hsh).
    destruct (save_order_logs old e id w r w' Hid Hs) as [Ho Hc].
    assert (waiting_ok w (pool ++ pool')) as Hpool by (intros ? ? ?; apply IHp; set_solver).
    assert (∀ id', ∃ es, log w' id' = log w id' ++ es) as Hgrow.
    { intros id'. destruct (decide (id' = id)) as [->|Hne].
      - destruct Hc as [->|[_ ->]]; [exists []; by rewrite app_nil_r|by eexists].
      - exists []. by rewrite Ho, app_nil_r. }
    split; [|by eapply waiting_ok_grow].
    intros id'. destruct (decide (id' = id)) as [->|Hne]; [|rewrite Ho by done; apply IHs].
    destruct Hc as [->|[Hlen ->]]; [apply IHs|].
    rewrite Hlog, length_app in Hlen. assert (extra = []) as -> by (apply nil_length_inv; lia).
    by rewrite Hlog, app_nil_r.
  - split; [done|]. intros ? ? ?. apply IHp. set_solver.
  - split; [intros id; by rewrite Ho|]. eapply waiting_ok_grow; [done|].
    intros id. exists []. by rewrite Ho, app_nil_r.
Qed.

(** Running a whole handler is a load followed by its save. *)
Lemma sales_handle w0 pool w d r w' :
  sales_system w0 pool w → addressed d → handle_sales orders d w = (r, w') →
  sales_system w0 pool w'.
Proof.
  intros Hs Ha. rewrite handle_sales_halves. unfold mbind, GoM_bind.
  destruct (load_order orders d w) as [rl w1] eqn:El.
  pose proof (sales_load _ _ _ _ _ _ Hs Ha El) as Hl.
  destruct rl as [[s|]|e|m]; [|intros [= _ <-]; done..].
  intros Hsave. apply (sales_save _ [] pool _ _ _ _ _ Hl Hsave).
Qed.

(** C20 An order is created at most once and settled at most once: whatever sales
    commands are delivered, in whatever order and however often, to any number
    of concurrent replicas, crashes included, the stream of an order is empty,
    or its creation from valid data, or its creation followed by one
    settlement. *)
Theorem order_stream_shape w0 pool w id :
  (∀ id', log w0 id' = []) → sales_system w0 pool w → order_shape id (log w id).
Proof. intros H0 Hs. apply (sales_system_inv w0 pool w H0 Hs). Qed.
End concurrent.

(** ** Evaluated instance: an order created twice and settled twice *)
Section witnesses.
#[local] Existing Instance DemoUuid.lib.

Definition sales_shop : World (InMemory.InMemoryEventStore SalesEvent) unit :=
  mkWorld InMemory.NewInMemoryEventStore tt 100 0.

Definition create_it : sales_delivery :=
  Create (NewCreateSalesOrder (mkSalesOrderId (uid "o")) (uid "c") (mkSalesOrderNumber "1")
            (mkOrderDate 5) (mkCustomerId (uid "k")) (mkCustomerName "Ann") []).
Definition accept_it : sales_delivery :=
  Allocated (NewMarkSalesOrderAllocated (mkSalesOrderId (uid "o")) (uid "c")).
Definition reject_it : sales_delivery :=
  Rejected (NewMarkSalesOrderAllocationRejected (mkSalesOrderId (uid "o")) (uid "c") "late").

(** The commands one after the other, ignoring what each handler returns. *)
Definition handle_all (ds : list sales_delivery)
    (w : World (InMemory.InMemoryEventStore SalesEvent) unit) :=
  foldl (λ w d, snd (handle_sales (orders None) d w)) w ds.

Lemma handle_all_system ds w :
  Forall addressed ds → sales_system None InMemory.stream_of sales_shop [] w →
  sales_system None InMemory.stream_of sales_shop [] (handle_all ds w).
Proof.
  intros Hds. revert w. induction Hds as [|d ds Hd _ IH]; intros w Hw; [done|].
  apply IH. exact (sales_handle _ _ _ _ _ _ _ _ Hw Hd (surjective_pairing _)).
Qed.

Lemma order_stream_shape_witness :
  let w := handle_all [create_it; create_it; accept_it; reject_it; accept_it] sales_shop in
  length (history InMemory.stream_of (orders None) w (uid "o")) = 2%nat ∧
  order_shape (uid "o") (history InMemory.stream_of (orders None) w (uid "o")).
Proof.
  intros w. split; [vm_compute; reflexivity|].
  apply (order_stream_shape None InMemory.stream_of sales_shop [] w (uid "o")); [done|].
  apply handle_all_system; [repeat constructor|apply sales_start].
Defined.
End witnesses.
