(* ===== verification/Specification.v ===== *)
(** * Command specifications ([internal/muflone/specification.go])

    The helper the repository's own specifications run on: seed a store with the
    past, handle one command, compare what was committed. A specification passes
    exactly when the aggregate decides, on its replayed past, what the specification
    expects; the repository's specifications ([domain/commandhandlers/*_test.go]) are
    then proved for all identifiers and names. *)
From S2P Require Import Prelude Errors Kernel Aggregate EventStore World Repository.
From S2P Require Import WarehouseKernel Availability WarehouseHandlers.
From S2P Require Import SalesKernel SalesOrder SalesHandlers.
#[local] Open Scope Z_scope.

Section specification.
Context {U : UuidLib} {E : Type} `{!DomainEvent E}.
Abbreviation store := (InMemory.InMemoryEventStore E).
Abbreviation world := (World store unit).

(** [CommandSpecification]; [OnHandler] is the handler over the given store. *)
Record CommandSpecification (C : Type) := mkSpecification {
  StreamName : string;
  Given : list E;
  When : C;
  OnHandler : C → GoM world unit;
  Expect : list E;
  ExpectedError : option error;
}.
Arguments mkSpecification {C} _ _ _ _ _ _.
Arguments StreamName {C} _.
Arguments Given {C} _.
Arguments When {C} _.
Arguments OnHandler {C} _.
Arguments Expect {C} _.
Arguments ExpectedError {C} _.

(** The store a specification starts on. *)
Definition seeded `{!Command C} (s : CommandSpecification C) : store :=
  let store := InMemory.NewInMemoryEventStore in
  if decide (0 < Z.of_nat (length (Given s))) then
    InMemory.Seed (StreamName s +:+ "-" +:+ uuid_String (cmd_AggregateId (CmdBase (When s))))%string
      (Given s) store
  else store.

(** [Run]: whether the test passes, at an instant, after some identifiers were
    minted. *)
Definition Run `{!Command C} (now : Time) (minted : nat) (s : CommandSpecification C) : Prop :=
  let '(err, w) := OnHandler s (When s) (mkWorld (seeded s) tt now minted) in
  match ExpectedError s with
  | Some expected =>
      match err with
      | Err e => errors_Is e expected = true ∧ InMemory.Appended (w_store w) = []
      | _ => False
      end
  | None =>
      match err with
      | Ok _ => InMemory.Appended (w_store w) = Expect s
      | _ => False
      end
  end.

(** ** What passing means *)
Context {A : Type} `{!Aggregate E A, !AggregateLaws E A}.
Context (repository : EventStoreRepository E A unit).
Context (Hblank : blank_factory repository) (Hsilent : publisher repository = None).
Implicit Types (given : list E) (id : UUID).

(** [return h.repository.Save(ctx, aggregate, uuid.New())]. *)
Definition saving (aggregate : A) : GoM world unit :=
  commit ← uuid_New_; _ ← Save repository aggregate commit; mret tt.

(** A handler that loads, decides, and saves what it decided to change. *)
Definition deciding (id : UUID) (decision : error + A → result (option A)) : GoM world unit :=
  loaded ← attempt (GetByID repository id);
  changed ← lift (decision loaded);
  match changed with
  | Some aggregate => saving aggregate
  | None => mret tt
  end.

(** What is loaded of a past. *)
Definition loaded_of id given : error + A :=
  match given with
  | [] => inl (Errorf (streamName repository +:+ "/" +:+ uuid_String id)%string ErrAggregateNotFound)
  | _ => inr (replay repository given)
  end.

(** The events a decision raises. *)
Definition raised (decision : error + A → result (option A)) id given : result (list E) :=
  result_bind (λ changed, Ok (from_option UncommittedEvents [] changed))
    (decision (loaded_of id given)).

(** The expectation holds of what was decided: the events, or the error. *)
Definition met (expect : list E) (err : option error) (decided : result (list E)) : Prop :=
  match err, decided with
  | Some expected, Err e => errors_Is e expected = true
  | None, Ok es => es = expect
  | _, _ => False
  end.

Lemma seed_loop_events sid i es stream :
  Event <$> InMemory.seed_loop sid i es stream = (Event <$> stream) ++ es.
Proof.
  revert i stream. induction es as [|e es IH]; intros i stream; simpl; [by rewrite app_nil_r|].
  by rewrite IH, fmap_app, <- app_assoc.
Qed.

Lemma seeded_stream `{!Command C} (s : CommandSpecification C) :
  StreamName s = streamName repository →
  Event <$> InMemory.stream_of (seeded s)
              (stream repository (cmd_AggregateId (CmdBase (When s)))) = Given s ∧
  InMemory.appended (seeded s) = [].
Proof.
  intros Hn. unfold seeded, stream. rewrite Hn.
  destruct (Given s) as [|e es] eqn:Hg; simpl.
  - split; [|done]. unfold InMemory.stream_of. simpl. by rewrite lookup_empty.
  - split; [|done]. unfold InMemory.Seed, InMemory.stream_of at 1. simpl.
    rewrite lookup_insert_eq. simpl. rewrite seed_loop_events. unfold InMemory.stream_of. simpl.
    by rewrite lookup_empty.
Qed.

(** Loading from a store whose stream holds [given]. *)
Lemma GetByID_given given id (st : store) now minted :
  Event <$> InMemory.stream_of st (stream repository id) = given →
  attempt (GetByID repository id) (mkWorld st tt now minted)
  = (Ok (loaded_of id given), mkWorld st tt now minted).
Proof.
  intros Hg. unfold attempt, GetByID, mbind, GoM_bind, on_store, zoom. simpl.
  unfold InMemory.ReadStream_mem, gets. simpl. rewrite <- Hg.
  destruct (InMemory.stream_of st (stream repository id)) as [|x l]; [done|].
  change (Z.of_nat (length (x :: l)) =? 0) with false. cbv iota.
  unfold mret, GoM_ret. rewrite (replay_fold repository (x :: l)). done.
Qed.

(** Saving what was raised on the loaded past. *)
Lemma Save_given given es id (st : store) now minted :
  Event <$> InMemory.stream_of st (stream repository id) = given →
  ID (RaiseAll es (replay repository given)) = id →
  InMemory.appended st = [] →
  ∃ w', saving (RaiseAll es (replay repository given)) (mkWorld st tt now minted) = (Ok tt, w') ∧
        InMemory.Appended (w_store w') = es.
Proof.
  intros Hg Hid Happ. unfold saving, mbind, GoM_bind, uuid_New_. simpl. unfold Save.
  pose proof (uncommitted_raised repository given es Hblank) as Hu.
  pose proof (expected_version repository given es Hblank) as Hv.
  unfold loaded_and_raised in Hu, Hv. rewrite Hu, Hv, Hid.
  destruct (Z.eqb_spec (Z.of_nat (length es)) 0) as [Hz|Hz].
  { destruct es; [|done]. eexists. split; [reflexivity|]. done. }
  go_run. unfold time_Now, gets, on_store, zoom. cbn [w_now w_store].
  rewrite InMemory.Append_mem_spec.
  assert (length (InMemory.stream_of st (stream repository id)) = length given) as ->
    by (by rewrite <- Hg, length_fmap).
  rewrite Z.eqb_refl. unfold publish_all. rewrite Hsilent. eexists. split; [reflexivity|].
  simpl. unfold InMemory.Appended. by rewrite Happ.
Qed.

(** What a specification tests. For a handler that loads, decides and saves, on a
    repository that publishes nothing, a specification passes exactly when the
    decision on the replayed past raises the expected events, or fails with the
    expected error: nothing of the store, of the identifiers or of the clock counts. *)
Lemma Run_decides `{!Command C} (s : CommandSpecification C) decision now minted :
  let id := cmd_AggregateId (CmdBase (When s)) in
  StreamName s = streamName repository →
  (∀ w, OnHandler s (When s) w = deciding id decision w) →
  (∀ a, decision (loaded_of id (Given s)) = Ok (Some a) →
     ∃ es, a = RaiseAll es (replay repository (Given s)) ∧ ID a = id) →
  Run now minted s ↔
  met (Expect s) (ExpectedError s) (raised decision id (Given s)).
Proof.
  intros id Hn Hh Hd. destruct (seeded_stream s Hn) as [Hg Ha]. fold id in Hg.
  unfold Run, met. rewrite Hh. unfold deciding, raised, mbind, GoM_bind.
  rewrite (GetByID_given _ _ _ _ _ Hg). unfold lift.
  destruct (decision (loaded_of id (Given s))) as [[a|]|e|m] eqn:Hdec; simpl.
  - destruct (Hd a eq_refl) as (es & -> & Hid).
    destruct (Save_given (Given s) es id (seeded s) now minted Hg Hid Ha) as (w' & Hs & Happ).
    rewrite Hs, Happ.
    pose proof (uncommitted_raised repository (Given s) es Hblank) as Hu.
    unfold loaded_and_raised in Hu. by rewrite Hu.
  - unfold InMemory.Appended. by rewrite Ha.
  - unfold InMemory.Appended. rewrite Ha. destruct (ExpectedError s); [|done]. naive_solver.
  - done.
Qed.
End specification.
Arguments mkSpecification {U E C} _ _ _ _ _ _.
Arguments Given {U E C} _.
Arguments When {U E C} _.
Arguments ExpectedError {U E C} _.

(** ** The handlers load, decide and save *)
Section handlers.
Context {U : UuidLib}.

Definition newAvailabilityRepository : EventStoreRepository WarehouseEvent Availability unit :=
  NewEventStoreRepository NewAvailability Availability.StreamName None.
Definition newSalesOrderRepository : EventStoreRepository SalesEvent SalesOrder unit :=
  NewEventStoreRepository NewSalesOrder OrderStreamName None.

Lemma availability_repository_blank : blank_factory newAvailabilityRepository.
Proof. by split. Qed.
Lemma order_repository_blank : blank_factory newSalesOrderRepository.
Proof. by split. Qed.

Lemma handle_deciding d w :
  handle newAvailabilityRepository d w
  = deciding newAvailabilityRepository (target d)
      (λ loaded, result_bind (λ a, Ok (Some a)) (decide_delivery d loaded)) w.
Proof.
  rewrite handle_halves. unfold load_half, deciding, mbind, GoM_bind, lift.
  destruct (attempt _ w) as [[loaded|e|m] w1]; [|done..].
  by destruct (decide_delivery d loaded).
Qed.

Lemma handle_sales_deciding d w :
  handle_sales newSalesOrderRepository d w
  = deciding newSalesOrderRepository (sales_target d) (decide_sales d) w.
Proof.
  rewrite handle_sales_halves. unfold load_order, deciding, mbind, GoM_bind, lift.
  destruct (attempt _ w) as [[loaded|e|m] w1]; [|done..].
  by destruct (decide_sales d loaded) as [[a|]|e|m].
Qed.

(** *** Specifications of a delivery *)
Definition warehouse_runs now minted (d : delivery) (given expect : list WarehouseEvent)
    (err : option error) : Prop :=
  match d with
  | Produce c => Run now minted (mkSpecification Availability.StreamName given c
      (HandleUpdateDueToProductionOrder newAvailabilityRepository) expect err)
  | Allocate c => Run now minted (mkSpecification Availability.StreamName given c
      (HandleUpdateDueToSalesOrder newAvailabilityRepository) expect err)
  | Compensate c => Run now minted (mkSpecification Availability.StreamName given c
      (HandleCompensate newAvailabilityRepository) expect err)
  end.

Definition sales_runs now minted (d : sales_delivery) (given expect : list SalesEvent)
    (err : option error) : Prop :=
  match d with
  | Create c => Run now minted (mkSpecification OrderStreamName given c
      (HandleCreateSalesOrder newSalesOrderRepository) expect err)
  | Allocated c => Run now minted (mkSpecification OrderStreamName given c
      (HandleMarkSalesOrderAllocated newSalesOrderRepository) expect err)
  | Rejected c => Run now minted (mkSpecification OrderStreamName given c
      (HandleMarkSalesOrderAllocationRejected newSalesOrderRepository) expect err)
  end.

(** A specification tests what its handler [Hh] decides, if that raises events [Hd]. *)
Ltac tested blank spec Hh Hd :=
  let HR := fresh in
  pose proof (λ decision now minted, Run_decides _ blank eq_refl spec decision now minted eq_refl) as HR;
  simpl in HR; exact (HR _ _ _ Hh Hd).

Lemma warehouse_decided now minted d given expect err :
  well_formed d →
  (given ≠ [] → WarehouseKernel.BeerId_Value (beerId (replay newAvailabilityRepository given)) = target d) →
  warehouse_runs now minted d given expect err ↔
  met expect err
    (result_bind (λ a, Ok (UncommittedEvents a))
       (decide_delivery d (loaded_of newAvailabilityRepository (target d) given))).
Proof.
  intros Hw Hbeer.
  assert (∀ a, decide_delivery d (loaded_of newAvailabilityRepository (target d) given) = Ok a →
    ∃ es, a = RaiseAll es (replay newAvailabilityRepository given) ∧ ID a = target d) as Hd.
  { intros a Ha.
    apply (decide_transition d _ (replay newAvailabilityRepository given) a Hw) in Ha
      as (e & -> & Hid & _); [by exists [e]|].
    destruct given as [|e given]; [done|]. by split; [|apply Hbeer]. }
  set (decision := λ loaded, result_bind (λ a, Ok (Some a)) (decide_delivery d loaded)).
  assert (∀ a, decision (loaded_of newAvailabilityRepository (target d) given) = Ok (Some a) →
    ∃ es, a = RaiseAll es (replay newAvailabilityRepository given) ∧ ID a = target d) as Hd'.
  { unfold decision. destruct (decide_delivery d _) as [a0|e|m]; simpl; [|done..].
    intros a [= <-]. by apply Hd. }
  assert (raised newAvailabilityRepository decision (target d) given
    = result_bind (λ a, Ok (UncommittedEvents a))
        (decide_delivery d (loaded_of newAvailabilityRepository (target d) given))) as <-.
  { unfold raised, decision. by destruct (decide_delivery d _). }
  assert (∀ w, handle newAvailabilityRepository d w
               = deciding newAvailabilityRepository (target d) decision w) as Hh
    by exact (handle_deciding d).
  unfold warehouse_runs. clearbody decision. clear Hd Hbeer Hw.
  destruct d as [c|c|c]; simpl in Hh, Hd'.
  - tested availability_repository_blank
      (mkSpecification Availability.StreamName given c
         (HandleUpdateDueToProductionOrder newAvailabilityRepository) expect err) Hh Hd'.
  - tested availability_repository_blank
      (mkSpecification Availability.StreamName given c
         (HandleUpdateDueToSalesOrder newAvailabilityRepository) expect err) Hh Hd'.
  - tested availability_repository_blank
      (mkSpecification Availability.StreamName given c
         (HandleCompensate newAvailabilityRepository) expect err) Hh Hd'.
Qed.

Lemma sales_decided now minted d given expect err :
  addressed d → order_shape (sales_target d) given →
  sales_runs now minted d given expect err ↔
  met expect err
    (result_bind (λ s, Ok (from_option UncommittedEvents [] s))
       (decide_sales d (loaded_of newSalesOrderRepository (sales_target d) given))).
Proof.
  intros Ha Hg.
  assert (∀ s, decide_sales d (loaded_of newSalesOrderRepository (sales_target d) given)
               = Ok (Some s) →
    ∃ es, s = RaiseAll es (replay newSalesOrderRepository given) ∧ ID s = sales_target d) as Hd.
  { intros s Hs. apply (decide_sales_shape (B := unit) None d given _ s Ha Hg) in Hs
      as (e & -> & Hid & _); [by exists [e]|]. by destruct given. }
  pose proof (handle_sales_deciding d) as Hh. unfold sales_runs.
  destruct d as [c|c|c]; simpl in Hh, Hd.
  - tested order_repository_blank
      (mkSpecification OrderStreamName given c
         (HandleCreateSalesOrder newSalesOrderRepository) expect err) Hh Hd.
  - tested order_repository_blank
      (mkSpecification OrderStreamName given c
         (HandleMarkSalesOrderAllocated newSalesOrderRepository) expect err) Hh Hd.
  - tested order_repository_blank
      (mkSpecification OrderStreamName given c
         (HandleMarkSalesOrderAllocationRejected newSalesOrderRepository) expect err) Hh Hd.
Qed.
End handlers.


(** ** The repository's specifications *)
Section specifications.
Context {U : UuidLib}.
(** What the tests draw at random or fix without need. *)
Context (beerId : WarehouseKernel.BeerId) (beerName : WarehouseKernel.BeerName) (correlationId order : UUID).
Context (salesOrderId : SalesOrderId) (customerId : CustomerId).
Abbreviation o := (uuid_String order).
Abbreviation Lt n := (NewQuantity n "Lt").
Abbreviation produced n :=
  (EvAvailabilityUpdatedDueToProductionOrder
     (NewAvailabilityUpdatedDueToProductionOrder beerId correlationId beerName (Lt n))).
Abbreviation allocated n :=
  (EvBeerAvailabilityUpdated (NewBeerAvailabilityUpdated beerId correlationId beerName (Lt n) o)).
Abbreviation given_back n :=
  (EvAvailabilityCompensated (NewAvailabilityCompensated beerId correlationId beerName (Lt n) o)).

Definition production (given : list WarehouseEvent) (n : Z) (expect : list WarehouseEvent)
    (err : option error) :=
  mkSpecification Availability.StreamName given
    (NewUpdateAvailabilityDueToProductionOrder beerId correlationId beerName (Lt n))
    (HandleUpdateDueToProductionOrder newAvailabilityRepository) expect err.
Definition allocation (given : list WarehouseEvent) (n : Z) (expect : list WarehouseEvent)
    (err : option error) :=
  mkSpecification Availability.StreamName given
    (NewUpdateAvailabilityDueToSalesOrder beerId correlationId beerName (Lt n) o)
    (HandleUpdateDueToSalesOrder newAvailabilityRepository) expect err.
Definition compensation (given : list WarehouseEvent) (n : Z) (expect : list WarehouseEvent)
    (err : option error) :=
  mkSpecification Availability.StreamName given
    (NewCompensateAvailabilityDueToFailedAllocation beerId correlationId (Lt n) o)
    (HandleCompensate newAvailabilityRepository) expect err.

Lemma order_text : o ≠ ""%string.
Proof. intros He. pose proof (uuid_Parse_String order) as Hp. by rewrite He, uuid_Parse_empty in Hp. Qed.

(** Evaluate, where an order is compared with the holders. *)
Ltac evaluate :=
  unfold raised, met; cbn;
  repeat (first [match goal with Hne : ?x ≠ ""%string |- context [decide (?x ≠ ""%string)] =>
                   rewrite !(decide_True (P := x ≠ ""%string)) by exact Hne end
    | rewrite decide_True by (done || set_solver) | rewrite decide_False by (done || set_solver)]; cbn).

(** What a decision raised. *)
Ltac raised_alone :=
  match goal with
  | |- ∃ es, ?a = RaiseAll es _ ∧ _ =>
      exists (UncommittedEvents a); split; [|reflexivity]; evaluate; reflexivity
  end.

(** A specification, by what is decided on its past. *)
Ltac by_decision blank deciding d :=
  eapply Run_decides;
    [exact blank | reflexivity | reflexivity | intros w; exact (deciding d w) | | ];
  pose proof order_text; evaluate;
  first [reflexivity | intros ? [= <-]; raised_alone].

Ltac produced_by n :=
  by_decision constr:(availability_repository_blank) constr:(handle_deciding)
    (Produce (NewUpdateAvailabilityDueToProductionOrder beerId correlationId beerName (Lt n))).
Ltac allocated_by n :=
  by_decision constr:(availability_repository_blank) constr:(handle_deciding)
    (Allocate (NewUpdateAvailabilityDueToSalesOrder beerId correlationId beerName (Lt n) o)).
Ltac compensated_by n :=
  by_decision constr:(availability_repository_blank) constr:(handle_deciding)
    (Compensate (NewCompensateAvailabilityDueToFailedAllocation beerId correlationId (Lt n) o)).

Definition warehouse_specifications (now : Time) (minted : nat) : Prop :=
  Run now minted (production [produced 100] 100 [produced 200] None) ∧
  Run now minted (production [] 100 [produced 100] None) ∧
  Run now minted (allocation [produced 100] 30 [allocated 70] None) ∧
  Run now minted (allocation [produced 10] 999
    [EvQuantityNotFound (NewQuantityNotFound beerId correlationId o (Lt 999) (Lt 10))] None) ∧
  Run now minted (allocation [produced 100; allocated 70] 30 [allocated 70] None) ∧
  Run now minted
    (compensation [produced 100; allocated 70; given_back 100] 30 [given_back 100] None) ∧
  Run now minted (compensation [produced 100; allocated 70] 30 [given_back 100] None).

Lemma warehouse_specifications_pass now minted : warehouse_specifications now minted.
Proof.
  split_and!; [produced_by 100|produced_by 100|allocated_by 30|allocated_by 999|allocated_by 30
              |compensated_by 30|compensated_by 30].
Qed.

(** Violated invariants commit nothing; a beer never stocked is not found. *)
Definition error_path_specifications (now : Time) (minted : nat) : Prop :=
  Run now minted (production [] 0 [] (Some ErrInvalidQuantity)) ∧
  Run now minted (production [produced 100] (-5) [] (Some ErrInvalidQuantity)) ∧
  Run now minted (allocation [] 10
    [EvQuantityNotFound (NewQuantityNotFound beerId correlationId o (Lt 10) (Lt 0))] None) ∧
  Run now minted (allocation [produced 100] 0 [] (Some ErrInvalidQuantity)) ∧
  Run now minted (compensation [] 10 [] (Some ErrAggregateNotFound)) ∧
  Run now minted (compensation [produced 100] 0 [] (Some ErrInvalidQuantity)).

Lemma error_path_specifications_pass now minted : error_path_specifications now minted.
Proof.
  split_and!; [produced_by 0|produced_by (-5)|allocated_by 10|allocated_by 0|compensated_by 10
              |compensated_by 0].
Qed.

(** Noon of 5 July 2026, in nanoseconds since the zero time. *)
Definition noon : OrderDate := mkOrderDate (63918849600 * Second).
Abbreviation with_number n :=
  (NewCreateSalesOrder salesOrderId correlationId (mkSalesOrderNumber n) noon customerId
     (mkCustomerName "Muflone") []).
Abbreviation created :=
  (EvSalesOrderCreated (NewSalesOrderCreated salesOrderId correlationId
     (mkSalesOrderNumber "20240315-1500") noon customerId (mkCustomerName "Muflone") [])).
Abbreviation settled := (EvSalesOrderAllocated (NewSalesOrderAllocated salesOrderId correlationId)).
Abbreviation refused reason :=
  (EvSalesOrderAllocationRejected (NewSalesOrderAllocationRejected salesOrderId correlationId reason)).

Definition creation (given : list SalesEvent) (n : string) (expect : list SalesEvent)
    (err : option error) :=
  mkSpecification OrderStreamName given (with_number n)
    (HandleCreateSalesOrder newSalesOrderRepository) expect err.
Definition acceptance (given : list SalesEvent) (expect : list SalesEvent) (err : option error) :=
  mkSpecification OrderStreamName given (NewMarkSalesOrderAllocated salesOrderId correlationId)
    (HandleMarkSalesOrderAllocated newSalesOrderRepository) expect err.
Definition rejection (given : list SalesEvent) (reason : string) (expect : list SalesEvent)
    (err : option error) :=
  mkSpecification OrderStreamName given
    (NewMarkSalesOrderAllocationRejected salesOrderId correlationId reason)
    (HandleMarkSalesOrderAllocationRejected newSalesOrderRepository) expect err.

Ltac created_by n :=
  by_decision constr:(order_repository_blank) constr:(handle_sales_deciding) (Create (with_number n)).
Ltac accepted :=
  by_decision constr:(order_repository_blank) constr:(handle_sales_deciding)
    (Allocated (NewMarkSalesOrderAllocated salesOrderId correlationId)).
Ltac rejected reason :=
  by_decision constr:(order_repository_blank) constr:(handle_sales_deciding)
    (Rejected (NewMarkSalesOrderAllocationRejected salesOrderId correlationId reason)).

Definition sales_specifications (now : Time) (minted : nat) : Prop :=
  Run now minted (creation [] "20240315-1500" [created] None) ∧
  Run now minted (creation [] "   " [] (Some ErrInvalidSalesOrder)) ∧
  Run now minted (creation [created] "20240315-1500" [] None) ∧
  Run now minted (acceptance [created] [settled] None) ∧
  Run now minted (rejection [created] "not enough stout" [refused "not enough stout"] None) ∧
  Run now minted (acceptance [created; settled] [] None) ∧
  Run now minted (rejection [created; refused "shortage"] "shortage" [] None) ∧
  Run now minted (acceptance [created; refused "shortage"] [] (Some ErrAllocationConflict)) ∧
  Run now minted (rejection [created; settled] "late failure" [] (Some ErrAllocationConflict)) ∧
  Run now minted (acceptance [] [] (Some ErrAggregateNotFound)) ∧
  Run now minted (rejection [] "x" [] (Some ErrAggregateNotFound)).

Lemma sales_specifications_pass now minted : sales_specifications now minted.
Proof.
  split_and!; [created_by "20240315-1500"%string|created_by "   "%string
    |created_by "20240315-1500"%string|accepted|rejected "not enough stout"%string|accepted
    |rejected "shortage"%string|accepted|rejected "late failure"%string|accepted|rejected "x"%string].
Qed.

(** All of them: 13 of the warehouse and 11 of the orders. *)
Definition repository_specifications (now : Time) (minted : nat) : Prop :=
  warehouse_specifications now minted ∧ error_path_specifications now minted ∧
  sales_specifications now minted.

Lemma repository_specifications_pass now minted : repository_specifications now minted.
Proof.
  split; [apply warehouse_specifications_pass|].
  split; [apply error_path_specifications_pass|apply sales_specifications_pass].
Qed.
End specifications.

(** C34 What a command specification tests, and that the repository's pass. For every
    delivery of a warehouse command its constructor builds, every past of its beer and
    every expectation, a specification passes exactly when the aggregate, replayed
    from that past, decides just the expected events, or refuses with the expected
    error: store, clock, minted identifiers and the repository do not count. The same
    holds of the order commands on every past the order handlers can write. And each
    of the 24 command specifications the repository's tests run passes, whatever
    identifiers and names they draw. *)
Theorem specifications_pass `{UuidLib} now minted :
  (∀ d given expect err,
     well_formed d →
     (given ≠ [] →
        WarehouseKernel.BeerId_Value (beerId (replay newAvailabilityRepository given)) = target d) →
     warehouse_runs now minted d given expect err ↔
     met expect err
       (result_bind (λ a, Ok (UncommittedEvents a))
          (decide_delivery d (loaded_of newAvailabilityRepository (target d) given)))) ∧
  (∀ d given expect err,
     addressed d → order_shape (sales_target d) given →
     sales_runs now minted d given expect err ↔
     met expect err
       (result_bind (λ s, Ok (from_option UncommittedEvents [] s))
          (decide_sales d (loaded_of newSalesOrderRepository (sales_target d) given)))) ∧
  ∀ beerId beerName correlationId order salesOrderId customerId,
    repository_specifications beerId beerName correlationId order salesOrderId customerId now minted.
Proof.
  split; [intros; by apply warehouse_decided|]. split; [intros; by apply sales_decided|].
  intros. apply repository_specifications_pass.
Qed.

(** An allocation of more than what is left, whatever the beer and the order. *)
Lemma specifications_pass_witness :
  let U := DemoUuid.lib in
  let ipa := WarehouseKernel.mkBeerId (uid "ipa") in
  let want := NewUpdateAvailabilityDueToSalesOrder ipa (uid "c")
                (WarehouseKernel.mkBeerName "IPA") (NewQuantity 30 "Lt") "uo" in
  let brewed := EvAvailabilityUpdatedDueToProductionOrder
                  (NewAvailabilityUpdatedDueToProductionOrder ipa (uid "c")
                     (WarehouseKernel.mkBeerName "IPA") (NewQuantity 20 "Lt")) in
  let refused := EvQuantityNotFound (NewQuantityNotFound ipa (uid "c") "uo"
                   (NewQuantity 30 "Lt") (NewQuantity 20 "Lt")) in
  well_formed (Allocate want) ∧
  (warehouse_runs 0 0 (Allocate want) [brewed] [refused] None ↔ [refused] = [refused]).
Proof.
  intros U ipa want brewed refused.
  assert (well_formed (Allocate want)) as Hw by (split; [vm_compute; split; congruence|done]).
  split; [exact Hw|].
  destruct (specifications_pass 0 0) as [Hs _].
  exact (Hs (Allocate want) [brewed] [refused] None Hw (λ _, eq_refl)).
Defined.
