(* ===== verification/SalesSteps.v ===== *)
(** * What one sales command does, on the store and on the wire

    However a sales handler ends, it appended at most one event, of its own order
    and answering its own command, and announced at most that event. *)
From S2P Require Import Prelude Errors Kernel Aggregate EventStore World Repository.
From S2P Require Import Frame Bus Wire SalesKernel SalesOrder SalesHandlers.
#[local] Open Scope Z_scope.

Section steps.
Context {U : UuidLib} {St B P : Type} `{!EventStore SalesEvent St}.
Context `{!WirePublisher B P, !WirePublisherLaws B P, !JsonMarshal SalesEvent P, !Publication}.
Context (view : St → string → list (StoredEvent SalesEvent)) `{!EventStoreLaws view}.
Implicit Types (w : World St B) (d : sales_delivery).

(** The module's repository, in either mode of publication. *)
Definition bus_orders : EventStoreRepository SalesEvent SalesOrder B :=
  orders eventPublisher.
Abbreviation log w id := (history view bus_orders w id).

(** The handlers work on the orders' streams. *)
Definition beside_orders (sid : string) : Prop := ¬ ∃ id, sid = stream bus_orders id.

Lemma frame_sales (content : string → list (StoredEvent SalesEvent)) d :
  preserves (holds_streams (B := B) view beside_orders content) (handle_sales bus_orders d).
Proof.
  assert (∀ a, preserves (holds_streams (B := B) view beside_orders content)
                 (save_order bus_orders a)) as Hs.
  { intros a. unfold save_order. frame. apply frame_Save; [done|]. intros Hn. apply Hn. by eexists. }
  destruct d; simpl; unfold HandleCreateSalesOrder, HandleMarkSalesOrderAllocated,
    HandleMarkSalesOrderAllocationRejected; frame.
Qed.

Lemma save_order_effect old e id w r w' :
  ID (RaiseEvent e (replay bus_orders old)) = id →
  save_order bus_orders (RaiseEvent e (replay bus_orders old)) w = (r, w') →
  (∀ id', id' ≠ id → log w' id' = log w id') ∧
  (log w' id = log w id ∧ w_bus w' = w_bus w ∨
   length (log w id) = length old ∧ log w' id = log w id ++ [e] ∧
   emitted (announces e) (w_bus w) (w_bus w')).
Proof.
  intros Hid Hs. unfold save_order, uuid_New_ in Hs. go_run. set (w1 := mkWorld _ _ _ _) in Hs.
  destruct (Save _ _ _ w1) as [rs w2] eqn:E. assert (w2 = w') as -> by (by destruct rs; simplify_eq).
  change (w_bus w) with (w_bus w1).
  apply (Save_one view bus_orders) with (id := id) in E; [exact E|apply orders_blank|done|done].
Qed.

(** One sales command. *)
Lemma sales_effect d w r w' :
  addressed d → order_shape (sales_target d) (log w (sales_target d)) →
  handle_sales bus_orders d w = (r, w') →
  (∀ id, id ≠ sales_target d → log w' id = log w id) ∧
  (log w' (sales_target d) = log w (sales_target d) ∧ w_bus w' = w_bus w ∨
   ∃ e, log w' (sales_target d) = log w (sales_target d) ++ [e] ∧
     order_shape (sales_target d) (log w' (sales_target d)) ∧ answers d e ∧
     emitted (announces e) (w_bus w) (w_bus w')).
Proof.
  intros Ha Hsh. rewrite handle_sales_halves. unfold mbind, GoM_bind.
  destruct (load_order bus_orders d w) as [rl w1] eqn:El.
  pose proof (load_order_bus _ view d w rl w1 El) as Hb.
  apply (load_order_logs _ view) in El as (Hlog & loaded & -> & Hloaded).
  destruct (decide_sales d loaded) as [[s|]|e|m] eqn:Hd.
  2-4: intros [= _ <-]; split; [intros; apply Hlog|left; split; [apply Hlog|done]].
  destruct (decide_sales_shape _ d _ loaded s Ha Hsh Hloaded Hd) as (e & -> & Hid & Hsh' & Hans).
  intros Hs. destruct (save_order_effect _ _ _ _ _ _ Hid Hs) as [Ho Hc].
  split; [intros id Hne; rewrite Ho by done; apply Hlog|].
  rewrite Hlog in Hc. rewrite <- Hb. destruct Hc as [[-> ->]|(_ & -> & Hem)]; [by left|].
  right. exists e. done.
Qed.
End steps.
