(* ===== verification/SalesReadModel.v ===== *)
(** * The Sales read model
    ([internal/sales/readmodel], [internal/sales/rebuild.go])

    The projection writers and queries as an interface with its in-memory
    implementation, the projectors that turn events into rows, and the rebuild
    from the event store. Events reach the projectors in any order and possibly
    more than once; the theorems say that the rows converge all the same. *)
From S2P Require Import Prelude Errors Kernel Aggregate EventStore World Repository.
From S2P Require Import Rebuild SalesKernel SalesOrder SalesHandlers.
#[local] Open Scope Z_scope.

(** ** dtos/sales_order.go *)
Record SalesOrderRow := mkSalesOrderRow {
  r_BeerId : string; r_BeerName : string; r_Quantity : Quantity; r_Price : Price }.

Record SalesOrderDto := mkSalesOrderDto {
  Id : string;
  Number : string;
  Date : Time;
  Customer : string;
  CustomerNameOf : string;
  Rows : list SalesOrderRow;
  Allocation : string;
  RejectionReason : string;
}.

(** [dtos.SalesOrder{Id: id}], and its zero value at [""]. *)
Definition stub_order (id : string) : SalesOrderDto := mkSalesOrderDto id "" 0 "" "" [] "" "".

Definition with_status (status reason : string) (o : SalesOrderDto) : SalesOrderDto :=
  mkSalesOrderDto (Id o) (Number o) (Date o) (Customer o) (CustomerNameOf o) (Rows o)
    status reason.

(** ** The interface *)

(** The projection writers of [salesOrderReadModel]. *)
Class SalesReadModel (R : Type) := {
  rm_CreateSalesOrder : SalesOrderDto → GoM R unit;
  rm_UpdateAllocationStatus : string → string → string → GoM R unit;
}.

(** The row an upsert of a created order leaves: a settled status that arrived
    first is kept. *)
Definition created_row (existing : option SalesOrderDto) (order : SalesOrderDto) : SalesOrderDto :=
  let order := if decide (Allocation order = "")
               then with_status "pending" (RejectionReason order) order else order in
  match existing with
  | Some old =>
      if decide (Allocation old ≠ "" ∧ Allocation old ≠ "pending")
      then with_status (Allocation old) (RejectionReason old) order else order
  | None => order
  end.

(** The row a status update leaves: a stub when the order is not there yet. *)
Definition status_row (existing : option SalesOrderDto) (id status reason : string)
    : SalesOrderDto :=
  with_status status reason (default (stub_order id) existing).

(** What an implementation promises: a successful write upserts exactly one
    row. *)
Class SalesReadModelLaws `{SalesReadModel R} (rows : R → gmap string SalesOrderDto) := {
  create_ok : ∀ o r r', rm_CreateSalesOrder o r = (Ok tt, r') →
    rows r' = <[Id o := created_row (rows r !! Id o) o]> (rows r);
  update_ok : ∀ id st re r r', rm_UpdateAllocationStatus id st re r = (Ok tt, r') →
    rows r' = <[id := status_row (rows r !! id) id st re]> (rows r);
}.

(** ** services/sales_order_service.go: the in-memory adapter *)
Module InMemorySales.

Record SalesOrderService := mkService {
  orders : gmap string SalesOrderDto;
  order : list string;
}.

Definition NewSalesOrderService : SalesOrderService := mkService ∅ [].

Definition CreateSalesOrder (o : SalesOrderDto) : GoM SalesOrderService unit := λ s,
  let existing := orders s !! Id o in
  let order' := match existing with None => order s ++ [Id o] | Some _ => order s end in
  let o := if decide (Allocation o = "") then with_status "pending" (RejectionReason o) o else o in
  let o := match existing with
           | Some old =>
               if decide (Allocation old ≠ "" ∧ Allocation old ≠ "pending")
               then with_status (Allocation old) (RejectionReason old) o else o
           | None => o
           end in
  (Ok tt, mkService (<[Id o := o]> (orders s)) order').

Definition UpdateAllocationStatus (salesOrderId status reason : string)
    : GoM SalesOrderService unit := λ s,
  let existing := orders s !! salesOrderId in
  let order' := match existing with None => order s ++ [salesOrderId] | Some _ => order s end in
  let o := with_status status reason (default (stub_order salesOrderId) existing) in
  (Ok tt, mkService (<[salesOrderId := o]> (orders s)) order').

Definition GetSalesOrder (id : string) (s : SalesOrderService) : result SalesOrderDto :=
  match orders s !! id with
  | Some o => Ok o
  | None => Err (Errorf ("sales order " +:+ id)%string ErrNotFound)
  end.

Definition GetSalesOrders (page : Page) (s : SalesOrderService) : result (list SalesOrderDto) :=
  page_window page ((λ id, default (stub_order "") (orders s !! id)) <$> order s).

#[global] Instance service_read_model : SalesReadModel SalesOrderService := {
  rm_CreateSalesOrder := CreateSalesOrder;
  rm_UpdateAllocationStatus := UpdateAllocationStatus }.

(** The adapter writes the row of the interface. *)
Lemma CreateSalesOrder_spec o s :
  CreateSalesOrder o s =
  (Ok tt, mkService (<[Id o := created_row (orders s !! Id o) o]> (orders s))
            (match orders s !! Id o with None => order s ++ [Id o] | Some _ => order s end)).
Proof.
  unfold CreateSalesOrder, created_row.
  destruct (orders s !! Id o); repeat case_decide; reflexivity.
Qed.

#[global] Instance service_laws : SalesReadModelLaws orders.
Proof.
  split.
  - intros o r r'. unfold rm_CreateSalesOrder, service_read_model.
    rewrite CreateSalesOrder_spec. by intros [= <-].
  - intros id st re r r' [= <-]. done.
Qed.

(** The order list enumerates the rows, each once. *)
Definition service_wf (s : SalesOrderService) : Prop :=
  NoDup (order s) ∧ ∀ id, id ∈ order s ↔ is_Some (orders s !! id).

Lemma upsert_wf s id o :
  service_wf s →
  service_wf (mkService (<[id := o]> (orders s))
    (match orders s !! id with None => order s ++ [id] | Some _ => order s end)).
Proof.
  intros [Hnd Hdom]. unfold service_wf. simpl. destruct (orders s !! id) as [old|] eqn:E.
  - split; [done|]. intros id'. rewrite lookup_insert_is_Some'. rewrite Hdom. naive_solver.
  - split.
    + apply NoDup_app. split; [done|]. split; [|by apply NoDup_singleton].
      intros x Hx ->%list_elem_of_singleton. rewrite Hdom, E in Hx. by destruct Hx.
    + intros id'. rewrite elem_of_app, list_elem_of_singleton, lookup_insert_is_Some', Hdom.
      naive_solver.
Qed.

(** The services a sequence of writes can lead to. *)
Inductive reachable_service : SalesOrderService → Prop :=
| service_new : reachable_service NewSalesOrderService
| service_create o s r s' :
    reachable_service s → CreateSalesOrder o s = (r, s') → reachable_service s'
| service_update id st re s r s' :
    reachable_service s → UpdateAllocationStatus id st re s = (r, s') → reachable_service s'.

Lemma reachable_wf s : reachable_service s → service_wf s.
Proof.
  induction 1 as [|o s r s' _ IH Hw|id st re s r s' _ IH [= _ <-]].
  - split; [constructor|]. intros id. simpl. rewrite lookup_empty.
    split; [by intros ?%elem_of_nil|by intros []].
  - rewrite CreateSalesOrder_spec in Hw. injection Hw as _ <-. by apply upsert_wf.
  - by apply upsert_wf.
Qed.

(** Paging shows every order exactly once: after any writes, the pages of
    size [n] laid end to end are the list of all rows, each order's current row
    once, whenever enough pages are taken. *)
Theorem pages_cover_orders s n k :
  reachable_service s → 1 ≤ n ≤ MaxPageLimit →
  (length (order s) ≤ k * Z.to_nat n)%nat →
  ∃ shown, mjoin ((λ i, default [] (match GetSalesOrders (page_at n i) s with
                                    | Ok l => Some l | _ => None end)) <$> seq 0 k) = shown ∧
    NoDup (order s) ∧ length shown = length (order s) ∧
    ∀ i id, order s !! i = Some id → ∃ o, orders s !! id = Some o ∧ shown !! i = Some o.
Proof.
  intros Hs Hn Hk. destruct (reachable_wf s Hs) as [Hnd Hdom]. unfold GetSalesOrders.
  rewrite pages_concat by done. eexists. split; [done|]. split; [done|].
  rewrite take_ge by (by rewrite length_fmap). split; [apply length_fmap|].
  intros i id Hi. assert (id ∈ order s) as [o Ho]%Hdom by (by eapply list_elem_of_lookup_2).
  exists o. split; [done|]. rewrite list_lookup_fmap, Hi. simpl. by rewrite Ho.
Qed.

End InMemorySales.

(** ** eventhandlers: the projectors *)
Section projectors.
Context {U : UuidLib} {R : Type} `{!SalesReadModel R}.

Definition projected_row (row : SalesOrderRowDto) : SalesOrderRow :=
  mkSalesOrderRow (uuid_String (BeerId_Value (dto_BeerId row)))
    (BeerName_Value (dto_BeerName row)) (dto_Quantity row) (dto_Price row).

(** The DTO that [SalesOrderCreatedEventHandler.Handle] upserts; the status
    fields are left at their zero value. *)
Definition created_dto (event : SalesOrderCreated) : SalesOrderDto :=
  mkSalesOrderDto (uuid_String (SalesOrderId_Value (soc_SalesOrderId event)))
    (SalesOrderNumber_Value (soc_SalesOrderNumber event))
    (OrderDate_Value (soc_OrderDate event))
    (uuid_String (CustomerId_Value (soc_CustomerId event)))
    (CustomerName_Value (soc_CustomerName event))
    (map projected_row (soc_Rows event)) "" "".

Definition ProjectSalesOrderCreated (event : SalesOrderCreated) : GoM R unit :=
  rm_CreateSalesOrder (created_dto event).

Definition OnSalesOrderAllocated (event : SalesOrderAllocated) : GoM R unit :=
  rm_UpdateAllocationStatus (uuid_String (SalesOrderId_Value (soa_SalesOrderId event)))
    "allocated" "".

Definition OnSalesOrderAllocationRejected (event : SalesOrderAllocationRejected) : GoM R unit :=
  rm_UpdateAllocationStatus (uuid_String (SalesOrderId_Value (sor_SalesOrderId event)))
    "rejected" (sor_Reason event).

(** The type switch of [RebuildReadModel]; live, the subscriptions select the
    same handlers. *)
Definition project (event : SalesEvent) : GoM R unit :=
  match event with
  | EvSalesOrderCreated e => ProjectSalesOrderCreated e
  | EvSalesOrderAllocated e => OnSalesOrderAllocated e
  | EvSalesOrderAllocationRejected e => OnSalesOrderAllocationRejected e
  end.
End projectors.

(** ** rebuild.go *)
Definition RebuildReadModel {U : UuidLib} {St R : Type} `{!EventStore SalesEvent St}
    `{!StreamLister St, !SalesReadModel R} : GoM (St * R) unit :=
  rebuild_streams OrderStreamName project.

(** ** Convergence *)
Section convergence.
Context {U : UuidLib}.
Implicit Types (e : SalesEvent) (es ds : list SalesEvent) (o : option SalesOrderDto).

Definition event_key e : string :=
  uuid_String (SalesOrderId_Value
    match e with
    | EvSalesOrderCreated e => soc_SalesOrderId e
    | EvSalesOrderAllocated e => soa_SalesOrderId e
    | EvSalesOrderAllocationRejected e => sor_SalesOrderId e
    end).

Definition row_after o e : SalesOrderDto :=
  match e with
  | EvSalesOrderCreated c => created_row o (created_dto c)
  | EvSalesOrderAllocated _ => status_row o (event_key e) "allocated" ""
  | EvSalesOrderAllocationRejected r => status_row o (event_key e) "rejected" (sor_Reason r)
  end.

(** One order's row after projecting events in the given order. *)
Definition project_row es o : option SalesOrderDto :=
  foldl (λ o e, Some (row_after o e)) o es.

Lemma project_ok `{SalesReadModelLaws R rows} e (r r' : R) :
  project e r = (Ok tt, r') →
  rows r' = <[event_key e := row_after (rows r !! event_key e) e]> (rows r).
Proof.
  destruct e as [c|c|c]; simpl; [intros Hc%create_ok; exact Hc|intros Hu%update_ok; exact Hu..].
Qed.

(** Projecting a list of events, row by row. *)
Lemma project_all `{SalesReadModelLaws R rows} ds (r r' : R) k :
  for_each ds project r = (Ok tt, r') →
  rows r' !! k = project_row (filter (λ e, event_key e = k) ds) (rows r !! k).
Proof.
  revert r. induction ds as [|e ds IH]; intros r; simpl.
  { by intros [= <-]. }
  intros ([] & r1 & H1%project_ok & H2%IH)%bind_inv_Ok. rewrite H2, H1, filter_cons.
  case_decide as Hk.
  - subst k. by rewrite lookup_insert_eq.
  - by rewrite lookup_insert_ne.
Qed.

(** The four rows an order with creation [c] and settlement [a] can have. *)
Definition row_of (c : SalesOrderCreated) (a : settlement) (created settled : bool)
    : option SalesOrderDto :=
  project_row ((if created then [EvSalesOrderCreated c] else [])
               ++ (if settled then [settlement_event (soc_SalesOrderId c) a] else [])) None.

Lemma row_of_created c a b s :
  Some (row_after (row_of c a b s) (EvSalesOrderCreated c)) = row_of c a true s.
Proof. destruct a, b, s; reflexivity. Qed.

Lemma row_of_settled c a b s :
  Some (row_after (row_of c a b s) (settlement_event (soc_SalesOrderId c) a)) = row_of c a b true.
Proof. destruct a, b, s; reflexivity. Qed.

Lemma project_row_of c a ds b s :
  (∀ e, e ∈ ds → e = EvSalesOrderCreated c ∨ e = settlement_event (soc_SalesOrderId c) a) →
  ∃ b' s', project_row ds (row_of c a b s) = row_of c a b' s' ∧
    (b' = true ↔ b = true ∨ EvSalesOrderCreated c ∈ ds) ∧
    (s' = true ↔ s = true ∨ settlement_event (soc_SalesOrderId c) a ∈ ds).
Proof.
  revert b s. induction ds as [|e ds IH]; intros b s Hds.
  { exists b, s. split; [done|]. split; (split; [by left|]); intros [?|[]%elem_of_nil]; done. }
  assert (EvSalesOrderCreated c ≠ settlement_event (soc_SalesOrderId c) a) as Hne by by destruct a.
  simpl. destruct (Hds e ltac:(left)) as [-> | ->].
  - rewrite row_of_created. destruct (IH true s) as (b' & s' & -> & Hb & Hs); [set_solver|].
    exists b', s'. split; [done|]. rewrite Hb, Hs, !elem_of_cons. naive_solver.
  - rewrite row_of_settled. destruct (IH b true) as (b' & s' & -> & Hb & Hs); [set_solver|].
    exists b', s'. split; [done|]. rewrite Hb, Hs, !elem_of_cons. naive_solver.
Qed.

(** Any deliveries that cover an order's stream, in any order and with any
    repetition, leave the row that the stream itself leaves. *)
Lemma project_row_converges id l ds :
  order_shape id l → (∀ e, e ∈ ds ↔ e ∈ l) → project_row ds None = project_row l None.
Proof.
  intros Hl Hds. destruct Hl as [|c _ _|c a _ _].
  - destruct ds as [|e ds]; [done|]. exfalso. apply (not_elem_of_nil e), Hds. left.
  - destruct (project_row_of c (SettleAllocated uuid_Nil) ds false false)
      as (b & s & E & Hb & Hs).
    { intros e He%Hds%list_elem_of_singleton. by left. }
    change (row_of c _ false false) with (@None SalesOrderDto) in E. rewrite E.
    rewrite (proj2 Hb) by (right; apply Hds; left).
    destruct s; [|done]. exfalso. destruct (proj1 Hs eq_refl) as [?|Hin]; [done|].
    by apply Hds, list_elem_of_singleton in Hin.
  - destruct (project_row_of c a ds false false) as (b & s & E & Hb & Hs).
    { intros e He%Hds. set_solver. }
    change (row_of c _ false false) with (@None SalesOrderDto) in E. rewrite E.
    rewrite (proj2 Hb) by (right; apply Hds; left).
    rewrite (proj2 Hs) by (right; apply Hds; right; left). done.
Qed.

(** The events of an order's stream carry its key. *)
Lemma shape_key id l e : order_shape id l → e ∈ l → event_key e = uuid_String id.
Proof.
  intros [|c <- _|c a <- _]; [by intros ?%elem_of_nil|by intros ->%list_elem_of_singleton|].
  intros [-> | ->%list_elem_of_singleton]%elem_of_cons; [done|by destruct a].
Qed.

Lemma deliveries_row logs ds id :
  (∀ id, order_shape id (logs id)) → (∀ e, e ∈ ds → ∃ id, e ∈ logs id) →
  (∀ e, e ∈ logs id → e ∈ ds) →
  project_row (filter (λ e, event_key e = uuid_String id) ds) None = project_row (logs id) None.
Proof.
  intros Hshape Hsound Hcomplete. apply (project_row_converges id); [done|].
  intros e. rewrite list_elem_of_filter. split.
  - intros [Hk He]. destruct (Hsound e He) as [id' Hid'].
    rewrite (shape_key id' _ e (Hshape id') Hid') in Hk. by apply (inj uuid_String) in Hk as ->.
  - intros He. split; [by eapply shape_key|]. by apply Hcomplete.
Qed.
End convergence.

(** ** Rebuilding *)
Section rebuilding.
Context {U : UuidLib} {St R : Type} `{!EventStore SalesEvent St}.
Context (view : St → string → list (StoredEvent SalesEvent)) `{!EventStoreLaws view}.
Context `{!StreamLister St, !StreamListerLaws StreamLister0 view}.
Context `{!SalesReadModel R} (rows : R → gmap string SalesOrderDto) `{!SalesReadModelLaws rows}.

(** The events of an order's stream in the store. *)
Definition order_events (s : St) (id : UUID) : list SalesEvent :=
  Event <$> view s (OrderStreamName +:+ "-" +:+ uuid_String id)%string.

(** A store in which every Sales stream is the stream of an order. *)
Definition sales_store (s : St) : Prop :=
  (∀ id, order_shape id (order_events s id)) ∧
  ∀ name, GoStrings.HasPrefix name (OrderStreamName +:+ "-")%string = true →
    view s name ≠ [] → ∃ id, name = (OrderStreamName +:+ "-" +:+ uuid_String id)%string.

Lemma rebuild_deliveries s r s' r' :
  sales_store s → RebuildReadModel (s, r) = (Ok tt, (s', r')) →
  ∃ ds, for_each ds project r = (Ok tt, r') ∧
    (∀ e, e ∈ ds → ∃ id, e ∈ order_events s id) ∧
    ∀ id e, e ∈ order_events s id → e ∈ ds.
Proof.
  intros [_ Hnames] (names & Hp & Hsound & Hcomplete)%(rebuild_names OrderStreamName _ view _ _ _ _ eq_refl).
  eexists. split; [exact Hp|]. split.
  - intros e (l & He & (n & -> & Hn)%list_elem_of_fmap)%list_elem_of_join.
    destruct (Hnames n) as [id ->]; [by apply Hsound| |by exists id].
    intros Hv. rewrite Hv in He. by apply elem_of_nil in He.
  - intros id e He. apply list_elem_of_join. eexists. split; [exact He|].
    apply list_elem_of_fmap. eexists. split; [reflexivity|]. apply Hcomplete.
    + rewrite GoStrings.app_assoc. apply GoStrings.HasPrefix_app.
    + intros Hv. unfold order_events in He. rewrite Hv in He. by apply elem_of_nil in He.
Qed.

(** C15 The read model converges: deliver the events of the orders' streams to
    the projectors in any order across and within streams, any number of times;
    once every event has been delivered, each order's row is the one its stream
    projects to in order. *)
Theorem projection_converges logs ds (r r' : R) id :
  (∀ id, order_shape id (logs id)) →
  (∀ e, e ∈ ds → ∃ id, e ∈ logs id) → (∀ e, e ∈ logs id → e ∈ ds) →
  rows r = ∅ → for_each ds project r = (Ok tt, r') →
  rows r' !! uuid_String id = project_row (logs id) None.
Proof.
  intros Hshape Hsound Hcomplete Hr Hproj.
  rewrite (project_all ds r r' _ Hproj), Hr, lookup_empty. by apply deliveries_row.
Qed.

(** A rebuild loses and invents nothing: replaying the event store into an
    empty read model gives exactly the rows of a read model that was fed the
    same events live, whatever the order and the repetitions of the live
    deliveries. *)
Theorem rebuild_equals_live s (empty rebuilt live0 live : R) s' ds :
  sales_store s → rows empty = ∅ → rows live0 = ∅ →
  RebuildReadModel (s, empty) = (Ok tt, (s', rebuilt)) →
  (∀ e, e ∈ ds ↔ ∃ id, e ∈ order_events s id) →
  for_each ds project live0 = (Ok tt, live) →
  rows rebuilt = rows live.
Proof.
  intros Hs He Hl0 Hr Hds Hlive. destruct (rebuild_deliveries _ _ _ _ Hs Hr) as (ds' & Hp & Hso & Hco).
  destruct Hs as [Hshape _]. apply map_eq. intros k.
  rewrite (project_all (rows := rows) ds' empty rebuilt k Hp),
    (project_all (rows := rows) ds live0 live k Hlive), He, Hl0, !lookup_empty.
  destruct (decide (Exists (λ e, event_key e = k) ds)) as [Hex|Hnone].
  - apply Exists_exists in Hex as (e & Hin & <-). apply Hds in Hin as [id Hid].
    rewrite (shape_key id _ e (Hshape id) Hid).
    rewrite !(deliveries_row (order_events s)); [done|..]; auto.
    + intros e' He'. by apply Hds.
    + intros e' He'. apply Hds. by exists id.
    + intros e' He'. by apply (Hco id).
  - assert (∀ ds'', (∀ e, e ∈ ds'' → e ∈ ds) →
      filter (λ e, event_key e = k) ds'' = []) as Hnil.
    { intros ds'' Hsub. destruct (filter _ ds'') as [|x l] eqn:E; [done|]. exfalso.
      assert (x ∈ x :: l) as Hx by left. rewrite <- E in Hx.
      apply list_elem_of_filter in Hx as [Hk Hin]. apply Hnone, Exists_exists. eauto. }
    rewrite !Hnil; [done|done|]. intros e Hin. by apply Hds, Hso.
Qed.
End rebuilding.

(** ** Evaluated instances *)
Module SampleRows.
#[local] Existing Instance DemoUuid.lib.

Definition created : SalesOrderCreated :=
  NewSalesOrderCreated (mkSalesOrderId (uid "o")) (uid "c") (mkSalesOrderNumber "1")
    (mkOrderDate 5) (mkCustomerId (uid "k")) (mkCustomerName "Ann") [].

Definition rejected : settlement := SettleRejected (uid "c2") "no stock".

Definition stream_ : list SalesEvent :=
  [EvSalesOrderCreated created; settlement_event (mkSalesOrderId (uid "o")) rejected].

(** Only order [o] has a stream. *)
Definition logs (id : UUID) : list SalesEvent :=
  if decide (id = uid "o") then stream_ else [].

(** The settlement first, the creation twice. *)
Definition deliveries : list SalesEvent :=
  [settlement_event (mkSalesOrderId (uid "o")) rejected; EvSalesOrderCreated created;
   EvSalesOrderCreated created].

Definition live : InMemorySales.SalesOrderService :=
  snd (for_each deliveries project InMemorySales.NewSalesOrderService).

(** Another order settled before its creation arrived, then order [o]. *)
Definition early : InMemorySales.SalesOrderService :=
  snd (InMemorySales.UpdateAllocationStatus "p" "allocated" "" InMemorySales.NewSalesOrderService).

Definition paged : InMemorySales.SalesOrderService :=
  snd (InMemorySales.CreateSalesOrder (created_dto created) early).

Definition store : InMemory.InMemoryEventStore SalesEvent :=
  InMemory.mkStore {[ "SalesOrder-uo" := new_records "SalesOrder-uo" 0 (uid "c") 1 stream_ ]} [].

Lemma logs_shape id : order_shape id (logs id).
Proof.
  unfold logs. case_decide as E; [|constructor]. rewrite E.
  apply (shape_settled _ created rejected); [done|]. repeat split; by vm_compute.
Qed.

Lemma store_logs id : order_events InMemory.stream_of store id = logs id.
Proof.
  unfold order_events, InMemory.stream_of, store, logs. simpl. case_decide as E.
  - rewrite E, lookup_singleton_eq. apply new_records_Event.
  - rewrite lookup_singleton_ne; [done|]. intros Hn. apply E.
    change ("SalesOrder-" +:+ "uo" = "SalesOrder-" +:+ uuid_String id)%string in Hn.
    apply GoStrings.app_inj_l in Hn. by apply (inj uuid_String (uid "o") id) in Hn.
Qed.

Lemma store_ok : sales_store InMemory.stream_of store.
Proof.
  split; [intros id; rewrite store_logs; apply logs_shape|].
  intros name _ Hv. exists (uid "o"). unfold InMemory.stream_of, store in Hv. simpl in Hv.
  destruct (decide ("SalesOrder-uo" = name)) as [<-|Hne]; [done|].
  by rewrite lookup_singleton_ne in Hv.
Qed.

Lemma deliveries_logs e : e ∈ deliveries ↔ ∃ id, e ∈ logs id.
Proof.
  split.
  - intros He. exists (uid "o"). unfold logs. rewrite decide_True by done.
    unfold deliveries, stream_ in *. set_solver.
  - intros [id He]. unfold logs in He. case_decide; [|by apply elem_of_nil in He].
    unfold deliveries, stream_ in *. set_solver.
Qed.
End SampleRows.

Section witnesses.
#[local] Existing Instance DemoUuid.lib.
Import SampleRows.

Lemma projection_converges_witness :
  InMemorySales.orders live !! "uo" = project_row stream_ None.
Proof.
  apply (projection_converges InMemorySales.orders logs deliveries
           InMemorySales.NewSalesOrderService live (uid "o"));
    [apply logs_shape | intros e; apply deliveries_logs
    | intros e He; apply deliveries_logs; by exists (uid "o") | done | vm_compute; reflexivity].
Defined.

Lemma rebuild_equals_live_witness :
  let rebuilt := RebuildReadModel (store, InMemorySales.NewSalesOrderService) in
  fst rebuilt = Ok tt ∧ InMemorySales.orders (snd rebuilt).2 = InMemorySales.orders live.
Proof.
  intros rebuilt. assert (fst rebuilt = Ok tt) as Hr by (vm_compute; reflexivity).
  split; [exact Hr|].
  apply (rebuild_equals_live InMemory.stream_of InMemorySales.orders store
           InMemorySales.NewSalesOrderService (snd rebuilt).2 InMemorySales.NewSalesOrderService
           live (snd rebuilt).1 deliveries);
    [apply store_ok | done | done | | | vm_compute; reflexivity].
  - rewrite <- Hr. fold rebuilt. by destruct rebuilt as [? []].
  - intros e. setoid_rewrite store_logs. apply deliveries_logs.
Defined.

Lemma pages_cover_orders_witness :
  ∃ shown, mjoin ((λ i, default [] (match InMemorySales.GetSalesOrders
                                            (page_at 2 i) paged with
                                    | Ok l => Some l | _ => None end)) <$> seq 0 1) = shown ∧
    NoDup (InMemorySales.order paged) ∧ length shown = length (InMemorySales.order paged) ∧
    ∀ i id, InMemorySales.order paged !! i = Some id →
      ∃ o, InMemorySales.orders paged !! id = Some o ∧ shown !! i = Some o.
Proof.
  apply (InMemorySales.pages_cover_orders paged 2 1);
    [|unfold MaxPageLimit; lia|apply Nat.leb_le; vm_compute; reflexivity].
  apply (InMemorySales.service_create (created_dto created) early (Ok tt)); [|reflexivity].
  apply (InMemorySales.service_update "p" "allocated" "" InMemorySales.NewSalesOrderService (Ok tt));
    [apply InMemorySales.service_new|reflexivity].
Defined.
End witnesses.
