(* ===== verification/SalesFacade.v ===== *)
(** * The Sales facade ([internal/sales/facade.go])

    The module's public surface: a payload becomes a command on the bus, or an
    error before anything is sent. The queries are the read model's. *)
From S2P Require Import Prelude Errors Kernel World Bus Json.
From S2P Require Import SalesKernel SalesJson.
#[local] Open Scope Z_scope.

Record SalesOrderRowJson := mkSalesOrderRowJson {
  rj_BeerId : string; rj_BeerName : string; rj_Quantity : Quantity; rj_Price : Price }.

Record SalesOrderJson := mkSalesOrderJson {
  soj_Id : string;
  soj_SalesOrderNumber : string;
  soj_OrderDate : Time;
  soj_CustomerId : string;
  soj_CustomerName : string;
  soj_Rows : list SalesOrderRowJson;
}.

Section facade.
Context {U : UuidLib} {St B P : Type} `{!WirePublisher B P}.
Context `{!JsonMarshal CreateSalesOrder P}.
Abbreviation M := (GoM (World St B)).

(** One row of the payload; the loop stops at the first bad beer id. *)
Definition facade_row (row : SalesOrderRowJson) : result SalesOrderRowDto :=
  match uuid_Parse (rj_BeerId row) with
  | None => Err (ErrInvalid ("invalid beer id: " +:+ rj_BeerId row)%string)
  | Some beerId => Ok (mkSalesOrderRowDto (mkBeerId beerId) (mkBeerName (rj_BeerName row))
                         (rj_Quantity row) (rj_Price row))
  end.

Fixpoint facade_rows (rows : list SalesOrderRowJson) : result (list SalesOrderRowDto) :=
  match rows with
  | [] => Ok []
  | row :: rows =>
      result_bind (λ dto, result_bind (λ dtos, Ok (dto :: dtos)) (facade_rows rows))
        (facade_row row)
  end.

(** The order id: a fresh one is generated first and used unless the client
    supplied its own. *)
Definition facade_order_id (body : SalesOrderJson) : M SalesOrderId :=
  fresh ← uuid_New_;
  if decide (soj_Id body ≠ "") then
    match uuid_Parse (soj_Id body) with
    | None => throw (ErrInvalid ("invalid sales order id: " +:+ soj_Id body)%string)
    | Some parsed => mret (mkSalesOrderId parsed)
    end
  else mret (mkSalesOrderId fresh).

Definition Facade_CreateSalesOrder (body : SalesOrderJson) : M string :=
  salesOrderId ← facade_order_id body;
  customerId ← match uuid_Parse (soj_CustomerId body) with
               | Some customerId => mret customerId
               | None => uuid_New_
               end;
  orderDate ← (if IsZero (soj_OrderDate body) then time_Now else mret (soj_OrderDate body));
  rows ← lift (facade_rows (soj_Rows body));
  commitId ← uuid_New_;
  let command := NewCreateSalesOrder salesOrderId commitId
                   (mkSalesOrderNumber (soj_SalesOrderNumber body)) (mkOrderDate orderDate)
                   (mkCustomerId customerId) (mkCustomerName (soj_CustomerName body)) rows in
  _ ← on_bus (Send command);
  mret (uuid_String (SalesOrderId_Value salesOrderId)).
End facade.

(** ** What the facade promises *)
Section contract.
Context {U : UuidLib} {St B P : Type} `{!WirePublisher B P, !WirePublisherLaws B P}.
Context `{!JsonMarshal CreateSalesOrder P}.
Implicit Types (w : World St B).

(** The payload row [j] as the command's row [d]. *)
Definition row_accepted (j : SalesOrderRowJson) (d : SalesOrderRowDto) : Prop :=
  uuid_Parse (rj_BeerId j) = Some (BeerId_Value (dto_BeerId d)) ∧
  BeerName_Value (dto_BeerName d) = rj_BeerName j ∧
  dto_Quantity d = rj_Quantity j ∧ dto_Price d = rj_Price j.

Lemma facade_rows_spec rows :
  match facade_rows rows with
  | Ok dtos => Forall2 row_accepted rows dtos
  | Err e => ∃ row, row ∈ rows ∧ uuid_Parse (rj_BeerId row) = None ∧
      e = ErrInvalid ("invalid beer id: " +:+ rj_BeerId row)%string
  | Panic _ => False
  end.
Proof.
  induction rows as [|row rows IH]; simpl; [constructor|]. unfold facade_row.
  destruct (uuid_Parse (rj_BeerId row)) as [b|] eqn:Hb; simpl.
  - destruct (facade_rows rows); simpl; [by constructor| |done].
    destruct IH as (row' & Hin & ?). exists row'. split; [by right|done].
  - exists row. split; [left|done].
Qed.

(** Any outcome of a call, as the command it built or the error it found. *)
Definition facade_command (body : SalesOrderJson) (c : CreateSalesOrder) : Prop :=
  SalesOrderId_Value (cso_SalesOrderId c) = cmd_AggregateId (cso_base c) ∧
  (soj_Id body ≠ "" → uuid_Parse (soj_Id body) = Some (SalesOrderId_Value (cso_SalesOrderId c))) ∧
  SalesOrderNumber_Value (cso_SalesOrderNumber c) = soj_SalesOrderNumber body ∧
  CustomerName_Value (cso_CustomerName c) = soj_CustomerName body ∧
  (IsZero (soj_OrderDate body) = false →
   OrderDate_Value (cso_OrderDate c) = soj_OrderDate body) ∧
  Forall2 row_accepted (soj_Rows body) (cso_Rows c).

(** The call [Hr] sends [c] from the world [w1]. *)
Ltac send_from Hr c w1 :=
  let E := fresh "E" in
  right; exists c, w1; destruct (on_bus (Send c) w1) as [[[]|?|?] ?] eqn:E;
  injection Hr as <- <-;
  (split; [split_and!; try done; simpl; try congruence; by intros|]);
  do 3 (split; [done|]); by try intros ? [= <-].

Lemma Facade_CreateSalesOrder_run body w r w' :
  Facade_CreateSalesOrder body w = (r, w') →
  (∃ msg, r = Err (ErrInvalid msg) ∧ w_store w' = w_store w ∧ w_bus w' = w_bus w) ∨
  ∃ c w1, facade_command body c ∧ w_store w1 = w_store w ∧ w_bus w1 = w_bus w ∧
    on_bus (Send c) w1 = (match r with Ok _ => Ok tt | Err e => Err e | Panic m => Panic m end, w') ∧
    ∀ id, r = Ok id → id = uuid_String (SalesOrderId_Value (cso_SalesOrderId c)).
Proof.
  unfold Facade_CreateSalesOrder, facade_order_id, uuid_New_, time_Now.
  pose proof (facade_rows_spec (soj_Rows body)) as Hrows. go_run.
  case_decide as Hid; [destruct (uuid_Parse (soj_Id body)) as [pid|] eqn:Hp|];
    [|by intros [= <- <-]; left; eauto|];
    (destruct (uuid_Parse (soj_CustomerId body)) as [cid|]);
    (destruct (IsZero (soj_OrderDate body)) eqn:Hz);
    (destruct (facade_rows (soj_Rows body)) as [rows|e|m];
      [|destruct Hrows as (row & _ & _ & ->); intros [= <- <-]; left; eauto|done]);
    intros Hr; match type of Hr with context [on_bus (Send ?c) ?w1] => send_from Hr c w1 end.
Qed.

(** A payload the facade refuses: a malformed order id or a malformed beer id. *)
Definition malformed (body : SalesOrderJson) : Prop :=
  soj_Id body ≠ "" ∧ uuid_Parse (soj_Id body) = None ∨
  Exists (λ row, uuid_Parse (rj_BeerId row) = None) (soj_Rows body).

Lemma malformed_command body c : malformed body → ¬ facade_command body c.
Proof.
  intros [[Hid Hp]|Hrow] (_ & Hc & _ & _ & _ & Hrows).
  - by rewrite (Hc Hid) in Hp.
  - apply Exists_exists in Hrow as (row & [i Hi]%list_elem_of_lookup_1 & Hp).
    destruct (Forall2_lookup_l _ _ _ _ _ Hrows Hi) as (d & _ & Ha & _). by rewrite Ha in Hp.
Qed.

(** An accepted payload: its command is the next message on the wire. *)
Lemma create_accepted body w id w' :
  Facade_CreateSalesOrder body w = (Ok id, w') →
  ∃ c p, facade_command body c ∧ json_Marshal c = Ok p ∧
    published (w_bus w')
    = published (w_bus w) ++ [("commands.sales.create_sales_order"%string, p)] ∧
    id = uuid_String (SalesOrderId_Value (cso_SalesOrderId c)).
Proof.
  intros [(msg & [=] & _)|(c & w1 & Hc & Hs1 & Hb1 & Hsend & Hid)]%Facade_CreateSalesOrder_run.
  apply on_bus_inv in Hsend as (b & Hsend & ->). unfold Send, publish in Hsend. go_run.
  destruct (json_Marshal c) as [p|e|m] eqn:Hp; [|done..].
  apply publish_ok in Hsend. exists c, p. rewrite <- Hb1. auto.
Qed.

(** The facade accepts or refuses a payload whole. A malformed payload is
    refused as invalid with nothing sent. Whatever goes out is one create command
    with the payload's data, addressed to its own order, with the client's order
    id if there is one (so that a retried request creates no second order); when
    the call succeeds it went out, and the caller gets the id of that order. The
    store is never touched. *)
Theorem create_order_contract body w r w' :
  Facade_CreateSalesOrder body w = (r, w') →
  w_store w' = w_store w ∧
  (malformed body → (∃ msg, r = Err (ErrInvalid msg)) ∧ w_bus w' = w_bus w) ∧
  (published (w_bus w') = published (w_bus w) ∨
   ∃ c p, facade_command body c ∧ json_Marshal c = Ok p ∧
     published (w_bus w')
     = published (w_bus w) ++ [("commands.sales.create_sales_order"%string, p)]) ∧
  ∀ id, r = Ok id → ∃ c p, facade_command body c ∧ json_Marshal c = Ok p ∧
    published (w_bus w')
    = published (w_bus w) ++ [("commands.sales.create_sales_order"%string, p)] ∧
    id = uuid_String (SalesOrderId_Value (cso_SalesOrderId c)).
Proof.
  intros [(msg & -> & Hs & Hb)|(c & w1 & Hc & Hs1 & Hb1 & Hsend & Hid)]%Facade_CreateSalesOrder_run.
  { split; [done|]. split; [by eauto|]. split; [left; by rewrite Hb|done]. }
  apply on_bus_inv in Hsend as (b & Hsend & ->). simpl. rewrite <- Hb1.
  split; [done|]. split; [intros Hm; by destruct (malformed_command body c Hm)|].
  unfold Send, publish in Hsend. go_run. destruct (json_Marshal c) as [p|e|m] eqn:Hp.
  2,3: split; [left; congruence|intros id ->; congruence].
  assert (published b = published (w_bus w1) ++ [("commands.sales.create_sales_order"%string, p)] ∨
          (∀ id, r ≠ Ok id) ∧ published b = published (w_bus w1)) as Hb.
  { destruct r as [id|e|m].
    - left. by apply publish_ok in Hsend.
    - apply publish_err in Hsend as [?|?]; [by right|by left].
    - by apply publish_no_panic in Hsend. }
  split.
  - destruct Hb as [Hb|[_ Hb]]; [right; eauto|by left].
  - intros id Hr. exists c, p. destruct Hb as [Hb|[Hn _]]; [|by destruct (Hn id)]. auto.
Qed.
End contract.

(** ** Evaluated instance: a client's order, accepted *)
Section witness.
#[local] Existing Instance DemoUuid.lib.
Import DemoText DemoWire.

Definition counter : World unit (wire json) := mkWorld tt (mkWire [] []) 100 0.
Definition body : SalesOrderJson :=
  mkSalesOrderJson "uo" "1" 0 "nobody" "Ann"
    [mkSalesOrderRowJson "uipa" "IPA" (NewQuantity 4 "Lt") (NewPrice (SpecFloat.S754_zero false) "EUR")].

Lemma create_order_contract_witness :
  let w' := snd (Facade_CreateSalesOrder body counter) in
  Facade_CreateSalesOrder body counter = (Ok "uo"%string, w') ∧
  ∃ c p, facade_command body c ∧ json_Marshal c = Ok p ∧
    published (w_bus w') = [("commands.sales.create_sales_order"%string, p)] ∧
    SalesOrderId_Value (cso_SalesOrderId c) = uid "o".
Proof.
  intros w'.
  assert (Facade_CreateSalesOrder body counter = (Ok "uo"%string, w')) as Hr
    by (vm_compute; reflexivity).
  split; [exact Hr|].
  pose proof (create_order_contract body counter _ w' Hr) as (_ & _ & _ & Hok).
  destruct (Hok _ eq_refl) as (c & p & Hc & Hp & Hpub & _). exists c, p.
  split; [exact Hc|]. split; [exact Hp|]. split; [exact Hpub|].
  destruct Hc as (_ & Hid & _). specialize (Hid ltac:(done)). by injection Hid as <-.
Defined.
End witness.
