(* ===== verification/SalesIntegration.v ===== *)
(** * The Sales module's dealings with the other context
    ([internal/sales/integration], the integration publisher of
    [internal/sales/module.go])

    An order's creation goes out as an integration event; the warehouse's two
    outcome messages come in and become settlement commands. The incoming
    contract is Sales' own: the payload is decoded into a struct of this module,
    whatever type the producer marshalled. *)
From S2P Require Import Prelude Errors Kernel World Bus Json.
From S2P Require Import SalesKernel SalesJson.
#[local] Open Scope Z_scope.

(** ** allocation_outcome_handler.go *)
Definition OrderAllocationCompletedTopic : string := "warehouses.order_allocation_completed".
Definition OrderAllocationRejectedTopic : string := "warehouses.order_allocation_rejected".

Record allocationOutcomeMessage `{UuidLib} := mkAllocationOutcomeMessage {
  aom_CommitId : UUID;
  aom_SalesOrderId : string;
  aom_Reason : string;
}.

Section consumer.
Context `{GoText} {U : UuidLib}.

#[global] Instance outcome_from_json : FromJson allocationOutcomeMessage := {
  zero_value := mkAllocationOutcomeMessage _ uuid_Nil "" "";
  from_json := struct_from_json (λ ms x,
    commit_id ← field "commit_id" ms (aom_CommitId x);
    sales_order_id ← field "sales_order_id" ms (aom_SalesOrderId x);
    reason ← field "reason" ms (aom_Reason x);
    Ok (mkAllocationOutcomeMessage _ commit_id sales_order_id reason)) }.
End consumer.

Section outcomes.
Context {U : UuidLib} {St B P : Type} `{!WirePublisher B P}.
Context `{!JsonUnmarshal allocationOutcomeMessage P}
  `{!JsonMarshal MarkSalesOrderAllocated P} `{!JsonMarshal MarkSalesOrderAllocationRejected P}.
Abbreviation M := (GoM (World St B)).

(** [parse]: [None] is Go's [(nil, nil)], a message Sales cannot act on. *)
Definition parse (topic : string) (payload : P) : result (option allocationOutcomeMessage) :=
  result_bind (λ message,
    match uuid_Parse (aom_SalesOrderId message) with
    | None => Ok None
    | Some _ => Ok (Some message)
    end) (result_wrap ("unmarshal " +:+ topic)%string (json_Unmarshal payload)).

Definition OnAllocationCompleted (payload : P) : M unit :=
  message ← lift (parse OrderAllocationCompletedTopic payload);
  match message with
  | None => mret tt
  | Some message =>
      id ← lift (uuid_MustParse (aom_SalesOrderId message));
      on_bus (Send (NewMarkSalesOrderAllocated (mkSalesOrderId id) (aom_CommitId message)))
  end.

Definition OnAllocationRejected (payload : P) : M unit :=
  message ← lift (parse OrderAllocationRejectedTopic payload);
  match message with
  | None => mret tt
  | Some message =>
      id ← lift (uuid_MustParse (aom_SalesOrderId message));
      on_bus (Send (NewMarkSalesOrderAllocationRejected (mkSalesOrderId id)
                      (aom_CommitId message) (aom_Reason message)))
  end.
End outcomes.

(** ** The integration publisher of [Register] *)
Section publisher.
Context {U : UuidLib} {St B P : Type} `{!WirePublisher B P}.
Context `{!JsonMarshal SalesIntegrationEvents.IntegrationSalesOrderCreated P}.

Definition integration_row (row : SalesOrderRowDto)
    : SalesIntegrationEvents.SalesOrderCreatedRow :=
  SalesIntegrationEvents.mkSalesOrderCreatedRow (uuid_String (BeerId_Value (dto_BeerId row)))
    (BeerName_Value (dto_BeerName row)) (Value (dto_Quantity row))
    (UnitOfMeasure (dto_Quantity row)).

Definition integration_event (event : SalesOrderCreated)
    : SalesIntegrationEvents.IntegrationSalesOrderCreated :=
  SalesIntegrationEvents.NewIntegrationSalesOrderCreated
    (SalesOrderId_Value (soc_SalesOrderId event)) (ev_CommitId (soc_base event))
    (map integration_row (soc_Rows event)).

Definition PublishSalesOrderCreated (event : SalesOrderCreated) : GoM (World St B) unit :=
  on_bus (PublishIntegrationEvent (integration_event event)).
End publisher.

(** ** What an outcome message leads to *)
Section contract.
Context {U : UuidLib} {St B P : Type} `{!WirePublisher B P, !WirePublisherLaws B P}.
Context `{!JsonUnmarshal allocationOutcomeMessage P}
  `{!JsonMarshal MarkSalesOrderAllocated P} `{!JsonMarshal MarkSalesOrderAllocationRejected P}.
Implicit Types (w : World St B).

(** The settlement command of an outcome message, as its wire entry. *)
Definition settlement_entry (completed : bool) (message : allocationOutcomeMessage)
    (id : UUID) (tp : string * P) : Prop :=
  if completed
  then tp.1 = "commands.sales.mark_sales_order_allocated"%string ∧
       json_Marshal (NewMarkSalesOrderAllocated (mkSalesOrderId id) (aom_CommitId message))
       = Ok tp.2
  else tp.1 = "commands.sales.mark_sales_order_allocation_rejected"%string ∧
       json_Marshal (NewMarkSalesOrderAllocationRejected (mkSalesOrderId id)
                       (aom_CommitId message) (aom_Reason message)) = Ok tp.2.

Definition on_outcome (completed : bool) (payload : P) : GoM (World St B) unit :=
  if completed then OnAllocationCompleted payload else OnAllocationRejected payload.

(** A publication that returned no error. *)
Lemma published_one `{!JsonMarshal C P} topic (command : C) w w' :
  on_bus (publish topic command) w = (Ok tt, w') →
  ∃ p, json_Marshal command = Ok p ∧
    published (w_bus w') = published (w_bus w) ++ [(topic, p)].
Proof.
  intros (b & Hb & ->)%on_bus_inv. unfold publish in Hb. go_run.
  destruct (json_Marshal command) as [p|e|m]; [|done..]. exists p.
  split; [done|]. simpl. by apply publish_ok in Hb.
Qed.

(** The answer to an outcome message: a payload that does not decode is an
    error and nothing else; one without a usable order id is acknowledged and
    nothing else; otherwise the handler, if it returns no error, has sent exactly
    one settlement command, for that order, with the message's own commit id and
    reason. The store is never touched. *)
Theorem outcome_contract completed payload w r w' :
  on_outcome completed payload w = (r, w') →
  w_store w' = w_store w ∧
  match json_Unmarshal payload with
  | Ok message =>
      match uuid_Parse (aom_SalesOrderId message) with
      | None => r = Ok tt ∧ w' = w
      | Some id => r = Ok tt → ∃ entry, settlement_entry completed message id entry ∧
          published (w_bus w') = published (w_bus w) ++ [entry]
      end
  | Err e => ∃ topic, r = Err (Errorf ("unmarshal " +:+ topic)%string e) ∧ w' = w
  | Panic m => r = Panic m ∧ w' = w
  end.
Proof.
  intros Ho. unfold on_outcome, OnAllocationCompleted, OnAllocationRejected, parse in Ho.
  destruct completed; unfold mbind at 1, GoM_bind at 1, lift at 1 in Ho;
    (destruct (json_Unmarshal payload) as [m|e|s]; simpl in Ho;
      [|injection Ho as <- <-; split; eauto..]);
    (destruct (uuid_Parse (aom_SalesOrderId m)) as [id|] eqn:Hid; simpl in Ho;
      [|injection Ho as <- <-; split; eauto]);
    unfold uuid_MustParse, mbind, GoM_bind, lift in Ho; rewrite Hid in Ho;
    (split; [by apply on_bus_inv in Ho as (b & _ & ->)|]); intros ->;
    apply published_one in Ho as (p & Hp & Hpub); (eexists; split; [|exact Hpub]); by split.
Qed.
End contract.

(** ** Evaluated instance: a rejection arrives *)
Section witness.
#[local] Existing Instance DemoUuid.lib.
Import DemoText DemoWire.

Definition shop : World unit (wire json) := mkWorld tt (mkWire [] []) 100 0.
Definition rejection : json :=
  JObject [("commit_id", JString "uc"); ("sales_order_id", JString "uo");
           ("reason", JString "sold out")]%string.

Lemma outcome_contract_witness :
  let w' := snd (on_outcome false rejection shop) in
  on_outcome false rejection shop = (Ok tt, w') ∧
  ∃ entry, settlement_entry false (mkAllocationOutcomeMessage _ (uid "c") "uo" "sold out")
             (uid "o") entry ∧ published (w_bus w') = [entry].
Proof.
  intros w'.
  assert (on_outcome false rejection shop = (Ok tt, w')) as Hr by (vm_compute; reflexivity).
  split; [exact Hr|]. pose proof (outcome_contract false rejection shop _ w' Hr) as [_ Hc].
  exact (Hc eq_refl).
Defined.
End witness.
