(* ===== verification/Sql.v ===== *)
(** * Talking to PostgreSQL ([database/sql] as the program uses it)

    A pool of connections over tables [T]. A statement may fail, and before it
    runs other sessions may have committed; both are parts of the pool, so that
    a run is a function of them. A transaction runs at [READ COMMITTED], the
    level [BeginTx(ctx, nil)] asks for: each statement sees what is committed by
    then, and the transaction's own writes on top; a commit applies the writes
    all at once, a rollback drops them. A commit that reports an error has not
    committed. *)
From S2P Require Import Prelude Errors Kernel.
From stdpp Require Import sorting.
#[local] Open Scope Z_scope.

(** ** [ORDER BY] an integer column *)
Section order_by.
Context {A : Type} (key : A → Z).

Definition key_le (x y : A) : Prop := key x ≤ key y.
#[global] Instance key_le_dec x y : Decision (key_le x y).
Proof. unfold key_le. apply _. Defined.
#[local] Instance key_le_trans : Transitive key_le.
Proof. intros x y z. unfold key_le. lia. Qed.
#[local] Instance key_le_total : Total key_le.
Proof. intros x y. unfold key_le. lia. Qed.

Definition order_by (l : list A) : list A := merge_sort key_le l.

(** Rows that are in the order of a key stay as they are. *)
Lemma order_by_sorted l : StronglySorted Z.lt (key <$> l) → order_by l = l.
Proof.
  intros Hl. unfold order_by.
  assert (StronglySorted key_le l) as Hle.
  { clear -Hl. induction l as [|x l IH]; [constructor|].
    simpl in Hl. apply StronglySorted_inv in Hl as [Hl Hx]. constructor; [by apply IH|].
    apply Forall_forall. intros y Hy. unfold key_le. rewrite Forall_forall in Hx.
    apply Z.lt_le_incl, Hx, list_elem_of_fmap. eauto. }
  eapply (StronglySorted_unique_strong key_le); [..|apply merge_sort_Permutation].
  - intros x y Hx Hy Hxy Hyx. rewrite merge_sort_Permutation in Hx.
    assert (key x = key y) as Hk by (unfold key_le in *; lia).
    assert (NoDup (key <$> l)) as Hnd.
    { clear -Hl. induction l as [|z l IH]; [constructor|]. simpl in *.
      apply StronglySorted_inv in Hl as [Hl Hz]. constructor; [|by apply IH].
      rewrite Forall_forall in Hz. intros Hin. specialize (Hz _ Hin). lia. }
    apply list_elem_of_lookup in Hx as [i Hi], Hy as [j Hj].
    assert (i = j) as ->; [|congruence].
    eapply NoDup_lookup; [exact Hnd|..]; rewrite list_lookup_fmap.
    + by rewrite Hi.
    + by rewrite Hj, Hk.
  - apply StronglySorted_merge_sort; apply _.
  - done.
Qed.
End order_by.

(** What other sessions do to the tables; a session that would have to wait for
    a row lock of the transaction whose writes are given has not committed. *)
Class Tables (T X : Type) := arrive : (T → T) → X → T → T.

Section sql.
Context {T X : Type} `{!Tables T X}.

(** [*sql.DB]. [faults]: how the next statements fail, if they do; [arrivals]:
    what arrives before each of them. *)
Record Pool := mkPool {
  tables : T;
  faults : list (option string);
  arrivals : list (list X);
}.

(** [*sql.Tx]: committed tables, own writes. *)
Record Tx := mkTx {
  base : T;
  writes : T → T;
  tx_faults : list (option string);
  tx_arrivals : list (list X);
}.

Definition own_view (tx : Tx) : T := writes tx (base tx).

(** A round trip to the server. *)
Definition statement : GoM Tx unit := λ tx,
  let base' := foldl (λ t x, arrive (writes tx) x t) (base tx)
                 (default [] (head (tx_arrivals tx))) in
  let tx' := mkTx base' (writes tx) (tail (tx_faults tx)) (tail (tx_arrivals tx)) in
  match head (tx_faults tx) with
  | Some (Some message) => (Err (ErrExternal message), tx')
  | _ => (Ok tt, tx')
  end.

(** [QueryContext] and [QueryRowContext]. *)
Definition query {A} (select : T → A) : GoM Tx A :=
  _ ← statement; gets (λ tx, select (own_view tx)).

(** [ExecContext]: the server refuses what [check] objects to, or does [op]. *)
Definition exec (check : T → option string) (op : T → T) : GoM Tx unit :=
  _ ← statement;
  (λ tx, match check (own_view tx) with
         | Some code => (Err (ErrExternal code), tx)
         | None =>
             (Ok tt, mkTx (base tx) (λ t, op (writes tx t)) (tx_faults tx) (tx_arrivals tx))
         end) : GoM Tx unit.

Definition begun (p : Pool) : Tx := mkTx (tables p) (λ t, t) (faults p) (arrivals p).
Definition ended (t : T) (tx : Tx) : Pool := mkPool t (tx_faults tx) (tx_arrivals tx).

(** [BeginTx], the body, [Commit]; [defer tx.Rollback()]. The errors of the
    first and the last are wrapped with [msg]. *)
Definition in_tx {A} (msg : string) (body : GoM Tx A) : GoM Pool A := λ p,
  match (_ ← wrapping msg statement; a ← body; _ ← wrapping msg statement; mret a) (begun p) with
  | (Ok a, tx) => (Ok a, ended (own_view tx) tx)
  | (r, tx) => (r, ended (base tx) tx)
  end.

(** A statement on the pool commits by itself. *)
Definition autocommit {A} (m : GoM Tx A) : GoM Pool A := λ p,
  match m (begun p) with
  | (Ok a, tx) => (Ok a, ended (own_view tx) tx)
  | (r, tx) => (r, ended (base tx) tx)
  end.

(** *** While a transaction runs

    Of the arrivals that are due, all [A], and what each does to the committed
    tables is a step of [Φ]. *)
Context (A : X → Prop) (Φ : T → T → Prop) `{!PreOrder Φ}.
Context (Harrive : ∀ w x t, A x → Φ t (arrive w x t)).

Definition due (tx : Tx) : Prop := Forall (Forall A) (tx_arrivals tx).

Lemma due_next tx : due tx →
  Forall A (default [] (head (tx_arrivals tx))) ∧ Forall (Forall A) (tail (tx_arrivals tx)).
Proof. unfold due. destruct 1; simpl; eauto. Qed.

Lemma arrivals_keep (J : T → Prop) w xs t :
  (∀ x t, A x → J t → J (arrive w x t)) → Forall A xs → J t →
  J (foldl (λ t x, arrive w x t) t xs).
Proof.
  intros HJ Hxs. revert t. induction Hxs as [|x xs Hx Hxs IH]; intros t Ht; simpl; [done|].
  by apply IH, HJ.
Qed.

(** What the waiting sessions cannot change. *)
Lemma statement_keeps (J : T → Prop) tx r tx' :
  due tx → (∀ x t, A x → J t → J (arrive (writes tx) x t)) →
  statement tx = (r, tx') → J (base tx) → J (base tx').
Proof.
  intros [Hd _]%due_next HJ Hs Hb.
  unfold statement in Hs. destruct (head (tx_faults tx)) as [[m|]|];
    injection Hs as <- <-; by apply arrivals_keep.
Qed.

Lemma statement_writes tx r tx' : statement tx = (r, tx') → writes tx' = writes tx.
Proof. unfold statement. destruct (head (tx_faults tx)) as [[m|]|]; by intros [= _ <-]. Qed.

Lemma statement_spec tx r tx' :
  due tx → statement tx = (r, tx') →
  due tx' ∧ Φ (base tx) (base tx') ∧ writes tx' = writes tx ∧
  (r = Ok tt ∨ ∃ m, r = Err (ErrExternal m)).
Proof.
  intros Hd Hs. split; [|split].
  - apply due_next in Hd as [_ Hd]. unfold statement in Hs.
    destruct (head (tx_faults tx)) as [[m|]|]; by injection Hs as <- <-.
  - eapply (statement_keeps (Φ (base tx))); [done| |done|done].
    intros x t Hx Ht. etransitivity; [exact Ht|by apply Harrive].
  - unfold statement in Hs. destruct (head (tx_faults tx)) as [[m|]|];
      injection Hs as <- <-; eauto.
Qed.

Lemma query_spec {B} (select : T → B) tx r tx' :
  due tx → query select tx = (r, tx') →
  due tx' ∧ Φ (base tx) (base tx') ∧ writes tx' = writes tx ∧
  (r = Ok (select (own_view tx')) ∨ ∃ m, r = Err (ErrExternal m)).
Proof.
  intros Hd. unfold query, mbind, GoM_bind. destruct (statement tx) as [rs tx1] eqn:E1.
  apply (statement_spec tx rs tx1 Hd) in E1 as (Hd1 & Hb & Hw & [->|[m ->]]);
    intros [= <- <-]; eauto 6.
Qed.

Lemma exec_inv check op tx r tx' :
  exec check op tx = (r, tx') →
  ∃ rs tx1, statement tx = (rs, tx1) ∧
    match rs with
    | Ok _ =>
        match check (own_view tx1) with
        | Some code => r = Err (ErrExternal code) ∧ tx' = tx1
        | None => r = Ok tt ∧ base tx' = base tx1 ∧ writes tx' = (λ t, op (writes tx1 t)) ∧
                  tx_arrivals tx' = tx_arrivals tx1
        end
    | _ => r = rs ∧ tx' = tx1
    end.
Proof.
  unfold exec, mbind, GoM_bind. destruct (statement tx) as [rs tx1] eqn:E1.
  intros He. exists rs, tx1. split; [done|].
  destruct rs as [[]|e|m]; [|by injection He as <- <-..].
  destruct (check (own_view tx1)); by injection He as <- <-.
Qed.

(** A statement on the pool. *)
Lemma autocommit_query_spec {B} (select : T → B) p r p' :
  Forall (Forall A) (arrivals p) → autocommit (query select) p = (r, p') →
  Forall (Forall A) (arrivals p') ∧ Φ (tables p) (tables p') ∧
  (r = Ok (select (tables p')) ∨ ∃ m, r = Err (ErrExternal m)).
Proof.
  intros Hd. unfold autocommit. destruct (query select (begun p)) as [rq tx] eqn:E1.
  apply query_spec in E1 as (Hd1 & Hb & Hw & Hr); [|done]. unfold own_view in *. rewrite Hw in *.
  simpl in *. destruct Hr as [->|[m ->]]; intros [= <- <-]; simpl; eauto.
Qed.

Lemma autocommit_statement_spec p r p' :
  Forall (Forall A) (arrivals p) → autocommit statement p = (r, p') →
  Forall (Forall A) (arrivals p') ∧ Φ (tables p) (tables p') ∧
  (r = Ok tt ∨ ∃ m, r = Err (ErrExternal m)).
Proof.
  intros Hd. unfold autocommit. destruct (statement (begun p)) as [rq tx] eqn:E1.
  apply statement_spec in E1 as (Hd1 & Hb & Hw & Hr); [|done]. unfold own_view in *. rewrite Hw in *.
  simpl in *. destruct Hr as [->|[m ->]]; intros [= <- <-]; simpl; eauto.
Qed.

(** The transaction as a whole: it failed and only the other sessions' commits
    are there, or it succeeded and its writes are on top of them. [Ψ] is what the
    body establishes of its writes. *)
Lemma in_tx_spec {B} msg (body : GoM Tx B) (Ψ : B → Tx → Prop) p r p' :
  Forall (Forall A) (arrivals p) →
  (∀ tx r tx', due tx → Φ (tables p) (base tx) → writes tx = (λ t, t) → body tx = (r, tx') →
     due tx' ∧ Φ (base tx) (base tx') ∧ (∀ a, r = Ok a → Ψ a tx') ∧ ∀ m, r ≠ Panic m) →
  (∀ a tx tx', Ψ a tx → statement tx = (Ok tt, tx') → Ψ a tx') →
  in_tx msg body p = (r, p') →
  Forall (Forall A) (arrivals p') ∧
  match r with
  | Ok a => ∃ tx, Φ (tables p) (base tx) ∧ Ψ a tx ∧ tables p' = own_view tx
  | Err _ => Φ (tables p) (tables p')
  | Panic _ => False
  end.
Proof.
  intros Hd Hbody Hstable. unfold in_tx, mbind, GoM_bind, wrapping.
  destruct (statement (begun p)) as [r1 tx1] eqn:E1.
  apply statement_spec in E1 as (Hd1 & Hb1 & Hw1 & [->|[m ->]]); [..|done]; simpl;
    [|intros [= <- <-]; done].
  destruct (body tx1) as [r2 tx2] eqn:E2.
  destruct (Hbody tx1 r2 tx2 Hd1 Hb1 Hw1 E2) as (Hd2 & Hb2 & Ha & Hnp).
  destruct r2 as [a|e|m]; [|intros [= <- <-]; split; [done|by etransitivity]|by destruct (Hnp m)].
  destruct (statement tx2) as [r3 tx3] eqn:E3.
  pose proof (λ H, Hstable a tx2 tx3 (Ha a eq_refl) H) as Hst.
  pose proof E3 as Hr3. apply statement_spec in Hr3 as (Hd3 & Hb3 & _ & [->|[m ->]]); [..|done];
    simpl; intros [= <- <-]; simpl; (split; [done|]).
  - exists tx3. split; [by do 2 (etransitivity; [eassumption|])|]. by split; [apply Hst|].
  - by do 2 (etransitivity; [eassumption|]).
Qed.

(** *** A transaction that talks to something else meanwhile

    What is done to [B] stays done when the transaction rolls back. *)
Context {B : Type}.

Definition on_tx {R} (m : GoM Tx R) : GoM (Tx * B) R := zoom fst (λ tx w, (tx, w.2)) m.
Definition beside {R} (m : GoM B R) : GoM (Tx * B) R := zoom snd (λ b w, (w.1, b)) m.

Definition in_tx_with {R} (msg : string) (body : GoM (Tx * B) R) : GoM (Pool * B) R := λ w,
  match (_ ← wrapping msg (on_tx statement); a ← body;
         _ ← wrapping msg (on_tx statement); mret a) (begun w.1, w.2) with
  | (Ok a, (tx, b)) => (Ok a, (ended (own_view tx) tx, b))
  | (r, (tx, b)) => (r, (ended (base tx) tx, b))
  end.

Lemma in_tx_with_spec {R} msg (body : GoM (Tx * B) R) (Ψ : R → Tx → B → Prop)
    (Ω : B → Prop) p b r p' b' :
  Forall (Forall A) (arrivals p) → Ω b →
  (∀ tx r tx' b', due tx → Φ (tables p) (base tx) → writes tx = (λ t, t) →
     body (tx, b) = (r, (tx', b')) →
     due tx' ∧ Φ (base tx) (base tx') ∧ Ω b' ∧ (∀ a, r = Ok a → Ψ a tx' b') ∧
     ∀ m, r ≠ Panic m) →
  (∀ a tx tx' b, due tx → Ψ a tx b → statement tx = (Ok tt, tx') → Ψ a tx' b) →
  in_tx_with msg body (p, b) = (r, (p', b')) →
  Forall (Forall A) (arrivals p') ∧ Ω b' ∧
  match r with
  | Ok a => ∃ tx, Φ (tables p) (base tx) ∧ Ψ a tx b' ∧ tables p' = own_view tx
  | Err _ => Φ (tables p) (tables p')
  | Panic _ => False
  end.
Proof.
  intros Hd Hb0 Hbody Hstable. unfold in_tx_with, mbind, GoM_bind, wrapping, on_tx, zoom.
  cbn [fst snd]. destruct (statement (begun p)) as [r1 tx1] eqn:E1.
  apply statement_spec in E1 as (Hd1 & Hb1 & Hw1 & [->|[m ->]]); [..|done]; simpl;
    [|intros [= <- <- <-]; done].
  destruct (body (tx1, b)) as [r2 [tx2 b2]] eqn:E2.
  destruct (Hbody tx1 r2 tx2 b2 Hd1 Hb1 Hw1 E2) as (Hd2 & Hb2 & Ho & Ha & Hnp).
  destruct r2 as [a|e|m];
    [|intros [= <- <- <-]; split; [done|split; [done|by etransitivity]]|by destruct (Hnp m)].
  simpl. destruct (statement tx2) as [r3 tx3] eqn:E3.
  pose proof (λ H, Hstable a tx2 tx3 b2 Hd2 (Ha a eq_refl) H) as Hst.
  pose proof E3 as Hr3. apply statement_spec in Hr3 as (Hd3 & Hb3 & _ & [->|[m ->]]); [..|done];
    simpl; intros [= <- <- <-]; simpl; (split; [done|]); (split; [done|]).
  - exists tx3. split; [by do 2 (etransitivity; [eassumption|])|]. by split; [apply Hst|].
  - by do 2 (etransitivity; [eassumption|]).
Qed.
End sql.
Arguments Pool : clear implicits.
Arguments Tx : clear implicits.
Arguments mkPool {T X} _ _ _.
Arguments mkTx {T X} _ _ _ _.
