(* ===== verification/Registry.v ===== *)
(** * The event registry ([internal/muflone/registry.go])

    What a durable store reads is a name and a payload. The registry turns them
    back into a domain event; upcasters rewrite payloads of retired names first,
    one after the other, for as long as a name has one. *)
From S2P Require Import Prelude Errors Kernel Bus Json.
#[local] Open Scope Z_scope.

Section registry.
Context {P E : Type}.

(** An upcaster returns the new name and the new payload. *)
Definition Upcaster : Type := P → result (string * P).

Record EventRegistry := mkEventRegistry {
  factories : gmap string (P → result E);
  upcasters : gmap string Upcaster;
}.

Definition NewEventRegistry : EventRegistry := mkEventRegistry ∅ ∅.

(** [RegisterEvent[A]]: [dynamic] makes the interface value, [name] is the
    prototype's [MessageName]. *)
Definition RegisterEvent `{!JsonUnmarshal A P} (dynamic : A → E) (name : string)
    (registry : EventRegistry) : EventRegistry :=
  mkEventRegistry
    (<[name := λ payload,
         result_bind (λ event, Ok (dynamic event))
           (result_wrap ("unmarshal event " +:+ name)%string (json_Unmarshal payload))]>
       (factories registry))
    (upcasters registry).

Definition RegisterUpcaster (eventName : string) (upcaster : Upcaster)
    (registry : EventRegistry) : EventRegistry :=
  mkEventRegistry (factories registry) (<[eventName := upcaster]> (upcasters registry)).

(** [Deserialize]: the loop over the upcasters runs for as long as the name has
    one; [None] is a loop that [fuel] rounds do not end. *)
Fixpoint Deserialize (fuel : nat) (r : EventRegistry) (eventName : string) (payload : P)
    : option (result E) :=
  match fuel with
  | O => None
  | S fuel =>
      match upcasters r !! eventName with
      | Some upcaster =>
          match upcaster payload with
          | Ok (newName, newPayload) => Deserialize fuel r newName newPayload
          | Err err => Some (Err (Errorf ("upcast event " +:+ eventName)%string err))
          | Panic m => Some (Panic m)
          end
      | None =>
          Some (match factories r !! eventName with
                | Some factory => factory payload
                | None => Err (ErrExternal ("unknown event type " +:+ eventName)%string)
                end)
      end
  end.
End registry.
Arguments Upcaster : clear implicits.
Arguments EventRegistry : clear implicits.

(** ** What the loop computes *)
Section deserialize.
Context {P E : Type} (r : EventRegistry P E).
Implicit Types (name : string) (p : P).

(** One round: the name has an upcaster, which succeeds. *)
Definition upcasts (x y : string * P) : Prop :=
  ∃ upcaster, upcasters r !! x.1 = Some upcaster ∧ upcaster x.2 = Ok y.

(** How the last name and payload of the chain are answered. *)
Definition settles (x : string * P) (res : result E) : Prop :=
  match upcasters r !! x.1 with
  | None => res = match factories r !! x.1 with
                  | Some factory => factory x.2
                  | None => Err (ErrExternal ("unknown event type " +:+ x.1)%string)
                  end
  | Some upcaster =>
      match upcaster x.2 with
      | Ok _ => False
      | Err err => res = Err (Errorf ("upcast event " +:+ x.1)%string err)
      | Panic m => res = Panic m
      end
  end.

Lemma Deserialize_step fuel x y :
  upcasts x y → Deserialize (S fuel) r x.1 x.2 = Deserialize fuel r y.1 y.2.
Proof. intros (u & Hu & Hy). simpl. rewrite Hu, Hy. by destruct y. Qed.

Lemma Deserialize_settles fuel x res :
  settles x res → Deserialize (S fuel) r x.1 x.2 = Some res.
Proof.
  unfold settles. simpl. destruct (upcasters r !! x.1) as [u|]; [|by intros ->].
  destruct (u x.2); [done|by intros ->..].
Qed.

Lemma step_or_settles x : (∃ y, upcasts x y) ∨ ∃ res, settles x res.
Proof.
  unfold upcasts, settles. destruct (upcasters r !! x.1) as [u|]; [|eauto].
  destruct (u x.2) as [y|e|m] eqn:E1; eauto.
Qed.

(** The chain, with its length. *)
Lemma Deserialize_chain n x y res :
  relations.nsteps upcasts n x y → settles y res →
  ∀ fuel, Deserialize fuel r x.1 x.2 = if decide (n < fuel)%nat then Some res else None.
Proof.
  induction 1 as [x|n x y z Hxy Hyz IH]; intros Hs fuel.
  - destruct fuel as [|fuel]; [done|]. by apply Deserialize_settles.
  - destruct fuel as [|fuel]; [done|]. rewrite (Deserialize_step _ x y Hxy), IH by done.
    repeat case_decide; try done; lia.
Qed.

Lemma Deserialize_Some fuel x res :
  Deserialize fuel r x.1 x.2 = Some res →
  ∃ n y, (n < fuel)%nat ∧ relations.nsteps upcasts n x y ∧ settles y res.
Proof.
  revert x. induction fuel as [|fuel IH]; intros x; [done|].
  destruct (step_or_settles x) as [[y Hy]|[res' Hs]].
  - rewrite (Deserialize_step _ x y Hy). intros (n & z & Hn & Hz & Hs)%IH.
    exists (S n), z. split; [lia|]. split; [by econstructor|done].
  - rewrite (Deserialize_settles _ x res' Hs). intros [= ->].
    exists 0%nat, x. split; [lia|]. split; [constructor|done].
Qed.

(** Without upcasters one round is enough. *)
Lemma Deserialize_plain fuel name p factory :
  upcasters r !! name = None → factories r !! name = Some factory →
  Deserialize (S fuel) r name p = Some (factory p).
Proof. intros Hu Hf. simpl. unfold Upcaster in *. by rewrite Hu, Hf. Qed.
End deserialize.

(** C33 [Deserialize] follows the upcasters of the name from payload to payload
    and answers with the factory of the last name (or the error of a name it does
    not know, of a factory or of an upcaster): if some number of rounds ends the
    loop, the result is that of the chain, whatever the number. When every
    upcaster moves to a name of smaller [rank], the loop ends after at most as
    many rounds as the first name's rank, plus the last. *)
Theorem upcasting_terminates {P E} (r : EventRegistry P E) (rank : string → nat)
    name (payload : P) :
  (∀ x y, upcasts r x y → (rank y.1 < rank x.1)%nat) →
  ∃ res n y, relations.nsteps (upcasts r) n (name, payload) y ∧ settles r y res ∧
    (n ≤ rank name)%nat ∧
    ∀ fuel, Deserialize fuel r name payload = if decide (n < fuel)%nat then Some res else None.
Proof.
  intros Hrank.
  assert (∀ k x, (rank x.1 ≤ k)%nat →
    ∃ res n y, relations.nsteps (upcasts r) n x y ∧ settles r y res ∧ (n ≤ k)%nat) as Hend.
  { induction k as [|k IH]; intros x Hx;
      (destruct (step_or_settles r x) as [[y Hy]|[res Hs]];
        [|exists res, 0%nat, x; split; [constructor|split; [done|lia]]]).
    - specialize (Hrank _ _ Hy). lia.
    - destruct (IH y) as (res & n & z & Hn & Hs & Hle); [specialize (Hrank _ _ Hy); lia|].
      exists res, (S n), z. split; [by econstructor|split; [done|lia]]. }
  destruct (Hend (rank name) (name, payload) ltac:(done)) as (res & n & y & Hn & Hs & Hle).
  exists res, n, y. split; [done|]. split; [done|]. split; [done|].
  intros fuel. exact (Deserialize_chain r n (name, payload) y res Hn Hs fuel).
Qed.

(** An upcaster that keeps its name: no number of rounds ends the loop. *)
Lemma cyclic_upcaster {P E} (r : EventRegistry P E) name :
  (∀ p, ∃ p', upcasts r (name, p) (name, p')) →
  ∀ fuel p, Deserialize fuel r name p = None.
Proof.
  intros Hc fuel. induction fuel as [|fuel IH]; intros p; [done|].
  destruct (Hc p) as [p' Hp']. rewrite <- (IH p').
  exact (Deserialize_step r fuel (name, p) (name, p') Hp').
Qed.

(** ** What a store asks of a registry

    An event that was marshalled and kept in a [jsonb] column rehydrates to
    itself. *)
Class JsonbColumn `{GoText} (P : Type) `{!JsonText P} := {
  jsonb : P → option P;
  jsonb_same_content : ∀ p p' j, jsonb p = Some p' → parse_json p = Ok j →
    ∃ j', parse_json p' = Ok j' ∧ same_content j j';
}.

Class RegistryReads `{GoText} {P E : Type} `{!JsonText P, !JsonbColumn P}
    `{!Message E, !JsonMarshal E P} (fuel : nat) (r : EventRegistry P E) :=
  rehydrates : ∀ (e : E) (p p' : P), json_Marshal e = Ok p → jsonb p = Some p' →
    Deserialize fuel r (MessageName e) p' = Some (Ok e).

(** Encoding an event may fail but does not panic. *)
Class MarshalReturns (E P : Type) `{!JsonMarshal E P} : Prop :=
  marshal_returns : ∀ (e : E) m, json_Marshal e ≠ Panic m.

Section jsonb.
Context `{GoText} {P : Type} `{!JsonText P, !JsonbColumn P}.

(** A struct of the program survives the column. *)
Lemma unmarshal_stored `{!ToJson A, !FromJson B, !JsonReads A B f} (a : A) (p p' : P) :
  json_Marshal a = Ok p → jsonb p = Some p' → json_Unmarshal p' = Ok (f a).
Proof.
  unfold json_Marshal, marshal_json, json_Unmarshal, unmarshal_json, result_bind.
  destruct (to_json a) as [j|e|m] eqn:Hj; [|done..]. intros [= <-] Hp.
  destruct (jsonb_same_content _ _ j Hp (parse_print_json j)) as (j' & -> & Hs).
  by apply (json_reads a j j').
Qed.
End jsonb.

(** ** Evaluated: two evolution steps, ended by a factory *)
Module DemoUpcast.
(** Version 1 carried a bare number, version 2 a text; version 3 is current. *)
Definition registry : EventRegistry string nat :=
  RegisterUpcaster "order.v1" (λ p, Ok ("order.v2", "n" +:+ p)%string)
    (RegisterUpcaster "order.v2" (λ p, Ok ("order.v3", p +:+ "!")%string)
      (mkEventRegistry {[ "order.v3"%string := λ p, Ok (String.length p) ]} ∅)).

Definition rank (name : string) : nat :=
  if decide (name = "order.v1"%string) then 2 else
  if decide (name = "order.v2"%string) then 1 else 0.

Lemma rank_decreases x y : upcasts registry x y → (rank y.1 < rank x.1)%nat.
Proof.
  intros (u & Hu & Hy). destruct x as [name p]. simpl in *.
  unfold registry, RegisterUpcaster in Hu. simpl in Hu.
  apply lookup_insert_Some in Hu as [[<- <-]|[Hne Hu]]; [injection Hy as <-; vm_compute; lia|].
  apply lookup_insert_Some in Hu as [[<- <-]|[Hne' Hu]]; [injection Hy as <-; vm_compute; lia|].
  by rewrite lookup_empty in Hu.
Qed.
End DemoUpcast.

Lemma upcasting_terminates_witness :
  Deserialize 3 DemoUpcast.registry "order.v1" "7" = Some (Ok 3%nat) ∧
  ∃ res n y, relations.nsteps (upcasts DemoUpcast.registry) n ("order.v1", "7")%string y ∧
    settles DemoUpcast.registry y res ∧ (n ≤ 2)%nat ∧
    ∀ fuel, Deserialize fuel DemoUpcast.registry "order.v1" "7"
            = if decide (n < fuel)%nat then Some res else None.
Proof.
  split; [vm_compute; reflexivity|].
  exact (upcasting_terminates DemoUpcast.registry DemoUpcast.rank "order.v1" "7"
           DemoUpcast.rank_decreases).
Defined.
