(* ===== verification/Registries.v ===== *)
(** * The modules' event registries
    ([NewEventRegistry] of [internal/sales/module.go] and of
    [internal/warehouses/module.go])

    Every event a module stores is registered under the name it is stored with,
    and comes back from the store as it went in. *)
From S2P Require Import Prelude Errors Kernel Bus Json Registry.
From S2P Require Import SalesKernel SalesJson WarehouseKernel WarehouseJson.
#[local] Open Scope Z_scope.

(** ** Encoding never panics *)
Section total.
Context `{GoText}.

Lemma object_total fields :
  Forall (λ f, ∀ m, f.2 ≠ Panic m) fields → ∀ m, object fields ≠ Panic m.
Proof.
  intros Hf m. unfold object, result_bind.
  destruct (members fields) as [l|e|m'] eqn:Hm; [done..|]. exfalso.
  revert m' Hm. induction Hf as [|[tag r] fields Hr Hf IH]; intros m'; simpl; [done|].
  unfold result_bind. destruct r as [j|e|s]; [|done|by destruct (Hr s)].
  destruct (members fields) as [l|e|s]; [done..|]. by destruct (IH s).
Qed.

Lemma slice_total `{!ToJson A} (l : list A) :
  (∀ a m, to_json a ≠ Panic m) → ∀ m, to_json l ≠ Panic m.
Proof.
  intros Ha m. unfold to_json, slice_to_json, result_bind.
  destruct (all_ok _) as [js|e|s] eqn:Hl; [done..|]. exfalso. revert s Hl.
  induction l as [|a l IH]; intros s; simpl; [done|]. unfold result_bind.
  destruct (to_json a) as [j|e|s'] eqn:Hj; [|done|by destruct (Ha a s')].
  destruct (all_ok (map to_json l)) as [js|e|s']; [done..|]. by destruct (IH s').
Qed.

Lemma int_total (z : Z) m : to_json z ≠ Panic m.
Proof. unfold to_json, int_to_json. by case_decide. Qed.
Lemma string_total (s : string) m : to_json s ≠ Panic m.
Proof. done. Qed.
Lemma uuid_total `{UuidLib} (u : UUID) m : to_json u ≠ Panic m.
Proof. done. Qed.
Lemma float_total f m : float_to_json f ≠ Panic m.
Proof. unfold float_to_json. by destruct (FormatFloat f). Qed.
Lemma time_total t m : time_to_json t ≠ Panic m.
Proof. unfold time_to_json. by destruct (time_MarshalText t). Qed.
End total.

(** A struct, field by field. *)
Ltac solve_total :=
  first
    [ apply string_total | apply uuid_total | apply int_total | apply float_total | apply time_total
    | apply slice_total; intros ? ?; solve_total
    | apply object_total; repeat (apply Forall_cons; split; [intros ?; cbn [snd]; solve_total|]);
      constructor ].

Section registries.
Context `{GoText} {U : UuidLib} {P : Type} `{!JsonText P}.

Definition Sales_NewEventRegistry : EventRegistry P SalesEvent :=
  let registry := NewEventRegistry in
  let registry := RegisterEvent EvSalesOrderCreated
    (MessageName (EvSalesOrderCreated zero_value)) registry in
  let registry := RegisterEvent EvSalesOrderAllocated
    (MessageName (EvSalesOrderAllocated zero_value)) registry in
  RegisterEvent EvSalesOrderAllocationRejected
    (MessageName (EvSalesOrderAllocationRejected zero_value)) registry.

Definition Warehouses_NewEventRegistry : EventRegistry P WarehouseEvent :=
  let registry := NewEventRegistry in
  let registry := RegisterEvent EvAvailabilityUpdatedDueToProductionOrder
    (MessageName (EvAvailabilityUpdatedDueToProductionOrder zero_value)) registry in
  let registry := RegisterEvent EvBeerAvailabilityUpdated
    (MessageName (EvBeerAvailabilityUpdated zero_value)) registry in
  let registry := RegisterEvent EvQuantityNotFound
    (MessageName (EvQuantityNotFound zero_value)) registry in
  let registry := RegisterEvent EvAvailabilityCompensated
    (MessageName (EvAvailabilityCompensated zero_value)) registry in
  let registry := RegisterEvent EvOrderAllocationStarted
    (MessageName (EvOrderAllocationStarted zero_value)) registry in
  let registry := RegisterEvent EvAllocationStepSucceeded
    (MessageName (EvAllocationStepSucceeded zero_value)) registry in
  let registry := RegisterEvent EvAllocationStepFailed
    (MessageName (EvAllocationStepFailed zero_value)) registry in
  let registry := RegisterEvent EvAllocationStepCompensated
    (MessageName (EvAllocationStepCompensated zero_value)) registry in
  let registry := RegisterEvent EvOrderAllocationCompleted
    (MessageName (EvOrderAllocationCompleted zero_value)) registry in
  RegisterEvent EvOrderAllocationRejected
    (MessageName (EvOrderAllocationRejected zero_value)) registry.

Context `{!JsonbColumn P}.

Lemma registered_reads {A E} `{!ToJson A, !FromJson A, !JsonReads A A (λ x, x)}
    `{!Message E, !JsonMarshal E P} (r : EventRegistry P E) (dynamic : A → E) (x : A) fuel
    (p p' : P) :
  upcasters r !! MessageName (dynamic x) = None →
  factories r !! MessageName (dynamic x) = Some (λ payload,
    result_bind (λ event, Ok (dynamic event))
      (result_wrap ("unmarshal event " +:+ MessageName (dynamic x))%string
         (json_Unmarshal payload))) →
  json_Marshal x = Ok p → jsonb p = Some p' →
  Deserialize (S fuel) r (MessageName (dynamic x)) p' = Some (Ok (dynamic x)).
Proof.
  intros Hu Hf Hx Hp. rewrite (Deserialize_plain r fuel _ p' _ Hu Hf).
  by rewrite (unmarshal_stored x p p' Hx Hp).
Qed.

Lemma sales_event_reads fuel (e : SalesEvent) (p p' : P) :
  json_Marshal e = Ok p → jsonb p = Some p' →
  Deserialize (S fuel) Sales_NewEventRegistry (MessageName e) p' = Some (Ok e).
Proof. intros He Hp. destruct e; by eapply registered_reads. Qed.

Lemma warehouse_event_reads fuel (e : WarehouseEvent) (p p' : P) :
  json_Marshal e = Ok p → jsonb p = Some p' →
  Deserialize (S fuel) Warehouses_NewEventRegistry (MessageName e) p' = Some (Ok e).
Proof. intros He Hp. destruct e; by eapply registered_reads. Qed.

#[global] Instance sales_registry_reads fuel :
  RegistryReads (S fuel) Sales_NewEventRegistry := sales_event_reads fuel.
#[global] Instance warehouse_registry_reads fuel :
  RegistryReads (S fuel) Warehouses_NewEventRegistry := warehouse_event_reads fuel.

(** C12 Every event of either module is registered under its own name, and comes
    back from the database as the value it was: what [json.Marshal] wrote and the
    [jsonb] column kept (members reordered, numbers respelled), [Deserialize]
    turns into the same event, in one round. *)
Theorem stored_events_rehydrate (p p' : P) :
  jsonb p = Some p' →
  (∀ e : SalesEvent, json_Marshal e = Ok p →
     Deserialize 1 Sales_NewEventRegistry (MessageName e) p' = Some (Ok e)) ∧
  (∀ e : WarehouseEvent, json_Marshal e = Ok p →
     Deserialize 1 Warehouses_NewEventRegistry (MessageName e) p' = Some (Ok e)).
Proof.
  intros Hp. split; intros e He; [by apply (sales_event_reads 0 e p)|].
  by apply (warehouse_event_reads 0 e p).
Qed.

#[global] Instance sales_marshal_returns : MarshalReturns SalesEvent P.
Proof. intros e. apply marshal_no_panic. intros m. destruct e; solve_total. Qed.

#[global] Instance warehouse_marshal_returns : MarshalReturns WarehouseEvent P.
Proof. intros e. apply marshal_no_panic. intros m. destruct e; solve_total. Qed.
End registries.
