(* ===== verification/PostgresEventStore.v ===== *)
(** * The durable event store ([internal/muflone/postgres_eventstore.go],
      [migrations/versions])

    The tables [events] and [outbox], and the event store over them. The store is
    shown to be an event store in the sense of [EventStoreLaws], so everything
    proved of the handlers holds in durable mode; and [Append] is shown to be
    atomic while other sessions append between its statements. *)
From S2P Require Import Prelude Errors Kernel EventStore Bus Json Registry Sql.
From stdpp Require Import sorting.
#[local] Open Scope Z_scope.

(** ** The schema *)
Section schema.
Context `{UuidLib} {P : Type}.

Record EventRow := mkEventRow {
  er_stream_id : string;
  er_version : Z;
  er_commit_id : UUID;
  er_event_type : string;
  er_payload : P;
  er_occurred_at : Time;
}.

Record OutboxRow := mkOutboxRow { ob_id : Z; ob_topic : string; ob_payload : P }.

Record DeadLetterRow := mkDeadLetterRow {
  dl_id : Z; dl_topic : string; dl_payload : P; dl_reason : string;
  dl_redriven_at : option Time;
}.

(** Rows in the order of their insertion, which for [outbox] and [dead_letters]
    is the order of the [bigserial] key; [db_now] is the server's clock. *)
Record Database := mkDatabase {
  db_events : list EventRow;
  db_outbox : list OutboxRow;
  db_outbox_next : Z;
  db_dead_letters : list DeadLetterRow;
  db_dead_letters_next : Z;
  db_now : Time;
}.

Definition rows_of (streamID : string) (t : Database) : list EventRow :=
  filter (λ r, er_stream_id r = streamID) (db_events t).

(** [INSERT INTO events]. *)
Definition insert_event (streamID : string) (version : Z) (commitID : UUID) (eventType : string)
    (payload : P) (t : Database) : Database :=
  mkDatabase
    (db_events t ++ [mkEventRow streamID version commitID eventType payload (db_now t)])
    (db_outbox t) (db_outbox_next t) (db_dead_letters t) (db_dead_letters_next t) (db_now t).

(** The column types, the [CHECK] and the primary key: SQLSTATE codes. *)
Definition check_event (streamID : string) (version : Z) (eventType : string) (t : Database)
    : option string :=
  if (100 <? String.length streamID)%nat || (120 <? String.length eventType)%nat
  then Some "22001"%string
  else if negb (bool_decide (- 2 ^ 31 ≤ version < 2 ^ 31)) then Some "22003"%string
  else if negb (0 <? version) then Some "23514"%string
  else if bool_decide (Exists (λ r, er_stream_id r = streamID ∧ er_version r = version)
                         (db_events t))
  then Some "23505"%string
  else None.

(** [INSERT INTO outbox]. *)
Definition enqueue (topic : string) (payload : P) (t : Database) : Database :=
  mkDatabase (db_events t) (db_outbox t ++ [mkOutboxRow (db_outbox_next t) topic payload])
    (db_outbox_next t + 1) (db_dead_letters t) (db_dead_letters_next t) (db_now t).

Definition check_outbox (topic : string) (t : Database) : option string :=
  if (200 <? String.length topic)%nat then Some "22001"%string else None.

(** [SELECT coalesce(max(version), 0) FROM events WHERE stream_id = $1]. *)
Definition head_version (streamID : string) (t : Database) : Z :=
  match er_version <$> rows_of streamID t with
  | [] => 0
  | v :: vs => foldl Z.max v vs
  end.

(** [SELECT ... WHERE stream_id = $1 ORDER BY version]. *)
Definition select_stream (streamID : string) (t : Database) : list EventRow :=
  order_by er_version (rows_of streamID t).
End schema.
Arguments EventRow {_} P.
Arguments OutboxRow : clear implicits.
Arguments DeadLetterRow : clear implicits.
Arguments Database {_} P.

(** [LIKE]: [%] any text, [_] any character, [\] quotes the next one. *)
Fixpoint like (pattern : string) : string → bool :=
  match pattern with
  | EmptyString => λ s, match s with EmptyString => true | _ => false end
  | String c pattern' =>
      if bool_decide (c = "%"%char) then
        fix any s := like pattern' s ||
                     match s with EmptyString => false | String _ s' => any s' end
      else if bool_decide (c = "_"%char) then
        λ s, match s with EmptyString => false | String _ s' => like pattern' s' end
      else if bool_decide (c = "\"%char) then
        match pattern' with
        | EmptyString => λ _, false
        | String c' pattern'' => λ s,
            match s with
            | EmptyString => false
            | String d s' => bool_decide (c' = d) && like pattern'' s'
            end
        end
      else λ s, match s with
                | EmptyString => false
                | String d s' => bool_decide (c = d) && like pattern' s'
                end
  end.

(** [SELECT DISTINCT stream_id ... LIKE $1 ORDER BY stream_id]. *)
Definition select_streams `{UuidLib} {P} (pattern : string) (t : Database P) : list string :=
  merge_sort String.le
    (remove_dups (filter (λ id, like pattern id = true) (er_stream_id <$> db_events t))).

Definition pgUniqueViolation : string := "23505".

(** ** The store *)
Section store.
Context `{GoText} {U : UuidLib} {P E X : Type} `{!JsonText P, !JsonbColumn P}.
Context `{!DomainEvent E, !JsonMarshal E P, !Tables (Database P) X}.
(** The registry, and how many rounds of upcasting a read is followed; a longer
    loop is reported as a panic. *)
Context (registry : EventRegistry P E) (fuel : nat).
Abbreviation DB := (Pool (Database P) X).

(** The [for rows.Next()] loop of [ReadStream]. *)
Fixpoint scan (streamID : string) (rows : list (EventRow P)) : result (list (StoredEvent E)) :=
  match rows with
  | [] => Ok []
  | row :: rows =>
      match Deserialize fuel registry (er_event_type row) (er_payload row) with
      | Some (Ok event) =>
          stored ← scan streamID rows;
          Ok (mkStoredEvent streamID (er_version row) (er_commit_id row) (er_occurred_at row) event
                :: stored)
      | Some (Err err) =>
          Err (Errorf ("stream " +:+ streamID +:+ " version " +:+ pretty (er_version row))%string err)
      | Some (Panic m) => Panic m
      | None => Panic "upcasting goes on"
      end
  end.

Definition ReadStream_pg (streamID : string) : GoM DB (list (StoredEvent E)) :=
  let msg := ("read stream " +:+ streamID)%string in
  rows ← wrapping msg (autocommit (query (select_stream streamID)));
  stored ← lift (scan streamID rows);
  _ ← wrapping msg (autocommit statement);
  mret stored.

Definition ListStreams_pg (streamPrefix : string) : GoM DB (list string) :=
  let msg := ("list streams " +:+ streamPrefix)%string in
  streams ← wrapping msg (autocommit (query (select_streams (streamPrefix +:+ "-%")%string)));
  _ ← wrapping msg (autocommit statement);
  mret streams.

(** [errors.As(err, &pgErr) && pgErr.Code == pgUniqueViolation]. *)
Definition unique_violation (err : error) : bool :=
  errors_Is err (ErrExternal pgUniqueViolation).

(** The two statements of the loop of [Append]; a payload the [jsonb] column does
    not take is refused by the server. *)
Definition insert_into_events (streamID : string) (version : Z) (commitID : UUID)
    (eventType : string) (payload : P) : GoM (Tx (Database P) X) unit :=
  match jsonb payload with
  | Some stored =>
      exec (check_event streamID version eventType)
        (insert_event streamID version commitID eventType stored)
  | None => exec (λ _, Some "22P02"%string) (λ t, t)
  end.

Definition insert_into_outbox (topic : string) (payload : P) : GoM (Tx (Database P) X) unit :=
  match jsonb payload with
  | Some stored => exec (check_outbox topic) (enqueue topic stored)
  | None => exec (λ _, Some "22P02"%string) (λ t, t)
  end.

(** The [for i, event := range events] loop of [Append]. *)
Fixpoint append_events (streamID : string) (expectedVersion : Z) (commitID : UUID) (i : Z)
    (events : list E) : GoM (Tx (Database P) X) unit :=
  match events with
  | [] => mret tt
  | event :: events =>
      payload ← lift (result_wrap ("marshal event " +:+ MessageName event)%string
                        (json_Marshal event));
      inserted ← attempt (insert_into_events streamID (expectedVersion + i + 1) commitID
                            (MessageName event) payload);
      _ ← match inserted with
          | inl err =>
              if unique_violation err then
                throw (Errorf ("stream " +:+ streamID +:+ " version "
                               +:+ pretty (expectedVersion + i + 1) +:+ " already written")%string
                         ErrConcurrency)
              else throw (Errorf ("append to " +:+ streamID)%string err)
          | inr _ => mret tt
          end;
      _ ← wrapping ("outbox enqueue " +:+ MessageName event)%string
            (insert_into_outbox (domainEventTopicPrefix +:+ MessageName event)%string payload);
      append_events streamID expectedVersion commitID (i + 1) events
  end.

Definition Append_pg (streamID : string) (expectedVersion : Z) (commitID : UUID)
    (events : list E) : GoM DB unit :=
  let msg := ("append to " +:+ streamID)%string in
  in_tx msg (
    head ← wrapping msg (query (head_version streamID));
    if negb (head =? expectedVersion) then
      throw (Errorf ("stream " +:+ streamID +:+ " is at version " +:+ pretty head
                     +:+ ", expected " +:+ pretty expectedVersion)%string ErrConcurrency)
    else append_events streamID expectedVersion commitID 0 events).
End store.

(** ** What the tables hold *)
Section batches.
Context `{U : UuidLib} {P : Type}.
Implicit Types (t : Database P) (b : list (string * P)).

(** The rows one successful [Append] leaves, with the outbox messages of the same
    transaction. *)
Fixpoint commit_batch (streamID : string) (commitID : UUID) (v : Z) b t : Database P :=
  match b with
  | [] => t
  | (eventType, payload) :: b =>
      commit_batch streamID commitID (v + 1) b
        (enqueue (domainEventTopicPrefix +:+ eventType)%string payload
          (insert_event streamID (v + 1) commitID eventType payload t))
  end.

Definition batch_rows (streamID : string) (commitID : UUID) (v : Z) (now : Time) b
    : list (EventRow P) :=
  imap (λ i x, mkEventRow streamID (v + Z.of_nat i + 1) commitID x.1 x.2 now) b.

Lemma commit_batch_app id c v b1 b2 t :
  commit_batch id c v (b1 ++ b2) t
  = commit_batch id c (v + Z.of_nat (length b1)) b2 (commit_batch id c v b1 t).
Proof.
  revert v t. induction b1 as [|[ty p] b1 IH]; intros v t; simpl.
  - f_equal. lia.
  - rewrite IH. f_equal. lia.
Qed.

Lemma batch_rows_cons id c v now ty p b :
  batch_rows id c v now ((ty, p) :: b)
  = mkEventRow id (v + 1) c ty p now :: batch_rows id c (v + 1) now b.
Proof.
  unfold batch_rows. simpl. f_equal; [f_equal; lia|]. apply imap_ext. intros i x _. simpl.
  f_equal. lia.
Qed.

Lemma commit_batch_events id c v b t :
  db_events (commit_batch id c v b t) = db_events t ++ batch_rows id c v (db_now t) b.
Proof.
  revert v t. induction b as [|[ty p] b IH]; intros v t; simpl; [by rewrite app_nil_r|].
  rewrite IH, batch_rows_cons. simpl. by rewrite <- app_assoc.
Qed.

Lemma rows_of_commit id' id c v b t :
  rows_of id' (commit_batch id c v b t)
  = rows_of id' t ++ (if decide (id' = id) then batch_rows id c v (db_now t) b else []).
Proof.
  unfold rows_of. rewrite commit_batch_events, filter_app. f_equal.
  generalize (db_now t). intros now. revert v. induction b as [|[ty p] b IH]; intros v.
  - unfold batch_rows. simpl. by destruct (decide _).
  - rewrite batch_rows_cons, filter_cons, IH. simpl.
    repeat case_decide; subst; done || by destruct (decide _).
Qed.

Lemma batch_rows_length id c v now b : length (batch_rows id c v now b) = length b.
Proof. apply length_imap. Qed.

Lemma batch_rows_versions id c v now b :
  er_version <$> batch_rows id c v now b = seqZ (v + 1) (Z.of_nat (length b)).
Proof.
  revert v. induction b as [|[ty p] b IH]; intros v; [done|].
  rewrite batch_rows_cons, fmap_cons, IH. simpl length.
  rewrite (seqZ_cons (v + 1) (Z.of_nat (S (length b)))) by lia.
  replace (Z.pred (Z.of_nat (S (length b)))) with (Z.of_nat (length b)) by lia. done.
Qed.

(** Versions [1, 2, 3, ...], in the order of insertion. *)
Definition numbered (rows : list (EventRow P)) : Prop :=
  er_version <$> rows = seqZ 1 (Z.of_nat (length rows)).

Lemma numbered_app id c now b rows :
  numbered rows → numbered (rows ++ batch_rows id c (Z.of_nat (length rows)) now b).
Proof.
  unfold numbered. intros Hr. rewrite fmap_app, Hr, batch_rows_versions, length_app,
    batch_rows_length, Nat2Z.inj_add, seqZ_app by lia. do 2 f_equal. lia.
Qed.

Lemma foldl_max_seqZ v n k : 0 ≤ n → k = v + n → foldl Z.max v (seqZ (v + 1) n) = k.
Proof.
  intros Hn ->. revert v. pattern n. apply natlike_ind; [|clear n Hn|done].
  - intros v. simpl. lia.
  - intros n Hn IH v. rewrite seqZ_cons by lia. simpl.
    replace (v `max` (v + 1)) with (v + 1) by lia.
    replace (Z.succ (v + 1)) with (v + 1 + 1) by lia.
    replace (Z.pred (Z.succ n)) with n by lia. rewrite IH. lia.
Qed.

Lemma head_version_numbered id t :
  numbered (rows_of id t) → head_version id t = Z.of_nat (length (rows_of id t)).
Proof.
  unfold numbered, head_version. intros ->. destruct (rows_of id t) as [|r rs]; [done|].
  simpl length. rewrite seqZ_cons by lia. apply (foldl_max_seqZ 1); lia.
Qed.

Lemma numbered_lookup rows i r :
  numbered rows → rows !! i = Some r → er_version r = Z.of_nat i + 1.
Proof.
  intros Hn Hr. assert ((er_version <$> rows) !! i = Some (er_version r)) as Hv
    by (by rewrite list_lookup_fmap, Hr).
  rewrite Hn in Hv. apply lookup_seqZ in Hv as [-> _]. lia.
Qed.

Lemma select_stream_numbered id t :
  numbered (rows_of id t) → select_stream id t = rows_of id t.
Proof.
  intros Hn. apply order_by_sorted. rewrite Hn. generalize 1. generalize (length (rows_of id t)).
  intros n. induction n as [|n IH]; intros v; [constructor|].
  rewrite seqZ_cons by lia. replace (Z.pred (Z.of_nat (S n))) with (Z.of_nat n) by lia.
  constructor; [apply IH|]. apply Forall_seqZ. lia.
Qed.
End batches.

(** ** [Append] while other sessions work *)
Section append.
Context `{GoText} {U : UuidLib} {P E X : Type} `{!JsonText P, !JsonbColumn P}.
Context `{!DomainEvent E, !JsonMarshal E P, !Tables (Database P) X}.
Context (registry : EventRegistry P E) (fuel : nat) `{!RegistryReads fuel registry}.
Implicit Types (t : Database P) (es : list E) (b : list (string * P)).

(** What the events of a batch look like in the table. *)
Definition stored_event (e : E) : option (string * P) :=
  match json_Marshal e with
  | Ok payload => pair (MessageName e) <$> jsonb payload
  | _ => None
  end.
Definition stored_batch (es : list E) : option (list (string * P)) := mapM stored_event es.

Lemma stored_event_reads e x :
  stored_event e = Some x → Deserialize fuel registry x.1 x.2 = Some (Ok e).
Proof.
  unfold stored_event. destruct (json_Marshal e) as [p|err|m] eqn:He; [|done..].
  intros (p' & Hp & ->)%fmap_Some. by eapply rehydrates.
Qed.

Lemma scan_batch id c v now es b :
  stored_batch es = Some b →
  scan registry fuel id (batch_rows id c v now b) = Ok (new_records id v c now es).
Proof.
  unfold stored_batch. intros Hb%mapM_Some. revert v.
  induction Hb as [|e [ty p] es b He Hb IH]; intros v; [done|].
  apply stored_event_reads in He. simpl in He.
  rewrite batch_rows_cons. simpl. rewrite He, IH. simpl.
  unfold new_records. simpl. f_equal. f_equal; [f_equal; lia|].
  apply imap_ext. intros i x _. simpl. f_equal. lia.
Qed.

Lemma scan_app id rows rows' l l' :
  scan registry fuel id rows = Ok l → scan registry fuel id rows' = Ok l' →
  scan registry fuel id (rows ++ rows') = Ok (l ++ l').
Proof.
  revert l. induction rows as [|row rows IH]; intros l; simpl; [by intros [= <-]|].
  destruct (Deserialize _ _ _ _) as [[e|err|m]|]; [|done..].
  destruct (scan registry fuel id rows) as [l0|err|m]; [|done..]. simpl. intros [= <-] Hl'.
  by rewrite (IH l0 eq_refl Hl').
Qed.

(** The tables of a running system: every stream is numbered from 1, and its
    payloads rehydrate. *)
Definition tables_wf t : Prop :=
  ∀ id, numbered (rows_of id t) ∧ ∃ l, scan registry fuel id (rows_of id t) = Ok l.

(** The stream a client sees. *)
Definition stream_in t (id : string) : list (StoredEvent E) :=
  match scan registry fuel id (rows_of id t) with Ok l => l | _ => [] end.

Lemma scan_length id rows l : scan registry fuel id rows = Ok l → length l = length rows.
Proof.
  revert l. induction rows as [|row rows IH]; intros l; simpl; [by intros [= <-]|].
  destruct (Deserialize _ _ _ _) as [[e|err|m]|]; [|done..].
  destruct (scan registry fuel id rows) as [l0|err|m]; [|done..]. intros [= <-]. simpl.
  f_equal. by apply IH.
Qed.

Lemma stream_in_length t id : tables_wf t → length (stream_in t id) = length (rows_of id t).
Proof.
  intros Ht. destruct (Ht id) as (_ & l & Hl). unfold stream_in. rewrite Hl.
  by apply (scan_length id).
Qed.

(** A committed batch extends one stream by the records of its events. *)
Lemma commit_batch_wf id c es b t :
  stored_batch es = Some b → tables_wf t →
  tables_wf (commit_batch id c (Z.of_nat (length (rows_of id t))) b t).
Proof.
  intros Hb Ht id'. rewrite rows_of_commit. destruct (Ht id') as (Hn & l & Hl).
  case_decide as Hid; [subst|by rewrite app_nil_r; eauto].
  split; [by apply numbered_app|]. eexists. eapply scan_app; [exact Hl|]. by apply scan_batch.
Qed.

Lemma commit_batch_stream id c es b t id' :
  stored_batch es = Some b → tables_wf t →
  stream_in (commit_batch id c (Z.of_nat (length (rows_of id t))) b t) id'
  = stream_in t id' ++
    (if decide (id' = id) then new_records id (Z.of_nat (length (rows_of id t))) c (db_now t) es
     else []).
Proof.
  intros Hb Ht. destruct (Ht id') as (Hn & l & Hl). unfold stream_in. rewrite rows_of_commit.
  case_decide as Hid; [subst|by rewrite !app_nil_r].
  rewrite (scan_app id _ _ l _ Hl (scan_batch _ _ _ _ _ _ Hb)). by rewrite Hl.
Qed.

(** *** The transaction *)

(** [Φ] is what the other sessions that are due may do; a session that appends to
    a stream the transaction has written to waits for it. *)
Context (A : X → Prop) (Φ : Database P → Database P → Prop) `{!PreOrder Φ}.
Context (Harrive : ∀ w x t, A x → Φ t (arrive w x t)).
Context (Hwf : ∀ t t', Φ t t' → tables_wf t → tables_wf t').
Context (Hgrow : ∀ t t' id, Φ t t' → (length (rows_of id t) ≤ length (rows_of id t'))%nat).
Context (Hlock : ∀ w x t id, A x → length (rows_of id (w t)) ≠ length (rows_of id t) →
  rows_of id (arrive w x t) = rows_of id t).
Context (Hmarshal : ∀ (e : E) m, json_Marshal e ≠ Panic m).

(** The transaction has added [n] rows to the stream with the writes [w]; once it
    has added one, the stream stands still at the expected version. *)
Record inserted (id : string) (v : Z) (t0 : Database P) (w : Database P → Database P) (n : nat)
    (tx : Tx (Database P) X) : Prop := {
  ins_due : due A tx;
  ins_base : Φ t0 (base tx);
  ins_wf : tables_wf (base tx);
  ins_writes : ∀ t, writes tx t = w t;
  ins_rows : ∀ t, ∃ extra, rows_of id (w t) = rows_of id t ++ extra ∧ length extra = n;
  ins_reached : 0 ≤ v ≤ Z.of_nat (length (rows_of id (base tx)));
  ins_head : (0 < n)%nat → v = Z.of_nat (length (rows_of id (base tx)));
}.

Lemma inserted_statement id v t0 w n tx r tx' :
  inserted id v t0 w n tx → statement tx = (r, tx') → inserted id v t0 w n tx'.
Proof.
  intros [Hd Hb Hw Hc Hr Hle Hh] Hs. pose proof Hs as Hs'.
  apply (statement_spec A Φ Harrive) in Hs' as (Hd' & Hb' & Hw' & _); [|done].
  split; [done|by etransitivity|by eapply Hwf|by rewrite Hw'|done|by specialize (Hgrow _ _ id Hb'); lia|].
  intros Hn. rewrite (Hh Hn). do 2 f_equal. symmetry.
  apply (statement_keeps A (λ t, rows_of id t = rows_of id (base tx)) tx r tx'); [done| |done|done].
  intros x t Hx Ht. rewrite <- Ht. apply (Hlock _ _ _ _ Hx). rewrite Hc. intros E1.
  destruct (Hr t) as (extra & Hex & Hlen). rewrite Hex in E1.
  rewrite length_app in E1. lia.
Qed.

Lemma inserted_ext id v t0 w w' n tx :
  (∀ t, w t = w' t) → inserted id v t0 w n tx → inserted id v t0 w' n tx.
Proof.
  intros Hww [Hd Hb Hw Hc Hr Hle Hh]. split; try done.
  - intros t. by rewrite Hc.
  - intros t. rewrite <- Hww. apply Hr.
Qed.

Lemma inserted_since id v t0 t1 w n tx :
  Φ t0 t1 → inserted id v t1 w n tx → inserted id v t0 w n tx.
Proof. intros H01 [Hd Hb Hw Hc Hr Hle Hh]. split; try done. by etransitivity. Qed.

(** The primary key: the version after [v] is free only at the head. *)
Lemma free_version id v t :
  numbered (rows_of id t) → 0 ≤ v ≤ Z.of_nat (length (rows_of id t)) →
  (¬ ∃ row, row ∈ rows_of id t ∧ er_version row = v + 1) →
  v = Z.of_nat (length (rows_of id t)).
Proof.
  intros Hn Hv Hfree. destruct (decide (v = Z.of_nat (length (rows_of id t)))); [done|].
  destruct (lookup_lt_is_Some_2 (rows_of id t) (Z.to_nat v) ltac:(lia)) as [row Hrow].
  destruct Hfree. exists row. split; [by eapply list_elem_of_lookup_2|].
  rewrite (numbered_lookup _ _ _ Hn Hrow). lia.
Qed.

Lemma check_event_free id v ty t :
  check_event id v ty t = None → ¬ ∃ row, row ∈ rows_of id t ∧ er_version row = v.
Proof.
  unfold check_event. repeat (case_match; try done). intros _ (row & Hrow & Hv).
  match goal with H : bool_decide (Exists _ _) = false |- _ =>
    apply bool_decide_eq_false in H; apply H end.
  apply list_elem_of_filter in Hrow as [Hid Hin]. apply Exists_exists. eauto.
Qed.

Lemma insert_into_events_spec id c v t0 w n tx ty p r tx' :
  inserted id v t0 w n tx →
  insert_into_events id (v + Z.of_nat n + 1) c ty p tx = (r, tx') →
  match r with
  | Ok _ => ∃ stored, jsonb p = Some stored ∧
      inserted id v t0 (λ t, insert_event id (v + Z.of_nat n + 1) c ty stored (w t)) (S n) tx'
  | Err _ => due A tx' ∧ Φ t0 (base tx')
  | Panic _ => False
  end.
Proof.
  intros Hi. unfold insert_into_events. destruct (jsonb p) as [stored|];
    intros (rs & tx1 & Hs & He)%exec_inv; pose proof (inserted_statement _ _ _ _ _ _ _ _ Hi Hs) as Hi1;
    pose proof (statement_spec A Φ Harrive _ _ _ (ins_due _ _ _ _ _ _ Hi) Hs)
      as (_ & _ & _ & [->|[m ->]]);
    try (destruct He as [-> ->]; split; by apply Hi1).
  unfold own_view in He. destruct Hi1 as [Hd Hb Hw Hc Hr Hle Hh]. rewrite Hc in He.
  destruct (check_event _ _ _ _) eqn:Hck; [by destruct He as [-> ->]|].
  destruct He as (-> & Hbase & Hwr & Har). exists stored. split; [done|].
  apply check_event_free in Hck.
  split; unfold due; rewrite ?Hbase, ?Har; try done.
  - intros t. by rewrite Hwr, Hc.
  - intros t. destruct (Hr t) as (extra & Hx & Hlen). unfold rows_of in *. simpl.
    rewrite filter_app, Hx, filter_cons, decide_True, <- app_assoc by done. simpl.
    eexists. split; [done|]. rewrite length_app. simpl. lia.
  - intros _. destruct n as [|n]; [|apply Hh; lia]. apply free_version; [apply Hw|done|].
    intros (row & Hrow & Hv). apply Hck. exists row. split; [|lia].
    destruct (Hr (base tx1)) as (extra & -> & _). apply elem_of_app. by left.
Qed.

Lemma insert_into_outbox_spec id v t0 w n tx topic p r tx' :
  inserted id v t0 w n tx → insert_into_outbox topic p tx = (r, tx') →
  match r with
  | Ok _ => ∃ stored, jsonb p = Some stored ∧
      inserted id v t0 (λ t, enqueue topic stored (w t)) n tx'
  | Err _ => due A tx' ∧ Φ t0 (base tx')
  | Panic _ => False
  end.
Proof.
  intros Hi. unfold insert_into_outbox. destruct (jsonb p) as [stored|];
    intros (rs & tx1 & Hs & He)%exec_inv; pose proof (inserted_statement _ _ _ _ _ _ _ _ Hi Hs) as Hi1;
    pose proof (statement_spec A Φ Harrive _ _ _ (ins_due _ _ _ _ _ _ Hi) Hs)
      as (_ & _ & _ & [->|[m ->]]);
    try (destruct He as [-> ->]; split; by apply Hi1).
  destruct (check_outbox _ _); [destruct He as [-> ->]; split; apply Hi1|].
  destruct He as (-> & Hbase & Hwr & Har). exists stored. split; [done|].
  destruct Hi1 as [Hd Hb Hw Hc Hr Hle Hh]. split; unfold due; rewrite ?Hbase, ?Har; try done.
  intros t. by rewrite Hwr, Hc.
Qed.

Lemma append_events_spec id c v t0 es b tx r tx' :
  inserted id v t0 (commit_batch id c v b) (length b) tx →
  append_events id v c (Z.of_nat (length b)) es tx = (r, tx') →
  match r with
  | Ok _ => ∃ b', stored_batch es = Some b' ∧
      inserted id v t0 (commit_batch id c v (b ++ b')) (length (b ++ b')) tx'
  | Err _ => due A tx' ∧ Φ t0 (base tx')
  | Panic _ => False
  end.
Proof.
  revert b tx. induction es as [|e es IH]; intros b tx Hi.
  { intros [= <- <-]. exists []. split; [done|]. by rewrite app_nil_r. }
  simpl. unfold mbind, GoM_bind, lift, wrapping, attempt, throw.
  destruct (json_Marshal e) as [p|err|m] eqn:Hp; [|intros [= <- <-]; split; apply Hi|by destruct (Hmarshal e m)].
  simpl. destruct (insert_into_events _ _ _ _ _ _) as [r1 tx1] eqn:E1.
  pose proof (insert_into_events_spec _ _ _ _ _ _ _ _ _ _ _ Hi E1) as H1.
  destruct r1 as [[]|err|m]; [|destruct (unique_violation err); by intros [= <- <-]|done].
  destruct H1 as (stored & Hst & Hi1). cbn beta iota delta [mret GoM_ret].
  destruct (insert_into_outbox _ p tx1) as [r2 tx2] eqn:E2.
  pose proof (insert_into_outbox_spec _ _ _ _ _ _ _ _ _ _ Hi1 E2) as H2.
  destruct r2 as [[]|err|m]; simpl; [|by intros [= <- <-]|done].
  destruct H2 as (stored' & Hst' & Hi2). rewrite Hst in Hst'. injection Hst' as <-.
  set (x := (MessageName e, stored)).
  assert (inserted id v t0 (commit_batch id c v (b ++ [x])) (length (b ++ [x])) tx2) as Hi3.
  { rewrite length_app. simpl. rewrite Nat.add_1_r. eapply inserted_ext; [|exact Hi2].
    intros t. by rewrite commit_batch_app. }
  replace (Z.of_nat (length b) + 1) with (Z.of_nat (length (b ++ [x])))
    by (rewrite length_app; simpl; lia).
  intros Hloop. specialize (IH _ _ Hi3 Hloop). destruct r as [[]|err|m]; [|done..].
  destruct IH as (b' & Hb' & Hi'). exists (x :: b'). rewrite <- app_assoc in Hi'.
  split; [|done]. unfold stored_batch, stored_event in *. simpl. rewrite Hp, Hst. simpl.
  by rewrite Hb'.
Qed.

(** The whole call. *)
Lemma Append_pg_spec id c v es (p : Pool (Database P) X) r p' :
  Forall (Forall A) (arrivals p) → tables_wf (tables p) → Append_pg id v c es p = (r, p') →
  Forall (Forall A) (arrivals p') ∧
  match r with
  | Ok _ => ∃ t b, Φ (tables p) t ∧ tables_wf t ∧ stored_batch es = Some b ∧
      tables p' = commit_batch id c v b t ∧ (∃ t1, Φ (tables p) t1 ∧ Φ t1 t ∧
        v = Z.of_nat (length (rows_of id t1))) ∧
      (es ≠ [] → v = Z.of_nat (length (rows_of id t)))
  | Err _ => Φ (tables p) (tables p')
  | Panic _ => False
  end.
Proof.
  intros Hd Hp Hr. unfold Append_pg in Hr.
  eapply (in_tx_spec A Φ Harrive) with (Ψ := λ (_ : unit) tx, ∃ b,
      stored_batch es = Some b ∧ (∃ t1, Φ (tables p) t1 ∧ Φ t1 (base tx) ∧
        v = Z.of_nat (length (rows_of id t1))) ∧
      inserted id v (tables p) (commit_batch id c v b) (length b) tx) in Hr; [|done|..].
  - destruct Hr as [Hd' Hr]. split; [done|].
    destruct r as [[]|e|m]; [|done..]. destruct Hr as (tx & Hb & (b & Hes & Ht1 & Hi) & Ht).
    exists (base tx), b. split; [done|]. split; [apply Hi|]. split; [done|].
    split; [rewrite Ht; apply Hi|]. split; [done|]. intros Hne. apply Hi.
    apply length_mapM in Hes. destruct es; [done|]. simpl in Hes. lia.
  - intros tx r1 tx' Hd1 Hb Hw. unfold mbind, GoM_bind, wrapping, throw.
    destruct (query _ tx) as [r2 tx2] eqn:E2.
    apply (query_spec A Φ Harrive) in E2 as (Hd2 & Hb2 & Hw2 & [->|[m ->]]); [..|done]; simpl;
      [|by intros [= <- <-]].
    unfold own_view. rewrite Hw2, Hw.
    assert (tables_wf (base tx2)) as Hwf2 by (eapply Hwf; [|exact Hp]; by etransitivity).
    rewrite (head_version_numbered id (base tx2)) by apply Hwf2.
    destruct (Z.eqb_spec (Z.of_nat (length (rows_of id (base tx2)))) v) as [Hv|]; simpl;
      [|by intros [= <- <-]].
    intros Hloop.
    assert (inserted id v (base tx2) (commit_batch id c v [])
              (length (@nil (string * P))) tx2) as Hi.
    { split; simpl; try lia; [done|done|done|by rewrite Hw2, Hw|].
      intros t. exists []. by rewrite app_nil_r. }
    pose proof (append_events_spec _ _ _ _ _ [] _ _ _ Hi Hloop) as Hs.
    destruct r1 as [[]|e|m]; [|destruct Hs; split; [done|split; [by etransitivity|done]]|done].
    destruct Hs as (b & Hes & Hi'). split; [apply Hi'|]. split; [by etransitivity; [|apply Hi']|].
    split; [|done]. intros _ _. exists b. split; [done|]. split.
    + exists (base tx2). split; [by etransitivity|]. split; [apply Hi'|done].
    + eapply inserted_since; [|exact Hi']. by etransitivity.
  - intros _ tx tx' (b & Hes & (t1 & H1 & H2 & Hv) & Hi) Hst. exists b. split; [done|].
    split; [|by eapply inserted_statement]. exists t1. split; [done|]. split; [|done].
    apply (statement_spec A Φ Harrive) in Hst as (_ & Hb & _); [by etransitivity|apply Hi].
Qed.
End append.

(** *** The other sessions *)

(** Other replicas append with the same code, relays delete outbox rows, time
    passes. An append that finds the stream being written by this transaction
    waits for it. *)
Inductive Arrival (E : Type) `{UuidLib} :=
| Appended (streamID : string) (commitID : UUID) (events : list E)
| Dispatched (ids : list Z)
| Elapsed (d : Z).
Arguments Appended {E _} _ _ _.
Arguments Dispatched {E _} _.
Arguments Elapsed {E _} _.

Section concurrent.
Context `{GoText} {U : UuidLib} {P E : Type} `{!JsonText P, !JsonbColumn P}.
Context `{!DomainEvent E, !JsonMarshal E P}.
Implicit Types (t : Database P).

Definition delete_outbox (ids : list Z) t : Database P :=
  mkDatabase (db_events t) (filter (λ row, ob_id row ∉ ids) (db_outbox t)) (db_outbox_next t)
    (db_dead_letters t) (db_dead_letters_next t) (db_now t).
Definition pass_time (d : Z) t : Database P :=
  mkDatabase (db_events t) (db_outbox t) (db_outbox_next t)
    (db_dead_letters t) (db_dead_letters_next t) (db_now t + d).

#[global] Instance other_sessions : Tables (Database P) (Arrival E) := λ w x t,
  match x with
  | Appended id c es =>
      match stored_batch es with
      | Some b =>
          if decide (length (rows_of id (w t)) = length (rows_of id t))
          then commit_batch id c (Z.of_nat (length (rows_of id t))) b t
          else t
      | None => t
      end
  | Dispatched ids => delete_outbox ids t
  | Elapsed d => pass_time d t
  end.

(** What sessions of the kind [A] may have committed. *)
Definition others (A : Arrival E → Prop) : Database P → Database P → Prop :=
  rtc (λ t t', ∃ w x, A x ∧ t' = arrive w x t).

(** The sessions that are due during a call. *)
Definition meanwhile {T} (p : Pool T (Arrival E)) (x : Arrival E) : Prop :=
  x ∈ mjoin (arrivals p).

Lemma arrive_others (A : Arrival E → Prop) w x t : A x → others A t (arrive w x t).
Proof. intros Hx. apply rtc_once. eauto. Qed.

Lemma meanwhile_due {T} (p : Pool T (Arrival E)) :
  Forall (Forall (meanwhile p)) (arrivals p).
Proof.
  apply Forall_forall. intros xs Hxs. apply Forall_forall. intros x Hx.
  apply list_elem_of_join. eauto.
Qed.

Lemma arrive_rows w (x : Arrival E) t id :
  ∃ rows, rows_of id (arrive w x t) = rows_of id t ++ rows.
Proof.
  destruct x as [id' c es|ids|d]; simpl; unfold arrive; simpl;
    [|by exists []; rewrite app_nil_r..].
  destruct (stored_batch es); [|by exists []; rewrite app_nil_r].
  case_decide; [|by exists []; rewrite app_nil_r]. rewrite rows_of_commit. eauto.
Qed.

Lemma others_grow A t t' id : others A t t' → (length (rows_of id t) ≤ length (rows_of id t'))%nat.
Proof.
  induction 1 as [t|t1 t2 t3 (w & x & _ & ->) _ IH]; [done|].
  destruct (arrive_rows w x t1 id) as [rows Hr]. rewrite Hr, length_app in IH. lia.
Qed.

Lemma arrive_lock w (x : Arrival E) t id :
  length (rows_of id (w t)) ≠ length (rows_of id t) →
  rows_of id (arrive w x t) = rows_of id t.
Proof.
  intros Hne. destruct x as [id' c es|ids|d]; simpl; unfold arrive; simpl; [|done..].
  destruct (stored_batch es) as [b|]; [|done]. case_decide as Heq; [|done].
  rewrite rows_of_commit, decide_False, app_nil_r; [done|]. by intros ->.
Qed.

Context (registry : EventRegistry P E) (fuel : nat) `{!RegistryReads fuel registry}.

Lemma others_wf A t t' : others A t t' → tables_wf registry fuel t → tables_wf registry fuel t'.
Proof.
  induction 1 as [t|t1 t2 t3 (w & x & _ & ->) _ IH]; [done|]. intros Ht. apply IH.
  destruct x as [id c es|ids|d]; simpl; unfold arrive; simpl; [|done..].
  destruct (stored_batch es) as [b|] eqn:Hb; [|done]. case_decide; [|done].
  by eapply commit_batch_wf.
Qed.

(** C5 [Append] is atomic and serializable while other replicas append between
    its statements. If it returns no error, all its events are stored at once,
    when it commits, and then they follow the [expectedVersion] events the stream
    has at that moment, with consecutive versions and one outbox message each; the
    stream a client reads is extended by exactly these events. If it returns an
    error, only what the other replicas did is there. *)
Theorem append_serializable id v c (es : list E) (p : Pool (Database P) (Arrival E)) r p' :
  (∀ (e : E) m, json_Marshal e ≠ Panic m) →
  tables_wf registry fuel (tables p) → Append_pg id v c es p = (r, p') →
  tables_wf registry fuel (tables p') ∧
  match r with
  | Ok _ => ∃ t b, others (meanwhile p) (tables p) t ∧ stored_batch es = Some b ∧
      tables p' = commit_batch id c v b t ∧
      (es ≠ [] → v = Z.of_nat (length (stream_in registry fuel t id)) ∧
         stream_in registry fuel (tables p') id
         = stream_in registry fuel t id ++ new_records id v c (db_now t) es)
  | Err _ => others (meanwhile p) (tables p) (tables p')
  | Panic _ => False
  end.
Proof.
  intros Hm Hp Ha.
  eapply (Append_pg_spec registry fuel (meanwhile p) (others (meanwhile p))) in Ha;
    [|intros ????; by apply arrive_others|apply others_wf|apply others_grow
     |intros ?????; by apply arrive_lock|exact Hm|apply meanwhile_due|exact Hp].
  destruct Ha as [_ Ha].
  destruct r as [[]|e|m]; [|split; [by eapply others_wf|done]|done].
  destruct Ha as (t & b & Ht & Hwf & Hb & -> & _ & Hv). destruct es as [|e es].
  - injection Hb as <-. split; [done|]. by exists t, [].
  - specialize (Hv ltac:(done)). subst v. split; [by eapply commit_batch_wf|].
    exists t, b. split; [done|]. split; [done|]. split; [done|]. intros _.
    rewrite stream_in_length by done. split; [done|].
    rewrite (commit_batch_stream registry fuel id c (e :: es) b t id Hb Hwf).
    by rewrite decide_True.
Qed.
End concurrent.
