(* ===== verification/Relay.v ===== *)
(** * Publishing rows of a table
      (the common part of [internal/muflone/outbox.go] and [deadletters.go])

    The relay and the redrive have one shape: in a transaction, select rows,
    publish each and settle it in the table; if anything fails, the table is as it
    was and some of the messages are out. *)
From S2P Require Import Prelude Errors Kernel Bus Sql.
#[local] Open Scope Z_scope.

Section relay.
Context {T X R P B : Type} `{!Tables T X, !WirePublisher B P}.
(** The error prefix; the rows, their topic and payload, how one is settled. *)
Context (name : string) (select : T → list R).
Context (topic : R → string) (payload : R → P) (settle : R → T → T).

(** The [for _, row := range pending] loop. *)
Definition publish_each (pending : list R) : GoM (Tx T X * B) unit :=
  for_each pending (λ row,
    _ ← wrapping (name +:+ " publish " +:+ topic row)%string
          (beside (Publish (topic row) (payload row)));
    wrapping name (on_tx (exec (λ _, None) (settle row)))).

(** [rows.Err()], after the rows, is one more chance to fail. *)
Definition publish_rows : GoM (Pool T X * B) Z :=
  in_tx_with name (
    pending ← wrapping name (on_tx (query select));
    _ ← wrapping name (on_tx statement);
    _ ← publish_each pending;
    mret (Z.of_nat (length pending))).

Definition settled (rows : list R) (t : T) : T := foldl (λ t row, settle row t) t rows.
Definition message_of (row : R) : string * P := (topic row, payload row).

(** *** Whatever fails *)
Context `{!WirePublisherLaws B P}.
(** [A]: the sessions that are due; what one does to the tables is a step of
    [Φ]. *)
Context (A : X → Prop) (Φ : T → T → Prop) `{!PreOrder Φ}.
Context (Harrive : ∀ w x t, A x → Φ t (arrive w x t)).
Implicit Types (b : B) (t : T).

(** [sent]: what went out since [b0]. *)
Definition went_out b0 (sent : list (string * P)) b : Prop :=
  published b = published b0 ++ sent.

Lemma went_out_nothing b : went_out b [] b.
Proof. unfold went_out. by rewrite app_nil_r. Qed.

Lemma publish_cases s m b0 sent b r b' :
  Publish s m b = (r, b') → went_out b0 sent b →
  match r with
  | Ok _ => went_out b0 (sent ++ [(s, m)]) b'
  | Err _ => went_out b0 sent b' ∨ went_out b0 (sent ++ [(s, m)]) b'
  | Panic _ => False
  end.
Proof.
  unfold went_out. intros Hp Hb. destruct r as [[]|e|x].
  - rewrite (publish_ok _ _ _ _ Hp), Hb. by rewrite app_assoc.
  - rewrite app_assoc, <- Hb. by apply publish_err in Hp.
  - by apply publish_no_panic in Hp.
Qed.

(** The rows [done_] are out, and settled once the transaction commits. *)
Lemma publish_each_spec b0 t0 (done_ pending : list R) tx b r tx' b' :
  due A tx → Φ t0 (base tx) → went_out b0 (message_of <$> done_) b →
  (∀ t, writes tx t = settled done_ t) →
  publish_each pending (tx, b) = (r, (tx', b')) →
  due A tx' ∧ Φ t0 (base tx') ∧ (∀ m, r ≠ Panic m) ∧
  (∃ sent, sent `prefix_of` done_ ++ pending ∧ went_out b0 (message_of <$> sent) b') ∧
  (r = Ok tt → went_out b0 (message_of <$> done_ ++ pending) b' ∧
     ∀ t, writes tx' t = settled (done_ ++ pending) t).
Proof.
  revert done_ tx b. induction pending as [|row pending IH]; intros done_ tx b Hd Hb Ho Hw.
  { intros [= <- <- <-]. rewrite app_nil_r. split; [done|]. split; [done|]. split; [done|].
    split; [by exists done_|done]. }
  unfold publish_each. simpl. unfold mbind, GoM_bind, wrapping, beside, on_tx, zoom. simpl.
  destruct (Publish (topic row) (payload row) b) as [r1 b1] eqn:E1.
  pose proof (publish_cases _ _ _ _ _ _ _ E1 Ho) as H1.
  assert (done_ ++ row :: pending = (done_ ++ [row]) ++ pending) as Happ
    by by rewrite <- app_assoc.
  assert (∀ b2, went_out b0 ((message_of <$> done_) ++ [(topic row, payload row)]) b2 →
    ∃ sent, sent `prefix_of` done_ ++ row :: pending ∧ went_out b0 (message_of <$> sent) b2)
    as Hsent.
  { intros b2 H2. exists (done_ ++ [row]). rewrite Happ. split; [by apply prefix_app_r|].
    by rewrite fmap_app. }
  destruct r1 as [[]|e|m]; simpl; [|intros [= <- <- <-]|done].
  2:{ split; [done|]. split; [done|]. split; [done|]. split; [|done].
      destruct H1 as [H1|H1]; [exists done_; split; [by apply prefix_app_r|done]|].
      by apply Hsent. }
  destruct (exec _ _ tx) as [r2 tx2] eqn:E2.
  apply exec_inv in E2 as (rs & tx1 & Hs & He).
  pose proof (statement_spec A Φ Harrive _ _ _ Hd Hs) as (Hd1 & Hb1 & Hw1 & [->|[m ->]]).
  2:{ destruct He as [-> ->]. intros [= <- <- <-]. split; [done|].
      split; [by etransitivity|]. split; [done|]. split; [|done]. by apply Hsent. }
  destruct He as (-> & Hbase & Hw2 & Har). simpl. intros Hloop. rewrite Happ.
  eapply (IH (done_ ++ [row]) tx2 b1); [| | | |exact Hloop].
  - unfold due. by rewrite Har.
  - rewrite Hbase. by etransitivity.
  - by rewrite fmap_app.
  - intros t. rewrite Hw2, Hw1, Hw. unfold settled. by rewrite foldl_app.
Qed.

(** The whole call: on success every selected row went out once, in order, and is
    settled; on failure a prefix went out and no row is settled. *)
Lemma publish_rows_spec (p : Pool T X) b r p' b' :
  Forall (Forall A) (arrivals p) → publish_rows (p, b) = (r, (p', b')) →
  Forall (Forall A) (arrivals p') ∧ (∀ m, r ≠ Panic m) ∧
  (∃ tq sent, Φ (tables p) tq ∧ sent `prefix_of` select tq ∧
     went_out b (message_of <$> sent) b') ∧
  match r with
  | Ok n => ∃ tq t, Φ (tables p) tq ∧ Φ tq t ∧ n = Z.of_nat (length (select tq)) ∧
      went_out b (message_of <$> select tq) b' ∧ tables p' = settled (select tq) t
  | _ => Φ (tables p) (tables p')
  end.
Proof.
  intros Hd Hr.
  assert (∃ tq sent, Φ (tables p) tq ∧ sent `prefix_of` select tq ∧
    went_out b (message_of <$> sent) b) as Hnone.
  { exists (tables p), []. split; [done|]. split; [apply prefix_nil|]. apply went_out_nothing. }
  eapply (in_tx_with_spec A Φ Harrive) with
    (Ω := λ b', ∃ tq sent, Φ (tables p) tq ∧ sent `prefix_of` select tq ∧
       went_out b (message_of <$> sent) b')
    (Ψ := λ n tx b', ∃ tq, Φ (tables p) tq ∧ Φ tq (base tx) ∧
       n = Z.of_nat (length (select tq)) ∧ went_out b (message_of <$> select tq) b' ∧
       ∀ t, writes tx t = settled (select tq) t) in Hr; [|done|exact Hnone|..].
  - destruct Hr as (Hd' & Ho & Hr). split; [done|]. split; [by destruct r|]. split; [done|].
    destruct r as [n|e|m]; [|done..].
    destruct Hr as (tx & Hb & (tq & H1 & H2 & Hn & Hg & Hw) & Ht).
    exists tq, (base tx). do 4 (split; [done|]). rewrite Ht. apply Hw.
  - intros tx r1 tx' b1 Hd1 Hb Hw. unfold mbind, GoM_bind, wrapping, on_tx, zoom. simpl.
    destruct (query _ tx) as [r2 tx2] eqn:E2.
    apply (query_spec A Φ Harrive) in E2 as (Hd2 & Hb2 & Hw2 & [->|[m ->]]); [..|done]; simpl;
      [|by intros [= <- <- <-]].
    unfold own_view. rewrite Hw2, Hw.
    destruct (statement tx2) as [r3 tx3] eqn:E3.
    apply (statement_spec A Φ Harrive) in E3 as (Hd3 & Hb3 & Hw3 & [->|[m ->]]); [..|done]; simpl;
      [|intros [= <- <- <-]; split; [done|split; [by etransitivity|done]]].
    destruct (publish_each _ (tx3, b)) as [r4 [tx4 b4]] eqn:E4.
    eapply (publish_each_spec b (base tx2) []) in E4
      as (Hd4 & Hb4 & Hnp & (sent & Hsent & Hwent) & Hok); [|done|done|apply went_out_nothing|].
    + assert (Φ (tables p) (base tx2)) as Hq by by etransitivity.
      assert (∃ tq sent, Φ (tables p) tq ∧ sent `prefix_of` select tq ∧
        went_out b (message_of <$> sent) b4) as Ho by by exists (base tx2), sent.
      destruct r4 as [[]|e|m]; [| |by destruct (Hnp m)]; intros [= <- <- <-];
        (split; [done|]); (split; [by do 2 (etransitivity; [eassumption|])|]);
        (split; [done|]); (split; [|done]); [|done].
      intros n [= <-]. exists (base tx2). destruct (Hok eq_refl). done.
    + intros t. by rewrite Hw3, Hw2, Hw.
  - intros n tx tx' b1 Hdue (tq & H1 & H2 & Hn & Hg & Hw) Hst. exists tq.
    apply (statement_spec A Φ Harrive) in Hst as (_ & Hb & Hws & _); [|done].
    split; [done|]. split; [by etransitivity|]. split; [done|]. split; [done|]. by rewrite Hws.
Qed.
End relay.

(** ** When nothing fails *)
Section clean.
Context {T X R P B : Type} `{!Tables T X, !WirePublisher B P}.
Context (Haccept : ∀ topic (m : P) (b : B), ∃ b', Publish topic m b = (Ok tt, b')).
Context (name : string) (select : T → list R).
Context (topic : R → string) (payload : R → P) (settle : R → T → T).

Definition clean_tx (tx : Tx T X) : Prop := tx_faults tx = [] ∧ tx_arrivals tx = [].
Definition clean (p : Pool T X) : Prop := faults p = [] ∧ arrivals p = [].

Lemma statement_clean tx : clean_tx tx → statement tx = (Ok tt, tx).
Proof. destruct tx. unfold clean_tx, statement. simpl. by intros [-> ->]. Qed.

Lemma exec_clean op tx :
  clean_tx tx → ∃ tx', exec (λ _, None) op tx = (Ok tt, tx') ∧ clean_tx tx'.
Proof.
  intros Hc. unfold exec, mbind, GoM_bind. rewrite (statement_clean tx Hc). eauto.
Qed.

Lemma publish_each_clean pending tx b :
  clean_tx tx →
  ∃ tx' b', publish_each name topic payload settle pending (tx, b) = (Ok tt, (tx', b')) ∧
    clean_tx tx'.
Proof.
  revert tx b. induction pending as [|row pending IH]; intros tx b Hc; [by eexists _, _|].
  destruct (Haccept (topic row) (payload row) b) as [b1 Hp].
  destruct (exec_clean (settle row) tx Hc) as (tx1 & He & Hc1).
  destruct (IH tx1 b1 Hc1) as (tx' & b' & Hr & Hc'). exists tx', b'. split; [|done].
  unfold publish_each. simpl. unfold mbind, GoM_bind, wrapping, beside, on_tx, zoom. simpl.
  rewrite Hp. simpl. rewrite He. exact Hr.
Qed.

Lemma publish_rows_clean p b :
  clean p →
  ∃ n p' b', publish_rows name select topic payload settle (p, b) = (Ok n, (p', b')) ∧ clean p'.
Proof.
  intros Hc. assert (clean_tx (begun p)) as Hb by done.
  unfold publish_rows, in_tx_with, mbind, GoM_bind, wrapping, on_tx, zoom. simpl.
  rewrite !(statement_clean (begun p) Hb). simpl. unfold query, mbind, GoM_bind.
  rewrite !(statement_clean (begun p) Hb). simpl. rewrite !(statement_clean (begun p) Hb). simpl.
  destruct (publish_each_clean (select (tables p)) (begun p) b Hb) as (tx' & b' & -> & Hc').
  simpl. rewrite (statement_clean tx' Hc'). simpl. by eexists _, _, _.
Qed.
End clean.
