(* ===== verification/Outbox.v ===== *)
(** * The outbox relay ([internal/muflone/outbox.go])

    The store writes an event's wire message into the table [outbox] in the
    transaction of the append; the relay publishes the messages and deletes them.
    Whatever fails, a message is on the wire or still in the table: delivery is at
    least once. *)
From S2P Require Import Prelude Errors Kernel EventStore Bus Json Registry Sql.
From S2P Require Import PostgresEventStore Relay.
From stdpp Require Import sorting.
#[local] Open Scope Z_scope.

Section relay.
Context {U : UuidLib} {P X B : Type} `{!Tables (Database P) X, !WirePublisher B P}.
Abbreviation DB := (Pool (Database P) X).
Implicit Types (t : Database P) (row : OutboxRow P).

(** [SELECT id, topic, payload FROM outbox ORDER BY id LIMIT 100 FOR UPDATE SKIP
    LOCKED]; [locked] are the rows other relays have claimed. *)
Definition batch_limit : nat := 100.
Definition select_pending (locked : list Z) t : list (OutboxRow P) :=
  take batch_limit (filter (λ row, ob_id row ∉ locked) (order_by ob_id (db_outbox t))).

(** [DispatchPending]. *)
Definition DispatchPending (locked : list Z) : GoM (DB * B) Z :=
  publish_rows "outbox" (select_pending locked) ob_topic ob_payload
    (λ row, delete_outbox [ob_id row]).

(** [Run]: one dispatch per tick until the context is cancelled; a failure is
    logged and the rows wait for the next tick. *)
Definition Run (ticks : list (list Z)) : GoM (DB * B) unit :=
  for_each ticks (λ locked, _ ← attempt (DispatchPending locked); mret tt).
End relay.

(** ** The table *)
Abbreviation outbox_message := (message_of ob_topic ob_payload).

Section outbox.
Context {U : UuidLib} {P : Type}.
Implicit Types (t : Database P) (row : OutboxRow P).

Definition ids (rows : list (OutboxRow P)) : list Z := ob_id <$> rows.

(** [bigserial]: ids grow. *)
Definition outbox_wf t : Prop :=
  StronglySorted Z.lt (ids (db_outbox t)) ∧ Forall (λ i, i < db_outbox_next t) (ids (db_outbox t)).

Lemma enqueue_wf topic p t : outbox_wf t → outbox_wf (enqueue topic p t).
Proof.
  unfold outbox_wf, ids. simpl. rewrite fmap_app. intros [Hs Hn]. simpl. split.
  - clear -Hs Hn. induction (ob_id <$> db_outbox t) as [|i l IH]; simpl; [repeat constructor|].
    apply StronglySorted_inv in Hs as [Hs Hi]. apply Forall_cons in Hn as [Hin Hn].
    constructor; [by apply IH|]. apply Forall_app. split; [done|]. by repeat constructor.
  - apply Forall_app. split; [|repeat constructor; lia].
    eapply Forall_impl; [exact Hn|]. simpl. lia.
Qed.

Lemma delete_wf is_ t : outbox_wf t → outbox_wf (delete_outbox is_ t).
Proof.
  unfold outbox_wf, ids. simpl. generalize (db_outbox_next t). intros n.
  induction (db_outbox t) as [|row l IH]; [done|]. simpl. intros [Hs Hn].
  apply StronglySorted_inv in Hs as [Hs Hi]. apply Forall_cons in Hn as [Hin Hn].
  specialize (IH (conj Hs Hn)) as [IHs IHn]. rewrite filter_cons. case_decide; simpl; [|done].
  split; constructor; try done. rewrite Forall_forall in Hi |- *. intros x Hx. apply Hi.
  apply list_elem_of_fmap in Hx as (y & -> & [_ Hy]%list_elem_of_filter).
  apply list_elem_of_fmap. eauto.
Qed.

Lemma commit_batch_outbox_wf id c v b t : outbox_wf t → outbox_wf (commit_batch id c v b t).
Proof.
  revert v t. induction b as [|[ty p] b IH]; intros v t Ht; [done|]. simpl.
  by apply IH, enqueue_wf.
Qed.

Lemma commit_batch_outbox id c v b t :
  ∃ rows, db_outbox (commit_batch id c v b t) = db_outbox t ++ rows ∧
    outbox_message <$> rows = (λ x, ((domainEventTopicPrefix +:+ x.1)%string, x.2)) <$> b.
Proof.
  revert v t. induction b as [|[ty p] b IH]; intros v t; simpl.
  - exists []. by rewrite app_nil_r.
  - destruct (IH (v + 1) (enqueue (domainEventTopicPrefix +:+ ty)%string p
      (insert_event id (v + 1) c ty p t))) as (rows & -> & Hrows).
    simpl. rewrite <- app_assoc. eexists. split; [done|]. by rewrite fmap_app, Hrows.
Qed.

Lemma wf_unique t row row' :
  outbox_wf t → row ∈ db_outbox t → row' ∈ db_outbox t → ob_id row = ob_id row' → row = row'.
Proof.
  intros [Hs _] Hr Hr' Hid. apply list_elem_of_lookup in Hr as [i Hi], Hr' as [j Hj].
  assert (NoDup (ids (db_outbox t))) as Hnd.
  { clear -Hs. unfold ids in *. induction (db_outbox t) as [|z l IH]; [constructor|]. simpl in *.
    apply StronglySorted_inv in Hs as [Hl Hz]. constructor; [|by apply IH].
    rewrite Forall_forall in Hz. intros Hin. specialize (Hz _ Hin). lia. }
  assert (i = j) as ->; [|congruence].
  eapply NoDup_lookup; [exact Hnd|..]; unfold ids; rewrite list_lookup_fmap.
  - by rewrite Hi.
  - by rewrite Hj, Hid.
Qed.

(** Of every stored event, the wire message waits in the outbox or was sent. *)
Definition on_its_way t (sent : list (string * P)) : Prop :=
  ∀ stored, stored ∈ db_events t →
    let m := ((domainEventTopicPrefix +:+ er_event_type stored)%string, er_payload stored) in
    m ∈ sent ∨ m ∈ outbox_message <$> db_outbox t.

Lemma on_its_way_sent t sent sent' :
  on_its_way t sent → on_its_way t (sent ++ sent').
Proof. intros Ht row Hrow. destruct (Ht row Hrow); [left; rewrite elem_of_app; auto|by right]. Qed.

Lemma commit_batch_on_its_way id c v b t sent :
  on_its_way t sent → on_its_way (commit_batch id c v b t) sent.
Proof.
  intros Ht row. rewrite commit_batch_events, elem_of_app.
  destruct (commit_batch_outbox id c v b t) as (rows & Ho & Hrows).
  intros [Hrow|Hrow]; simpl; rewrite Ho, fmap_app.
  - destruct (Ht row Hrow) as [?|?]; [by left|right; rewrite elem_of_app; auto].
  - right. rewrite elem_of_app. right. rewrite Hrows. unfold batch_rows in Hrow.
    apply elem_of_lookup_imap in Hrow as (i & x & -> & Hx). simpl.
    apply list_elem_of_fmap. exists x. split; [done|]. by eapply list_elem_of_lookup_2.
Qed.

Lemma delete_on_its_way rows t sent :
  outbox_wf t → (∀ row, row ∈ rows → row ∈ db_outbox t) →
  on_its_way t sent → on_its_way (delete_outbox (ids rows) t) (sent ++ (outbox_message <$> rows)).
Proof.
  intros Hwf Hin Ht row Hrow. destruct (Ht row Hrow) as [?|Hm];
    [left; rewrite elem_of_app; auto|].
  apply list_elem_of_fmap in Hm as (o & Hm & Ho). cbv zeta. rewrite Hm.
  destruct (decide (ob_id o ∈ ids rows)) as [Hd|Hd].
  - left. rewrite elem_of_app. right. apply list_elem_of_fmap in Hd as (o' & Hid & Ho').
    rewrite (wf_unique t o o' Hwf Ho (Hin _ Ho') Hid). apply list_elem_of_fmap. eauto.
  - right. apply list_elem_of_fmap. exists o. split; [done|].
    by apply list_elem_of_filter.
Qed.
End outbox.

(** ** What a dispatch does *)
Section dispatch.
Context {U : UuidLib} {P X B : Type} `{!Tables (Database P) X}.
Context `{!WirePublisher B P, !WirePublisherLaws B P}.
Context (A : X → Prop) (Φ : Database P → Database P → Prop) `{!PreOrder Φ}.
Context (Harrive : ∀ w x t, A x → Φ t (arrive w x t)).

Lemma settled_deletes (rows : list (OutboxRow P)) (t : Database P) :
  settled (λ row, delete_outbox [ob_id row]) rows t = delete_outbox (ids rows) t.
Proof.
  unfold settled. induction rows as [|row rows IH] using rev_ind.
  - unfold delete_outbox. destruct t. simpl. f_equal. symmetry.
    apply filter_everything. intros o. apply not_elem_of_nil.
  - rewrite foldl_app, IH. unfold delete_outbox. simpl. f_equal.
    rewrite list_filter_filter. apply list_filter_iff. intros o. unfold ids.
    rewrite fmap_app, not_elem_of_app. simpl. tauto.
Qed.

Lemma DispatchPending_spec locked (p : Pool (Database P) X) (b : B) r p' b' :
  Forall (Forall A) (arrivals p) → DispatchPending locked (p, b) = (r, (p', b')) →
  (∀ m, r ≠ Panic m) ∧
  (∃ sent, published b' = published b ++ sent) ∧
  match r with
  | Ok n => ∃ tq t, Φ (tables p) tq ∧ Φ tq t ∧
      let pending := select_pending locked tq in
      n = Z.of_nat (length pending) ∧
      published b' = published b ++ (outbox_message <$> pending) ∧
      tables p' = delete_outbox (ids pending) t
  | _ => Φ (tables p) (tables p')
  end.
Proof.
  intros Hd Hr. unfold DispatchPending in Hr.
  apply (publish_rows_spec _ _ _ _ _ A Φ Harrive) in Hr
    as (_ & Hnp & (tq & sent & _ & _ & Hg) & Hr); [|done].
  split; [done|]. split; [by eexists|]. destruct r as [n|e|m]; [|done..].
  destruct Hr as (tq' & t & H1 & H2 & Hn & Hg' & Ht). exists tq', t.
  do 4 (split; [done|]). by rewrite Ht, settled_deletes.
Qed.
End dispatch.

(** ** At least once *)
Section delivery.
Context `{GoText} {U : UuidLib} {P E B : Type} `{!JsonText P, !JsonbColumn P}.
Context `{!DomainEvent E, !JsonMarshal E P, !WirePublisher B P, !WirePublisherLaws B P}.
Context (registry : EventRegistry P E) (fuel : nat) `{!RegistryReads fuel registry}.
Implicit Types (t : Database P) (b : B) (p : Pool (Database P) (Arrival E)).

(** Other replicas append and time passes; what another relay deletes it has
    published, and is a step of its own. *)
Definition no_relay (x : Arrival E) : Prop := match x with Dispatched _ => False | _ => True end.
Definition arrivals_append p : Prop := Forall (Forall no_relay) (arrivals p).

(** The durable side of the process: appends of the handlers and dispatches of
    any number of relays, under any faults. *)
Inductive durable_step : Database P * B → Database P * B → Prop :=
| durable_append id v c (es : list E) p r p' b :
    arrivals_append p → Append_pg id v c es p = (r, p') →
    durable_step (tables p, b) (tables p', b)
| durable_dispatch locked p b r p' b' :
    arrivals_append p → DispatchPending locked (p, b) = (r, (p', b')) →
    durable_step (tables p, b) (tables p', b').

Record sound_outbox (w : Database P * B) : Prop := {
  so_tables : tables_wf registry fuel w.1;
  so_outbox : outbox_wf w.1;
  so_sent : on_its_way w.1 (published w.2);
}.

Lemma arrive_sound w x t b :
  no_relay x → sound_outbox (t, b) → sound_outbox (arrive w x t, b).
Proof.
  intros Hx [Hw Ho Hs]. split; simpl in *.
  - apply (others_wf registry fuel no_relay t); [by apply arrive_others|done].
  - destruct x as [id c es|is_|d]; [|done..]. unfold arrive. simpl.
    destruct (stored_batch es); [|done]. case_decide; [|done]. by apply commit_batch_outbox_wf.
  - destruct x as [id c es|is_|d]; [|done..]. unfold arrive. simpl.
    destruct (stored_batch es); [|done]. case_decide; [|done]. by apply commit_batch_on_its_way.
Qed.

Lemma others_sound t t' b : others no_relay t t' → sound_outbox (t, b) → sound_outbox (t', b).
Proof.
  induction 1 as [t|t1 t2 t3 (w & x & Hx & ->) _ IH]; [done|]. intros Ht.
  by apply IH, arrive_sound.
Qed.

Definition extends_outbox t t' : Prop :=
  (∀ b, sound_outbox (t, b) → sound_outbox (t', b)) ∧
  ∀ row, row ∈ db_outbox t → row ∈ db_outbox t'.

#[local] Instance extends_outbox_preorder : PreOrder extends_outbox.
Proof. split; [by intros t|]. intros t1 t2 t3 [H1 H2] [H3 H4]. split; eauto. Qed.

Lemma arrive_extends w x t : no_relay x → extends_outbox t (arrive w x t).
Proof.
  intros Hx. split; [intros b; by apply arrive_sound|].
  intros row Hrow. destruct x as [id c es|is_|d]; [|done..]. unfold arrive. simpl.
  destruct (stored_batch es) as [b|]; [|done]. case_decide; [|done].
  destruct (commit_batch_outbox id c (Z.of_nat (length (rows_of id t))) b t) as (rows & -> & _).
  rewrite elem_of_app. by left.
Qed.

Lemma select_pending_in locked t row :
  row ∈ select_pending locked t → row ∈ db_outbox t.
Proof.
  unfold select_pending, order_by. intros (i & Hi & _)%elem_of_take.
  apply list_elem_of_lookup_2, list_elem_of_filter in Hi as [_ Hi].
  by rewrite merge_sort_Permutation in Hi.
Qed.

Context `{!MarshalReturns E P}.

Lemma durable_step_sound w w' : durable_step w w' → sound_outbox w → sound_outbox w'.
Proof.
  intros Hstep Hs. destruct Hstep as [id v c es p r p' b Hp Ha|locked p b r p' b' Hp Ha].
  - eapply (Append_pg_spec (E := E) registry fuel no_relay (others no_relay)) in Ha;
      [|intros ????; by apply arrive_others|exact (others_wf registry fuel no_relay)|apply others_grow
       |intros ?????; by apply arrive_lock|exact marshal_returns|exact Hp|apply Hs].
    destruct Ha as [_ Ha]. destruct r as [[]|e|m]; [|by eapply others_sound|done].
    destruct Ha as (t & bt & Ht & Hwf & Hb & -> & (t1 & H1 & H2 & Hv) & Hne).
    destruct (others_sound _ _ _ Ht Hs) as [Hw Ho Hse]. split; simpl in *.
    + destruct es as [|e es]; [by injection Hb as <-|]. rewrite Hne by done.
      exact (commit_batch_wf registry fuel id c (e :: es) bt t Hb Hwf).
    + by apply commit_batch_outbox_wf.
    + by apply commit_batch_on_its_way.
  - apply (DispatchPending_spec no_relay extends_outbox arrive_extends) in Ha as (Hnp & (sent & Hg) & Hr);
      [|done].
    destruct r as [n|e|m]; [| |by destruct (Hnp m)].
    + destruct Hr as (tq & t & [H1 H1'] & [H2 H2'] & Hn & Hg' & ->).
      destruct (H2 _ (H1 _ Hs)) as [Hw Hob Hse]. split; simpl in *.
      * done.
      * by apply delete_wf.
      * rewrite Hg'. apply delete_on_its_way; [done| |done].
        intros row Hrow%select_pending_in. by apply H2'.
    + destruct Hr as [H1 _]. destruct (H1 _ Hs) as [Hw Hob Hse].
      split; simpl in *; [done..|].
      rewrite Hg. by apply on_its_way_sent.
Qed.

(** C11 No event is lost between the store and the wire. Start the durable side
    from empty tables: whatever handlers append and relays dispatch, with
    statements and publications failing at any point, of every event in the table
    [events] the wire message has been published or waits in the outbox. *)
Theorem stored_events_reach_the_wire b0 t b now :
  rtc durable_step (mkDatabase [] [] 1 [] 1 now, b0) (t, b) →
  ∀ row, row ∈ db_events t →
    let message := ((domainEventTopicPrefix +:+ er_event_type row)%string, er_payload row) in
    message ∈ published b ∨ ∃ waiting, waiting ∈ db_outbox t ∧ outbox_message waiting = message.
Proof.
  intros Hrun row Hrow message.
  assert (∀ w w', rtc durable_step w w' → sound_outbox w → sound_outbox w') as Hall.
  { induction 1 as [w|w1 w2 w3 Hstep _ IH]; [done|]. intros Hs.
    by apply IH, (durable_step_sound w1 w2). }
  destruct (Hall _ _ Hrun) as [_ _ Hs].
  - split; simpl; [|repeat constructor|by intros ? ?%elem_of_nil].
    intros id. split; [done|]. by eexists.
  - destruct (Hs row Hrow) as [?|Hm]; [by left|right].
    apply list_elem_of_fmap in Hm as (o & Hm & Ho). eauto.
Qed.
End delivery.

(** ** A relay that nothing disturbs empties the table in order *)
Section drain.
Context {U : UuidLib} {P X B : Type} `{!Tables (Database P) X}.
Context `{!WirePublisher B P, !WirePublisherLaws B P}.
Context (Haccept : ∀ topic (m : P) (b : B), ∃ b', Publish topic m b = (Ok tt, b')).
Implicit Types (t : Database P) (b : B).

Lemma delete_first k t :
  outbox_wf t → filter (λ row, ob_id row ∉ ids (take k (db_outbox t))) (db_outbox t)
                = drop k (db_outbox t).
Proof.
  intros [Hs _]. revert k. induction (db_outbox t) as [|row l IH]; intros k; [by destruct k|].
  apply StronglySorted_inv in Hs as [Hs Hrow]. rewrite Forall_forall in Hrow.
  destruct k as [|k]; [apply filter_everything; intros x; apply not_elem_of_nil|].
  simpl. rewrite filter_cons, decide_False; [|intros Hn; apply Hn; by left].
  rewrite <- (IH Hs k). apply filter_agree. intros x Hx.
  change (ids (row :: take k l)) with (ob_id row :: ids (take k l)).
  rewrite not_elem_of_cons. split; [by intros [_ ?]|]. intros Hn. split; [|done].
  assert (ob_id x ∈ ids l) as Hxl by (apply list_elem_of_fmap; eauto).
  specialize (Hrow _ Hxl). lia.
Qed.

Lemma select_pending_wf t :
  outbox_wf t → select_pending [] t = take batch_limit (db_outbox t).
Proof.
  intros [Hs _]. unfold select_pending. rewrite order_by_sorted by done.
  rewrite filter_everything; [done|]. intros row. apply not_elem_of_nil.
Qed.

(** C27 A relay whose statements and publications succeed empties the outbox: after
    [n] ticks, enough for [100 * n] messages, the table is empty and its messages
    went out once each, in the order of their ids; the stored events are the same. *)
Theorem relay_drains n (p : Pool (Database P) X) b :
  clean p → outbox_wf (tables p) → (length (db_outbox (tables p)) ≤ batch_limit * n)%nat →
  ∃ p' b', Run (replicate n []) (p, b) = (Ok tt, (p', b')) ∧
    db_outbox (tables p') = [] ∧ db_events (tables p') = db_events (tables p) ∧
    published b' = published b ++ (outbox_message <$> db_outbox (tables p)).
Proof.
  revert p b. induction n as [|n IH]; intros p b Hc Hwf Hlen.
  { exists p, b. split; [done|]. assert (db_outbox (tables p) = []) as ->.
    { apply length_zero_iff_nil. lia. } simpl. by rewrite app_nil_r. }
  destruct (publish_rows_clean Haccept "outbox" (select_pending []) ob_topic ob_payload
    (λ row, delete_outbox [ob_id row]) p b Hc) as (m & p1 & b1 & Hd & Hc1).
  change (DispatchPending [] (p, b) = (Ok m, (p1, b1))) in Hd.
  pose proof Hd as Hs. destruct Hc as [Hf Ha].
  apply (DispatchPending_spec (λ _, False) eq) in Hs
    as (_ & _ & (tq & t & <- & <- & _ & Hg & Ht)); [|done|by rewrite Ha].
  rewrite select_pending_wf in Hg, Ht by done.
  assert (db_outbox (tables p1) = drop batch_limit (db_outbox (tables p))) as Ho.
  { rewrite Ht. unfold delete_outbox. simpl db_outbox. by apply delete_first. }
  destruct (IH p1 b1) as (p' & b' & Hr & He & Hev & Hp); [done| | |].
  - rewrite Ht. by apply delete_wf.
  - rewrite Ho, length_drop. lia.
  - exists p', b'. split.
    { unfold Run. simpl. unfold mbind, GoM_bind, attempt. rewrite Hd. exact Hr. }
    split; [done|]. split; [by rewrite Hev, Ht|].
    rewrite Hp, Hg, Ho, <- app_assoc, <- fmap_app. do 2 f_equal. apply take_drop.
Qed.
End drain.
