(* ===== verification/DurableStore.v ===== *)
(** * The durable store is an event store

    One writer at a time, the tables of [PostgresEventStore] keep the promises of
    [EventStoreLaws] and [StreamListerLaws], whatever statements fail. *)
From S2P Require Import Prelude Errors Kernel EventStore Bus Json Registry Sql.
From S2P Require Import PostgresEventStore Relay Outbox.
From stdpp Require Import sorting.
#[local] Open Scope Z_scope.

(** ** [LIKE] with a plain prefix *)
Lemma like_any s : like "%" s = true.
Proof. simpl. induction s as [|c s IH]; [done|]. simpl. by rewrite IH. Qed.

Lemma like_plain_char c pattern s :
  plain_char c = true →
  like (String c pattern) s =
  match s with EmptyString => false | String d s' => bool_decide (c = d) && like pattern s' end.
Proof.
  unfold plain_char. intros Hc. apply negb_true_iff, orb_false_iff in Hc as [Hc Hb].
  apply orb_false_iff in Hc as [Hp Hu]. simpl. by rewrite Hp, Hu, Hb.
Qed.

Lemma like_prefix p s :
  plain p = true → like (p +:+ "%") s = GoStrings.HasPrefix s p.
Proof.
  unfold GoStrings.HasPrefix. revert s. induction p as [|c p IH]; intros s Hp.
  - change (("" +:+ "%")%string) with "%"%string. rewrite like_any. by destruct s.
  - simpl in Hp. apply andb_true_iff in Hp as [Hc Hp].
    change ((String c p +:+ "%")%string) with (String c (p +:+ "%")%string).
    rewrite like_plain_char by done. destruct s as [|d s]; [done|]. simpl.
    rewrite IH by done. case_decide as Hcd; [subst; by rewrite bool_decide_eq_true_2|].
    by rewrite bool_decide_eq_false_2.
Qed.

Lemma plain_app p q : plain (p +:+ q) = plain p && plain q.
Proof. induction p as [|c p IH]; [done|]. simpl. by rewrite IH, andb_assoc. Qed.

(** ** The store *)
Section durable.
Context `{GoText} {U : UuidLib} {P E : Type} `{!JsonText P, !JsonbColumn P}.
Context `{!DomainEvent E, !JsonMarshal E P}.
Context (registry : EventRegistry P E) (fuel : nat) `{!RegistryReads fuel registry}.
Abbreviation DB := (Pool (Database P) (Arrival E)).
Implicit Types (p : DB).

(** Nobody else writes to the module's streams. *)
Definition quiet p : Prop := Forall (Forall (λ _, False)) (arrivals p).

(** What waits in the outbox is an event of the streams, as it was stored. *)
Definition outbox_backed (t : Database P) : Prop := ∀ row, row ∈ db_outbox t →
  ∃ id e x, e ∈ Event <$> stream_in registry fuel t id ∧ stored_event e = Some x ∧
    outbox_message row = ((domainEventTopicPrefix +:+ x.1)%string, x.2).

Record store_ok p : Prop := {
  ok_quiet : quiet p;
  ok_tables : tables_wf registry fuel (tables p);
  ok_outbox : outbox_backed (tables p);
}.

Lemma same_tables_ok p p' : quiet p' → tables p' = tables p → store_ok p → store_ok p'.
Proof. intros Hq Ht [_ Hw Ho]. split; by rewrite ?Ht. Qed.

Record PostgresStore := mkPostgresStore { pg_pool : DB; pg_ok : store_ok pg_pool }.

Definition pg_quiet (s : PostgresStore) : quiet (pg_pool s) := ok_quiet _ (pg_ok s).
Definition pg_wf (s : PostgresStore) : tables_wf registry fuel (tables (pg_pool s)) :=
  ok_tables _ (pg_ok s).

Definition pg_stream (s : PostgresStore) (id : string) : list (StoredEvent E) :=
  stream_in registry fuel (tables (pg_pool s)) id.

(** A call on the pool that keeps the store well formed. *)
Definition keeps {B} (m : GoM DB B) : Prop := ∀ p r p',
  m p = (r, p') → store_ok p → store_ok p'.

Definition in_store {B} (m : GoM DB B) (Hm : keeps m) : GoM PostgresStore B := λ s,
  (fst (m (pg_pool s)),
   mkPostgresStore (snd (m (pg_pool s))) (Hm _ _ _ (surjective_pairing _) (pg_ok s))).

Lemma in_store_inv {B} (m : GoM DB B) Hm s r s' :
  in_store m Hm s = (r, s') → m (pg_pool s) = (r, pg_pool s').
Proof. unfold in_store. intros [= <- <-]. simpl. apply surjective_pairing. Qed.

Lemma ReadStream_pg_spec id p r p' :
  ReadStream_pg registry fuel id p = (r, p') → quiet p → tables_wf registry fuel (tables p) →
  quiet p' ∧ tables p' = tables p ∧
  match r with
  | Ok l => l = stream_in registry fuel (tables p) id
  | Err e => errors_Is e ErrAggregateNotFound = false
  | Panic _ => False
  end.
Proof.
  intros Hr Hq Hwf. unfold ReadStream_pg, mbind, GoM_bind, wrapping, lift in Hr.
  destruct (autocommit (query _) p) as [r1 p1] eqn:E1.
  apply (autocommit_query_spec (λ _, False) eq) in E1 as (Hq1 & Ht1 & [->|[m ->]]);
    [..|done|done]; simpl in Hr; [|by injection Hr as <- <-].
  destruct (Hwf id) as (Hn & l & Hl).
  rewrite <- Ht1, select_stream_numbered, Hl in Hr by done.
  destruct (autocommit statement p1) as [r2 p2] eqn:E2.
  apply (autocommit_statement_spec (λ _, False) eq) in E2 as (Hq2 & Ht2 & [->|[m ->]]);
    [..|done|done]; simpl in Hr; injection Hr as <- <-; (split; [done|]);
    (split; [by rewrite <- Ht2|]); [|done].
  unfold stream_in. by rewrite Hl.
Qed.

Lemma ReadStream_keeps id : keeps (ReadStream_pg registry fuel id).
Proof.
  intros p r p' Hr Hok. pose proof Hok as [Hq Hwf _].
  destruct (ReadStream_pg_spec _ _ _ _ Hr Hq Hwf) as (? & ? & _). by apply (same_tables_ok p).
Qed.

Lemma ListStreams_pg_spec prefix p r p' :
  ListStreams_pg prefix p = (r, p') → quiet p →
  quiet p' ∧ tables p' = tables p ∧
  match r with
  | Ok l => l = select_streams (prefix +:+ "-%")%string (tables p)
  | Err _ => True
  | Panic _ => False
  end.
Proof.
  intros Hr Hq. unfold ListStreams_pg, mbind, GoM_bind, wrapping in Hr.
  destruct (autocommit (query _) p) as [r1 p1] eqn:E1.
  apply (autocommit_query_spec (λ _, False) eq) in E1 as (Hq1 & Ht1 & [->|[m ->]]);
    [..|done|done]; simpl in Hr; [|by injection Hr as <- <-].
  destruct (autocommit statement p1) as [r2 p2] eqn:E2.
  apply (autocommit_statement_spec (λ _, False) eq) in E2 as (Hq2 & Ht2 & [->|[m ->]]);
    [..|done|done]; simpl in Hr; injection Hr as <- <-; (split; [done|]);
    (split; [by rewrite <- Ht2|]); [by rewrite <- Ht1|done].
Qed.

Lemma ListStreams_keeps prefix : keeps (ListStreams_pg prefix).
Proof.
  intros p r p' Hr Hok. pose proof Hok as [Hq _ _].
  destruct (ListStreams_pg_spec _ _ _ _ Hr Hq) as (? & ? & _). by apply (same_tables_ok p).
Qed.

(** A call that other replicas leave alone: the whole batch or nothing. *)
Lemma Append_pg_alone id v c es p r p' :
  (∀ (e : E) m, json_Marshal e ≠ Panic m) →
  Append_pg id v c es p = (r, p') → quiet p → tables_wf registry fuel (tables p) →
  quiet p' ∧
  match r with
  | Ok _ => ∃ b, stored_batch es = Some b ∧ v = Z.of_nat (length (rows_of id (tables p))) ∧
      tables p' = commit_batch id c v b (tables p)
  | Err _ => tables p' = tables p
  | Panic _ => False
  end.
Proof.
  intros Hm Ha Hq Hwf.
  eapply (Append_pg_spec registry fuel (λ _, False) eq) in Ha;
    [|done|by intros ?? ->|by intros ??? ->|done|exact Hm|exact Hq|exact Hwf].
  destruct Ha as [Hq' Ha]. split; [done|]. destruct r as [[]|e|m]; [|done..].
  destruct Ha as (t & b & <- & _ & Hb & Ht & (t1 & Ht1 & _ & Hv) & _).
  rewrite <- Ht1 in Hv. eauto.
Qed.

Context `{!MarshalReturns E P}.

(** The outbox of a committed batch: what waited, and the new events. *)
Lemma commit_batch_backed id c es b t :
  stored_batch es = Some b → tables_wf registry fuel t → outbox_backed t →
  outbox_backed (commit_batch id c (Z.of_nat (length (rows_of id t))) b t).
Proof.
  intros Hb Hwf Ho row.
  destruct (commit_batch_outbox id c (Z.of_nat (length (rows_of id t))) b t) as (rows & -> & Hrows).
  rewrite elem_of_app. intros [Hrow|Hrow].
  - destruct (Ho row Hrow) as (id' & e & x & He & Hx & Hm). exists id', e, x. split; [|done].
    rewrite (commit_batch_stream registry fuel id c es) by done. rewrite fmap_app, elem_of_app.
    by left.
  - assert (outbox_message row ∈ outbox_message <$> rows) as Hin by (by apply list_elem_of_fmap_2).
    rewrite Hrows in Hin. apply list_elem_of_fmap in Hin as (x & Hm & Hx).
    unfold stored_batch in Hb. apply mapM_Some in Hb as Hall.
    apply list_elem_of_lookup in Hx as [i Hx].
    destruct (Forall2_lookup_r _ _ _ _ _ Hall Hx) as (e & He & Hse).
    exists id, e, x. split; [|done].
    rewrite (commit_batch_stream registry fuel id c es) by done.
    rewrite decide_True by done. rewrite fmap_app, new_records_Event, elem_of_app. right.
    by eapply list_elem_of_lookup_2.
Qed.

Lemma Append_keeps id v c es : keeps (Append_pg id v c es).
Proof.
  intros p r p' Ha Hok. pose proof Hok as [Hq Hwf Ho].
  destruct (Append_pg_alone _ _ _ _ _ _ _ marshal_returns Ha Hq Hwf) as [Hq' Hr].
  destruct r as [[]|e|m]; [|by apply (same_tables_ok p)|done].
  destruct Hr as (b & Hb & -> & Ht). split; [done|..]; rewrite Ht.
  - by eapply commit_batch_wf.
  - by eapply commit_batch_backed.
Qed.

(** The clock of [occurred_at] is the server's. *)
#[global] Instance Postgres_EventStore : EventStore E PostgresStore := {
  ReadStream id := in_store (ReadStream_pg registry fuel id) (ReadStream_keeps id);
  Append _ id v c es := in_store (Append_pg id v c es) (Append_keeps id v c es) }.
#[global] Instance Postgres_StreamLister : StreamLister PostgresStore := λ prefix,
  in_store (ListStreams_pg prefix) (ListStreams_keeps prefix).

#[global] Instance Postgres_laws : EventStoreLaws pg_stream.
Proof.
  assert (∀ id s r s', ReadStream id s = (r, s') →
    (∀ id', pg_stream s' id' = pg_stream s id') ∧
    match r with
    | Ok l => l = pg_stream s id
    | Err e => errors_Is e ErrAggregateNotFound = false
    | Panic _ => False
    end) as Hread.
  { intros id s r s' Hr%in_store_inv.
    destruct (ReadStream_pg_spec _ _ _ _ Hr (pg_quiet s) (pg_wf s)) as (_ & Ht & Hres).
    split; [|done]. intros id'. unfold pg_stream. by rewrite Ht. }
  assert (∀ now id v c es s r s', Append now id v c es s = (r, s') →
    match r with
    | Ok _ => v = Z.of_nat (length (pg_stream s id)) ∧ ∀ id',
        pg_stream s' id' = pg_stream s id' ++
          if decide (id' = id) then new_records id v c (db_now (tables (pg_pool s))) es else []
    | Err _ => ∀ id', pg_stream s' id' = pg_stream s id'
    | Panic _ => False
    end) as Happend.
  { intros now id v c es s r s' Ha%in_store_inv.
    destruct (Append_pg_alone _ _ _ _ _ _ _ marshal_returns Ha (pg_quiet s) (pg_wf s))
      as [_ Hr]. unfold pg_stream. destruct r as [[]|e|m]; [|by rewrite Hr|done].
    destruct Hr as (b & Hb & -> & ->). rewrite stream_in_length by apply pg_wf.
    split; [done|]. intros id'.
    apply (commit_batch_stream registry fuel id c es b _ id' Hb (pg_wf s)). }
  split.
  - intros id s l s' Hr. by destruct (Hread _ _ _ _ Hr).
  - intros id s e s' Hr. by destruct (Hread _ _ _ _ Hr).
  - intros id s m s' Hr. by destruct (Hread _ _ _ _ Hr).
  - intros now id v c es s s' Ha. destruct (Happend _ _ _ _ _ _ _ _ Ha) as [Hv Hs].
    split; [done|]. split.
    + eexists. by rewrite (Hs id), decide_True.
    + intros id' Hne. by rewrite (Hs id'), decide_False, app_nil_r.
  - intros now id v c es s e s' Ha. exact (Happend _ _ _ _ _ _ _ _ Ha).
  - intros now id v c es s m s' Ha. exact (Happend _ _ _ _ _ _ _ _ Ha).
Qed.

Lemma select_streams_spec pattern (t : Database P) id :
  id ∈ select_streams pattern t ↔ like pattern id = true ∧ rows_of id t ≠ [].
Proof.
  unfold select_streams. rewrite merge_sort_Permutation, elem_of_remove_dups, list_elem_of_filter,
    list_elem_of_fmap. apply and_iff_compat_l. unfold rows_of. split.
  - intros (row & -> & Hrow) Hnil. apply (not_elem_of_nil row). rewrite <- Hnil.
    by apply list_elem_of_filter.
  - intros Hne. destruct (filter _ (db_events t)) as [|row rows] eqn:E1; [done|].
    assert (row ∈ filter (λ r, er_stream_id r = id) (db_events t)) as Hrow
      by (rewrite E1; left).
    apply list_elem_of_filter in Hrow as [Hid Hrow]. eauto.
Qed.

#[global] Instance Postgres_lister_laws : StreamListerLaws Postgres_StreamLister pg_stream.
Proof.
  assert (∀ prefix s r s', ListStreams prefix s = (r, s') →
    (∀ id, pg_stream s' id = pg_stream s id) ∧
    match r with
    | Ok l => l = select_streams (prefix +:+ "-%")%string (tables (pg_pool s))
    | Err _ => True
    | Panic _ => False
    end) as Hlist.
  { intros prefix s r s' Hr%in_store_inv.
    destruct (ListStreams_pg_spec _ _ _ _ Hr (pg_quiet s)) as (_ & Ht & Hres).
    split; [|done]. intros id. unfold pg_stream. by rewrite Ht. }
  assert (∀ prefix id, plain prefix = true →
    like (prefix +:+ "-%")%string id = GoStrings.HasPrefix id (prefix +:+ "-")%string) as Hlike.
  { intros prefix id Hp. replace (prefix +:+ "-%")%string with ((prefix +:+ "-") +:+ "%")%string
      by by rewrite <- GoStrings.app_assoc. apply like_prefix. by rewrite plain_app, Hp. }
  split.
  - intros prefix s r s' Hr. by destruct (Hlist _ _ _ _ Hr).
  - intros prefix s l s' Hp Hr id Hid Hne. destruct (Hlist _ _ _ _ Hr) as [_ ->].
    apply select_streams_spec. rewrite Hlike by done. split; [done|]. intros Hnil.
    apply Hne. unfold pg_stream, stream_in. by rewrite Hnil.
  - intros prefix s l s' Hp Hr id. destruct (Hlist _ _ _ _ Hr) as [_ ->].
    intros [Hid _]%select_streams_spec. by rewrite <- Hlike.
  - intros prefix s m s' Hr. by destruct (Hlist _ _ _ _ Hr).
Qed.
End durable.
