(* ===== verification/DurableRefinement.v ===== *)
(** * The two event stores are one

    [PostgresEventStore] simulates [InMemoryEventStore]: same records, same
    answers, except for the server's clock; and where nothing fails and the columns
    are wide enough, it answers whenever the in-memory store does. *)
From S2P Require Import Prelude Errors Kernel EventStore Bus Json Registry Sql.
From S2P Require Import PostgresEventStore DurableStore Relay.
#[local] Open Scope Z_scope.

Section refinement.
Context `{GoText} {U : UuidLib} {P E : Type} `{!JsonText P, !JsonbColumn P}.
Context `{!DomainEvent E, !JsonMarshal E P, !MarshalReturns E P}.
Context (registry : EventRegistry P E) (fuel : nat) `{!RegistryReads fuel registry}.
Abbreviation DB := (Pool (Database P) (Arrival E)).
Abbreviation memory := (InMemory.InMemoryEventStore E).
Abbreviation durable := (PostgresStore registry fuel).

(** A record without its time stamp. *)
Definition undated (r : StoredEvent E) : string * Z * UUID * E :=
  (StreamID r, StoredVersion r, StoredCommitID r, Event r).

Definition agrees (m : memory) (s : durable) : Prop :=
  ∀ id, undated <$> InMemory.stream_of m id = undated <$> pg_stream registry fuel s id.

Lemma undated_new_records id v c now now' (es : list E) :
  undated <$> new_records id v c now es = undated <$> new_records id v c now' es.
Proof.
  apply list_eq. intros i. unfold new_records. rewrite !list_lookup_fmap, !list_lookup_imap.
  by destruct (es !! i).
Qed.

Lemma agrees_length m s id :
  agrees m s → length (InMemory.stream_of m id) = length (pg_stream registry fuel s id).
Proof. intros Ha. specialize (Ha id). apply (f_equal length) in Ha. by rewrite !length_fmap in Ha. Qed.

(** *** When the columns are wide enough and nothing fails *)

(** The limits of [stream_id], [version], [event_type] and the outbox's
    [topic]. *)
Definition fits (id : string) (v : Z) (es : list E) : Prop :=
  (String.length id ≤ 100)%nat ∧ v + Z.of_nat (length es) < 2 ^ 31 ∧
  Forall (λ e, (String.length (MessageName e) ≤ 120)%nat ∧
               (String.length (domainEventTopicPrefix +:+ MessageName e) ≤ 200)%nat) es.

Lemma check_event_next id k ty (t : Database P) :
  (String.length id ≤ 100)%nat → (String.length ty ≤ 120)%nat → numbered (rows_of id t) →
  k = Z.of_nat (length (rows_of id t)) + 1 → k < 2 ^ 31 → check_event id k ty t = None.
Proof.
  intros Hi Ht Hn Hk Hlt. unfold check_event.
  destruct (Nat.ltb_spec 100 (String.length id)); [lia|].
  destruct (Nat.ltb_spec 120 (String.length ty)); [lia|]. simpl.
  rewrite bool_decide_eq_true_2 by lia. simpl. rewrite (proj2 (Z.ltb_lt 0 k)) by lia. simpl.
  rewrite bool_decide_eq_false_2; [done|].
  intros (row & Hrow & Hid & Hv)%Exists_exists.
  assert (row ∈ rows_of id t) as Hin by by apply list_elem_of_filter.
  apply list_elem_of_lookup in Hin as [i Hr]. pose proof (lookup_lt_Some _ _ _ Hr).
  pose proof (numbered_lookup _ _ _ Hn Hr). lia.
Qed.

Lemma exec_passes check op (tx : Tx (Database P) (Arrival E)) :
  clean_tx tx → check (own_view tx) = None →
  exec check op tx = (Ok tt, mkTx (base tx) (λ t, op (writes tx t)) [] []).
Proof.
  intros Hc Hk. unfold exec, mbind, GoM_bind. rewrite (statement_clean tx Hc), Hk.
  destruct Hc as [-> ->]. done.
Qed.

Lemma append_events_completes id v c es (tx : Tx (Database P) (Arrival E)) b i :
  clean_tx tx → stored_batch es = Some b → 0 ≤ i → fits id (v + i) es →
  numbered (rows_of id (own_view tx)) →
  v + i = Z.of_nat (length (rows_of id (own_view tx))) →
  ∃ tx', append_events id v c i es tx = (Ok tt, tx') ∧ clean_tx tx'.
Proof.
  revert tx b i. induction es as [|e es IH]; intros tx b i Hc Hb Hi Hf Hn Hv;
    [by exists tx|].
  destruct Hf as (Hid & Hlt & [[Hty Htopic] Hf]%Forall_cons). simpl length in Hlt.
  unfold stored_batch in Hb. simpl in Hb.
  destruct (stored_event e) as [x|] eqn:Hx; [|done]. simpl in Hb.
  destruct (mapM stored_event es) as [b'|] eqn:Hb'; [|done].
  unfold stored_event in Hx. destruct (json_Marshal e) as [p|err|m] eqn:Hp; [|done..].
  destruct (jsonb p) as [stored|] eqn:Hj; [|done].
  simpl. unfold mbind, GoM_bind, lift, wrapping, attempt, throw. rewrite Hp. simpl.
  unfold insert_into_events, insert_into_outbox. rewrite Hj, exec_passes;
    [|done|by apply check_event_next; try lia].
  cbn beta iota delta [mret GoM_ret]. set (tx1 := mkTx _ _ _ _).
  assert (clean_tx tx1) as Hc1 by done.
  rewrite exec_passes; [|done|].
  2:{ unfold check_outbox. by destruct (Nat.ltb_spec 200 (String.length
        (domainEventTopicPrefix +:+ MessageName e)%string)); [lia|]. }
  cbn beta iota zeta. set (tx2 := mkTx _ _ _ _).
  assert (rows_of id (own_view tx2) = rows_of id (own_view tx) ++
    batch_rows id c (v + i) (db_now (own_view tx)) [(MessageName e, stored)]) as Hrows.
  { unfold tx2, tx1, own_view, rows_of. simpl. rewrite filter_app, filter_cons, decide_True by done.
    unfold batch_rows. simpl. do 3 f_equal. lia. }
  eapply (IH tx2 b' (i + 1)); [done|done|lia| | |].
  - split; [done|]. split; [lia|done].
  - rewrite Hrows. rewrite Hv. by apply numbered_app.
  - rewrite Hrows, length_app, batch_rows_length. simpl. lia.
Qed.

Lemma Append_pg_completes id v c es b (p : DB) :
  clean p → tables_wf registry fuel (tables p) → stored_batch es = Some b → fits id v es →
  v = Z.of_nat (length (rows_of id (tables p))) →
  ∃ p', Append_pg id v c es p = (Ok tt, p').
Proof.
  intros Hc Hwf Hb Hf Hv. assert (clean_tx (begun p)) as Hcb by done.
  unfold Append_pg, in_tx, query, mbind, GoM_bind, wrapping, throw.
  rewrite (statement_clean _ Hcb). simpl. rewrite (statement_clean _ Hcb). simpl.
  unfold own_view at 1. simpl. rewrite (head_version_numbered id) by apply Hwf.
  rewrite <- Hv, Z.eqb_refl. simpl.
  destruct (append_events_completes id v c es (begun p) b 0 Hcb Hb) as (tx' & -> & Hc');
    [lia|by rewrite Z.add_0_r|apply Hwf|unfold own_view; simpl; lia|].
  rewrite (statement_clean _ Hc'). simpl. eauto.
Qed.

(** C6 The durable store refines the in-memory one. In stores that agree on every
    stream but for the time stamps, a durable read that succeeds returns the
    in-memory stream; a durable append that succeeds is an in-memory append that
    succeeds and leaves the stores in agreement; one that fails changes nothing.
    Conversely, where no statement fails, no other session is due, the payloads
    are accepted and the columns are wide enough, the durable append succeeds
    whenever the in-memory append does. *)
Theorem durable_refines_memory (m : memory) (s : durable) :
  agrees m s →
  (∀ id l s', ReadStream id s = (Ok l, s') →
     undated <$> l = undated <$> InMemory.stream_of m id ∧ agrees m s') ∧
  (∀ now id v c es s', Append now id v c es s = (Ok tt, s') →
     ∃ m', Append now id v c es m = (Ok tt, m') ∧ agrees m' s') ∧
  (∀ now id v c es e s', Append now id v c es s = (Err e, s') → agrees m s') ∧
  (∀ now id v c es m', Append now id v c es m = (Ok tt, m') →
     clean (pg_pool _ _ s) → is_Some (stored_batch es) → fits id v es →
     ∃ s', Append now id v c es s = (Ok tt, s')).
Proof.
  intros Ha. split; [|split; [|split]].
  - intros id l s' [-> Hs]%read_ok. split; [by rewrite (Ha id)|].
    intros id'. by rewrite (Ha id'), Hs.
  - intros now id v c es s' (Hv & [at_ Hs] & Hother)%append_ok.
    rewrite <- (agrees_length m s id Ha) in Hv. rewrite InMemory.Append_mem_spec, <- Hv, Z.eqb_refl.
    eexists. split; [done|]. intros id'. rewrite InMemory.stream_of_insert. case_decide as Hid.
    + subst id'. by rewrite Hs, !fmap_app, (Ha id), (undated_new_records id v c now at_ es).
    + rewrite (Ha id'), Hother; [done|congruence].
  - intros now id v c es e s' Hs id'. by rewrite (Ha id'), (append_err _ _ _ _ _ _ _ _ Hs).
  - intros now id v c es m'. rewrite InMemory.Append_mem_spec.
    destruct (Z.eqb_spec (Z.of_nat (length (InMemory.stream_of m id))) v) as [Hv|]; [|done].
    intros _ Hc [b Hb] Hf. rewrite (agrees_length m s id Ha) in Hv.
    unfold pg_stream in Hv. rewrite stream_in_length in Hv by apply pg_wf.
    destruct (Append_pg_completes id v c es b (pg_pool _ _ s) Hc (pg_wf _ _ s) Hb Hf (eq_sym Hv))
      as [p' Hp]. destruct (Append now id v c es s) as [r s'] eqn:Es.
    apply in_store_inv in Es. rewrite Hp in Es. injection Es as <- _. by exists s'.
Qed.
End refinement.
