(* ===== verification/DeadLetters.v ===== *)
(** * Dead letters ([internal/muflone/deadletters.go])

    The archive of poison messages, its subscription on the dead-letter topic, and
    the redrive that publishes them again. [middleware.PoisonQueue] belongs to
    watermill: it is a parameter with its documented effect. *)
From S2P Require Import Prelude Errors Kernel EventStore Bus Json Registry Sql.
From S2P Require Import PostgresEventStore Relay Outbox.
From stdpp Require Import sorting.
#[local] Open Scope Z_scope.

(** [message.Message]: payload and metadata; [Metadata.Get] of a missing key is the
    empty string. *)
Record wireMessage (P : Type) := mkMessage {
  Payload : P;
  Metadata : gmap string string;
}.
Arguments mkMessage {P} _ _.
Arguments Payload {P} _.
Arguments Metadata {P} _.
Definition Metadata_Get {P} (msg : wireMessage P) (key : string) : string :=
  default ""%string (Metadata msg !! key).

Section dead_letters.
Context `{GoText} {U : UuidLib} {P X B : Type} `{!JsonText P, !JsonbColumn P}.
Context `{!Tables (Database P) X, !WirePublisher B P}.
Abbreviation DB := (Pool (Database P) X).
Implicit Types (t : Database P) (row : DeadLetterRow P).

(** [INSERT INTO dead_letters]. *)
Definition insert_dead_letter (topic : string) (payload : P) (reason : string) t : Database P :=
  mkDatabase (db_events t) (db_outbox t) (db_outbox_next t)
    (db_dead_letters t ++ [mkDeadLetterRow (db_dead_letters_next t) topic payload reason None])
    (db_dead_letters_next t + 1) (db_now t).

(** [DeadLetterStore.Save]; [payload] is a [jsonb] column too. *)
Definition DeadLetter_Save (topic : string) (payload : P) (reason : string) : GoM DB unit :=
  wrapping "archive dead letter"%string
    (autocommit
      match jsonb payload with
      | Some stored => exec (check_outbox topic) (insert_dead_letter topic stored reason)
      | None => exec (λ _, Some "22P02"%string) (λ t, t)
      end).

(** [OnDeadLetter]; the keys are watermill's constants. *)
Definition OnDeadLetter {W} (PoisonedTopicKey ReasonForPoisonedKey name : string)
    (handler : string → P → string → GoM W unit)
    (pending : list (pendingSubscription W (wireMessage P))) :=
  subscribe name DeadLetterTopic
    (λ msg, handler (Metadata_Get msg PoisonedTopicKey) (Payload msg)
              (Metadata_Get msg ReasonForPoisonedKey)) pending.

(** [SELECT ... WHERE redriven_at IS NULL ORDER BY id FOR UPDATE SKIP LOCKED]. *)
Definition select_parked (locked : list Z) t : list (DeadLetterRow P) :=
  filter (λ row, dl_redriven_at row = None ∧ dl_id row ∉ locked)
    (order_by dl_id (db_dead_letters t)).

(** [UPDATE dead_letters SET redriven_at = now() WHERE id = $1]. *)
Definition stamp (id : Z) t : Database P :=
  mkDatabase (db_events t) (db_outbox t) (db_outbox_next t)
    ((λ row, if decide (dl_id row = id)
             then mkDeadLetterRow (dl_id row) (dl_topic row) (dl_payload row) (dl_reason row)
                    (Some (db_now t))
             else row) <$> db_dead_letters t)
    (db_dead_letters_next t) (db_now t).

(** [RedriveDeadLetters]. *)
Definition RedriveDeadLetters (locked : list Z) : GoM (DB * B) Z :=
  publish_rows "redrive" (select_parked locked) dl_topic dl_payload (λ row, stamp (dl_id row)).
End dead_letters.

(** ** The redrive *)
Section redrive.
Context {U : UuidLib} {P X B : Type} `{!Tables (Database P) X}.
Context `{!WirePublisher B P, !WirePublisherLaws B P}.
Implicit Types (t : Database P) (row : DeadLetterRow P) (p : Pool (Database P) X).

(** [bigserial]: ids grow. *)
Definition dead_letters_wf t : Prop := StronglySorted Z.lt (dl_id <$> db_dead_letters t).

(** The letters that wait for a redrive, in the order they were parked. *)
Definition parked t : list (DeadLetterRow P) :=
  filter (λ row, dl_redriven_at row = None) (db_dead_letters t).

Definition letter row : Z * string * P * string :=
  (dl_id row, dl_topic row, dl_payload row, dl_reason row).

Lemma select_parked_wf t : dead_letters_wf t → select_parked [] t = parked t.
Proof.
  intros Ht. unfold select_parked, parked. rewrite order_by_sorted by done.
  apply list_filter_iff. intros row. split; [by intros [? _]|].
  intros ?. split; [done|]. apply not_elem_of_nil.
Qed.

Lemma stamp_letters id t : letter <$> db_dead_letters (stamp id t) = letter <$> db_dead_letters t.
Proof.
  simpl. rewrite <- list_fmap_compose. apply list_fmap_ext. intros _ row _. simpl.
  by case_decide.
Qed.

Lemma parked_stamp id t :
  parked (stamp id t) = filter (λ r, dl_id r ≠ id) (parked t).
Proof.
  unfold parked. simpl. induction (db_dead_letters t) as [|r l IH]; [done|].
  rewrite fmap_cons. destruct (decide (dl_id r = id)) as [Hid|Hid];
    rewrite !filter_cons; simpl.
  - case_decide; [|exact IH]. rewrite filter_cons, decide_False by (intros Hn; by apply Hn).
    exact IH.
  - case_decide; [|exact IH]. rewrite filter_cons, decide_True by done. f_equal. exact IH.
Qed.

Lemma settled_stamps rows t :
  letter <$> db_dead_letters (settled (λ row, stamp (dl_id row)) rows t)
  = letter <$> db_dead_letters t ∧
  parked (settled (λ row, stamp (dl_id row)) rows t)
  = filter (λ row, dl_id row ∉ dl_id <$> rows) (parked t).
Proof.
  unfold settled. induction rows as [|row rows [IH1 IH2]] using rev_ind.
  { split; [done|]. symmetry. apply filter_everything. intros r. apply not_elem_of_nil. }
  rewrite foldl_app. simpl foldl. split; [by rewrite stamp_letters|].
  rewrite parked_stamp.
  rewrite IH2, list_filter_filter. apply list_filter_iff. intros r.
  rewrite fmap_app, not_elem_of_app. simpl. rewrite list_elem_of_singleton. tauto.
Qed.

(** C32 The redrive publishes what is parked. If it returns no error, every letter
    that had not been redriven went out once, to its original topic and in the
    order of parking, none is left to redrive and none was lost; if it fails, some
    of the letters may have gone out, in order, and all of them are still there to
    be redriven. *)
Theorem redrive_contract p (b : B) r p' b' :
  Forall (Forall (λ _, False)) (arrivals p) → dead_letters_wf (tables p) →
  RedriveDeadLetters [] (p, b) = (r, (p', b')) →
  let message row := (dl_topic row, dl_payload row) in
  match r with
  | Ok n => n = Z.of_nat (length (parked (tables p))) ∧
      published b' = published b ++ (message <$> parked (tables p)) ∧
      parked (tables p') = [] ∧
      letter <$> db_dead_letters (tables p') = letter <$> db_dead_letters (tables p)
  | Err _ => tables p' = tables p ∧
      ∃ sent, sent `prefix_of` parked (tables p) ∧ published b' = published b ++ (message <$> sent)
  | Panic _ => False
  end.
Proof.
  intros Hq Hwf Hr message. unfold RedriveDeadLetters in Hr.
  apply (publish_rows_spec _ _ _ _ _ (λ _, False) eq) in Hr
    as (_ & Hnp & (tq & sent & <- & Hs & Hg) & Hr); [|done|done].
  rewrite select_parked_wf in Hs by done.
  destruct r as [n|e|m]; [|split; [done|by exists sent]|by destruct (Hnp m)].
  destruct Hr as (tq & t & <- & <- & -> & Hg' & ->). rewrite select_parked_wf in * by done.
  destruct (settled_stamps (parked (tables p)) (tables p)) as [Hl Hp].
  split; [done|]. split; [exact Hg'|]. split; [|exact Hl]. rewrite Hp.
  apply filter_nothing. intros row Hrow Hn. apply Hn, list_elem_of_fmap. eauto.
Qed.
End redrive.

(** ** A letter the archive cannot take *)
Lemma retry_always_fails {W A} done_ sleep (h : GoM W A) (I : W → Prop) :
  (∀ w, I w → ∃ e w', h w = (Err e, w') ∧ I w') → (∀ d w, I w → I (sleep d w)) →
  ∀ w, I w → ∃ e w', retryMiddleware done_ sleep h w = (Err e, w') ∧ I w'.
Proof.
  intros Hh Hs w. unfold retryMiddleware. generalize 0%nat. revert w.
  induction retry_fuel as [|fuel IH]; intros w k Hw; simpl;
    destruct (Hh w Hw) as (e & w1 & -> & Hw1); repeat case_match; eauto.
Qed.

Section circulates.
Context `{GoText} {U : UuidLib} {P X B : Type} `{!JsonText P, !JsonbColumn P}.
Context `{!Tables (Database P) X, !WirePublisher B (wireMessage P)}.
Context (PoisonedTopicKey ReasonForPoisonedKey : string).
Abbreviation W := (Pool (Database P) X * B)%type.
Implicit Types (w : W) (msg : wireMessage P).

(** [middleware.PoisonQueue(publisher, DeadLetterTopic)]: a message whose handler
    fails is published on the topic, with metadata of its own; if that
    succeeds the message counts as handled. *)
Context (PoisonQueue : (wireMessage P → GoM W unit) → wireMessage P → GoM W unit).
Context (Hpoison : ∀ h msg w e w1 r w', h msg w = (Err e, w1) → PoisonQueue h msg w = (r, w') →
  fst w' = fst w1 ∧
  (r = Ok tt → ∃ msg', Payload msg' = Payload msg ∧
     published (snd w') = published (snd w1) ++ [(DeadLetterTopic, msg')])).

(** [app.New]: [bus.OnDeadLetter("muflone.dead_letter_archive", deadLetters.Save)]
    on a bus whose router retries inside the poison queue. *)
Definition archive_subscription : list (pendingSubscription W (wireMessage P)) :=
  OnDeadLetter PoisonedTopicKey ReasonForPoisonedKey "muflone.dead_letter_archive"
    (λ topic payload reason,
       zoom fst (λ p w, (p, snd w)) (DeadLetter_Save topic payload reason)) [].

Definition archived_or_parked (done_ : nat → bool) msg : GoM W unit :=
  PoisonQueue (λ msg, for_each archive_subscription (λ sub,
    retryMiddleware done_ (λ _ w, w) (sub_handler sub msg))) msg.

Lemma Save_refused topic payload reason p :
  Forall (Forall (λ _, False)) (arrivals p) → jsonb payload = None →
  ∃ e p', DeadLetter_Save topic payload reason p = (Err e, p') ∧
    Forall (Forall (λ _, False)) (arrivals p') ∧ tables p' = tables p.
Proof.
  intros Hq Hj. unfold DeadLetter_Save, wrapping, autocommit. rewrite Hj.
  destruct (exec _ _ (begun p)) as [r tx] eqn:E1. apply exec_inv in E1 as (rs & tx1 & Hs & He).
  apply (statement_spec (λ _, False) eq) in Hs as (Hd & Hb & _ & [->|[m ->]]); [..|done|done];
    destruct He as [-> ->]; eexists _, _; (split; [done|]); by split.
Qed.

(** C35 A payload that is no JSON text the server accepts cannot be archived, and
    is not parked either: each time such a message is taken from the dead-letter
    topic, the archive fails for good, nothing is stored, and the poison queue
    puts the same payload on the dead-letter topic again. *)
Theorem unarchivable_letter_circulates done_ msg w r w' :
  Forall (Forall (λ _, False)) (arrivals (fst w)) → jsonb (Payload msg) = None →
  archived_or_parked done_ msg w = (r, w') →
  tables (fst w') = tables (fst w) ∧
  (r = Ok tt → ∃ msg', Payload msg' = Payload msg ∧
     published (snd w') = published (snd w) ++ [(DeadLetterTopic, msg')]).
Proof.
  intros Hq Hj Hr. unfold archived_or_parked in Hr.
  set (I := λ w1 : W, Forall (Forall (λ _, False)) (arrivals (fst w1)) ∧
    tables (fst w1) = tables (fst w) ∧ snd w1 = snd w).
  destruct (retry_always_fails done_ (λ _ w, w)
    (zoom fst (λ p w, (p, snd w)) (DeadLetter_Save (Metadata_Get msg PoisonedTopicKey)
       (Payload msg) (Metadata_Get msg ReasonForPoisonedKey))) I) with w as (e & w1 & He & Hi).
  - intros w0 (Hq0 & Ht0 & Hb0).
    destruct (Save_refused (Metadata_Get msg PoisonedTopicKey) (Payload msg)
      (Metadata_Get msg ReasonForPoisonedKey) (fst w0) Hq0 Hj) as (e & p' & Hs & Hq' & Ht').
    exists e, (p', snd w0). unfold zoom. rewrite Hs. split; [done|].
    split; [done|]. split; [simpl; by rewrite Ht'|done].
  - done.
  - done.
  - destruct Hi as (_ & Ht & Hb).
    assert (for_each archive_subscription (λ sub,
      retryMiddleware done_ (λ _ w, w) (sub_handler sub msg)) w = (Err e, w1)) as Hf.
    { simpl. unfold mbind, GoM_bind. by rewrite He. }
    destruct (Hpoison _ _ _ _ _ _ _ Hf Hr) as [Hp Hm]. rewrite Hp. split; [done|].
    intros Hok. rewrite <- Hb. by apply Hm.
Qed.
End circulates.
