(* ===== verification/DurableDemo.v ===== *)
(** * Evaluated runs of the durable side

    A [jsonb] column that gives back the members of every document in another
    order, two sessions that race for one stream, a relay whose server fails after
    a publication: the witnesses of [PostgresEventStore] and [Outbox]. *)
From S2P Require Import Prelude Errors Kernel EventStore Bus Json Registry Sql.
From S2P Require Import SalesKernel SalesJson WarehouseKernel WarehouseJson Registries.
From S2P Require Import PostgresEventStore DurableStore DurableRefinement Relay Outbox DeadLetters.
Import DemoText.
#[local] Open Scope Z_scope.

(** ** A column that reorders members and refuses a NUL character *)
Module DemoColumn.
Fixpoint has_nul (s : string) : bool :=
  match s with
  | EmptyString => false
  | String c s => bool_decide (c = Ascii.zero) || has_nul s
  end.

Definition keep (j : json) : option json :=
  match j with
  | JString s => if has_nul s then None else Some j
  | JObject ms => if decide (NoDup ms.*1) then Some (JObject (reverse ms)) else Some j
  | _ => Some j
  end.

Lemma last_member_NoDup key j (ms : list (string * json)) :
  NoDup ms.*1 → last_member key ms = Some j ↔ (key, j) ∈ ms.
Proof.
  intros Hnd. split; [apply last_member_Some|]. intros Hin.
  destruct (last_member_is_Some _ _ _ Hin) as [x Hx]. rewrite Hx. f_equal.
  apply last_member_Some in Hx. apply list_elem_of_lookup in Hin as [i Hi], Hx as [k Hk].
  assert (i = k) as ->; [|congruence].
  eapply NoDup_lookup; [exact Hnd|..]; rewrite list_lookup_fmap.
  - by rewrite Hi.
  - by rewrite Hk.
Qed.

Lemma last_member_reverse key (ms : list (string * json)) :
  NoDup ms.*1 → last_member key (reverse ms) = last_member key ms.
Proof.
  intros Hnd. assert (NoDup (reverse ms).*1) as Hnd'.
  { by rewrite fmap_reverse, reverse_Permutation. }
  apply option_eq. intros j. rewrite !last_member_NoDup by done. apply elem_of_reverse.
Qed.

Lemma keep_same (p p' j : json) :
  keep p = Some p' → parse_json p = Ok j → ∃ j', parse_json p' = Ok j' ∧ same_content j j'.
Proof.
  intros Hk [= <-]. destruct p as [| | | | |ms]; simpl in Hk;
    try (injection Hk as <-; eexists; split; [done|constructor]).
  { destruct (has_nul s); [done|]. injection Hk as <-. eexists. split; [done|constructor]. }
  case_decide as Hnd; injection Hk as <-; eexists; (split; [done|]); [|constructor].
  apply same_object; [by rewrite fmap_reverse, reverse_Permutation|].
  intros key. rewrite last_member_reverse by done.
  destruct (last_member key ms); constructor. constructor.
Qed.

#[export] Instance column : JsonbColumn json := {
  jsonb := keep; jsonb_same_content := keep_same }.
End DemoColumn.
Import DemoColumn.

(** A wire that takes everything. *)
Module DemoReliable.
#[export] Instance wire {P} : WirePublisher (list (string * P)) P := {
  Publish topic p b := (Ok tt, b ++ [(topic, p)]); published b := b }.
#[export] Instance wire_laws {P} : WirePublisherLaws (list (string * P)) P.
Proof. split; [by intros ???? [= <-]|by intros ????? [=]|by intros ????? [=]]. Qed.
End DemoReliable.

Section demo.
#[local] Existing Instance DemoUuid.lib.

Abbreviation pool := (Pool (Database json) (Arrival SalesEvent)).
Definition registry : EventRegistry json SalesEvent := Sales_NewEventRegistry.

Definition empty_tables : Database json := mkDatabase [] [] 1 [] 1 100.

Definition allocated (order : string) : SalesEvent :=
  EvSalesOrderAllocated (NewSalesOrderAllocated (mkSalesOrderId (uid order)) (uid "c")).

Lemma empty_wf : tables_wf registry 1 empty_tables.
Proof. intros id. split; [done|]. by exists []. Qed.

Definition written : json := default JNull match json_Marshal (allocated "a") with Ok p => Some p | _ => None end.
Definition kept : json := default JNull (jsonb written).

Lemma stored_events_rehydrate_witness :
  json_Marshal (allocated "a") = Ok written ∧ jsonb written = Some kept ∧ written ≠ kept ∧
  Deserialize 1 (Sales_NewEventRegistry (P := json)) (MessageName (allocated "a")) kept
  = Some (Ok (allocated "a")).
Proof.
  assert (json_Marshal (allocated "a") = Ok written) as Hw by (vm_compute; reflexivity).
  assert (jsonb written = Some kept) as Hk by (vm_compute; reflexivity).
  split; [exact Hw|]. split; [exact Hk|]. split; [vm_compute; discriminate|].
  exact (proj1 (stored_events_rehydrate written kept Hk) (allocated "a") Hw).
Defined.

Lemma empty_ok : store_ok registry 1 (mkPool empty_tables [] []).
Proof. split; [constructor|exact empty_wf|]. by intros row ?%elem_of_nil. Qed.

(** Both stores, empty. *)
Definition durable : PostgresStore registry 1 :=
  mkPostgresStore registry 1 (mkPool empty_tables [] []) empty_ok.
Definition memory : InMemory.InMemoryEventStore SalesEvent := InMemory.NewInMemoryEventStore.

Lemma durable_refines_memory_witness :
  ∃ m' s', Append 7 "SalesOrder-ua" 0 (uid "c") [allocated "a"] memory = (Ok tt, m') ∧
    Append 7 "SalesOrder-ua" 0 (uid "c") [allocated "a"] durable = (Ok tt, s') ∧
    agrees registry 1 m' s' ∧
    length (InMemory.stream_of m' "SalesOrder-ua") = 1%nat.
Proof.
  assert (agrees registry 1 memory durable) as Ha by (intros id; reflexivity).
  destruct (durable_refines_memory registry 1 memory durable Ha) as (_ & Happ & _ & Hconv).
  destruct (Hconv 7 "SalesOrder-ua"%string 0 (uid "c") [allocated "a"] _ eq_refl) as [s' Hs].
  - split; reflexivity.
  - eexists. vm_compute. reflexivity.
  - split; [vm_compute; lia|]. split; [vm_compute; reflexivity|].
    repeat constructor; vm_compute; lia.
  - destruct (Happ _ _ _ _ _ _ Hs) as (m' & Hm & Ha'). exists m', s'.
    split; [exact Hm|]. split; [exact Hs|]. split; [exact Ha'|].
    injection Hm as <-. vm_compute. reflexivity.
Defined.

(** Between the head check and the insert another session appends to another
    stream; the call succeeds beside it. *)
Definition beside_another : pool :=
  mkPool empty_tables [] [[]; []; [Appended "SalesOrder-ub" (uid "d") [allocated "b"]]].
(** Between the head check and the insert another session appends to this
    stream. *)
Definition raced : pool :=
  mkPool empty_tables [] [[]; []; [Appended "SalesOrder-ua" (uid "d") [allocated "a"]]].

Abbreviation append_to_a :=
  (Append_pg "SalesOrder-ua" 0 (uid "c") [allocated "a"; allocated "a"] : GoM pool unit).

Lemma append_serializable_witness :
  let p' := snd (append_to_a beside_another) in
  let q' := snd (append_to_a raced) in
  (length (stream_in registry 1 (tables p') "SalesOrder-ua"), length (db_outbox (tables p')),
   length (stream_in registry 1 (tables q') "SalesOrder-ua")) = (2%nat, 3%nat, 1%nat) ∧
  (∃ t b, others (meanwhile beside_another) empty_tables t ∧
     stored_batch [allocated "a"; allocated "a"] = Some b ∧
     tables p' = commit_batch "SalesOrder-ua" (uid "c") 0 b t) ∧
  others (meanwhile raced) empty_tables (tables q').
Proof.
  intros p' q'. split; [vm_compute; reflexivity|].
  assert (append_to_a beside_another = (Ok tt, p')) as Hp by (vm_compute; reflexivity).
  assert (∃ e, append_to_a raced = (Err (Errorf e ErrConcurrency), q')) as [e Hq]
    by (eexists; vm_compute; reflexivity).
  split.
  - destruct (append_serializable registry 1 _ _ _ _ beside_another (Ok tt) p' marshal_returns
      empty_wf Hp) as (_ & t & b & Ht & Hb & Hp' & _).
    exists t, b. split; [exact Ht|]. split; [exact Hb|exact Hp'].
  - exact (proj2 (append_serializable registry 1 _ _ _ _ raced (Err _) q' marshal_returns
      empty_wf Hq)).
Defined.

(** *** The relay *)
Import DemoReliable.

Abbreviation state := (Database json * list (string * json))%type.

Definition stored : Database json :=
  tables (snd (Append_pg "SalesOrder-ua" 0 (uid "c") [allocated "a"; allocated "b"]
                 (mkPool empty_tables [] [] : pool))).

(** The server fails when the first row is to be deleted: the message is out, the
    row stays. *)
Definition first_try : result Z * (pool * list (string * json)) :=
  DispatchPending [] (mkPool stored [None; None; None; Some "connection lost"%string] [], []).
(** The next try sends both. *)
Definition second_try : result Z * (pool * list (string * json)) :=
  DispatchPending [] (mkPool (tables (fst (snd first_try))) [] [], snd (snd first_try)).

Lemma dispatch_step locked (p : pool) (b : list (string * json)) :
  arrivals_append p →
  let res := DispatchPending locked (p, b) in
  durable_step (E := SalesEvent) (tables p, b) (tables (fst (snd res)), snd (snd res)).
Proof.
  intros Hp res. eapply (durable_dispatch locked p b (fst res)); [done|].
  unfold res. by destruct (DispatchPending locked (p, b)) as [? [? ?]].
Qed.

Lemma demo_run :
  rtc (durable_step (E := SalesEvent)) (empty_tables, [])
    (tables (fst (snd second_try)), snd (snd second_try)).
Proof.
  assert (arrivals_append (mkPool empty_tables [] [] : pool)) as H1 by constructor.
  eapply (rtc_l _ _ (stored, [])).
  { exact (durable_append _ _ _ _ _ _ _ _ H1 (surjective_pairing _)). }
  eapply rtc_l; [|apply rtc_once].
  - apply (dispatch_step [] (mkPool stored [None; None; None; Some "connection lost"%string] [])).
    constructor.
  - apply (dispatch_step [] (mkPool (tables (fst (snd first_try))) [] [])). constructor.
Qed.

Lemma stored_events_reach_the_wire_witness :
  length (snd (snd first_try)) = 1%nat ∧ length (snd (snd second_try)) = 3%nat ∧
  db_outbox (tables (fst (snd second_try))) = [] ∧
  ∀ row, row ∈ db_events (tables (fst (snd second_try))) →
    let message := ((domainEventTopicPrefix +:+ er_event_type row)%string, er_payload row) in
    message ∈ snd (snd second_try) ∨
    ∃ waiting, waiting ∈ db_outbox (tables (fst (snd second_try))) ∧ outbox_message waiting = message.
Proof.
  split; [vm_compute; reflexivity|]. split; [vm_compute; reflexivity|].
  split; [vm_compute; reflexivity|].
  exact (stored_events_reach_the_wire registry 1 [] _ _ 100 demo_run).
Defined.

Lemma relay_drains_witness :
  length (db_outbox stored) = 2%nat ∧
  ∃ p' b', Run (replicate 1 []) (mkPool stored [] [] : pool, []) = (Ok tt, (p', b')) ∧
    db_outbox (tables p') = [] ∧ db_events (tables p') = db_events stored ∧
    b' = outbox_message <$> db_outbox stored.
Proof.
  split; [vm_compute; reflexivity|].
  assert (∀ topic (m : json) (b : list (string * json)), ∃ b', Publish topic m b = (Ok tt, b'))
    as Haccept by (intros; by eexists).
  apply (relay_drains Haccept 1 (mkPool stored [] [])).
  - split; reflexivity.
  - vm_compute. repeat constructor.
  - vm_compute. lia.
Defined.

(** *** Dead letters *)
Definition two_letters : Database json :=
  let p1 := snd (DeadLetter_Save "commands.x" (JString "late") "timeout"
                   (mkPool empty_tables [] [] : pool)) in
  tables (snd (DeadLetter_Save "commands.y" (JString "lost") "conflict" p1)).

Lemma redrive_contract_witness :
  let w := snd (RedriveDeadLetters [] (mkPool two_letters [] [] : pool, [])) in
  parked (tables (fst w)) = [] ∧
  snd w = [("commands.x", JString "late"); ("commands.y", JString "lost")]%string ∧
  letter <$> db_dead_letters (tables (fst w)) = letter <$> db_dead_letters two_letters.
Proof.
  intros w.
  assert (RedriveDeadLetters [] (mkPool two_letters [] [] : pool, []) = (Ok 2, (fst w, snd w)))
    as Hr by (vm_compute; reflexivity).
  destruct (redrive_contract (mkPool two_letters [] []) [] (Ok 2) (fst w) (snd w))
    as (_ & Hs & Hp & Hl); [constructor|vm_compute; repeat constructor|exact Hr|].
  split; [exact Hp|]. split; [exact Hs|exact Hl].
Defined.

(** A poison queue over a wire that takes everything. *)
Definition poison_queue (h : wireMessage json → GoM (pool * list (string * wireMessage json)) unit)
    (msg : wireMessage json) : GoM (pool * list (string * wireMessage json)) unit := λ w,
  match h msg w with
  | (Err _, (p, b)) =>
      (Ok tt, (p, b ++ [(DeadLetterTopic,
        mkMessage (Payload msg) (<["reason"%string := "failed"%string]> (Metadata msg)))]))
  | res => res
  end.

Lemma unarchivable_letter_circulates_witness :
  let nul := mkMessage (JString (String Ascii.zero "")) ∅ in
  let res := archived_or_parked "topic" "reason" poison_queue (λ _, false) nul
               (mkPool empty_tables [] [] : pool, []) in
  jsonb (Payload nul) = None ∧ fst res = Ok tt ∧
  tables (fst (snd res)) = empty_tables ∧
  ∃ msg', Payload msg' = Payload nul ∧ snd (snd res) = [(DeadLetterTopic, msg')].
Proof.
  intros nul res. split; [reflexivity|].
  assert (res = (Ok tt, snd res)) as Hr by (vm_compute; reflexivity).
  split; [exact (f_equal fst Hr)|].
  destruct (unarchivable_letter_circulates "topic" "reason" poison_queue) with
    (done_ := λ _ : nat, false) (msg := nul) (w := (mkPool empty_tables [] [] : pool, @nil (string * wireMessage json)))
    (r := Ok tt) (w' := snd res) as [Ht Hm].
  - intros h msg w e w1 r w' Hh. unfold poison_queue. rewrite Hh. destruct w1 as [p b].
    intros [= <- <-]. split; [reflexivity|]. intros _. eexists. split; [|reflexivity]. reflexivity.
  - constructor.
  - reflexivity.
  - exact Hr.
  - split; [exact Ht|]. exact (Hm eq_refl).
Defined.
End demo.
