(* ===== verification/Columns.v ===== *)
(** * Column types of the projection tables
    ([migrations/versions], baseline)

    What a parameter of a statement becomes in a column, or the SQLSTATE code the
    statement fails with; and the statement itself. Both Postgres read models are
    written with these. *)
From S2P Require Import Prelude Errors Kernel Sql.
From stdpp Require Import sorting.
#[local] Open Scope Z_scope.

(** A value for a column, or the code of the error. *)
Abbreviation column A := (string + A)%type (only parsing).

#[global] Instance column_ret {E} : MRet (sum E) := λ A a, inr a.
#[global] Instance column_bind {E} : MBind (sum E) := λ A B f c,
  match c with inl e => inl e | inr a => f a end.

Lemma column_bind_inr {E A B} (f : A → E + B) (c : E + A) b :
  c ≫= f = inr b → ∃ a, c = inr a ∧ f a = inr b.
Proof. destruct c; simpl; [done|eauto]. Qed.

(** ** Text *)

(** The bytes that start a character in UTF-8. *)
Definition starts_character (c : ascii) : bool :=
  negb (N.land (N_of_ascii c) 192 =? 128)%N.

(** The first [n] characters and the rest. *)
Fixpoint split_characters (n : nat) (s : string) : string * string :=
  match s with
  | EmptyString => (""%string, ""%string)
  | String c s' =>
      if starts_character c then
        match n with
        | O => (""%string, s)
        | S n' => let '(a, b) := split_characters n' s' in (String c a, b)
        end
      else let '(a, b) := split_characters n s' in (String c a, b)
  end.

Fixpoint all_blanks (s : string) : bool :=
  match s with
  | EmptyString => true
  | String c s => bool_decide (c = " "%char) && all_blanks s
  end.

Fixpoint no_zero_byte (s : string) : bool :=
  match s with
  | EmptyString => true
  | String c s => negb (N_of_ascii c =? 0)%N && no_zero_byte s
  end.

Fixpoint characters (s : string) : nat :=
  match s with
  | EmptyString => O
  | String c s => if starts_character c then S (characters s) else characters s
  end.

(** [text]: no zero byte. *)
Definition text (s : string) : column string :=
  if no_zero_byte s then inr s else inl "22021"%string.

(** [varchar(n)]: what is too long is an error, unless the excess is blank. *)
Definition varchar (n : nat) (s : string) : column string :=
  s ← text s;
  let '(kept, excess) := split_characters n s in
  if all_blanks excess then inr kept else inl "22001"%string.

Fixpoint blanks (n : nat) : string :=
  match n with O => ""%string | S n => String " " (blanks n) end.

(** [char(n)]: likewise, padded with blanks, and read back with them. *)
Definition char_n (n : nat) (s : string) : column string :=
  s ← varchar n s; inr (s +:+ blanks (n - characters s))%string.

(** [integer]: 32 bits. *)
Definition integer (z : Z) : column Z :=
  if bool_decide (- 2 ^ 31 ≤ z < 2 ^ 31) then inr z else inl "22003"%string.

(** ** The other types

    How the server reads a [uuid], what a [timestamptz] keeps of an instant and a
    [numeric(12,2)] of a float are the server's and the driver's business; an
    identifier's own text is read as that identifier. *)
Class PgColumns `{UuidLib} := {
  pg_uuid : string → option UUID;
  pg_timestamptz : Time → option Time;
  pg_numeric_12_2 : float64 → option float64;
  pg_uuid_String : ∀ u, pg_uuid (uuid_String u) = Some u;
}.

Section columns.
Context `{PgColumns}.

(** A [uuid] column, by its text. *)
Definition uuid_column (s : string) : column string :=
  match pg_uuid s with Some u => inr (uuid_String u) | None => inl "22P02"%string end.
Definition timestamptz (t : Time) : column Time :=
  match pg_timestamptz t with Some t => inr t | None => inl "22008"%string end.
Definition numeric_12_2 (x : float64) : column float64 :=
  match pg_numeric_12_2 x with Some x => inr x | None => inl "22003"%string end.

Lemma uuid_column_String u : uuid_column (uuid_String u) = inr (uuid_String u).
Proof. unfold uuid_column. by rewrite pg_uuid_String. Qed.
End columns.

(** ** Texts that fit *)

Lemma split_characters_fits n s : (characters s ≤ n)%nat → split_characters n s = (s, ""%string).
Proof.
  revert n. induction s as [|c s IH]; intros n; simpl; [done|].
  destruct (starts_character c).
  - destruct n as [|n]; [lia|]. intros Hn. by rewrite IH by lia.
  - intros Hn. by rewrite IH.
Qed.

Lemma varchar_fits n s : no_zero_byte s = true → (characters s ≤ n)%nat → varchar n s = inr s.
Proof.
  intros Hz Hn. unfold varchar, text. rewrite Hz. simpl. by rewrite split_characters_fits.
Qed.

(** ** Statements with parameters *)
Section statements.
Context {T X : Type} `{!Tables T X}.

(** [ExecContext(ctx, query, args...)]. *)
Definition exec_params {A} (params : column A) (check : A → T → option string) (op : A → T → T)
    : GoM (Tx T X) unit :=
  match params with
  | inr a => exec (check a) (op a)
  | inl code => exec (λ _, Some code) (λ t, t)
  end.

(** [QueryContext], [QueryRowContext]. *)
Definition query_params {A B} (params : column A) (select : A → T → B) : GoM (Tx T X) B :=
  match params with
  | inr a => query (select a)
  | inl code => _ ← statement; throw (ErrExternal code)
  end.

Definition no_check {A} (_ : A) (_ : T) : option string := None.

(** A loop over the result: the query, and the error that ends the loop early
    ([rows.Next], [rows.Err]). *)
Definition query_rows {A B} (msg : string) (params : column A) (select : A → T → B)
    : GoM (Pool T X) B :=
  rows ← wrapping msg (autocommit (query_params params select));
  _ ← wrapping msg (autocommit statement);
  mret rows.

Context (A : X → Prop) (Φ : T → T → Prop) `{!PreOrder Φ}.
Context (Harrive : ∀ w x t, A x → Φ t (arrive w x t)).

Lemma exec_params_spec {B} (params : column B) check op tx r tx' :
  due A tx → exec_params params check op tx = (r, tx') →
  due A tx' ∧ Φ (base tx) (base tx') ∧
  ((∃ b, params = inr b ∧ r = Ok tt ∧ check b (writes tx (base tx')) = None ∧
         writes tx' = (λ t, op b (writes tx t)))
   ∨ (∃ m, r = Err (ErrExternal m)) ∧ writes tx' = writes tx).
Proof.
  intros Hd. unfold exec_params.
  destruct params as [code|b]; intros (rs & tx1 & Hs & He)%exec_inv;
    pose proof Hs as Hs'; apply (statement_spec A Φ Harrive) in Hs' as (Hd1 & Hb1 & Hw1 & Hr1);
    try done; destruct Hr1 as [->|[m ->]].
  - destruct He as [-> ->]. split; [done|]. split; [done|]. right. eauto.
  - destruct He as [-> ->]. split; [done|]. split; [done|]. right. eauto.
  - unfold own_view in He. rewrite Hw1 in He. destruct (check b _) eqn:Hc.
    + destruct He as [-> ->]. split; [done|]. split; [done|]. right. eauto.
    + destruct He as (-> & Hb & Hw & Ha). unfold due. rewrite Hb, Ha.
      split; [done|]. split; [done|]. left. exists b. done.
  - destruct He as [-> ->]. split; [done|]. split; [done|]. right. eauto.
Qed.

(** A query that commits by itself. *)
Lemma autocommit_params_spec {B C} (params : column B) (select : B → T → C) p r p' :
  Forall (Forall A) (arrivals p) → autocommit (query_params params select) p = (r, p') →
  Forall (Forall A) (arrivals p') ∧ Φ (tables p) (tables p') ∧
  ((∃ b, params = inr b ∧ r = Ok (select b (tables p'))) ∨ ∃ m, r = Err (ErrExternal m)).
Proof.
  intros Hd. destruct params as [code|b]; simpl.
  - unfold autocommit, mbind, GoM_bind. destruct (statement (begun p)) as [rs tx] eqn:Es.
    apply (statement_spec A Φ Harrive) in Es as (Hd1 & Hb1 & Hw1 & [->|[m ->]]); [..|done];
      simpl; intros [= <- <-]; simpl; eauto.
  - intros (Hd1 & Hb1 & Hr)%(autocommit_query_spec A Φ Harrive); [|done].
    split; [done|]. split; [done|]. destruct Hr as [->|?]; eauto.
Qed.

Lemma query_rows_spec {B C} msg (params : column B) (select : B → T → C) p r p' :
  Forall (Forall A) (arrivals p) → query_rows msg params select p = (r, p') →
  Forall (Forall A) (arrivals p') ∧ Φ (tables p) (tables p') ∧
  ((∃ b t, params = inr b ∧ r = Ok (select b t) ∧ Φ (tables p) t ∧ Φ t (tables p'))
   ∨ ∃ m, r = Err (Errorf msg (ErrExternal m))).
Proof.
  intros Hd. unfold query_rows, mbind, GoM_bind, wrapping.
  destruct (autocommit (query_params params select) p) as [rs p1] eqn:E1.
  apply autocommit_params_spec in E1 as (Hd1 & Hb1 & [(b & -> & ->)|[m ->]]); [..|done];
    simpl; [|intros [= <- <-]; eauto].
  destruct (autocommit statement p1) as [r2 p2] eqn:E2.
  apply (autocommit_statement_spec A Φ Harrive) in E2 as (Hd2 & Hb2 & [->|[m ->]]); [..|done];
    simpl; intros [= <- <-]; (split; [done|]); (split; [by etransitivity|]); eauto 8.
Qed.

(** A statement that commits by itself. *)
Lemma autocommit_exec_spec {B} (params : column B) check op p r p' :
  Forall (Forall A) (arrivals p) → autocommit (exec_params params check op) p = (r, p') →
  Forall (Forall A) (arrivals p') ∧
  ((∃ b t, params = inr b ∧ r = Ok tt ∧ Φ (tables p) t ∧ check b t = None ∧ tables p' = op b t)
   ∨ (∃ m, r = Err (ErrExternal m)) ∧ Φ (tables p) (tables p')).
Proof.
  intros Hd. unfold autocommit. destruct (exec_params params check op (begun p)) as [rs tx] eqn:E.
  apply exec_params_spec in E as (Hd1 & Hb1 & [(b & -> & -> & Hc & Hw)|[[m ->] Hw]]); [..|done];
    intros [= <- <-]; simpl; (split; [done|]).
  - left. exists b, (base tx). unfold own_view. rewrite Hw. done.
  - right. eauto.
Qed.
End statements.

(** ** [ORDER BY] the key of a table *)
Section by_key.
Context {V : Type}.

Definition key_before (x y : string * V) : Prop := String.le x.1 y.1.
#[global] Instance key_before_dec x y : Decision (key_before x y).
Proof. unfold key_before. apply _. Defined.
#[global] Instance key_before_trans : Transitive key_before.
Proof. intros x y z. unfold key_before. apply transitivity. Qed.
#[global] Instance key_before_total : Total key_before.
Proof. intros x y. unfold key_before. apply (total String.le). Qed.

Definition order_by_key (l : list (string * V)) : list (string * V) := merge_sort key_before l.

(** The order of distinct keys is the only one. *)
Lemma order_by_key_unique l l' :
  NoDup l.*1 → l ≡ₚ l' → order_by_key l = order_by_key l'.
Proof.
  intros Hnd Hp. apply (StronglySorted_unique_strong key_before).
  - intros x y Hx Hy Hxy Hyx. unfold order_by_key in *.
    rewrite merge_sort_Permutation in Hx. rewrite merge_sort_Permutation in Hy.
    rewrite <- Hp in Hy. destruct x as [k v], y as [k' v'].
    assert (k = k') as <- by (apply (anti_symm String.le); done).
    apply list_elem_of_lookup in Hx as [i Hi], Hy as [j Hj].
    assert (i = j) as ->; [|congruence].
    eapply NoDup_lookup; [exact Hnd|..]; rewrite list_lookup_fmap.
    + by rewrite Hi.
    + by rewrite Hj.
  - apply StronglySorted_merge_sort; apply _.
  - apply StronglySorted_merge_sort; apply _.
  - unfold order_by_key. by rewrite !merge_sort_Permutation.
Qed.
End by_key.
