(* ===== verification/PostgresSales.v ===== *)
(** * The durable Sales read model
    ([internal/sales/readmodel/services/postgres_sales_order_service.go])

    The tables [sales_orders] and [sales_order_rows] and the queries over them.
    The adapter is one more [SalesReadModel]; it shows what the in-memory one
    shows, as far as the columns can hold it, while other sessions (replicas,
    redeliveries) project the same events. *)
From S2P Require Import Prelude Errors Kernel SalesKernel SalesOrder SalesHandlers SalesReadModel.
From S2P Require Import Sql Columns.
From stdpp Require Import sorting.
#[local] Open Scope Z_scope.

(** ** The schema *)

(** A row of [sales_orders] but for its key: what the creation sets, and the
    columns it leaves alone. *)
Record OrderData := mkOrderData {
  od_number : string; od_date : Time; od_customer_id : string; od_customer_name : string }.

Record OrderRow := mkOrderRow {
  or_data : OrderData; or_projected_at : Time; or_status : string; or_reason : string }.

(** A row of [sales_order_rows] but for its key. *)
Record ItemRow := mkItemRow {
  it_beer_name : string; it_quantity : Z; it_unit : string; it_price : float64;
  it_currency : string }.

(** The tables by primary key, [uuid]s by their text (which orders them as the
    server does); the rows of an order hang on its key, where the cascade of the
    foreign key finds them. [sd_now] is the server's clock, [sd_random] what
    [gen_random_uuid()] yields next. *)
Record SalesTables := mkSalesTables {
  sd_orders : gmap string OrderRow;
  sd_items : gmap string (gmap string ItemRow);
  sd_now : Time;
  sd_random : string;
}.

Definition items_of (k : string) (t : SalesTables) : gmap string ItemRow :=
  default ∅ (sd_items t !! k).

Definition put_order (k : string) (row : OrderRow) (t : SalesTables) : SalesTables :=
  mkSalesTables (<[k := row]> (sd_orders t)) (sd_items t) (sd_now t) (sd_random t).
Definition put_items (k : string) (items : gmap string ItemRow) (t : SalesTables) : SalesTables :=
  mkSalesTables (sd_orders t) (<[k := items]> (sd_items t)) (sd_now t) (sd_random t).

(** [INSERT INTO sales_orders ... ON CONFLICT (id) DO UPDATE] of the creation,
    with the defaults of the columns it does not name. *)
Definition upsert_order (now : Time) (order : string * OrderData) (t : SalesTables) : SalesTables :=
  put_order order.1
    match sd_orders t !! order.1 with
    | None => mkOrderRow order.2 now "pending" ""
    | Some row => mkOrderRow order.2 (or_projected_at row) (or_status row) (or_reason row)
    end t.

(** [DELETE FROM sales_order_rows WHERE sales_order_id = $1]. *)
Definition delete_items (k : string) (t : SalesTables) : SalesTables := put_items k ∅ t.

(** [INSERT INTO sales_order_rows]: the foreign key and the primary key. *)
Definition check_item (k : string) (item : string * ItemRow) (t : SalesTables) : option string :=
  if decide (sd_orders t !! k = None) then Some "23503"%string
  else if decide (items_of k t !! item.1 = None) then None else Some "23505"%string.
Definition insert_item (k : string) (item : string * ItemRow) (t : SalesTables) : SalesTables :=
  put_items k (<[item.1 := item.2]> (items_of k t)) t.

(** The upsert of a settlement, with its stub. *)
Definition upsert_status (s : string * (string * string)) (t : SalesTables) : SalesTables :=
  let '(k, (status, reason)) := s in
  put_order k
    match sd_orders t !! k with
    | None => mkOrderRow (mkOrderData "" (sd_now t) (sd_random t) "") (sd_now t) status reason
    | Some row => mkOrderRow (or_data row) (or_projected_at row) status reason
    end t.

(** [DELETE FROM sales_orders], and the cascade. *)
Definition delete_orders (t : SalesTables) : SalesTables :=
  mkSalesTables ∅ ∅ (sd_now t) (sd_random t).

(** ** The parameters of the statements *)
Section adapter.
Context {U : UuidLib} {C : PgColumns}.

Definition order_params (o : SalesOrderDto) : column (string * OrderData) :=
  k ← uuid_column (Id o);
  number ← varchar 50 (Number o);
  date ← timestamptz (Date o);
  customer ← uuid_column (Customer o);
  name ← varchar 200 (CustomerNameOf o);
  inr (k, mkOrderData number date customer name).

Definition item_params (row : SalesOrderRow) : column (string * ItemRow) :=
  beer ← uuid_column (r_BeerId row);
  name ← varchar 200 (r_BeerName row);
  quantity ← integer (Value (r_Quantity row));
  unit_ ← varchar 10 (UnitOfMeasure (r_Quantity row));
  price ← numeric_12_2 (PriceValue (r_Price row));
  currency ← char_n 3 (Currency (r_Price row));
  inr (beer, mkItemRow name quantity unit_ price currency).

Definition status_params (salesOrderId status reason : string)
    : column (string * (string * string)) :=
  k ← uuid_column salesOrderId;
  status ← varchar 20 status;
  reason ← text reason;
  inr (k, (status, reason)).

(** What [Scan] makes of the columns. *)
Definition scan_item (x : string * ItemRow) : SalesOrderRow :=
  mkSalesOrderRow x.1 (it_beer_name x.2) (NewQuantity (it_quantity x.2) (it_unit x.2))
    (NewPrice (it_price x.2) (it_currency x.2)).
Definition scan_order (k : string) (row : OrderRow) (rows : list SalesOrderRow) : SalesOrderDto :=
  mkSalesOrderDto k (od_number (or_data row)) (od_date (or_data row))
    (od_customer_id (or_data row)) (od_customer_name (or_data row)) rows
    (or_status row) (or_reason row).

(** [... WHERE sales_order_id = $1 ORDER BY beer_id]. *)
Definition select_items (k : string) (t : SalesTables) : list SalesOrderRow :=
  scan_item <$> order_by_key (map_to_list (items_of k t)).

(** ** The adapter

    [X] are the writes of other sessions. *)
Context {X : Type} `{!Tables SalesTables X}.
Abbreviation DB := (Pool SalesTables X).

Definition CreateSalesOrder_pg (order : SalesOrderDto) : GoM DB unit :=
  let msg := ("project sales order " +:+ Id order)%string in
  in_tx msg (
    now ← gets (λ tx, sd_now (base tx));
    _ ← wrapping msg (exec_params (order_params order) no_check (upsert_order now));
    _ ← wrapping (msg +:+ " rows")%string
          (exec_params (uuid_column (Id order)) no_check delete_items);
    for_each (Rows order) (λ row,
      wrapping (msg +:+ " row " +:+ r_BeerId row)%string
        (exec_params (k ← uuid_column (Id order); item ← item_params row; inr (k, item))
           (λ x, check_item x.1 x.2) (λ x, insert_item x.1 x.2)))).

Definition Reset_pg : GoM DB unit :=
  wrapping "reset sales projections"
    (autocommit (exec_params (inr tt) no_check (λ _, delete_orders))).

Definition UpdateAllocationStatus_pg (salesOrderId status reason : string) : GoM DB unit :=
  wrapping ("project allocation status of " +:+ salesOrderId)%string
    (autocommit (exec_params (status_params salesOrderId status reason) no_check upsert_status)).

Definition rowsOf_pg (orderId : string) : GoM DB (list SalesOrderRow) :=
  query_rows ("get sales order " +:+ orderId +:+ " rows")%string (uuid_column orderId) select_items.

Definition GetSalesOrder_pg (id : string) : GoM DB SalesOrderDto :=
  found ← wrapping ("get sales order " +:+ id)%string
            (autocommit (query_params (uuid_column id) (λ k t, (k, sd_orders t !! k))));
  match found with
  | (k, Some row) => rows ← rowsOf_pg id; mret (scan_order k row rows)
  | (_, None) => throw (Errorf ("sales order " +:+ id)%string ErrNotFound)
  end.

(** [ORDER BY projected_at, id]. *)
Definition projected_before (x y : string * OrderRow) : Prop :=
  or_projected_at x.2 < or_projected_at y.2 ∨
  or_projected_at x.2 = or_projected_at y.2 ∧ String.le x.1 y.1.
#[global] Instance projected_before_dec x y : Decision (projected_before x y).
Proof. unfold projected_before. apply _. Defined.

Definition listed (t : SalesTables) : list (string * OrderRow) :=
  merge_sort projected_before (map_to_list (sd_orders t)).

(** [LIMIT $1 OFFSET $2]; a negative number is an error of the server. *)
Definition page_params (page : Page) : column Page :=
  if Limit page <? 0 then inl "2201W"%string
  else if Offset page <? 0 then inl "2201X"%string else inr page.

Definition select_orders (page : Page) (t : SalesTables) : list (string * OrderRow) :=
  take (Z.to_nat (Limit page)) (drop (Z.to_nat (Offset page)) (listed t)).

(** The loop that fetches the rows of each order, one query after the other. *)
Fixpoint with_rows (orders : list (string * OrderRow)) : GoM DB (list SalesOrderDto) :=
  match orders with
  | [] => mret []
  | (k, row) :: orders =>
      rows ← rowsOf_pg k;
      rest ← with_rows orders;
      mret (scan_order k row rows :: rest)
  end.

Definition GetSalesOrders_pg (page : Page) : GoM DB (list SalesOrderDto) :=
  orders ← query_rows "list sales orders" (page_params page) select_orders;
  with_rows orders.

#[global] Instance Postgres_SalesReadModel : SalesReadModel DB := {
  rm_CreateSalesOrder := CreateSalesOrder_pg;
  rm_UpdateAllocationStatus := UpdateAllocationStatus_pg }.
End adapter.

(** ** What a creation writes *)

Definition insert_all (k : string) (items : list (string * ItemRow)) (t : SalesTables)
    : SalesTables :=
  foldl (λ t item, insert_item k item t) t items.

Definition write_order (now : Time) (order : string * OrderData) (items : list (string * ItemRow))
    (t : SalesTables) : SalesTables :=
  insert_all order.1 items (delete_items order.1 (upsert_order now order t)).

Section params.
Context {U : UuidLib} {C : PgColumns}.

(** The parameters of all the statements of a creation: every column takes its
    value, and no two rows have one beer. *)
Fixpoint items_params (rows : list SalesOrderRow) : column (list (string * ItemRow)) :=
  match rows with
  | [] => inr []
  | row :: rows => item ← item_params row; items ← items_params rows; inr (item :: items)
  end.

Definition whole_params (o : SalesOrderDto)
    : column ((string * OrderData) * list (string * ItemRow)) :=
  order ← order_params o;
  items ← items_params (Rows o);
  if decide (NoDup items.*1) then inr (order, items) else inl "23505"%string.

Lemma order_params_key o order : order_params o = inr order → uuid_column (Id o) = inr order.1.
Proof.
  unfold order_params. intros (k & Hk & Hr)%column_bind_inr.
  repeat apply column_bind_inr in Hr as (? & ? & Hr). by injection Hr as <-.
Qed.

Lemma whole_params_inv o order items :
  whole_params o = inr (order, items) →
  order_params o = inr order ∧ items_params (Rows o) = inr items ∧ NoDup items.*1.
Proof.
  unfold whole_params. intros (order' & Ho & (items' & Hi & Hr)%column_bind_inr)%column_bind_inr.
  case_decide as Hn; [|done]. by injection Hr as <- <-.
Qed.
End params.

(** *** The rows of one order *)
Lemma items_of_insert k item t :
  items_of k (insert_item k item t) = <[item.1 := item.2]> (items_of k t).
Proof. unfold items_of, insert_item, put_items. simpl. by rewrite lookup_insert_eq. Qed.

Lemma insert_all_items k items t :
  NoDup items.*1 → items_of k t = ∅ → items_of k (insert_all k items t) = list_to_map items.
Proof.
  intros Hnd Ht. induction items as [|item items IH] using rev_ind; [done|].
  unfold insert_all in *. rewrite foldl_app. simpl. rewrite items_of_insert.
  rewrite fmap_app in Hnd. apply NoDup_app in Hnd as (Hnd & Hx & _).
  rewrite IH by done. destruct item as [b row]. rewrite list_to_map_snoc; [done|].
  intros Hb. apply (Hx _ Hb). simpl. left.
Qed.

Lemma insert_all_orders k items t : sd_orders (insert_all k items t) = sd_orders t.
Proof. revert t. induction items as [|i items IH]; intros t; simpl; [done|by rewrite IH]. Qed.

Lemma insert_all_other k k' items t :
  k ≠ k' → items_of k' (insert_all k items t) = items_of k' t.
Proof.
  intros Hk. revert t. induction items as [|i items IH]; intros t; simpl; [done|].
  rewrite IH. unfold items_of, insert_item, put_items. simpl. by rewrite lookup_insert_ne.
Qed.

Lemma delete_items_empty k t : items_of k (delete_items k t) = ∅.
Proof. unfold items_of, delete_items, put_items. simpl. by rewrite lookup_insert_eq. Qed.

Lemma write_order_items now order items t :
  NoDup items.*1 → items_of order.1 (write_order now order items t) = list_to_map items.
Proof. intros Hnd. apply insert_all_items; [done|]. apply delete_items_empty. Qed.

Lemma write_order_orders now order items t :
  sd_orders (write_order now order items t) = sd_orders (upsert_order now order t).
Proof. unfold write_order. by rewrite insert_all_orders. Qed.

Lemma write_order_other now order items t k :
  order.1 ≠ k →
  sd_orders (write_order now order items t) !! k = sd_orders t !! k ∧
  items_of k (write_order now order items t) = items_of k t.
Proof.
  intros Hk. split.
  - rewrite write_order_orders. unfold upsert_order, put_order. simpl. by rewrite lookup_insert_ne.
  - unfold write_order. rewrite insert_all_other by done.
    unfold items_of, delete_items, put_items. simpl. by rewrite lookup_insert_ne.
Qed.

(** ** The transaction *)
Section transaction.
Context {U : UuidLib} {C : PgColumns} {X : Type} `{!Tables SalesTables X}.
Context (A : X → Prop) (Φ : SalesTables → SalesTables → Prop) `{!PreOrder Φ}.
Context (Harrive : ∀ w x t, A x → Φ t (arrive w x t)).
Implicit Types (p : Pool SalesTables X) (tx : Tx SalesTables X) (o : SalesOrderDto).

(** The loop over the rows, after [done_]. *)
Lemma insert_items_spec msg id k rows done_ w0 tx r tx' :
  due A tx → uuid_column id = inr k → (∀ t, items_of k (w0 t) = ∅) → NoDup done_.*1 →
  (∀ t, writes tx t = insert_all k done_ (w0 t)) →
  for_each rows (λ row,
    wrapping (msg +:+ " row " +:+ r_BeerId row)%string
      (exec_params (k ← uuid_column id; item ← item_params row; inr (k, item))
         (λ x, check_item x.1 x.2) (λ x, insert_item x.1 x.2))) tx = (r, tx') →
  due A tx' ∧ Φ (base tx) (base tx') ∧
  match r with
  | Ok _ => ∃ items, items_params rows = inr items ∧ NoDup (done_ ++ items).*1 ∧
      ∀ t, writes tx' t = insert_all k (done_ ++ items) (w0 t)
  | Err _ => True
  | Panic _ => False
  end.
Proof.
  intros Hd Hk Hw0. revert done_ tx Hd. induction rows as [|row rows IH]; intros done_ tx Hd Hnd Hw.
  { intros [= <- <-]. split; [done|]. split; [done|]. exists []. by rewrite app_nil_r. }
  cbn [for_each]. rewrite bind_wrapping.
  destruct (exec_params _ _ _ tx) as [r1 tx1] eqn:E1.
  apply (exec_params_spec A Φ Harrive) in E1
    as (Hd1 & Hb1 & [(b & Hp & -> & Hc & Hw1)|[[m ->] _]]); [..|done]; simpl;
    [|intros [= <- <-]; done].
  rewrite Hk in Hp. simpl in Hp. apply column_bind_inr in Hp as (item & Hi & [= <-]).
  simpl in *. intros Hloop. rewrite Hi. simpl.
  assert (NoDup (done_ ++ [item]).*1) as Hnd1.
  { rewrite fmap_app, NoDup_app. split; [done|]. split; [|apply NoDup_singleton].
    intros x Hx ->%list_elem_of_singleton. unfold check_item in Hc.
    case_decide; [done|]. case_decide as Hf; [|done]. rewrite Hw, insert_all_items in Hf by done.
    by apply not_elem_of_list_to_map in Hf. }
  apply (IH (done_ ++ [item])) in Hloop as (Hd2 & Hb2 & Hr); [|done|done|].
  - split; [done|]. split; [by etransitivity|]. destruct r as [[]|e|m]; [|done|done].
    destruct Hr as (items & -> & Hnd2 & Hw2). rewrite <- app_assoc in Hnd2, Hw2. eauto.
  - intros t. rewrite Hw1, Hw. unfold insert_all. by rewrite foldl_app.
Qed.

(** A creation that succeeds has written the whole order, on the tables as the
    other sessions left them; one that fails has written nothing. *)
Lemma CreateSalesOrder_pg_spec o p r p' :
  Forall (Forall A) (arrivals p) → CreateSalesOrder_pg o p = (r, p') →
  Forall (Forall A) (arrivals p') ∧
  match r with
  | Ok _ => ∃ order items now t, whole_params o = inr (order, items) ∧ Φ (tables p) t ∧
      tables p' = write_order now order items t
  | Err _ => Φ (tables p) (tables p')
  | Panic _ => False
  end.
Proof.
  intros Hd Hrun.
  apply (in_tx_spec A Φ Harrive _ _
    (λ _ tx, ∃ order items now, whole_params o = inr (order, items) ∧
       ∀ t, writes tx t = write_order now order items t)) in Hrun as [Hd' Hr]; [|done|..].
  - split; [done|]. destruct r as [[]|e|m]; [|done|done].
    destruct Hr as (tx & Hb & (order & items & now & Hp & Hw) & ->).
    exists order, items, now, (base tx). by rewrite <- Hw.
  - clear r p' Hrun. intros tx r tx' Hdt Hbt Hwt Hrun.
    unfold mbind at 1, GoM_bind at 1, gets in Hrun. rewrite bind_wrapping in Hrun.
    destruct (exec_params (order_params o) _ _ tx) as [r1 tx1] eqn:E1.
    apply (exec_params_spec A Φ Harrive) in E1
      as (Hd1 & Hb1 & [(order & Ho & -> & _ & Hw1)|[[m ->] _]]); [..|done]; simpl in Hrun;
      [|by injection Hrun as <- <-].
    rewrite bind_wrapping in Hrun.
    destruct (exec_params (uuid_column (Id o)) _ _ tx1) as [r2 tx2] eqn:E2.
    apply (exec_params_spec A Φ Harrive) in E2
      as (Hd2 & Hb2 & [(k & Hk & -> & _ & Hw2)|[[m ->] _]]); [..|done]; simpl in Hrun;
      [|injection Hrun as <- <-; split; [done|]; split; [by etransitivity|]; done].
    rewrite (order_params_key _ _ Ho) in Hk. injection Hk as <-.
    apply (insert_items_spec _ _ order.1 _ []
      (λ t, delete_items order.1 (upsert_order (sd_now (base tx)) order t)))
      in Hrun as (Hd3 & Hb3 & Hr).
    + split; [done|]. split; [by do 2 (etransitivity; [eassumption|])|].
      destruct r as [[]|e|m]; [|done|done].
      split; [|done]. intros [] _. destruct Hr as (items & Hi & Hnd & Hw3).
      exists order, items, (sd_now (base tx)). split; [|done].
      unfold whole_params. rewrite Ho. simpl. rewrite Hi. simpl. by rewrite decide_True.
    + done.
    + by apply order_params_key.
    + intros t. apply delete_items_empty.
    + constructor.
    + intros t. by rewrite Hw2, Hw1, Hwt.
  - intros [] tx tx' (order & items & now & Hp & Hw) Hs. exists order, items, now.
    split; [done|]. by rewrite (statement_writes _ _ _ Hs).
Qed.

Lemma UpdateAllocationStatus_pg_spec id st re p r p' :
  Forall (Forall A) (arrivals p) → UpdateAllocationStatus_pg id st re p = (r, p') →
  Forall (Forall A) (arrivals p') ∧
  match r with
  | Ok _ => ∃ s t, status_params id st re = inr s ∧ Φ (tables p) t ∧ tables p' = upsert_status s t
  | Err _ => Φ (tables p) (tables p')
  | Panic _ => False
  end.
Proof.
  intros Hd. unfold UpdateAllocationStatus_pg, wrapping.
  destruct (autocommit _ p) as [r1 p1] eqn:E1.
  apply (autocommit_exec_spec A Φ Harrive) in E1 as [Hd1 Hr1]; [|done].
  destruct Hr1 as [(b & t & Hp & -> & Hb & _ & Ht)|[[m ->] Hb]]; intros [= <- <-]; eauto 6.
Qed.
End transaction.

(** ** Other sessions

    Replicas and redeliveries run the same projectors; the clock goes on. A
    session waits for the orders the transaction has written. *)
Inductive SalesArrival `{UuidLib} :=
| AnotherProjection (e : SalesEvent)
| AnotherReset
| Later (now : Time) (random : string).

Section others.
Context {U : UuidLib} {C : PgColumns}.
Implicit Types (t : SalesTables).

Definition status_of (e : SalesEvent) : string * string :=
  match e with
  | EvSalesOrderAllocationRejected e => ("rejected", sor_Reason e)
  | _ => ("allocated", "")
  end%string.

(** What a projection of the program leaves in the tables. *)
Definition projected (now : Time) (e : SalesEvent) t : SalesTables :=
  match e with
  | EvSalesOrderCreated c =>
      match whole_params (created_dto c) with
      | inr (order, items) => write_order now order items t
      | inl _ => t
      end
  | _ =>
      match status_params (event_key e) (status_of e).1 (status_of e).2 with
      | inr s => upsert_status s t
      | inl _ => t
      end
  end.

Lemma upsert_status_other s t k :
  s.1 ≠ k → sd_orders (upsert_status s t) !! k = sd_orders t !! k ∧
  items_of k (upsert_status s t) = items_of k t.
Proof.
  destruct s as [k' [st re]]. simpl. intros Hk. unfold put_order. simpl.
  by rewrite lookup_insert_ne.
Qed.

(** A projection touches the rows of its own order only. *)
Lemma projected_other now e t k :
  event_key e ≠ k →
  sd_orders (projected now e t) !! k = sd_orders t !! k ∧
  items_of k (projected now e t) = items_of k t.
Proof.
  intros Hk.
  assert (∀ st re s, status_params (event_key e) st re = inr s → s.1 = event_key e) as Hst.
  { intros st re s. unfold status_params.
    replace (uuid_column (event_key e)) with (inr (event_key e) : column string)
      by (symmetry; apply uuid_column_String). simpl.
    intros (? & _ & (? & _ & [= <-])%column_bind_inr)%column_bind_inr. done. }
  destruct e as [c'|e|e]; unfold projected.
  - destruct (whole_params _) as [|[order items]] eqn:Hp; [done|].
    apply whole_params_inv in Hp as (Ho & _). apply order_params_key in Ho.
    simpl in Ho. rewrite uuid_column_String in Ho. injection Ho as Ho.
    apply write_order_other. by rewrite <- Ho.
  - destruct (status_params _ _ _) as [|s] eqn:Hp; [done|].
    apply upsert_status_other. by rewrite (Hst _ _ _ Hp).
  - destruct (status_params _ _ _) as [|s] eqn:Hp; [done|].
    apply upsert_status_other. by rewrite (Hst _ _ _ Hp).
Qed.

Definition no_tables : SalesTables := mkSalesTables ∅ ∅ 0 "".

#[global] Instance sales_arrivals : Tables SalesTables SalesArrival := λ w x t,
  match x with
  | AnotherProjection e =>
      if decide (sd_orders (w no_tables) !! event_key e = None) then projected (sd_now t) e t else t
  | AnotherReset =>
      if decide (sd_orders (w no_tables) = ∅) then delete_orders t else t
  | Later now random => mkSalesTables (sd_orders t) (sd_items t) now random
  end.
End others.

(** ** The row of one order *)
Section one_order.
Context {U : UuidLib} {C : PgColumns}.
Context (c : SalesOrderCreated) (a : settlement).
Implicit Types (t : SalesTables) (created settled : bool).

Definition key : string := uuid_String (SalesOrderId_Value (soc_SalesOrderId c)).
Definition created_event : SalesEvent := EvSalesOrderCreated c.
Definition settled_event : SalesEvent := settlement_event (soc_SalesOrderId c) a.

(** The tables after the creation was projected, or not, and the settlement, or
    not. *)
Definition shows created settled t : Prop :=
  match sd_orders t !! key with
  | None => created = false ∧ settled = false
  | Some row =>
      (created || settled = true) ∧
      (or_status row, or_reason row) =
        (if settled then status_of settled_event else ("pending", ""))%string ∧
      (created = true → ∃ items,
         whole_params (created_dto c) = inr (key, or_data row, items) ∧
         items_of key t = list_to_map items)
  end.

Lemma shows_nothing t : sd_orders t !! key = None → shows false false t.
Proof. unfold shows. by intros ->. Qed.

Lemma created_key order items :
  whole_params (created_dto c) = inr (order, items) → order.1 = key.
Proof.
  intros (Ho & _)%whole_params_inv. apply order_params_key in Ho.
  simpl in Ho. rewrite uuid_column_String in Ho. by injection Ho.
Qed.

Lemma shows_created created settled now order items t :
  whole_params (created_dto c) = inr (order, items) → shows created settled t →
  shows true settled (write_order now order items t).
Proof.
  intros Hp Hs. pose proof (created_key _ _ Hp) as Hk.
  pose proof (whole_params_inv _ _ _ Hp) as (_ & _ & Hnd).
  unfold shows in *. rewrite write_order_orders. unfold upsert_order, put_order. simpl.
  rewrite Hk, lookup_insert_eq.
  assert (whole_params (created_dto c) = inr (key, order.2, items)) as Hp'
    by (rewrite Hp, <- Hk; by destruct order).
  assert (items_of key (write_order now order items t) = list_to_map items) as Hi
    by (rewrite <- Hk; by apply write_order_items).
  destruct (sd_orders t !! key) as [row|]; simpl.
  - destruct Hs as (_ & Hst & _). eauto.
  - destruct Hs as [-> ->]. eauto.
Qed.

Lemma settled_params s :
  status_params key (status_of settled_event).1 (status_of settled_event).2 = inr s →
  s = (key, status_of settled_event).
Proof.
  unfold status_params, key. rewrite uuid_column_String. simpl.
  assert (varchar 20 (status_of settled_event).1 = inr (status_of settled_event).1) as ->
    by (unfold settled_event; destruct a; reflexivity).
  simpl. unfold text. case_match; simpl; [|done]. intros [= <-]. by destruct (status_of _).
Qed.

Lemma shows_settled created settled t :
  shows created settled t → shows created true (upsert_status (key, status_of settled_event) t).
Proof.
  unfold shows, upsert_status. destruct (status_of settled_event) as [st re] eqn:E.
  unfold put_order. simpl. rewrite lookup_insert_eq. rewrite orb_true_r.
  destruct (sd_orders t !! key) as [row|]; simpl.
  - intros (_ & _ & Hc). done.
  - by intros [-> ->].
Qed.

(** Rows of other orders do not matter. *)
Lemma shows_other created settled t t' :
  sd_orders t' !! key = sd_orders t !! key → items_of key t' = items_of key t →
  shows created settled t → shows created settled t'.
Proof. unfold shows. by intros -> ->. Qed.

(** What other sessions' projections of the order's own events lead to. *)
Context (settles : bool).
Definition events : list SalesEvent :=
  created_event :: if settles then [settled_event] else [].

Definition progress t t' : Prop := ∀ created settled,
  shows created settled t → ∃ created' settled', shows created' settled' t' ∧
    (created = true → created' = true) ∧ (settled = true → settled' = true) ∧
    (settled' = true → settled = true ∨ settles = true).

#[global] Instance progress_preorder : PreOrder progress.
Proof.
  split.
  - intros t b s H. exists b, s. naive_solver.
  - intros t1 t2 t3 H12 H23 b s H. destruct (H12 b s H) as (b2 & s2 & H2 & ?).
    destruct (H23 b2 s2 H2) as (b3 & s3 & H3 & ?). exists b3, s3. naive_solver.
Qed.

Lemma progress_other t t' :
  sd_orders t' !! key = sd_orders t !! key → items_of key t' = items_of key t → progress t t'.
Proof. intros Ho Hi b s H. exists b, s. split; [by eapply shows_other|]. naive_solver. Qed.

Lemma created_event_key : event_key created_event = key.
Proof. done. Qed.
Lemma settled_event_key : event_key settled_event = key.
Proof. unfold settled_event. destruct a; reflexivity. Qed.

Lemma settled_is_status now t :
  projected now settled_event t =
  match status_params key (status_of settled_event).1 (status_of settled_event).2 with
  | inr s => upsert_status s t
  | inl _ => t
  end.
Proof. unfold settled_event. destruct a; reflexivity. Qed.

Lemma projected_progress now e t :
  (event_key e = key → e ∈ events) → progress t (projected now e t).
Proof.
  intros He. destruct (decide (event_key e = key)) as [Hk|Hk].
  - specialize (He Hk). apply elem_of_cons in He as [->|He].
    + unfold projected, created_event. destruct (whole_params _) as [|[order items]] eqn:Hp; [done|].
      intros b s H. exists true, s. split; [by eapply shows_created|]. naive_solver.
    + destruct settles eqn:Hse; [|by apply elem_of_nil in He].
      apply list_elem_of_singleton in He as ->. rewrite settled_is_status.
      destruct (status_params _ _ _) as [|s] eqn:Hp; [done|]. apply settled_params in Hp as ->.
      intros b s H. exists b, true. split; [by eapply shows_settled|].
      rewrite Hse. naive_solver.
  - destruct (projected_other now e t key Hk). by apply progress_other.
Qed.

(** The arrivals considered: projections of this order's events and of any other
    order's, and the clock. *)
Definition benign (x : SalesArrival) : Prop :=
  match x with
  | AnotherProjection e => event_key e = key → e ∈ events
  | AnotherReset => False
  | Later _ _ => True
  end.

Lemma benign_progress w x t : benign x → progress t (arrive w x t).
Proof.
  unfold arrive, sales_arrivals. destruct x as [e| |now random]; simpl; [intros He|done|].
  - case_decide; [by apply projected_progress|done].
  - intros _. by apply progress_other.
Qed.
End one_order.

(** ** Convergence *)
Section convergence.
Context {U : UuidLib} {C : PgColumns}.
Abbreviation DB := (Pool SalesTables SalesArrival).
Implicit Types (p : DB) (t : SalesTables) (e : SalesEvent) (ds : list SalesEvent).

(** A row as the columns hold it. *)
Definition durable_row (o : SalesOrderDto) : column SalesOrderDto :=
  '(order, items) ← whole_params o;
  inr (scan_order order.1 (mkOrderRow order.2 0 (Allocation o) (RejectionReason o))
         (scan_item <$> order_by_key items)).

Section log.
Context (c : SalesOrderCreated) (a : settlement) (settles : bool).
Abbreviation A := (benign c a settles).
Abbreviation Φ := (progress c a settles).

(** The parameters of the statements of a projection. *)
Definition fits e : Prop :=
  match e with
  | EvSalesOrderCreated c => ∃ x, whole_params (created_dto c) = inr x
  | _ => ∃ s, status_params (event_key e) (status_of e).1 (status_of e).2 = inr s
  end.

(** A delivery that succeeds is projected at some moment of its run. *)
Lemma project_pg e p r p' :
  Forall (Forall A) (arrivals p) → project e p = (r, p') →
  Forall (Forall A) (arrivals p') ∧
  match r with
  | Ok _ => ∃ t now, Φ (tables p) t ∧ tables p' = projected now e t ∧ fits e
  | Err _ => Φ (tables p) (tables p')
  | Panic _ => False
  end.
Proof.
  intros Hd. destruct e as [c'|e|e]; intros Hrun.
  - apply (CreateSalesOrder_pg_spec A Φ (benign_progress c a settles)) in Hrun as [Hd' Hr]; [|done].
    split; [done|]. destruct r as [[]|e|m]; [|done|done].
    destruct Hr as (order & items & now & t & Hp & Ht & Ht'). exists t, now.
    simpl. rewrite Hp. eauto.
  - apply (UpdateAllocationStatus_pg_spec A Φ (benign_progress c a settles)) in Hrun
      as [Hd' Hr]; [|done].
    split; [done|]. destruct r as [[]|e'|m]; [|done|done].
    destruct Hr as (s & t & Hp & Ht & Ht'). exists t, 0. simpl. unfold event_key. simpl.
    rewrite Hp. eauto.
  - apply (UpdateAllocationStatus_pg_spec A Φ (benign_progress c a settles)) in Hrun
      as [Hd' Hr]; [|done].
    split; [done|]. destruct r as [[]|e'|m]; [|done|done].
    destruct Hr as (s & t & Hp & Ht & Ht'). exists t, 0. simpl. unfold event_key. simpl.
    rewrite Hp. eauto.
Qed.

Lemma projected_step now e t b s :
  (event_key e = key c → e ∈ events c a settles) → fits e → shows c a b s t →
  ∃ b' s', shows c a b' s' (projected now e t) ∧
    (b = true → b' = true) ∧ (s = true → s' = true) ∧ (s' = true → s = true ∨ settles = true) ∧
    (e = created_event c → b' = true) ∧ (e = settled_event c a → s' = true).
Proof.
  intros Hev Hfit Hs. destruct (decide (event_key e = key c)) as [Hk|Hk].
  - specialize (Hev Hk). apply elem_of_cons in Hev as [->|Hev].
    + destruct Hfit as [[order items] Hx]. unfold created_event, projected. rewrite Hx.
      exists true, s. split; [by eapply shows_created|]. unfold settled_event.
      destruct a; naive_solver.
    + destruct settles eqn:Est; [|by apply elem_of_nil in Hev].
      apply list_elem_of_singleton in Hev. subst e. rewrite settled_is_status.
      assert (∃ x, status_params (key c) (status_of (settled_event c a)).1
        (status_of (settled_event c a)).2 = inr x) as [x Hx]
        by (unfold settled_event, key in *; destruct a; exact Hfit).
      rewrite Hx. apply settled_params in Hx as ->.
      exists b, true. split; [by eapply shows_settled|]. unfold settled_event.
      destruct a; naive_solver.
  - destruct (projected_progress c a settles now e t (λ H, match Hk H with end) b s Hs)
      as (b' & s' & Hs' & ?).
    exists b', s'. split; [done|]. do 3 (split; [naive_solver|]).
    split; intros ->; destruct Hk; [done|apply settled_event_key].
Qed.

Lemma deliver_pg ds p r p' b s :
  Forall (Forall A) (arrivals p) → (∀ e, e ∈ ds → event_key e = key c → e ∈ events c a settles) →
  shows c a b s (tables p) → for_each ds project p = (r, p') →
  Forall (Forall A) (arrivals p') ∧ ∃ b' s', shows c a b' s' (tables p') ∧
    (b = true → b' = true) ∧ (s = true → s' = true) ∧ (s' = true → s = true ∨ settles = true) ∧
    (r = Ok tt → created_event c ∈ ds → b' = true) ∧
    (r = Ok tt → settled_event c a ∈ ds → s' = true) ∧ ∀ m, r ≠ Panic m.
Proof.
  revert p b s. induction ds as [|e ds IH]; intros p b s Hd Hev Hs; simpl.
  { intros [= <- <-]. split; [done|]. exists b, s. set_solver. }
  unfold mbind, GoM_bind. destruct (project e p) as [r1 p1] eqn:E1.
  apply project_pg in E1 as [Hd1 Hr1]; [|done]. destruct r1 as [[]|er|m]; [| |done].
  2:{ intros [= <- <-]. split; [done|]. destruct (Hr1 b s Hs) as (b' & s' & H').
      exists b', s'. naive_solver. }
  destruct Hr1 as (t & now & Ht & Hp1 & Hok). destruct (Ht b s Hs) as (b1 & s1 & Hs1 & Hb1 & Hss1 & Hn1).
  destruct (projected_step now e t b1 s1) as (b2 & s2 & Hs2 & Hb2 & Hss2 & Hn2 & Hcr & Hse);
    [intros Hk; apply Hev; [left|done]|done|done|]. rewrite <- Hp1 in Hs2.
  intros Hrest. apply (IH p1 b2 s2) in Hrest
    as (Hd3 & b3 & s3 & Hs3 & Hb3 & Hss3 & Hn3 & Hc3 & Hx3 & Hp3); [|done|set_solver|done].
  split; [done|]. exists b3, s3. split; [done|]. split; [naive_solver|]. split; [naive_solver|].
  split; [naive_solver|]. split; [|split; [|done]].
  - intros Hr [He|Hin]%elem_of_cons; [subst e|]; naive_solver.
  - intros Hr [He|Hin]%elem_of_cons; [subst e|]; naive_solver.
Qed.
(** Reading the order: its row, then its items; the creation fixes both. *)
Lemma GetSalesOrder_pg_spec p r p' s :
  Forall (Forall A) (arrivals p) → shows c a true s (tables p) → s = settles →
  GetSalesOrder_pg (key c) p = (r, p') →
  ∃ order items, whole_params (created_dto c) = inr (order, items) ∧
  (r = Ok (scan_order (key c)
             (mkOrderRow order.2 0
                (if settles then (status_of (settled_event c a)).1 else "pending")
                (if settles then (status_of (settled_event c a)).2 else ""))%string
             (scan_item <$> order_by_key items))
   ∨ ∃ msg m, r = Err (Errorf msg (ErrExternal m))).
Proof.
  intros Hd Hs -> Hrun. unfold GetSalesOrder_pg in Hrun. rewrite bind_wrapping in Hrun.
  destruct (autocommit _ p) as [r1 p1] eqn:E1.
  apply (autocommit_params_spec A Φ (benign_progress c a settles)) in E1
    as (Hd1 & Hb1 & Hr1); [|done].
  destruct (Hb1 _ _ Hs) as (b1 & s1 & Hs1 & Hb & Hse & Hn).
  pose proof (Hb eq_refl) as ->.
  assert (s1 = settles) as -> by (destruct s1, settles; naive_solver).
  unfold shows in Hs1. destruct (sd_orders (tables p1) !! key c) as [row|] eqn:Hrow;
    [|by destruct Hs1].
  destruct Hs1 as (_ & Hst & (items & Hp & Hi)); [done|].
  exists (key c, or_data row), items. split; [done|].
  destruct Hr1 as [(k & Hk & ->)|[m ->]]; [|injection Hrun as <- _; right; eauto].
  unfold key in Hk. rewrite uuid_column_String in Hk. injection Hk as <-.
  fold (key c) in Hrun. rewrite Hrow in Hrun.
  unfold mbind, GoM_bind, rowsOf_pg in Hrun.
  destruct (query_rows _ _ _ p1) as [r2 p2] eqn:E2.
  apply (query_rows_spec A Φ (benign_progress c a settles)) in E2
    as (Hd2 & Hb2 & [(k & t & Hk & -> & Ht & _)|[m ->]]); [..|done]; injection Hrun as <- _;
    [|right; eauto].
  left. unfold key in Hk. rewrite uuid_column_String in Hk. injection Hk as <-. fold (key c).
  assert (shows c a true settles (tables p1)) as Hs1.
  { unfold shows. rewrite Hrow. eauto. }
  destruct (Ht _ _ Hs1) as (b2 & s2 & Hs2 & Hb2' & _). pose proof (Hb2' eq_refl) as ->.
  assert (items_of (key c) t = list_to_map items) as Hit.
  { unfold shows in Hs2. destruct (sd_orders t !! key c); [|by destruct Hs2].
    destruct Hs2 as (_ & _ & (items2 & Hp2 & Hi2)); [done|].
    rewrite Hp in Hp2. by injection Hp2 as _ <-. }
  apply whole_params_inv in Hp as (_ & _ & Hnd).
  f_equal. unfold scan_order. simpl. f_equal.
  - unfold select_items. f_equal. rewrite Hit.
    apply order_by_key_unique; [|by apply map_to_list_to_map].
    by rewrite (map_to_list_to_map items).
  - apply (f_equal fst) in Hst. by destruct settles.
  - apply (f_equal snd) in Hst. by destruct settles.
Qed.
End log.

(** The arrivals of a running system: projections of the stored events, of this
    order or another. *)
Definition harmless (id : UUID) (l : list SalesEvent) (x : SalesArrival) : Prop :=
  match x with
  | AnotherProjection e => event_key e = uuid_String id → e ∈ l
  | AnotherReset => False
  | Later _ _ => True
  end.

(** *** An order without events stays absent *)
Section absent.
Context (id : UUID).
Definition absent t : Prop := sd_orders t !! uuid_String id = None.
Definition stays_absent t t' : Prop := absent t → absent t'.

#[global] Instance stays_absent_preorder : PreOrder stays_absent.
Proof. split; unfold stays_absent; repeat intro; auto. Qed.

Lemma arrive_absent w x t : harmless id [] x → stays_absent t (arrive w x t).
Proof.
  unfold arrive, sales_arrivals, stays_absent, absent. destruct x as [e| |now random]; simpl; [|done..].
  intros He Hn. case_decide; [|done]. destruct (projected_other (sd_now t) e t (uuid_String id)) as [-> _]; [|done].
  intros Hk. by apply He, elem_of_nil in Hk.
Qed.

Lemma project_absent e p r p' :
  event_key e ≠ uuid_String id → Forall (Forall (harmless id [])) (arrivals p) →
  project e p = (r, p') →
  Forall (Forall (harmless id [])) (arrivals p') ∧ stays_absent (tables p) (tables p').
Proof.
  intros Hk Hd Hrun.
  assert (∀ t t' now, stays_absent (tables p) t → t' = projected now e t →
    stays_absent (tables p) t') as Hproj.
  { intros t t' now Ht -> Hn. unfold absent.
    destruct (projected_other now e t (uuid_String id) Hk) as [-> _]. by apply Ht. }
  destruct e as [c|e|e].
  - apply (CreateSalesOrder_pg_spec (harmless id []) stays_absent arrive_absent) in Hrun
      as [Hd' Hr]; [|done]. split; [done|]. destruct r as [[]|e|m]; [|done|done].
    destruct Hr as (order & items & now & t & Hp & Ht & Ht'). apply (Hproj t _ now Ht).
    simpl. by rewrite Hp.
  - apply (UpdateAllocationStatus_pg_spec (harmless id []) stays_absent arrive_absent) in Hrun
      as [Hd' Hr]; [|done]. split; [done|]. destruct r as [[]|er|m]; [|done|done].
    destruct Hr as (s & t & Hp & Ht & Ht'). apply (Hproj t _ 0 Ht). unfold projected, event_key.
    simpl. by rewrite Hp.
  - apply (UpdateAllocationStatus_pg_spec (harmless id []) stays_absent arrive_absent) in Hrun
      as [Hd' Hr]; [|done]. split; [done|]. destruct r as [[]|er|m]; [|done|done].
    destruct Hr as (s & t & Hp & Ht & Ht'). apply (Hproj t _ 0 Ht). unfold projected, event_key.
    simpl. by rewrite Hp.
Qed.

Lemma deliver_absent ds p r p' :
  (∀ e, e ∈ ds → event_key e ≠ uuid_String id) → Forall (Forall (harmless id [])) (arrivals p) →
  for_each ds project p = (r, p') →
  Forall (Forall (harmless id [])) (arrivals p') ∧ stays_absent (tables p) (tables p').
Proof.
  revert p. induction ds as [|e ds IH]; intros p Hds Hd; simpl.
  { by intros [= <- <-]. }
  unfold mbind, GoM_bind. destruct (project e p) as [r1 p1] eqn:E1.
  apply project_absent in E1 as [Hd1 H1]; [|apply Hds; left|done].
  destruct r1 as [[]|er|m]; [|by intros [= <- <-]..].
  intros Hrest. apply IH in Hrest as [Hd2 H2]; [|intros e' He'; apply Hds; by right|done].
  split; [done|]. by intros ?%H1%H2.
Qed.

(** An absent order is not found. *)
Lemma GetSalesOrder_pg_absent p r p' :
  Forall (Forall (harmless id [])) (arrivals p) → absent (tables p) →
  GetSalesOrder_pg (uuid_String id) p = (r, p') →
  ∃ msg, r = Err (Errorf msg ErrNotFound) ∨ ∃ m, r = Err (Errorf msg (ErrExternal m)).
Proof.
  intros Hd Ha Hrun. unfold GetSalesOrder_pg in Hrun. rewrite bind_wrapping in Hrun.
  destruct (autocommit _ p) as [r1 p1] eqn:E1.
  apply (autocommit_params_spec (harmless id []) stays_absent arrive_absent) in E1
    as (_ & Hb1 & Hr1); [|done]. apply Hb1 in Ha.
  destruct Hr1 as [(k & Hk & ->)|[m ->]]; [|injection Hrun as <- _; eauto].
  rewrite uuid_column_String in Hk. injection Hk as <-. unfold absent in Ha. rewrite Ha in Hrun.
  injection Hrun as <- _. eauto.
Qed.
End absent.

(** A stream with a creation is the creation's, settled or not, and so is the row
    it projects to. *)
Lemma shape_events id l row :
  order_shape id l → project_row l None = Some row →
  ∃ c a settles, SalesOrderId_Value (soc_SalesOrderId c) = id ∧ l = events c a settles ∧
    row = with_status (if settles then (status_of (settled_event c a)).1 else "pending")%string
            (if settles then (status_of (settled_event c a)).2 else "")%string (created_dto c).
Proof.
  intros [|c Hc _|c a Hc _]; [done|..]; intros [= <-].
  - exists c, (SettleAllocated uuid_Nil), false. done.
  - exists c, a, true. split; [done|]. split; [done|]. unfold settled_event.
    by destruct a.
Qed.

(** Deliveries, then a query. *)
Lemma delivered_query c a settles ds p p1 r p2 :
  Forall (Forall (benign c a settles)) (arrivals p) → sd_orders (tables p) !! key c = None →
  (∀ e, e ∈ ds → event_key e = key c → e ∈ events c a settles) →
  (∀ e, e ∈ events c a settles → e ∈ ds) →
  for_each ds project p = (Ok tt, p1) → GetSalesOrder_pg (key c) p1 = (r, p2) →
  ∃ shown, durable_row (with_status
      (if settles then (status_of (settled_event c a)).1 else "pending")%string
      (if settles then (status_of (settled_event c a)).2 else "")%string (created_dto c)) = inr shown ∧
    (r = Ok shown ∨ ∃ msg m, r = Err (Errorf msg (ErrExternal m))).
Proof.
  intros Hb Hnew Hsound Hcomplete Hrun Hget.
  apply (deliver_pg c a settles ds p _ _ false false Hb) in Hrun
    as (Hb1 & b & s & Hs & _ & _ & Hn & Hc & Hx & _); [|done|by apply shows_nothing].
  rewrite (Hc eq_refl) in Hs by (apply Hcomplete; left).
  eapply (GetSalesOrder_pg_spec c a settles) in Hget as (order & items & Hp & Hr); [|done..|].
  - eexists. split; [|exact Hr]. unfold durable_row.
    change (whole_params (with_status _ _ _)) with (whole_params (created_dto c)).
    rewrite Hp. simpl. by rewrite (created_key c order items Hp).
  - destruct settles; [|destruct s; naive_solver]. apply Hx; [done|].
    apply Hcomplete. right. left.
Qed.

Lemma harmless_benign id l c a settles xss :
  SalesOrderId_Value (soc_SalesOrderId c) = id → l = events c a settles →
  Forall (Forall (harmless id l)) xss → Forall (Forall (benign c a settles)) xss.
Proof.
  intros <- -> Ha. eapply Forall_impl; [exact Ha|]. intros xs Hxs.
  eapply Forall_impl; [exact Hxs|]. by intros [].
Qed.

(** C16 The durable read model converges to what the in-memory one shows: deliver
    the events of an order's stream in any order and number, while replicas and
    redeliveries project the same events between the statements of each
    transaction; once each event has been delivered with success, a query that
    the database answers gives the row that the stream projects to, with the
    items in the order of their beers and the values as the columns hold them. *)
Theorem durable_projection_converges id l row ds p p1 r p2 :
  order_shape id l → project_row l None = Some row →
  Forall (Forall (harmless id l)) (arrivals p) →
  sd_orders (tables p) !! uuid_String id = None →
  (∀ e, e ∈ ds → event_key e = uuid_String id → e ∈ l) → (∀ e, e ∈ l → e ∈ ds) →
  for_each ds project p = (Ok tt, p1) →
  GetSalesOrder_pg (uuid_String id) p1 = (r, p2) →
  ∃ shown, durable_row row = inr shown ∧
    (r = Ok shown ∨ ∃ msg m, r = Err (Errorf msg (ErrExternal m))).
Proof.
  intros Hl Hrow Ha Hnew Hsound Hcomplete Hrun Hget.
  destruct (shape_events _ _ _ Hl Hrow) as (c & a & settles & Hid & Hev & ->).
  apply (harmless_benign _ _ c a settles _ Hid Hev) in Ha. subst id l.
  by eapply (delivered_query c a settles).
Qed.

(** The items' keys are the beers of the rows. *)
Lemma items_beers (rows : list SalesOrderRowDto) items :
  items_params (map projected_row rows) = inr items →
  items.*1 = (uuid_String ∘ λ row, BeerId_Value (dto_BeerId row)) <$> rows.
Proof.
  revert items. induction rows as [|row rows IH]; intros items; simpl; [by intros [= <-]|].
  intros (item & Hit & (rest & Hr & [= <-])%column_bind_inr)%column_bind_inr. simpl.
  f_equal; [|by apply IH].
  unfold item_params in Hit. simpl in Hit. rewrite uuid_column_String in Hit. simpl in Hit.
  repeat apply column_bind_inr in Hit as (? & _ & Hit). by injection Hit as <-.
Qed.

(** A creation with two rows of one beer is refused. *)
Lemma duplicate_beer_refused c p r p' :
  ¬ NoDup ((λ row, BeerId_Value (dto_BeerId row)) <$> soc_Rows c) →
  project (EvSalesOrderCreated c) p = (r, p') →
  (∃ err, r = Err err) ∧ (arrivals p = [] → tables p' = tables p).
Proof.
  intros Hdup Hrun.
  assert (∀ x, whole_params (created_dto c) ≠ inr x) as Hno.
  { intros [order items] (_ & Hi & Hnd)%whole_params_inv. apply Hdup.
    rewrite (items_beers _ _ Hi), list_fmap_compose in Hnd. exact (NoDup_fmap_1 _ _ Hnd). }
  split.
  - assert (PreOrder (λ _ _ : SalesTables, True)) by done.
    apply (CreateSalesOrder_pg_spec (λ _, True) (λ _ _, True) (λ _ _ _ _, I)) in Hrun as [_ Hr].
    + destruct r as [[]|e|m]; [|by exists e|done].
      destruct Hr as (order & items & now & t & Hp & _). by destruct (Hno _ Hp).
    + apply Forall_forall. intros xs _. by apply Forall_forall.
  - intros Ha. apply (CreateSalesOrder_pg_spec (λ _, False) eq) in Hrun as [_ Hr].
    + destruct r as [[]|e|m]; [|done..].
      destruct Hr as (order & items & now & t & Hp & _). by destruct (Hno _ Hp).
    + done.
    + rewrite Ha. constructor.
Qed.
End convergence.

(** ** The listing *)
Section listing.
Context {U : UuidLib} {C : PgColumns} {X : Type} `{!Tables SalesTables X}.
Implicit Types (t : SalesTables) (page : Page).

(** The keys are texts of identifiers, as every statement stores them. *)
Definition keys_wf t : Prop := ∀ k row, sd_orders t !! k = Some row → uuid_column k = inr k.

Lemma with_rows_quiet t (orders : list (string * OrderRow)) :
  Forall (λ x, uuid_column x.1 = inr x.1) orders →
  with_rows orders (mkPool (X := X) t [] [])
  = (Ok ((λ x, scan_order x.1 x.2 (select_items x.1 t)) <$> orders), mkPool t [] []).
Proof.
  induction 1 as [|[k row] orders Hk _ IH]; [done|]. simpl in *.
  erewrite bind_Ok by (unfold rowsOf_pg; rewrite Hk; reflexivity).
  by erewrite bind_Ok by exact IH.
Qed.

(** A page of the listing, when nothing else goes on. *)
Lemma GetSalesOrders_pg_quiet t limit offset :
  keys_wf t →
  GetSalesOrders_pg (NewPage limit offset) (mkPool (X := X) t [] [])
  = (Ok ((λ x, scan_order x.1 x.2 (select_items x.1 t))
           <$> select_orders (NewPage limit offset) t), mkPool t [] []).
Proof.
  intros Hk. unfold GetSalesOrders_pg, page_params.
  pose proof (NewPage_bounds limit offset).
  rewrite (proj2 (Z.ltb_ge (Limit _) 0)) by lia. rewrite (proj2 (Z.ltb_ge (Offset _) 0)) by lia.
  unfold mbind at 1, GoM_bind. simpl. apply with_rows_quiet.
  unfold select_orders. apply Forall_take, Forall_drop, Forall_forall. intros [k row] Hx.
  unfold listed in Hx. rewrite merge_sort_Permutation in Hx.
  apply elem_of_map_to_list in Hx. by eapply Hk.
Qed.

(** Requested one after the other while nothing is written, the pages of a size
    show every order once, whatever the ties of the projection time. *)
Theorem durable_pages_cover t n k :
  keys_wf t → 1 ≤ n ≤ MaxPageLimit → (size (sd_orders t) ≤ k * Z.to_nat n)%nat →
  mjoin ((λ i, default [] (match (GetSalesOrders_pg (page_at n i) (mkPool (X := X) t [] [])).1 with
                           | Ok l => Some l | _ => None end)) <$> seq 0 k)
  ≡ₚ (λ x, scan_order x.1 x.2 (select_items x.1 t)) <$> map_to_list (sd_orders t).
Proof.
  intros Hk Hn Hsize.
  assert (∀ i, default [] (match (GetSalesOrders_pg (page_at n i) (mkPool (X := X) t [] [])).1 with
                           | Ok l => Some l | _ => None end)
    = default [] (match page_window (page_at n i)
        ((λ x, scan_order x.1 x.2 (select_items x.1 t)) <$> listed t) with
        | Ok l => Some l | _ => None end)) as Hpage.
  { intros i. unfold page_at. rewrite GetSalesOrders_pg_quiet, page_window_spec by done. simpl.
    unfold select_orders. by rewrite fmap_take, fmap_drop. }
  rewrite (list_fmap_ext _ _ _ (λ _ i _, Hpage i)), pages_concat by done.
  rewrite take_ge.
  - unfold listed. by rewrite merge_sort_Permutation.
  - rewrite length_fmap. unfold listed. rewrite merge_sort_Permutation, length_map_to_list. done.
Qed.
End listing.
