(* ===== verification/PostgresAvailability.v ===== *)
(** * The durable Warehouses read model
    ([internal/warehouses/readmodel/services/postgres_availability_service.go])

    The table [availabilities] and the queries over it. One statement writes one
    row, so the adapter keeps the laws of the interface as soon as the columns can
    hold the rows; the listing is ordered by name only. *)
From S2P Require Import Prelude Errors Kernel WarehouseKernel Availability WarehouseHandlers.
From S2P Require Import WarehouseReadModel Sql Columns.
From stdpp Require Import sorting.
#[local] Open Scope Z_scope.

(** A row but for its key. *)
Record AvailabilityRow := mkAvailabilityRow {
  av_beer_name : string; av_quantity : Z; av_unit : string; av_projected_at : Time }.

Record StockTables := mkStockTables {
  st_rows : gmap string AvailabilityRow; st_now : Time }.

(** [INSERT INTO availabilities ... ON CONFLICT (beer_id) DO UPDATE]. *)
Definition upsert_availability (row : string * (string * Z * string)) (t : StockTables)
    : StockTables :=
  let '(k, (name, quantity, unit_)) := row in
  mkStockTables (<[k := mkAvailabilityRow name quantity unit_ (st_now t)]> (st_rows t)) (st_now t).

Definition scan_availability (x : string * AvailabilityRow) : AvailabilityDto :=
  mkAvailabilityDto x.1 (av_beer_name x.2) (NewQuantity (av_quantity x.2) (av_unit x.2)).

(** [ORDER BY beer_name]: rows of one name come in any order, which may differ from
    one query to the next. *)
Definition orders_by_name (choose : Page → StockTables → list AvailabilityDto) : Prop :=
  ∀ page t, choose page t ≡ₚ scan_availability <$> map_to_list (st_rows t) ∧
    StronglySorted InMemoryAvailability.by_name (choose page t).

Section adapter.
Context {U : UuidLib} {C : PgColumns} {X : Type} `{!Tables StockTables X}.
Abbreviation DB := (Pool StockTables X).

Definition availability_params (a : AvailabilityDto)
    : column (string * (string * Z * string)) :=
  k ← uuid_column (dto_BeerId a);
  name ← varchar 200 (dto_BeerName a);
  quantity ← integer (Value (dto_Quantity a));
  unit_ ← varchar 10 (UnitOfMeasure (dto_Quantity a));
  inr (k, (name, quantity, unit_)).

Definition UpsertAvailability_pg (availability : AvailabilityDto) : GoM DB unit :=
  wrapping ("project availability " +:+ dto_BeerId availability)%string
    (autocommit (exec_params (availability_params availability) no_check upsert_availability)).

Definition Reset_stock_pg : GoM DB unit :=
  wrapping "reset availability projections"
    (autocommit (exec_params (inr tt) no_check (λ _ t, mkStockTables ∅ (st_now t)))).

Definition GetAvailability_pg (beerId : string) : GoM DB AvailabilityDto :=
  found ← wrapping ("get availability " +:+ beerId)%string
            (autocommit (query_params (uuid_column beerId) (λ k t, (k, st_rows t !! k))));
  match found with
  | (k, Some row) => mret (scan_availability (k, row))
  | (_, None) => throw (Errorf ("availability " +:+ beerId)%string ErrNotFound)
  end.

(** [LIMIT $1 OFFSET $2] of the rows as [choose] orders them. *)
Definition GetAvailabilities_pg (choose : Page → StockTables → list AvailabilityDto) (page : Page)
    : GoM DB (list AvailabilityDto) :=
  query_rows "list availabilities"
    (if Limit page <? 0 then inl "2201W"%string
     else if Offset page <? 0 then inl "2201X"%string else inr page)
    (λ page t, take (Z.to_nat (Limit page)) (drop (Z.to_nat (Offset page)) (choose page t))).

#[global] Instance Postgres_AvailabilityReadModel : AvailabilityReadModel DB :=
  UpsertAvailability_pg.
End adapter.

(** ** Other sessions write other rows, or the same; the clock goes on *)
Inductive StockArrival :=
| AnotherUpsert (row : string * (string * Z * string))
| StockLater (now : Time).

#[global] Instance stock_arrivals : Tables StockTables StockArrival := λ _ x t,
  match x with
  | AnotherUpsert row => upsert_availability row t
  | StockLater now => mkStockTables (st_rows t) now
  end.

Section one_beer.
Context {U : UuidLib} {C : PgColumns}.
Abbreviation DB := (Pool StockTables StockArrival).
Implicit Types (p : DB) (t : StockTables) (d : AvailabilityDto).

(** A row as the columns hold it. *)
Definition durable_availability d : column AvailabilityDto :=
  '(k, (name, quantity, unit_)) ← availability_params d;
  inr (mkAvailabilityDto k name (NewQuantity quantity unit_)).

Context (b : UUID).
Abbreviation k := (uuid_String b).

(** Nobody else writes the beer's row. *)
Definition leaves (x : StockArrival) : Prop :=
  match x with AnotherUpsert row => row.1 ≠ k | StockLater _ => True end.
Definition same_row t t' : Prop := st_rows t' !! k = st_rows t !! k.

#[global] Instance same_row_preorder : PreOrder same_row.
Proof. unfold same_row. split; [done|]. intros t1 t2 t3 H12 H23. by rewrite H23. Qed.

Lemma leaves_same w x t : leaves x → same_row t (arrive w x t).
Proof.
  unfold arrive, stock_arrivals, same_row. destruct x as [[k' [[n q] u]]|now]; simpl; [|done].
  intros Hk. by rewrite lookup_insert_ne.
Qed.

(** The table shows what was last written of the beer. *)
Definition shows_last (o : option AvailabilityDto) t : Prop :=
  match o with
  | None => st_rows t !! k = None
  | Some d => ∃ row, st_rows t !! k = Some row ∧
      durable_availability d = inr (scan_availability (k, row))
  end.

Lemma shows_same o t t' : same_row t t' → shows_last o t → shows_last o t'.
Proof. unfold same_row, shows_last. intros ->. done. Qed.

Lemma availability_params_key d x : availability_params d = inr x → uuid_column (dto_BeerId d) = inr x.1.
Proof.
  unfold availability_params. intros (? & Hk & Hr)%column_bind_inr.
  repeat apply column_bind_inr in Hr as (? & ? & Hr). by injection Hr as <-.
Qed.

Lemma upsert_shows d o p r p' :
  Forall (Forall leaves) (arrivals p) → shows_last o (tables p) → (∃ b', dto_BeerId d = uuid_String b') →
  rm_UpsertAvailability d p = (r, p') →
  Forall (Forall leaves) (arrivals p') ∧
  match r with
  | Ok _ => shows_last (if decide (dto_BeerId d = k) then Some d else o) (tables p')
  | Err _ => shows_last o (tables p')
  | Panic _ => False
  end.
Proof.
  intros Hd Ho [b' Hb']. unfold rm_UpsertAvailability, Postgres_AvailabilityReadModel,
    UpsertAvailability_pg, wrapping.
  destruct (autocommit _ p) as [r1 p1] eqn:E1.
  apply (autocommit_exec_spec leaves same_row leaves_same) in E1 as [Hd1 Hr1]; [|done].
  destruct Hr1 as [(x & t & Hx & -> & Ht & _ & Hp1)|[[m ->] Hb]]; intros [= <- <-]; simpl;
    (split; [done|]); [|by eapply shows_same].
  pose proof (availability_params_key _ _ Hx) as Hk. rewrite Hb', uuid_column_String in Hk.
  injection Hk as Hk. rewrite Hp1. destruct x as [k' [[n q] u]]. simpl in Hk. subst k'.
  case_decide as Hd'.
  - rewrite Hb' in Hd'. unfold shows_last. simpl. rewrite Hd', lookup_insert_eq.
    eexists. split; [done|]. unfold durable_availability. rewrite Hx. simpl. by rewrite Hd'.
  - apply (shows_same _ t); [|by eapply shows_same]. unfold same_row. simpl.
    rewrite lookup_insert_ne; [done|]. by rewrite <- Hb'.
Qed.

(** Projecting a list of events. *)
Lemma dto_of_key e d : dto_of e = Some d → ∃ b', dto_BeerId d = uuid_String b'.
Proof. destruct e; simpl; intros [= <-]; simpl; eauto. Qed.

Lemma project_pg_shows ds o p p' :
  Forall (Forall leaves) (arrivals p) → shows_last o (tables p) →
  for_each ds project_availability p = (Ok tt, p') →
  Forall (Forall leaves) (arrivals p') ∧
  shows_last (match last (shown k ds) with Some d => Some d | None => o end) (tables p').
Proof.
  revert o p. induction ds as [|e ds IH]; intros o p Hd Ho; [by intros [= <-]|].
  intros ([] & p1 & H1 & H2)%bind_inv_Ok. rewrite project_dto in H1. rewrite shown_cons.
  destruct (dto_of e) as [d|] eqn:Ed; [|injection H1 as <-; by apply (IH o p)].
  destruct (upsert_shows d o p _ p1 Hd Ho (dto_of_key _ _ Ed) H1) as [Hd1 Hs1].
  apply (IH _ _ Hd1 Hs1) in H2 as [Hd2 Hs2]. split; [done|].
  destruct (decide (dto_BeerId d = k)) as [Hk|Hk]; [|done].
  rewrite last_cons. by destruct (last (shown k ds)).
Qed.

(** A query. *)
Lemma GetAvailability_pg_spec o p r p' :
  Forall (Forall leaves) (arrivals p) → shows_last o (tables p) →
  GetAvailability_pg k p = (r, p') →
  match o with
  | Some d => ∃ shown, durable_availability d = inr shown ∧
      (r = Ok shown ∨ ∃ msg m, r = Err (Errorf msg (ErrExternal m)))
  | None => ∃ msg, r = Err (Errorf msg ErrNotFound) ∨ ∃ m, r = Err (Errorf msg (ErrExternal m))
  end.
Proof.
  intros Hd Ho Hrun. unfold GetAvailability_pg in Hrun. rewrite bind_wrapping in Hrun.
  destruct (autocommit _ p) as [r1 p1] eqn:E1.
  apply (autocommit_params_spec leaves same_row leaves_same) in E1 as (Hd1 & Hb1 & Hr1); [|done].
  apply (shows_same _ _ _ Hb1) in Ho. rewrite uuid_column_String in Hr1.
  destruct Hr1 as [(k' & [= <-] & ->)|[m ->]].
  - destruct o as [d|]; simpl in Ho.
    + destruct Ho as (row & Hrow & Hdur). rewrite Hrow in Hrun. injection Hrun as <- _. eauto.
    + rewrite Ho in Hrun. injection Hrun as <- _. eauto.
  - injection Hrun as <- _. destruct o as [d|]; [|eauto].
    simpl in Ho. destruct Ho as (row & Hrow & Hdur). eauto 6.
Qed.

Lemma Reset_stock_pg_shows p p' :
  Forall (Forall leaves) (arrivals p) → Reset_stock_pg p = (Ok tt, p') →
  Forall (Forall leaves) (arrivals p') ∧ shows_last None (tables p').
Proof.
  intros Hd. unfold Reset_stock_pg, wrapping. destruct (autocommit _ p) as [r1 p1] eqn:E1.
  apply (autocommit_exec_spec leaves same_row leaves_same) in E1 as [Hd1 Hr1]; [|done].
  destruct Hr1 as [(x & t & _ & -> & _ & _ & Hp1)|[[m ->] _]]; intros [= <-].
  split; [done|]. by rewrite Hp1.
Qed.
End one_beer.
