(* ===== verification/Strconv.v ===== *)
(** * Reading numbers: [strconv.Atoi] and [time.ParseDuration]

    The two readers of Go's standard library that turn environment variables and
    query parameters into numbers, with the values they return beside an error,
    for callers that ignore it. *)
From S2P Require Import Prelude Errors Kernel.
From Stdlib Require Import SpecFloat.
#[local] Open Scope Z_scope.

(** A decimal digit. *)
Definition digit (c : ascii) : option Z :=
  let n := Z.of_N (N_of_ascii c) in
  if bool_decide (48 ≤ n ≤ 57) then Some (n - 48) else None.

(** An optional sign: whether it is [-], and the rest. *)
Definition cut_sign (s : string) : bool * string :=
  match s with
  | String "-" s => (true, s)
  | String "+" s => (false, s)
  | _ => (false, s)
  end.

(** ** [strconv.Atoi] *)

(** [ParseUint] in base 10: the value, [inl true] for one that is out of range and
    [inl false] for a character that is no digit, whichever comes first. *)
Fixpoint parse_uint (n : Z) (s : string) : bool + Z :=
  match s with
  | EmptyString => inr n
  | String c s =>
      match digit c with
      | None => inl false
      | Some d => if 2 ^ 64 <=? 10 * n + d then inl true else parse_uint (10 * n + d) s
      end
  end.

(** The value, and whether [err == nil]: 0 beside a syntax error, the nearest
    [int] beside a range error. *)
Definition Atoi (s : string) : Z * bool :=
  let '(neg, digits) := cut_sign s in
  match digits with
  | EmptyString => (0, false)
  | _ =>
      match parse_uint 0 digits with
      | inl false => (0, false)
      | inl true => (if neg then - 2 ^ 63 else 2 ^ 63 - 1, false)
      | inr n =>
          if negb neg && (2 ^ 63 <=? n) then (2 ^ 63 - 1, false)
          else if neg && (2 ^ 63 <? n) then (- 2 ^ 63, false)
          else (if neg then - n else n, true)
      end
  end.

(** Whatever the text, an [int] comes out. *)
Lemma parse_uint_nonneg s : ∀ n k, 0 ≤ n → parse_uint n s = inr k → 0 ≤ k.
Proof.
  induction s as [|c s IH]; intros n k Hn; simpl; [by intros [= <-]|].
  unfold digit. case_bool_decide as Hd; [|done]. case_match; [done|]. apply IH. lia.
Qed.

Lemma Atoi_in_range s : Int.in_range (Atoi s).1.
Proof.
  unfold Atoi, Int.in_range. destruct (cut_sign s) as [neg [|c digits]]; [simpl; lia|].
  destruct (parse_uint 0 _) as [[]|n] eqn:E; [destruct neg; simpl; lia|simpl; lia|].
  apply parse_uint_nonneg in E; [|done].
  destruct neg; simpl; repeat case_match; simpl; lia.
Qed.

(** ** [time.ParseDuration] *)

Definition float_of_Z (z : Z) : float64 := binary_normalize 53 1024 z 0 false.

(** The conversion [uint64(x)] of a float that is not negative: it truncates. *)
Definition truncate (x : float64) : Z :=
  match x with
  | S754_finite _ m e => Z.shiftl (Zpos m) e
  | _ => 0
  end.

(** [leadingInt]: [None] on overflow. *)
Fixpoint leadingInt (x : Z) (s : string) : option (Z * string) :=
  match s with
  | EmptyString => Some (x, s)
  | String c s' =>
      match digit c with
      | None => Some (x, s)
      | Some d =>
          if 2 ^ 63 / 10 <? x then None
          else if 2 ^ 63 <? 10 * x + d then None
          else leadingInt (10 * x + d) s'
      end
  end.

(** [leadingFraction]: the digits that fit, and their scale. *)
Fixpoint leadingFraction (x : Z) (scale : float64) (overflow : bool) (s : string)
    : Z * float64 * string :=
  match s with
  | EmptyString => (x, scale, s)
  | String c s' =>
      match digit c with
      | None => (x, scale, s)
      | Some d =>
          if overflow then leadingFraction x scale true s'
          else if (2 ^ 63 - 1) / 10 <? x then leadingFraction x scale true s'
          else if 2 ^ 63 <? 10 * x + d then leadingFraction x scale true s'
          else leadingFraction (10 * x + d) (SFmul 53 1024 scale (float_of_Z 10)) false s'
      end
  end.

(** The unit: up to the next [.] or digit. *)
Fixpoint cut_unit (s : string) : string * string :=
  match s with
  | EmptyString => (""%string, s)
  | String c s' =>
      if bool_decide (c = "."%char) then (""%string, s) else
      match digit c with
      | Some _ => (""%string, s)
      | None => let '(u, rest) := cut_unit s' in (String c u, rest)
      end
  end.

(** Both spellings of the micro sign, in UTF-8. *)
Definition micro_sign : string := String (ascii_of_N 194) (String (ascii_of_N 181) "s").
Definition greek_mu : string := String (ascii_of_N 206) (String (ascii_of_N 188) "s").

Definition unitMap (u : string) : option Z :=
  if decide (u = "ns")%string then Some 1
  else if decide (u = "us" ∨ u = micro_sign ∨ u = greek_mu)%string then Some 1000
  else if decide (u = "ms")%string then Some Millisecond
  else if decide (u = "s")%string then Some Second
  else if decide (u = "m")%string then Some (60 * Second)
  else if decide (u = "h")%string then Some (3600 * Second)
  else None.

(** One round of the loop: a number and its unit; [None] for any of the errors. *)
Definition parse_term (s : string) : option (Z * string) :=
  '(v, s1) ← leadingInt 0 s;
  let pre := negb (bool_decide (s1 = s)) in
  let '(f, scale, s2, post) :=
    match s1 with
    | String "." s' =>
        let '(f, scale, s2) := leadingFraction 0 (float_of_Z 1) false s' in
        (f, scale, s2, negb (bool_decide (s2 = s')))
    | _ => (0, float_of_Z 1, s1, false)
    end in
  if negb (pre || post) then None else
  let '(u, rest) := cut_unit s2 in
  if bool_decide (u = ""%string) then None else
  unit_ ← unitMap u;
  if 2 ^ 63 / unit_ <? v then None else
  let v := v * unit_ in
  if 0 <? f then
    let v := v + truncate (SFmul 53 1024 (float_of_Z f) (SFdiv 53 1024 (float_of_Z unit_) scale)) in
    if 2 ^ 63 <? v then None else Some (v, rest)
  else Some (v, rest).

Fixpoint parse_terms (fuel : nat) (d : Z) (s : string) : option Z :=
  match s with
  | EmptyString => Some d
  | _ =>
      match fuel with
      | O => None
      | S fuel =>
          '(v, s) ← parse_term s;
          let d := (d + v) mod 2 ^ 64 in
          if 2 ^ 63 <? d then None else parse_terms fuel d s
      end
  end.

(** A [Duration] in nanoseconds, [None] for an error. Each round takes a
    character at least, so the length of the text is fuel enough. *)
Definition ParseDuration (s : string) : option Z :=
  let '(neg, s) := cut_sign s in
  if bool_decide (s = "0"%string) then Some 0
  else if bool_decide (s = ""%string) then None
  else
    d ← parse_terms (String.length s) 0 s;
    if neg then Some (- d) else if 2 ^ 63 - 1 <? d then None else Some d.

Lemma leadingInt_shorter s : ∀ x v rest,
  leadingInt x s = Some (v, rest) → (String.length rest ≤ String.length s)%nat.
Proof.
  induction s as [|c s IH]; intros x v rest; simpl; [by intros [= _ <-]|].
  destruct (digit c); [|by intros [= _ <-]].
  repeat case_match; try done. intros ?%IH. lia.
Qed.

Lemma leadingFraction_shorter s : ∀ x scale o f scale' rest,
  leadingFraction x scale o s = (f, scale', rest) → (String.length rest ≤ String.length s)%nat.
Proof.
  induction s as [|c s IH]; intros x scale o f scale' rest; simpl; [by intros [= _ _ <-]|].
  destruct (digit c); [|by intros [= _ _ <-]].
  repeat case_match; intros ?%IH; lia.
Qed.

Lemma cut_unit_shorter s : ∀ u rest,
  cut_unit s = (u, rest) → u ≠ ""%string → (String.length rest < String.length s)%nat.
Proof.
  induction s as [|c s IH]; intros u rest; simpl; [by intros [= <- _]|].
  case_bool_decide; [by intros [= <- _]|]. destruct (digit c); [by intros [= <- _]|].
  destruct (cut_unit s) as [u' rest'] eqn:E. intros [= _ <-] _.
  destruct (decide (u' = ""%string)) as [->|Hu].
  - destruct s as [|c' s]; simpl in *; [injection E as <-; simpl; lia|].
    case_bool_decide; [injection E as <-; simpl; lia|].
    destruct (digit c'); [injection E as <-; simpl; lia|].
    by destruct (cut_unit s).
  - specialize (IH _ _ eq_refl Hu). lia.
Qed.

Lemma parse_term_shorter s v rest :
  parse_term s = Some (v, rest) → (String.length rest < String.length s)%nat.
Proof.
  unfold parse_term. intros ([v1 s1] & H1%leadingInt_shorter & H)%bind_Some.
  assert (∃ f scale s2 post,
    match s1 with
    | String "." s' =>
        let '(f, scale, s2) := leadingFraction 0 (float_of_Z 1) false s' in
        (f, scale, s2, negb (bool_decide (s2 = s')))
    | _ => (0, float_of_Z 1, s1, false)
    end = (f, scale, s2, post) ∧ (String.length s2 ≤ String.length s1)%nat)
    as (f & scale & s2 & post & E & H2).
  { destruct s1 as [|c s1]; [by eauto 10|].
    destruct (decide (c = "."%char)) as [->|Hc].
    - destruct (leadingFraction 0 (float_of_Z 1) false s1) as [[f scale] s2] eqn:E.
      apply leadingFraction_shorter in E. do 4 eexists. split; [done|]. simpl. lia.
    - exists 0, (float_of_Z 1), (String c s1), false. split; [|done].
      destruct c as [[] [] [] [] [] [] [] []]; done. }
  rewrite E in H. clear E. destruct (negb _); [done|].
  destruct (cut_unit s2) as [u rest'] eqn:Hu. case_bool_decide as Hne; [done|].
  apply cut_unit_shorter in Hu; [|done].
  apply bind_Some in H as (unit_ & _ & H). repeat case_match; simplify_eq; lia.
Qed.

(** Fuel for every character is enough: more changes nothing. *)
Lemma parse_terms_fuel n m d s :
  (String.length s ≤ n)%nat → (String.length s ≤ m)%nat → parse_terms n d s = parse_terms m d s.
Proof.
  revert m d s. induction n as [|n IH]; intros m d s Hn Hm; destruct s as [|c s];
    simpl in Hn, Hm; try lia; [by destruct m|by destruct m|].
  destruct m as [|m]; [lia|]. cbn [parse_terms].
  destruct (parse_term (String c s)) as [[v rest]|] eqn:E; [|done]. simpl.
  apply parse_term_shorter in E. simpl in E. case_match; [done|]. apply IH; lia.
Qed.

Example five_minutes : ParseDuration "5m" = Some (300 * Second).
Proof. by vm_compute. Qed.
Example quarter : ParseDuration "250ms" = Some (250 * Millisecond).
Proof. by vm_compute. Qed.
Example mixed : ParseDuration "-1h2.5s" = Some (- (3602 * Second + 500 * Millisecond)).
Proof. by vm_compute. Qed.
Example half : ParseDuration ".5h" = Some (1800 * Second).
Proof. by vm_compute. Qed.
Example no_unit : ParseDuration "5" = None ∧ ParseDuration "." = None ∧ ParseDuration "1x" = None.
Proof. by vm_compute. Qed.
Example too_long : ParseDuration "9223372036854775808ns" = None.
Proof. by vm_compute. Qed.
Example atoi_overflow :
  Atoi "99999999999999999999x" = (2 ^ 63 - 1, false) ∧ Atoi "-7" = (-7, true) ∧
  Atoi "7x" = (0, false).
Proof. by vm_compute. Qed.
