(* ===== verification/Config.v ===== *)
(** * Configuration ([internal/platform/config/config.go])

    The environment is a finite map; every setting falls back to its default when
    its variable is missing, empty or malformed. *)
From S2P Require Import Prelude Errors Kernel Strconv.
#[local] Open Scope Z_scope.

(** [strings.ToLower] on the letters of ASCII, the only ones environment names
    have. *)
Definition lower (c : ascii) : ascii :=
  let n := N_of_ascii c in
  if ((65 <=? n) && (n <=? 90))%N then ascii_of_N (n + 32) else c.
Fixpoint ToLower (s : string) : string :=
  match s with EmptyString => ""%string | String c s => String (lower c) (ToLower s) end.

(** [strings.Split(s, ",")]. *)
Fixpoint Split (sep : ascii) (s : string) : list string :=
  match s with
  | EmptyString => [""%string]
  | String c s =>
      if bool_decide (c = sep) then ""%string :: Split sep s
      else match Split sep s with
           | field :: fields => String c field :: fields
           | [] => [String c ""]
           end
  end.

Definition Minute : Z := 60 * Second.

Section config.
(** [strconv.ParseFloat(_, 64)]: the rounding of decimals is not modelled. *)
Context (ParseFloat64 : string → option float64).

(** The process's environment. *)
Definition Environ := gmap string string.
Implicit Types (env : Environ).

(** [os.LookupEnv] and [value != ""]. *)
Definition lookup_set (key : string) env : option string :=
  value ← env !! key; if bool_decide (value = ""%string) then None else Some value.

Definition getEnv (key fallback : string) env : string := default fallback (lookup_set key env).

Definition getInt (key : string) (fallback : Z) env : Z :=
  match lookup_set key env with
  | None => fallback
  | Some value => let '(parsed, ok) := Atoi value in if ok then parsed else fallback
  end.

Definition getFloat (key : string) (fallback : float64) env : float64 :=
  match lookup_set key env with
  | None => fallback
  | Some value => default fallback (ParseFloat64 value)
  end.

Definition getDuration (key : string) (fallback : Z) env : Z :=
  match lookup_set key env with
  | None => fallback
  | Some value => default fallback (ParseDuration value)
  end.

Definition getList (key : string) env : list string :=
  match lookup_set key env with
  | None => []
  | Some value =>
      filter (λ entry, entry ≠ ""%string) (GoStrings.TrimSpace <$> Split "," value)
  end.

Definition appEnv env : string :=
  let value := ToLower (GoStrings.TrimSpace (default "" (env !! "APP_ENV")))%string in
  if bool_decide (value = ""%string) then "local"%string else value.

Record Config := mkConfig {
  AppEnv : string;
  HTTPAddr : string;
  LogLevel : string;
  GinMode : string;
  DBURL : string;
  BrokerURL : string;
  SagaStepTimeout : Z;
  AuthIssuer : string;
  AuthJWKSURL : string;
  AuthClientID : string;
  OTELEndpoint : string;
  ServiceName : string;
  RateLimitRPS : float64;
  RateLimitBurst : Z;
  MaxBodyBytes : Z;
  TrustedProxies : list string;
  OutboxInterval : Z;
}.

Definition Load env : Config :=
  let issuer := getEnv "AUTH_ISSUER" "" env in
  let jwks := getEnv "AUTH_JWKS_URL" "" env in
  {|
    AppEnv := appEnv env;
    HTTPAddr := getEnv "HTTP_ADDR" ":8080" env;
    LogLevel := getEnv "LOG_LEVEL" "info" env;
    GinMode := getEnv "GIN_MODE" "release" env;
    DBURL := getEnv "DB_URL" "" env;
    BrokerURL := getEnv "BROKER_URL" "" env;
    SagaStepTimeout := getDuration "SAGA_STEP_TIMEOUT" (5 * Minute) env;
    AuthIssuer := issuer;
    AuthJWKSURL :=
      if bool_decide (jwks = "" ∧ issuer ≠ "")%string
      then (issuer +:+ "/protocol/openid-connect/certs")%string else jwks;
    AuthClientID := getEnv "AUTH_CLIENT_ID" "brewup-api" env;
    OTELEndpoint := getEnv "OTEL_EXPORTER_OTLP_ENDPOINT" "" env;
    ServiceName := getEnv "OTEL_SERVICE_NAME" "cj-beer-company" env;
    RateLimitRPS := getFloat "RATE_LIMIT_RPS" (float_of_Z 50) env;
    RateLimitBurst := getInt "RATE_LIMIT_BURST" 100 env;
    MaxBodyBytes := getInt "MAX_BODY_BYTES" (Int.shl 1 20) env;
    TrustedProxies := getList "TRUSTED_PROXIES" env;
    OutboxInterval := getDuration "OUTBOX_INTERVAL" (250 * Millisecond) env;
  |}.
End config.

Definition KnownEnvironments : list string := ["local"; "dev"; "staging"; "prod"].

Definition EnvironmentRecognized (c : Config) : bool :=
  existsb (λ env, bool_decide (AppEnv c = env)) KnownEnvironments.

(** ** What a configuration can be *)
Section facts.
Context (ParseFloat64 : string → option float64).
Implicit Types (env : Environ).

Lemma getInt_range key fallback env :
  Int.in_range fallback → Int.in_range (getInt key fallback env).
Proof.
  intros Hf. unfold getInt. destruct (lookup_set key env) as [v|]; [|done].
  pose proof (Atoi_in_range v). by destruct (Atoi v) as [n []].
Qed.

(** The process is in durable mode, uses a broker, or authenticates, exactly when
    the variable that says so holds a text. *)
Lemma getEnv_switch key env : getEnv key "" env ≠ ""%string ↔ is_Some (lookup_set key env).
Proof.
  unfold getEnv, lookup_set. split.
  - destruct (env !! key) as [v|]; simpl; [|done]. case_bool_decide; [done|]. by eexists.
  - intros [v Hv]. rewrite Hv. simpl. apply bind_Some in Hv as (v' & _ & Hv').
    case_bool_decide; by simplify_eq.
Qed.

Lemma getList_entries key env entry :
  entry ∈ getList key env → entry ≠ ""%string ∧ ∃ field, entry = GoStrings.TrimSpace field.
Proof.
  unfold getList. destruct (lookup_set key env); [|by intros ?%elem_of_nil].
  intros [Hne (field & -> & _)%list_elem_of_fmap]%list_elem_of_filter. eauto.
Qed.
End facts.
