(* ===== verification/RebuildCommand.v ===== *)
(** * The rebuild command
    ([cmd/rebuild/main.go], [internal/platform/database])

    Wipe both durable read models and replay both event stores into them. The
    event stores are any that keep the laws of the interface. *)
From S2P Require Import Prelude Errors Kernel Aggregate EventStore Rebuild.
From S2P Require Import SalesKernel SalesOrder SalesHandlers SalesReadModel.
From S2P Require Import WarehouseKernel Availability WarehouseHandlers WarehouseReadModel.
From S2P Require Import Sql Columns PostgresSales PostgresAvailability Strconv Config.
#[local] Open Scope Z_scope.

Section command.
Context {U : UuidLib} {C : PgColumns}.
(** The event stores of the two modules. *)
Context {SSt WSt : Type}.
Context `{!EventStore SalesEvent SSt, !StreamLister SSt}.
Context `{!EventStore WarehouseEvent WSt, !StreamLister WSt}.
Context (ParseFloat64 : string → option float64).

(** [sql.Open] and [PingContext]: their errors, if any. *)
Context (sql_Open sql_Ping : string → option error).

(** [database.Open]. *)
Definition database_Open (dbURL : string) : result unit :=
  match sql_Open dbURL with
  | Some err => Err (Errorf "open database" err)
  | None =>
      match sql_Ping dbURL with
      | Some err => Err (Errorf "ping database" err)
      | None => Ok tt
      end
  end.

(** The parts of the database the command works on; its statements are run one
    after the other, so each part has its own share of faults and arrivals. *)
Record RebuildWorld := mkRebuildWorld {
  rb_sales : SSt;
  rb_orders : Pool SalesTables SalesArrival;
  rb_warehouses : WSt;
  rb_stock : Pool StockTables StockArrival;
}.

Definition in_orders {A} : GoM (Pool SalesTables SalesArrival) A → GoM RebuildWorld A :=
  zoom rb_orders (λ p w, mkRebuildWorld (rb_sales w) p (rb_warehouses w) (rb_stock w)).
Definition in_stock {A} : GoM (Pool StockTables StockArrival) A → GoM RebuildWorld A :=
  zoom rb_stock (λ p w, mkRebuildWorld (rb_sales w) (rb_orders w) (rb_warehouses w) p).
Definition in_sales {A} : GoM (SSt * Pool SalesTables SalesArrival) A → GoM RebuildWorld A :=
  zoom (λ w, (rb_sales w, rb_orders w))
    (λ x w, mkRebuildWorld x.1 x.2 (rb_warehouses w) (rb_stock w)).
Definition in_warehouses {A} : GoM (WSt * Pool StockTables StockArrival) A → GoM RebuildWorld A :=
  zoom (λ w, (rb_warehouses w, rb_stock w))
    (λ x w, mkRebuildWorld (rb_sales w) (rb_orders w) x.1 x.2).

(** [run]. *)
Definition rebuild_run (env : Environ) : GoM RebuildWorld unit :=
  let cfg := Load ParseFloat64 env in
  if bool_decide (DBURL cfg = ""%string) then
    throw (ErrExternal "DB_URL must be set: there is nothing to rebuild in memory")
  else
    _ ← lift (database_Open (DBURL cfg));
    _ ← in_orders Reset_pg;
    _ ← in_sales RebuildReadModel;
    _ ← in_stock Reset_stock_pg;
    in_warehouses RebuildAvailability.

(** *** What it leaves *)
Context (sview : SSt → string → list (StoredEvent SalesEvent)) `{!EventStoreLaws sview}.
Context `{!StreamListerLaws StreamLister0 sview}.
Context (wview : WSt → string → list (StoredEvent WarehouseEvent)) `{!EventStoreLaws wview}.
Context `{!StreamListerLaws StreamLister1 wview}.

(** A run that succeeds did its four parts, each on the state before it. *)
Lemma rebuild_parts env w w' :
  rebuild_run env w = (Ok tt, w') →
  ∃ p q s' t', Reset_pg (rb_orders w) = (Ok tt, p) ∧
    RebuildReadModel (rb_sales w, p) = (Ok tt, (s', rb_orders w')) ∧
    Reset_stock_pg (rb_stock w) = (Ok tt, q) ∧
    RebuildAvailability (rb_warehouses w, q) = (Ok tt, (t', rb_stock w')).
Proof.
  unfold rebuild_run. case_bool_decide as Hurl; [done|].
  intros ([] & w0 & H0 & H)%bind_inv_Ok. unfold lift in H0. injection H0 as _ <-.
  apply bind_inv_Ok in H as ([] & w1 & H1 & H).
  apply bind_inv_Ok in H as ([] & w2 & H2 & H).
  apply bind_inv_Ok in H as ([] & w3 & H3 & H4).
  unfold in_orders, in_sales, in_stock, in_warehouses, zoom in *.
  destruct (Reset_pg (rb_orders w)) as [r1 p1]. injection H1 as -> <-. simpl in H2.
  destruct (RebuildReadModel _) as [r2 [s2 p2]] eqn:E2. injection H2 as -> <-. simpl in H3.
  destruct (Reset_stock_pg (rb_stock w)) as [r3 q3]. injection H3 as -> <-. simpl in H4.
  destruct (RebuildAvailability _) as [r4 [t4 q4]] eqn:E4. injection H4 as -> <-. simpl.
  exists p1, q3, s2, t4. done.
Qed.

Lemma Reset_pg_empty (A : SalesArrival → Prop) (Φ : SalesTables → SalesTables → Prop)
    `{!PreOrder Φ} p p' :
  (∀ w x t, A x → Φ t (arrive w x t)) →
  Forall (Forall A) (arrivals p) → Reset_pg p = (Ok tt, p') →
  Forall (Forall A) (arrivals p') ∧ sd_orders (tables p') = ∅.
Proof.
  intros Harr Hd. unfold Reset_pg, wrapping. destruct (autocommit _ p) as [r1 p1] eqn:E1.
  apply (autocommit_exec_spec A Φ Harr) in E1 as [Hd1 Hr1]; [|done].
  destruct Hr1 as [(x & t & _ & -> & _ & _ & Hp1)|[[m ->] _]]; intros [= <-].
  split; [done|]. by rewrite Hp1.
Qed.

(** What a rebuilt order reads as. *)
Lemma rebuilt_order s p p0 s' p' id r p'' :
  sales_store sview s → Reset_pg p = (Ok tt, p0) → RebuildReadModel (s, p0) = (Ok tt, (s', p')) →
  Forall (Forall (harmless id (order_events sview s id))) (arrivals p) →
  GetSalesOrder_pg (uuid_String id) p' = (r, p'') →
  match project_row (order_events sview s id) None with
  | Some row => ∃ shown, durable_row row = inr shown ∧
      (r = Ok shown ∨ ∃ msg m, r = Err (Errorf msg (ErrExternal m)))
  | None => ∃ msg, r = Err (Errorf msg ErrNotFound) ∨ ∃ m, r = Err (Errorf msg (ErrExternal m))
  end.
Proof.
  intros Hs H1 H2 Ha Hget. pose proof (proj1 Hs id) as Hl.
  destruct (rebuild_deliveries sview _ _ _ _ Hs H2) as (ds & Hds & Hsound & Hcomplete).
  assert (∀ e, e ∈ ds → event_key e = uuid_String id → e ∈ order_events sview s id) as Hin.
  { intros e He Hk. destruct (Hsound e He) as [id' Hid'].
    rewrite (shape_key id' _ e (proj1 Hs id') Hid') in Hk. by apply (inj uuid_String) in Hk as ->. }
  destruct (project_row (order_events sview s id) None) as [row|] eqn:Hrow.
  - destruct (shape_events _ _ _ Hl Hrow) as (c & a & settles & Hid & Hev & ->).
    apply (harmless_benign _ _ c a settles _ Hid Hev) in Ha.
    apply (Reset_pg_empty _ _ _ _ (benign_progress c a settles)) in H1 as [Ha1 Hempty]; [|done].
    subst id. apply (delivered_query c a settles ds p0 p' r p''); try done.
    + by rewrite Hempty, lookup_empty.
    + intros e He Hk. rewrite <- Hev. by apply Hin.
    + intros e He. apply (Hcomplete (SalesOrderId_Value (soc_SalesOrderId c))). by rewrite Hev.
  - assert (order_events sview s id = []) as Hnil by (by destruct Hl).
    rewrite Hnil in *.
    apply (Reset_pg_empty (harmless id []) (stays_absent id) _ _ (arrive_absent id)) in H1
      as [Ha1 Hempty]; [|done].
    apply (deliver_absent id) in Hds as [Ha2 Habs]; [|by intros e He Hk; apply Hin, elem_of_nil in He|done].
    apply (GetSalesOrder_pg_absent id) in Hget; [done|done|]. apply Habs.
    unfold absent. by rewrite Hempty, lookup_empty.
Qed.

(** C37 A rebuild command that succeeds restores both read models, whatever was in
    them before. An order reads as the row its stream projects to, or is not found if
    it has no stream; meanwhile replicas and redeliveries may go on projecting stored
    events, of this order and of others ([harmless]). A beer reads as the name and
    stock its stream replays to, or is not found if it never had any, provided that
    no other session writes that beer's row meanwhile ([leaves]): a projection of
    stock overwrites the row. (The database may also fail the query. A rebuild that
    fails can leave less than it found, and one over an order with two rows of one
    beer always fails: [duplicate_beer_blocks_projection].) *)
Theorem rebuild_restores env w w' :
  sales_store sview (rb_sales w) → beer_store wview (rb_warehouses w) →
  rebuild_run env w = (Ok tt, w') →
  (∀ id r p,
     Forall (Forall (harmless id (order_events sview (rb_sales w) id))) (arrivals (rb_orders w)) →
     GetSalesOrder_pg (uuid_String id) (rb_orders w') = (r, p) →
     match project_row (order_events sview (rb_sales w) id) None with
     | Some row => ∃ shown, durable_row row = inr shown ∧
         (r = Ok shown ∨ ∃ msg m, r = Err (Errorf msg (ErrExternal m)))
     | None => ∃ msg, r = Err (Errorf msg ErrNotFound) ∨ ∃ m, r = Err (Errorf msg (ErrExternal m))
     end) ∧
  (∀ b r p,
     Forall (Forall (leaves b)) (arrivals (rb_stock w)) →
     GetAvailability_pg (uuid_String b) (rb_stock w') = (r, p) →
     if decide (omap dto_of (beer_events wview (rb_warehouses w) b) = []) then
       ∃ msg, r = Err (Errorf msg ErrNotFound) ∨ ∃ m, r = Err (Errorf msg (ErrExternal m))
     else ∃ shown,
       durable_availability (row_of_availability (beer_of wview (rb_warehouses w) b)) = inr shown ∧
       (r = Ok shown ∨ ∃ msg m, r = Err (Errorf msg (ErrExternal m)))).
Proof.
  intros Hs Hb Hrun. destruct (rebuild_parts _ _ _ Hrun) as (p0 & q0 & s' & t' & H1 & H2 & H3 & H4).
  split.
  - intros id r p Ha Hget. by eapply rebuilt_order.
  - intros b r p Ha Hget. apply (Reset_stock_pg_shows b) in H3 as [Ha1 Hnone]; [|done].
    destruct (rebuild_last_shown wview _ _ _ _ b Hb H4) as (ds & Hds & Hlast).
    apply (project_pg_shows b ds None) in Hds as [Ha2 Hsh]; [|done..].
    apply (GetAvailability_pg_spec b _ _ _ _ Ha2 Hsh) in Hget.
    rewrite Hlast in Hget. unfold beer_of.
    rewrite (replay_row b) in Hget by (apply Hb). by case_decide.
Qed.

(** C36 An order with two rows of one beer, which the command side accepts, never
    gets into the durable read model: every delivery of its creation fails and
    leaves the tables as they were, and once it is stored no rebuild succeeds. *)
Theorem duplicate_beer_blocks_projection c :
  ¬ NoDup ((λ row, SalesKernel.BeerId_Value (SalesKernel.dto_BeerId row)) <$> soc_Rows c) →
  (∀ (p : Pool SalesTables SalesArrival) r p', project (EvSalesOrderCreated c) p = (r, p') →
     (∃ err, r = Err err) ∧ (arrivals p = [] → tables p' = tables p)) ∧
  (∀ env w r w' id,
     EvSalesOrderCreated c ∈ order_events sview (rb_sales w) id →
     sales_store sview (rb_sales w) → rebuild_run env w = (r, w') → r ≠ Ok tt).
Proof.
  intros Hdup. split; [intros p r p'; by apply duplicate_beer_refused|].
  intros env w r w' id Hin Hs Hrun ->.
  apply rebuild_parts in Hrun as (p0 & q0 & s' & t' & _ & H2 & _).
  destruct (rebuild_deliveries sview _ _ _ _ Hs H2) as (ds & Hds & _ & Hcomplete).
  apply Hcomplete in Hin. clear H2 Hcomplete. revert p0 Hds.
  induction ds as [|e ds IH]; intros p; [by apply elem_of_nil in Hin|].
  intros ([] & p1 & H1 & H2)%bind_inv_Ok. apply elem_of_cons in Hin as [<-|Hin]; [|by eapply IH].
  by apply (duplicate_beer_refused c p _ p1) in H1 as [[err ?] _].
Qed.
End command.
