(* ===== verification/ReadModelDemo.v ===== *)
(** * Evaluated runs of the durable read models

    A creation and a settlement projected out of order while a replica projects
    them too; the rebuild command over the sample stores; an order the columns
    cannot hold. The witnesses of [PostgresSales] and [RebuildCommand]. *)
From S2P Require Import Prelude Errors Kernel Aggregate EventStore Rebuild.
From S2P Require Import SalesKernel SalesOrder SalesHandlers SalesReadModel.
From S2P Require Import WarehouseKernel Availability WarehouseHandlers WarehouseReadModel.
From S2P Require Import Sql Columns PostgresSales PostgresAvailability Strconv Config RebuildCommand.
From Stdlib Require Import SpecFloat.
#[local] Open Scope Z_scope.
#[local] Existing Instance DemoUuid.lib.

(** Instants to the microsecond; every price fits. *)
#[local] Instance demo_columns : PgColumns := {
  pg_uuid := uuid_Parse;
  pg_timestamptz t := Some (t / 1000 * 1000);
  pg_numeric_12_2 x := Some x;
  pg_uuid_String := uuid_Parse_String;
}.

Definition five : float64 := float_of_Z 5.

Definition item (beer : string) (quantity : Z) : SalesOrderRowDto :=
  mkSalesOrderRowDto (SalesKernel.mkBeerId (uid beer)) (SalesKernel.mkBeerName "IPA")
    (NewQuantity quantity "Lt") (NewPrice five "EUR").

Definition order_of (rows : list SalesOrderRowDto) : SalesOrderCreated :=
  NewSalesOrderCreated (mkSalesOrderId (uid "o")) (uid "c") (mkSalesOrderNumber "1")
    (mkOrderDate 5001) (mkCustomerId (uid "k")) (mkCustomerName "Ann") rows.

Definition two_beers : SalesOrderCreated := order_of [item "b" 2; item "a" 3].
Definition settled_ : settlement := SettleRejected (uid "c2") "no stock".
Definition log_ : list SalesEvent :=
  [EvSalesOrderCreated two_beers; settlement_event (soc_SalesOrderId two_beers) settled_].

(** The settlement is delivered first; a replica projects the creation before the
    items are written, and again while the query runs. *)
Definition deliveries_ : list SalesEvent := reverse log_ ++ log_.
Definition start_ : Pool SalesTables SalesArrival :=
  mkPool (mkSalesTables ∅ ∅ 100 "ug") []
    [[]; [Later 200 "uh"]; [AnotherProjection (EvSalesOrderCreated two_beers)]; []; []; []; [];
     [AnotherProjection (settlement_event (soc_SalesOrderId two_beers) settled_)]].

Abbreviation delivered_ := (for_each deliveries_ project start_).
Abbreviation queried_ := (GetSalesOrder_pg (uuid_String (uid "o")) delivered_.2).

Lemma log_shape : order_shape (uid "o") log_.
Proof. by apply (shape_settled (uid "o") two_beers settled_). Qed.

Lemma durable_projection_converges_witness :
  queried_.1 = Ok (mkSalesOrderDto "uo" "1" 5000 "uk" "Ann"
    [mkSalesOrderRow "ua" "IPA" (NewQuantity 3 "Lt") (NewPrice five "EUR");
     mkSalesOrderRow "ub" "IPA" (NewQuantity 2 "Lt") (NewPrice five "EUR")]
    "rejected" "no stock") ∧
  ∃ row shown, project_row log_ None = Some row ∧ durable_row row = inr shown ∧
    (queried_.1 = Ok shown ∨ ∃ msg m, queried_.1 = Err (Errorf msg (ErrExternal m))).
Proof.
  assert (delivered_.1 = Ok tt) as Hd by (vm_compute; reflexivity).
  assert (∃ row, project_row log_ None = Some row) as [row Hrow] by (eexists; reflexivity).
  split; [vm_compute; reflexivity|]. exists row.
  destruct (durable_projection_converges (uid "o") log_ row deliveries_ start_ delivered_.2
              queried_.1 queried_.2) as (shown & H1 & H2).
  - apply log_shape.
  - exact Hrow.
  - repeat first [apply List.Forall_nil|apply List.Forall_cons]; try exact I; intros _.
    + left.
    + right. left.
  - done.
  - intros e He _. revert He. unfold deliveries_. rewrite elem_of_app, elem_of_reverse. tauto.
  - intros e He. unfold deliveries_. apply elem_of_app. by right.
  - rewrite <- Hd. exact (surjective_pairing delivered_).
  - exact (surjective_pairing queried_).
  - eauto.
Defined.

(** ** The rebuild command *)
Definition no_floats (s : string) : option float64 := None.
Definition reachable_server (url : string) : option error := None.
Definition durable_env : Environ := {[ "DB_URL" := "postgres://brew" ]}%string.

(** The read models hold rows of another life; a replica settles the order while
    the command runs. *)
Definition stale_ : RebuildWorld :=
  mkRebuildWorld SampleRows.store
    (mkPool (mkSalesTables
       {[ "uold" := mkOrderRow (mkOrderData "9" 0 "uz" "Zoe") 1 "pending" "" ]}%string ∅ 100 "ug") []
       [[]; []; [Later 200 "uh"];
        [AnotherProjection
           (settlement_event (mkSalesOrderId (uid "o")) SampleRows.rejected)]])
    SampleStock.store
    (mkPool (mkStockTables {[ "uipa" := mkAvailabilityRow "Lager" 99 "Lt" 1 ]}%string 100) []
       [[]; [AnotherUpsert ("uother", ("Stout", 4, "Lt"))]])%string.

Definition rebuilt_ :=
  rebuild_run no_floats reachable_server reachable_server durable_env stale_.

Lemma rebuild_restores_witness :
  rebuilt_.1 = Ok tt ∧
  (∃ shown, durable_row (match project_row SampleRows.stream_ None with
                         | Some row => row | None => stub_order "" end) = inr shown ∧
    ((GetSalesOrder_pg "uo" (rb_orders rebuilt_.2)).1 = Ok shown ∨
     ∃ msg m, (GetSalesOrder_pg "uo" (rb_orders rebuilt_.2)).1 = Err (Errorf msg (ErrExternal m)))) ∧
  ∃ msg, (GetSalesOrder_pg "uold" (rb_orders rebuilt_.2)).1 = Err (Errorf msg ErrNotFound) ∨
    ∃ m, (GetSalesOrder_pg "uold" (rb_orders rebuilt_.2)).1 = Err (Errorf msg (ErrExternal m)).
Proof.
  assert (rebuilt_.1 = Ok tt) as Hr by (vm_compute; reflexivity). split; [exact Hr|].
  destruct (rebuild_restores no_floats reachable_server reachable_server
    InMemory.stream_of InMemory.stream_of durable_env stale_ rebuilt_.2) as [Horders _].
  - apply SampleRows.store_ok.
  - apply SampleStock.store_beers.
  - rewrite <- Hr. exact (surjective_pairing rebuilt_).
  - change (rb_sales stale_) with SampleRows.store in Horders.
    pose proof (SampleRows.store_logs (uid "o")) as Hlog.
    pose proof (SampleRows.store_logs (uid "old")) as Hold.
    assert (SampleRows.logs (uid "o") = SampleRows.stream_) as Hst by (vm_compute; reflexivity).
    assert (SampleRows.logs (uid "old") = []) as Hnone by (vm_compute; reflexivity).
    rewrite Hst in Hlog. rewrite Hnone in Hold.
    pose proof (Horders (uid "o") (GetSalesOrder_pg "uo" (rb_orders rebuilt_.2)).1
      (GetSalesOrder_pg "uo" (rb_orders rebuilt_.2)).2) as Ho.
    pose proof (Horders (uid "old") (GetSalesOrder_pg "uold" (rb_orders rebuilt_.2)).1
      (GetSalesOrder_pg "uold" (rb_orders rebuilt_.2)).2) as Hg.
    rewrite Hlog in Ho. rewrite Hold in Hg. split.
    + apply Ho; [|exact (surjective_pairing (GetSalesOrder_pg "uo" (rb_orders rebuilt_.2)))].
      repeat first [apply List.Forall_nil|apply List.Forall_cons]; [exact I|].
      intros _. right. left.
    + apply Hg; [|exact (surjective_pairing (GetSalesOrder_pg "uold" (rb_orders rebuilt_.2)))].
      repeat first [apply List.Forall_nil|apply List.Forall_cons]; [exact I|].
      intros Hk. discriminate Hk.
Defined.

(** ** Two rows of one beer *)
Definition twice : SalesOrderCreated := order_of [item "a" 2; item "a" 3].

Lemma duplicate_beer_blocks_projection_witness :
  valid_creation twice ∧ ∃ err, (project (EvSalesOrderCreated twice) start_).1 = Err err.
Proof.
  split; [repeat split; by vm_compute|].
  destruct (duplicate_beer_blocks_projection no_floats reachable_server reachable_server
    (SSt := InMemory.InMemoryEventStore SalesEvent) (WSt := InMemory.InMemoryEventStore WarehouseEvent)
    InMemory.stream_of twice) as [Hrefused _].
  - apply (bool_decide_unpack _). vm_compute. exact I.
  - apply (Hrefused start_ _ (project (EvSalesOrderCreated twice) start_).2).
    exact (surjective_pairing (project (EvSalesOrderCreated twice) start_)).
Defined.
