(* ===== verification/SagaSupply.v ===== *)
(** * What a saga waits for is on the wire

    In an environment in which nothing fails ([Reliable]), the saga runner never
    leaves a saga without the message that will bring it on: after every handler,
    resumption and sweep, the next allocation of a running saga, the
    compensations of a compensating one and the outcome of a settled one have
    gone out. *)
From S2P Require Import Prelude Errors Kernel Aggregate EventStore World Repository.
From S2P Require Import Bus Json Wire Frame Reliable.
From S2P Require Import WarehouseKernel WarehouseJson Saga SagaRunner SagaContract SagaWire.
From S2P Require Import WarehouseSteps.
#[local] Open Scope Z_scope.

(** ** What can be encoded *)
Section writable.
Context `{GoText} {U : UuidLib} {P : Type} `{!JsonText P}.

Lemma writable_json `{!ToJson M} (m : M) j : to_json m = Ok j → writable (P := P) m.
Proof. intros Hj. exists (print_json j). unfold json_Marshal, marshal_json. by rewrite Hj. Qed.

Lemma int_writes z : Int.in_range z → to_json z = Ok (JNumber (FormatInt z)).
Proof. intros Hz. unfold to_json, int_to_json. by rewrite decide_True. Qed.

Lemma quantity_writes q : Int.in_range (Value q) → ∃ j, to_json q = Ok j.
Proof.
  intros Hq. unfold to_json, Quantity_to_json, object. simpl. rewrite int_writes by done. by eexists.
Qed.

(** Encode a struct whose members encode. *)
Ltac writes := eapply writable_json; unfold to_json; simpl; reflexivity.

Lemma allocation_writable b c name q oid :
  Int.in_range (Value q) →
  writable (P := P) (NewUpdateAvailabilityDueToSalesOrder b c name q oid).
Proof.
  intros [j Hj]%quantity_writes. eapply writable_json.
  unfold to_json, allocate_to_json, object. simpl. rewrite Hj. reflexivity.
Qed.

Lemma compensation_writable b c q oid :
  Int.in_range (Value q) →
  writable (P := P) (NewCompensateAvailabilityDueToFailedAllocation b c q oid).
Proof.
  intros [j Hj]%quantity_writes. eapply writable_json.
  unfold to_json, compensate_to_json, object. simpl. rewrite Hj. reflexivity.
Qed.

Lemma completion_writable id c :
  writable (P := P) (IntegrationEvents.NewOrderAllocationCompleted id c).
Proof. writes. Qed.

Lemma rejection_writable id c re :
  writable (P := P) (IntegrationEvents.NewOrderAllocationRejected id c re).
Proof. writes. Qed.

Lemma step_writable id c o : writable (P := P) (step_event id c o).
Proof. destruct o; writes. Qed.

Lemma settled_writable id c st re e : e ∈ settle_events id c st re → writable (P := P) e.
Proof.
  destruct st; simpl; try (by intros ?%elem_of_nil); intros ->%list_elem_of_singleton; writes.
Qed.

Lemma raised_writable id c o s e : e ∈ raised_events id c o s → writable (P := P) e.
Proof.
  intros [->|He]%elem_of_cons; [apply step_writable|by eapply settled_writable].
Qed.

Lemma rows_writes (rs : list SagaRowData) :
  (∀ row, row ∈ rs → Int.in_range (row_Quantity row)) → ∃ j, to_json rs = Ok j.
Proof.
  intros Hrs. unfold to_json, slice_to_json.
  assert (∃ l, all_ok (map to_json rs) = Ok l) as [l ->]; [|by eexists].
  induction rs as [|row rs IH]; [by eexists|]. simpl.
  assert (∃ j, to_json row = Ok j) as [j ->].
  { unfold to_json, row_to_json, object. simpl. rewrite int_writes by (apply Hrs; left). by eexists. }
  destruct IH as [l ->]; [intros ??; apply Hrs; by right|]. by eexists.
Qed.

Lemma started_writable id c rs e :
  (∀ row, row ∈ rs → Int.in_range (row_Quantity row)) → e ∈ started_events id c rs →
  writable (P := P) e.
Proof.
  intros [j Hj]%rows_writes. unfold started_events. intros [->|He]%elem_of_cons.
  - eapply writable_json. unfold to_json. simpl. unfold to_json, oas_to_json, object. simpl.
    rewrite Hj. reflexivity.
  - destruct rs; [|by apply elem_of_nil in He]. apply list_elem_of_singleton in He as ->. writes.
Qed.
End writable.

(** ** What a saga waits for *)
Section supply.
Context `{GoText} {U : UuidLib} {St B P : Type} `{!EventStore WarehouseEvent St}.
Context `{!WirePublisher B P, !WirePublisherLaws B P, !ReliableWire B P, !JsonText P}.
Context `{!FromJson salesOrderCreatedMessage} {Pub : Publication}.
Context (view : St → string → list (StoredEvent WarehouseEvent)).
Context `{!EventStoreLaws view, !ReliableStore view}.
Context `{!StreamLister St, !StreamListerLaws StreamLister0 view}.
Implicit Types (s : OrderAllocationSaga) (w : World St B) (id c : UUID) (b : B).
Implicit Types (m : wire_message) (row : SagaRowData).

Abbreviation sagas := (SagaContract.sagas (B := B) (P := P)).
Abbreviation log w id := (history view sagas w id).
Abbreviation saga_of w id := (SagaContract.saga_of view w id).
Abbreviation sagas_ok w := (SagaContract.sagas_ok view w).
Abbreviation grown b b' := (emitted (P := P) (λ _, True) b b').

(** A row that commands can be made of. *)
Definition sendable row : Prop :=
  is_Some (uuid_Parse (row_BeerId row)) ∧ Int.in_range (row_Quantity row).
Definition sound_rows s : Prop := ∀ r, r ∈ rows s → sendable (data r).

Definition on_wire b m : Prop := ∃ tp, tp ∈ published b ∧ encodes (P := P) m tp.

(** What the saga waits for went out, under whatever commit. *)
Definition served b s : Prop :=
  match status s with
  | SagaUnset => False
  | SagaRunning => ∃ c row m, NextPendingRow s = Some row ∧
      allocation_message s c row = Some m ∧ on_wire b m
  | SagaCompensating => ∀ row, row ∈ RowsToCompensate s →
      ∃ c m, compensation_message s c row = Some m ∧ on_wire b m
  | SagaCompleted | SagaRejected => ∃ c, on_wire b (outcome_message s c)
  end.

(** Every saga of sendable rows is served. *)
Definition all_served w : Prop :=
  ∀ id, log w id ≠ [] → sound_rows (saga_of w id) → served (w_bus w) (saga_of w id).

Lemma on_wire_grown b b' m : grown b b' → on_wire b m → on_wire b' m.
Proof. intros Hg (tp & Hin & He). exists tp. split; [by eapply grown_elem|done]. Qed.

Lemma sent_grown ms b b' : sent (P := P) ms b b' → grown b b'.
Proof. intros (l & Hl & _). exists l. split; [done|]. by apply Forall_forall. Qed.

Lemma sent_on_wire ms m b b' : sent (P := P) ms b b' → m ∈ ms → on_wire b' m.
Proof.
  intros (l & Hl & Hf) [i Hi]%list_elem_of_lookup.
  destruct (Forall2_lookup_l _ _ _ _ _ Hf Hi) as (tp & Htp & He). exists tp. split; [|done].
  rewrite Hl. apply elem_of_app. right. by eapply list_elem_of_lookup_2.
Qed.

Lemma served_grown b b' s : grown b b' → served b s → served b' s.
Proof.
  intros Hg. unfold served. destruct (status s); [done|..].
  - intros (c & row & m & ? & ? & ?). exists c, row, m. split_and!; [done..|]. by eapply on_wire_grown.
  - intros Hr row (c & m & ? & ?)%Hr. exists c, m. split; [done|]. by eapply on_wire_grown.
  - intros [c ?]. exists c. by eapply on_wire_grown.
  - intros [c ?]. exists c. by eapply on_wire_grown.
Qed.

Lemma all_served_same w w' :
  (∀ id, log w' id = log w id) → grown (w_bus w) (w_bus w') → all_served w → all_served w'.
Proof.
  intros Hl Hg Hs id. unfold SagaContract.saga_of. rewrite Hl. intros Hne Hr.
  eapply served_grown; [exact Hg|]. by apply Hs.
Qed.

(** *** The reaction serves the new state *)

Lemma pending_sendable s row : sound_rows s → NextPendingRow s = Some row → sendable row.
Proof.
  unfold NextPendingRow. intros Hs. case_decide; [|done].
  intros (r & Hr & <- & _)%first_pending_elem. by apply Hs.
Qed.

Lemma to_compensate s row :
  row ∈ RowsToCompensate s ↔
  status s = SagaCompensating ∧ ∃ r, r ∈ rows s ∧ data r = row ∧ state r = rowAllocated.
Proof.
  unfold RowsToCompensate. case_decide as Hc.
  - split; [by intros ?%elem_of_nil|]. by intros [? _].
  - assert (status s = SagaCompensating) as Hs by (by destruct (status s)).
    rewrite list_elem_of_fmap. setoid_rewrite list_elem_of_filter. naive_solver.
Qed.

Lemma next_step_served s c ms b :
  status s = SagaRunning → next_step s c = Some ms → (∀ m, m ∈ ms → on_wire b m) → served b s.
Proof.
  intros Hs. unfold next_step, served. rewrite Hs.
  destruct (NextPendingRow s) as [row|]; simpl; [|done].
  destruct (allocation_message s c row) as [m|] eqn:Hm; simpl; [|done]. intros [= <-] Hsent.
  exists c, row, m. split; [done|]. split; [done|]. apply Hsent. left.
Qed.

Lemma give_back_served s c ms b :
  status s = SagaCompensating → give_back_all s c = Some ms → (∀ m, m ∈ ms → on_wire b m) →
  served b s.
Proof.
  intros Hs. unfold give_back_all, served. rewrite Hs. intros Hm Hsent row [i Hi]%list_elem_of_lookup.
  apply mapM_Some in Hm. destruct (Forall2_lookup_l _ _ _ _ _ Hm Hi) as (m & Hmi & Hrow).
  exists c, m. split; [done|]. apply Hsent. by eapply list_elem_of_lookup_2.
Qed.

Lemma outcome_served s c b :
  status s = SagaCompleted ∨ status s = SagaRejected → on_wire b (outcome_message s c) → served b s.
Proof.
  intros Hs Ho.
  unfold served. destruct Hs as [-> | ->]; eauto.
Qed.

Lemma reaction_served o c s s' ms b b' :
  served b s → enabled o s = true → rows s' = next_rows o (rows s) →
  status s' = next_status o (next_rows o (rows s)) → salesOrderId s' = salesOrderId s →
  reaction o c s' = Some ms → grown b b' → (∀ m, m ∈ ms → on_wire b' m) → served b' s'.
Proof.
  intros Hserved He Hrows Hst Hid Hre Hg Hsent. unfold reaction in Hre.
  destruct o as [x|x re|x]; case_decide as Hd;
    try (injection Hre as <-; eapply outcome_served; [by eauto|apply Hsent; left]).
  - eapply next_step_served; [|exact Hre|exact Hsent].
    rewrite Hst in Hd |- *. simpl in *. by destruct (forallb _ _).
  - eapply give_back_served; [|exact Hre|exact Hsent].
    rewrite Hst in Hd |- *. simpl in *. by destruct (none_allocated _).
  - assert (status s' = SagaCompensating) as Hs'
      by (rewrite Hst in Hd |- *; simpl in *; by destruct (none_allocated _)).
    unfold enabled in He. apply andb_true_iff in He as [Hs%bool_decide_eq_true _].
    unfold served in Hserved |- *. rewrite Hs in Hserved. rewrite Hs'.
    intros row (_ & r & Hr & <- & Hal)%to_compensate. rewrite Hrows in Hr.
    apply elem_of_set_rows in Hr as (r0 & Hr0 & Hdata & Hstate).
    destruct (Hserved (data r)) as (c0 & m & Hm & Ho).
    + apply to_compensate. split; [done|]. exists r0. split; [done|]. split; [done|].
      rewrite Hal in Hstate. simpl in Hstate. by case_decide.
    + exists c0, m. split; [|by eapply on_wire_grown]. unfold compensation_message in *. by rewrite Hid.
Qed.
(** *** The handlers answer *)

Lemma publishOutcome_answers s c w : ∃ w', publishOutcome s c w = (Ok tt, w').
Proof.
  unfold publishOutcome. case_decide; apply integration_goes_out;
    [apply completion_writable|apply rejection_writable].
Qed.

Lemma sendCompensations_answers s c w :
  sound_rows s → ∃ w', sendCompensations s c w = (Ok tt, w').
Proof.
  intros Hs. unfold sendCompensations. apply for_each_goes_out.
  intros row w1 (_ & r & Hr & <- & _)%to_compensate. unfold sendCompensation.
  destruct (Hs r Hr) as [[beer ->] Hq]. apply send_goes_out. by apply compensation_writable.
Qed.

Lemma sendNextAllocation_answers s c w :
  sound_rows s → is_Some (NextPendingRow s) → ∃ w', sendNextAllocation s c w = (Ok tt, w').
Proof.
  intros Hs [row Hrow]. unfold sendNextAllocation. rewrite Hrow. simpl.
  destruct (pending_sendable s row Hs Hrow) as [[beer ->] Hq].
  apply send_goes_out. by apply allocation_writable.
Qed.

Lemma running_pending s : status_ok s → status s = SagaRunning → is_Some (NextPendingRow s).
Proof.
  unfold status_ok, NextPendingRow. intros Hok Hs. rewrite Hs in Hok. rewrite decide_True by done.
  by apply first_pending_Some, Hok.
Qed.

(** What an allocation can lead to. *)
Definition after_allocation o s : Prop :=
  ∀ x, o = Succeeded x → status s = SagaCompleted ∨ status s = SagaRunning.

Lemma react_answers o c s w :
  sound_rows s → status_ok s → after_allocation o s → ∃ w', react o c s w = (Ok tt, w').
Proof.
  intros Hr Hok Ho. unfold react. destruct o as [x|x re|x]; case_decide;
    auto using publishOutcome_answers, sendCompensations_answers; [|by eexists].
  apply sendNextAllocation_answers; [done|]. apply running_pending; [done|].
  by destruct (Ho x eq_refl) as [?|?].
Qed.

(** Saving a transition and reacting to it. *)
Lemma save_react_answers id es o c w :
  let s' := replay sagas (log w id ++ es) in
  es ≠ [] → reachable id (loaded_and_raised sagas (log w id) es) → sagas_ok w →
  (∀ e, e ∈ es → writable (P := P) e) → sound_rows s' → after_allocation o s' →
  ∃ w', (saga ← save_saga sagas (loaded_and_raised sagas (log w id) es); react o c saga) w
        = (Ok tt, w').
Proof.
  intros s' Hes Hreach Hok Hw Hrows Ho. unfold mbind, GoM_bind.
  assert (∃ s w2, save_saga sagas (loaded_and_raised sagas (log w id) es) w = (Ok s, w2))
    as (s & w2 & Hs).
  { unfold save_saga, uuid_New_. go_run.
    eapply (Save_succeeds view sagas (log w id) es id); [apply saga_blank|done| |done|by auto].
    by destruct (reachable_inv _ _ Hreach). }
  rewrite Hs. pose proof Hs as [_ Hc]%(save_transition view id); [|done..].
  destruct Hc as [(_ & _ & e & [=])|(_ & Hlog & Hr)]. destruct (Hr s eq_refl) as [-> _].
  assert (saga_of w2 id = s') as -> by (unfold SagaContract.saga_of; by rewrite Hlog).
  apply react_answers; [done| |done].
  unfold s'. rewrite <- (clear_loaded_and_raised sagas (log w id) es saga_blank).
  by destruct (reachable_inv _ _ (reachable_saved _ _ Hreach)).
Qed.

(** A saga after an observation it was waiting for. *)
Lemma observed_fields id o c w :
  enabled o (saga_of w id) = true →
  let s' := replay sagas (log w id ++ raised_events id c o (saga_of w id)) in
  rows s' = next_rows o (rows (saga_of w id)) ∧
  status s' = next_status o (next_rows o (rows (saga_of w id))) ∧
  salesOrderId s' = salesOrderId (saga_of w id).
Proof.
  intros He s'.
  assert (s' = ClearUncommittedEvents (RaiseAll (raised_events id c o (saga_of w id)) (saga_of w id)))
    as -> by (symmetry; apply (clear_loaded_and_raised sagas _ _ saga_blank)).
  destruct (raised_fields id c o _ He) as (? & ? & _ & ? & _). done.
Qed.

Lemma sound_rows_set x st s s' : rows s' = set_rows x st (rows s) → sound_rows s ↔ sound_rows s'.
Proof.
  intros Hr. unfold sound_rows. rewrite Hr. split.
  - intros Hs r (r0 & Hr0 & -> & _)%elem_of_set_rows. by apply Hs.
  - intros Hs r Hin. destruct (decide (beer r = x)) as [Hb|Hb].
    + apply (Hs (mkSagaRow (data r) st)). apply elem_of_set_rows. exists r. by rewrite decide_True.
    + apply Hs. apply elem_of_set_rows. exists r. by rewrite decide_False.
Qed.

Lemma commit_and_react_answers id o c w :
  sagas_ok w → log w id ≠ [] → enabled o (saga_of w id) = true → sound_rows (saga_of w id) →
  ∃ w', commit_and_react o c
    (loaded_and_raised sagas (log w id) (raised_events id c o (saga_of w id))) w = (Ok tt, w').
Proof.
  intros Hok Hne He Hr. destruct (observed_fields id o c w He) as (Hrows & Hst & _).
  apply save_react_answers; [done|by apply raised_reachable; auto|done|apply raised_writable|..].
  - by apply (sound_rows_set _ _ _ _ Hrows).
  - intros x ->. rewrite Hst. simpl. destruct (forallb _ _); auto.
Qed.

(** *** The handlers serve *)

(** A transition serves its saga, if it was completed. *)
Lemma transitioned_serves id o c w r w' :
  transitioned view id o c w r w' → grown (w_bus w) (w_bus w') →
  (sound_rows (saga_of w id) → r = Ok tt) → all_served w → all_served w'.
Proof.
  intros (Hne & He & Ho & Hlog & Hok) Hg Hdone Hs id'. destruct (decide (id' = id)) as [->|Hid].
  2: { unfold SagaContract.saga_of. rewrite Ho by done. intros Hne' Hr'.
       eapply served_grown; [exact Hg|]. by apply Hs. }
  destruct (observed_fields id o c w He) as (Hrows & Hst & Hsid).
  rewrite <- Hlog in Hrows, Hst, Hsid. intros _ Hr.
  apply (sound_rows_set _ _ _ _ Hrows) in Hr.
  destruct (Hok (Hdone Hr)) as (ms & Hms & Hsent).
  eapply (reaction_served o c (saga_of w id)); try done.
  - by apply Hs.
  - intros m Hm. eapply sent_on_wire; [exact Hsent|]. apply elem_of_app. by right.
Qed.

(** *** The wire under the runner only grows *)
Section growing.
Context (b0 : B).
Abbreviation K := (carries (P := P) (St := St) b0).

Lemma carries_save_saga s : preserves K (save_saga sagas s).
Proof. unfold save_saga. frame. eapply carries_Save. reflexivity. Qed.
Lemma carries_publishOutcome s c : preserves K (publishOutcome s c).
Proof. unfold publishOutcome. frame. Qed.
Lemma carries_sendNextAllocation s c : preserves K (sendNextAllocation s c).
Proof. unfold sendNextAllocation. frame. Qed.
Lemma carries_sendCompensations s c : preserves K (sendCompensations s c).
Proof. unfold sendCompensations, sendCompensation. frame. Qed.
Lemma carries_load oid : preserves K (load sagas oid).
Proof. unfold load. frame. Qed.
#[local] Hint Resolve carries_save_saga carries_publishOutcome carries_sendNextAllocation
  carries_sendCompensations carries_load : frame.

Lemma carries_react o c s : preserves K (react o c s).
Proof. unfold react. frame. Qed.
#[local] Hint Resolve carries_react : frame.

Lemma carries_observe oid c o : preserves K (observe sagas oid c o).
Proof. unfold observe. frame. Qed.

Lemma carries_on_event e : preserves K (on_event sagas e).
Proof.
  intros w r w'. rewrite on_event_observe. destruct (observed e) as [[[oid c] o]|].
  - apply carries_observe.
  - by intros [= _ <-].
Qed.

Lemma carries_trigger payload : preserves K (OnSalesOrderCreated sagas payload).
Proof. unfold OnSalesOrderCreated. frame. Qed.

Lemma carries_inFlight : preserves K (inFlight sagas (Some ListStreams)).
Proof.
  unfold inFlight. frame.
  match goal with |- preserves _ (inFlight_loop _ ?l) => induction l as [|n l IH] end; simpl; frame.
Qed.
#[local] Hint Resolve carries_inFlight : frame.

Lemma carries_resume : preserves K (ResumeInFlight sagas (Some ListStreams)).
Proof. unfold ResumeInFlight, drive. frame. Qed.

Lemma carries_timeout_one cutoff s : preserves K (timeout_one sagas cutoff s).
Proof. unfold timeout_one, lastActivityOf. frame. Qed.

Lemma carries_timeout cutoff : preserves K (TimeoutInFlight sagas (Some ListStreams) cutoff).
Proof.
  unfold TimeoutInFlight. apply preserves_bind; [apply carries_inFlight|intros l].
  apply preserves_for_each. intros s. apply carries_timeout_one.
Qed.
End growing.

(** *** Every step of the runner serves *)

Lemma same_streams_logs w w1 : same_streams view w w1 → ∀ id, log w1 id = log w id.
Proof. intros Hs id. unfold history. by rewrite Hs. Qed.

Lemma load_answers oid w :
  ∃ o w1, load sagas oid w = (Ok o, w1).
Proof.
  unfold load. case_decide; [by eexists _, _|]. destruct (uuid_Parse oid) as [id|]; [|by eexists _, _].
  destruct (GetByID_answers view sagas id w) as (w1 & _ & _ & Hg).
  unfold mbind, GoM_bind, attempt. rewrite Hg.
  destruct (history view sagas w id); simpl; [|by eexists _, _]. by eexists _, _.
Qed.

Lemma observe_answers oid c o w :
  sagas_ok w →
  (∀ id, uuid_Parse oid = Some id → log w id ≠ [] → sound_rows (saga_of w id)) →
  ∃ w', observe sagas oid c o w = (Ok tt, w').
Proof.
  intros Hok Hrows. destruct (load_answers oid w) as (l & w1 & Hl).
  unfold observe, mbind at 1, GoM_bind at 1. rewrite Hl.
  apply (load_spec view) in Hl as (Hsame & Hb1 & Hl). pose proof (same_streams_logs _ _ Hsame) as Hs1.
  assert (sagas_ok w1) as Hok1 by (by eapply sagas_ok_same).
  destruct l as [s|]; [|by eexists]. destruct Hl as (id & Hid & Hne & ->).
  assert (saga_of w id = saga_of w1 id) as -> by (unfold SagaContract.saga_of; by rewrite Hs1).
  specialize (Hrows id Hid Hne). rewrite <- Hs1 in Hne.
  assert (saga_of w1 id = saga_of w id) as Es by (unfold SagaContract.saga_of; by rewrite Hs1).
  rewrite <- Es in Hrows. unfold mbind, GoM_bind, lift. rewrite record_loaded by auto.
  destruct (enabled o (saga_of w1 id)) eqn:He; simpl; [|by eexists].
  by apply commit_and_react_answers.
Qed.

Lemma observe_serves oid c o w r w' :
  sagas_ok w → observe sagas oid c o w = (r, w') → all_served w → all_served w'.
Proof.
  intros Hok Hobs. pose proof (grows_wire _ _ _ _ (λ b0, carries_observe b0 oid c o) Hobs) as Hg.
  pose proof Hobs as [_ [[[Hi _] _]|(id & Hid & Ht)]]%(observe_cases view); [..|done].
  { by apply all_served_same. }
  apply (transitioned_serves id o c w r w' Ht Hg). intros Hr.
  destruct (observe_answers oid c o w Hok) as [w2 Ho].
  - intros id' Hid' _. rewrite Hid in Hid'. by injection Hid' as <-.
  - rewrite Hobs in Ho. by injection Ho.
Qed.

Lemma on_event_serves e w r w' :
  sagas_ok w → on_event sagas e w = (r, w') → all_served w → all_served w'.
Proof.
  intros Hok. rewrite on_event_observe. destruct (observed e) as [[[oid c] o]|].
  - by apply observe_serves.
  - by intros [= _ <-].
Qed.

Lemma on_event_answers e w :
  sagas_ok w →
  (∀ oid c o id, observed e = Some (oid, c, o) → uuid_Parse oid = Some id → log w id ≠ [] →
     sound_rows (saga_of w id)) →
  ∃ w', on_event sagas e w = (Ok tt, w').
Proof.
  intros Hok Hr. rewrite on_event_observe. destruct (observed e) as [[[oid c] o]|]; [|by eexists].
  apply observe_answers; [done|]. intros id. by eapply Hr.
Qed.

(** The trigger answers a message whose rows are sendable. *)
Lemma trigger_answers payload message w :
  sagas_ok w → json_Unmarshal payload = Ok message →
  (∀ row, row ∈ msg_Rows message → sendable row) →
  ∃ w', OnSalesOrderCreated sagas payload w = (Ok tt, w').
Proof.
  intros Hok Hj Hrows. unfold OnSalesOrderCreated, mbind at 1, GoM_bind at 1, lift. rewrite Hj. simpl.
  destruct (uuid_Parse _) as [id|]; [|by eexists].
  destruct (GetByID_answers view sagas id w) as (w1 & Hsame & _ & Hg).
  pose proof (same_streams_logs _ _ Hsame) as Hs1.
  unfold mbind at 1, GoM_bind at 1, attempt. rewrite Hg.
  destruct (history view sagas w id) as [|e0 l0] eqn:Hl; simpl; [|by eexists].
  assert (log w1 id = []) as Hl1 by (by rewrite Hs1). rewrite started, <- Hl1.
  set (c := msg_CommitId message).
  change (∃ w', (saga ← save_saga sagas (loaded_and_raised sagas (log w1 id)
             (started_events id c (msg_Rows message))); react (Succeeded "") c saga) w1 = (Ok tt, w')).
  apply save_react_answers.
  - done.
  - rewrite Hl1, <- started. apply reachable_start.
  - by eapply sagas_ok_same.
  - intros e. apply started_writable. intros row Hrow. by apply Hrows.
  - rewrite Hl1. intros r Hr. apply Hrows.
    destruct (msg_Rows message) as [|d rs]; [by apply elem_of_nil in Hr|].
    apply list_elem_of_fmap in Hr as (d' & -> & Hd). done.
  - rewrite Hl1. intros x _. destruct (msg_Rows message); [by left|by right].
Qed.

(** A started saga, as its stream has it. *)
Lemma started_rows id c (rs : list SagaRowData) :
  data <$> rows (replay sagas ([] ++ started_events id c rs)) = rs.
Proof.
  destruct rs as [|d rs]; [done|]. simpl. f_equal. rewrite <- list_fmap_compose.
  by rewrite list_fmap_id.
Qed.

Lemma trigger_serves payload w r w' :
  sagas_ok w → OnSalesOrderCreated sagas payload w = (r, w') → all_served w → all_served w'.
Proof.
  intros Hok Ht Hs. pose proof (grows_wire _ _ _ _ (λ b0, carries_trigger b0 payload) Ht) as Hg.
  pose proof Ht as [Hok' [[[Hi _] _]|(m & id & Hj & Hid & Hnil & Ho & Hl & Hr)]]%(trigger_cases view);
    [by eapply all_served_same| |done].
  intros id'. destruct (decide (id' = id)) as [->|Hne].
  2: { unfold SagaContract.saga_of. rewrite Ho by done. intros Hne' Hr'.
       eapply served_grown; [exact Hg|]. by apply Hs. }
  intros Hne Hrows.
  destruct (trigger_answers payload m w Hok Hj) as [w2 H2].
  { intros row Hrow. pose proof (started_rows id (msg_CommitId m) (msg_Rows m)) as Hd.
    rewrite <- Hd in Hrow. apply list_elem_of_fmap in Hrow as (x & -> & Hx). apply Hrows.
    unfold SagaContract.saga_of. by rewrite Hl. }
  rewrite Ht in H2. injection H2 as -> _. destruct (Hr eq_refl) as (ms & Hms & Hsent).
  assert (∀ x, x ∈ ms → on_wire (w_bus w') x) as Hon.
  { intros x Hx. eapply sent_on_wire; [exact Hsent|]. apply elem_of_app. by right. }
  unfold first_messages in Hms. case_decide as Hc.
  - injection Hms as <-. eapply outcome_served; [by left|apply Hon; left].
  - eapply next_step_served; [|exact Hms|done]. revert Hc. unfold SagaContract.saga_of. rewrite Hl.
    by destruct (msg_Rows m).
Qed.

(** *** Resumption and timeout *)

Lemma resume_serves w r w' :
  sagas_ok w → ResumeInFlight sagas (Some ListStreams) w = (r, w') → all_served w → all_served w'.
Proof.
  intros Hok Hr. pose proof (grows_wire _ _ _ _ carries_resume Hr) as Hg.
  apply (resume_cases view) in Hr as [Hl _]; [|done]. by apply all_served_same.
Qed.

(** A saga that was loaded with [old] and to which nothing can be recorded. *)
Lemma save_nothing old w : save_saga sagas (replay sagas old) w =
  (Ok (replay sagas old), mkWorld (w_store w) (w_bus w) (w_now w) (S (w_minted w))).
Proof.
  unfold save_saga, uuid_New_, Save. go_run.
  change (UncommittedEvents (replay sagas old)) with (UncommittedEvents (loaded_and_raised sagas old [])).
  by rewrite (uncommitted_raised sagas old [] saga_blank).
Qed.

(** The tail of [timeout_one]. *)
Lemma timeout_step_serves id old extra x re c w r w' :
  let s := replay sagas old in
  sagas_ok w → reachable id s → log w id = old ++ extra → old ≠ [] →
  (recorded ← lift (record c (NotFound x re) s); saga ← save_saga sagas (snd recorded);
   if decide (status saga = SagaRejected) then publishOutcome saga c
   else sendCompensations saga c) w = (r, w') →
  grown (w_bus w) (w_bus w') → all_served w → all_served w'.
Proof.
  intros s Hok Hreach Hlog Hne Hrun Hg Hs. pose proof (reachable_inv _ _ Hreach) as [Hord _ _ _].
  set (o := NotFound x re) in *. unfold mbind at 1, GoM_bind at 1, lift in Hrun.
  rewrite (record_effect id) in Hrun by done. destruct (enabled o s) eqn:He; simpl in Hrun.
  - change (commit_and_react o c (loaded_and_raised sagas old (raised_events id c o s)) w
            = (r, w')) in Hrun.
    destruct (decide (extra = [])) as [->|Hex].
    + rewrite app_nil_r in Hlog. subst s. rewrite <- Hlog in *.
      pose proof Hrun as [_ [(Hl & _)|Ht]]%(commit_and_react_spec view id);
        [by eapply all_served_same| |done..].
      apply (transitioned_serves id o c w r w' Ht Hg); [|done]. intros Hr.
      destruct (commit_and_react_answers id o c w Hok Hne He Hr) as [w2 H2].
      assert ((r, w') = (Ok tt, w2)) as [= -> _]; [|done]. rewrite <- Hrun. exact H2.
    + assert (reachable id (loaded_and_raised sagas old (raised_events id c o s))) as Hreach'.
      { eapply (reachable_record id c o s true); [done|]. by rewrite (record_effect id), He. }
      unfold commit_and_react, mbind, GoM_bind in Hrun.
      destruct (save_saga _ _ w) as [rs w2] eqn:Es.
      apply (save_stale view old extra _ id) in Es as [Hl [e ->]]; [|done..].
      injection Hrun as _ <-. by eapply all_served_same.
  - unfold mbind, GoM_bind in Hrun. unfold s in Hrun at 1. rewrite save_nothing in Hrun.
    apply (all_served_same w); [|done|done]. apply (store_same_logs view).
    change (w_store w) with (w_store (mkWorld (w_store w) (w_bus w) (w_now w) (S (w_minted w)))).
    revert Hrun. case_decide.
    + rewrite publishOutcome_send. apply send_wire_store.
    + apply sendCompensations_store.
Qed.

Lemma timeout_one_serves cutoff id old extra w r w' :
  sagas_ok w → reachable id (replay sagas old) → log w id = old ++ extra → old ≠ [] →
  timeout_one sagas cutoff (replay sagas old) w = (r, w') → all_served w → all_served w'.
Proof.
  intros Hok Hreach Hlog Hne Ht Hs.
  pose proof (grows_wire _ _ _ _ (λ b0, carries_timeout_one b0 cutoff _) Ht) as Hg.
  unfold timeout_one in Ht. unfold mbind at 1, GoM_bind at 1 in Ht.
  destruct (lastActivityOf _ w) as [rt w1] eqn:El.
  apply (lastActivityOf_store view) in El as [Hl1 Hb1].
  assert (sagas_ok w1) as Hok1 by (by eapply sagas_ok_same).
  assert (all_served w1) as Hs1 by (apply (all_served_same w); [done|by apply emitted_eq|done]).
  rewrite <- Hb1 in Hg.
  destruct rt as [t|e|m]; [|by injection Ht as _ <-..].
  destruct (negb _); [by injection Ht as _ <-|].
  case_decide as Hc; unfold uuid_New_ at 1 in Ht; unfold mbind at 1, GoM_bind at 1 in Ht;
    match type of Ht with context [mkWorld ?a ?b ?c ?d] => set (w2 := mkWorld a b c d) in Ht end.
  - apply (all_served_same w1); [|done|done]. apply (store_same_logs view).
    by apply sendCompensations_store in Ht.
  - assert (all_served w2) as Hs2 by (apply (all_served_same w1); [done|apply emitted_refl|done]).
    eapply (timeout_step_serves id old extra _ _ _ w2); [exact Hok1|done| |done|exact Ht|exact Hg|done].
    change (log w1 id = old ++ extra). by rewrite Hl1.
Qed.

Lemma timeout_all_serves cutoff w ids w1 r w' :
  sagas_ok w → (∀ id, id ∈ ids → log w id ≠ []) → SagaContract.grows view w w1 →
  for_each (SagaContract.saga_of view w <$> ids) (timeout_one sagas cutoff) w1 = (r, w') →
  all_served w1 → all_served w'.
Proof.
  intros Hok. revert w1. induction ids as [|id ids IH]; intros w1 Hids Hg; simpl.
  { by intros [= _ <-]. }
  unfold mbind, GoM_bind.
  destruct (timeout_one sagas cutoff (saga_of w id) w1) as [r1 w2] eqn:E. intros Hr Hs1.
  pose proof (Hids id ltac:(left)) as Hne.
  assert (all_served w2) as Hs2.
  { destruct Hg as [Hok1 Hg]. destruct (Hg id) as [[extra Hlog] _].
    eapply (timeout_one_serves cutoff id (log w id) extra w1); [done|by apply Hok|done|done|exact E|done]. }
  pose proof (timeout_one_grows view _ _ _ _ _ _ Hok Hne Hg E) as Hg2.
  destruct r1 as [[]|e|m]; [|by injection Hr as _ <-..].
  eapply IH; [| |exact Hr|done].
  - intros id' Hin. apply Hids. by right.
  - by eapply grows_trans.
Qed.

Lemma timeout_serves cutoff w r w' :
  sagas_ok w → TimeoutInFlight sagas (Some ListStreams) cutoff w = (r, w') →
  all_served w → all_served w'.
Proof.
  intros Hok Ht Hs. unfold TimeoutInFlight in Ht. unfold mbind at 1, GoM_bind at 1 in Ht.
  destruct (inFlight _ _ w) as [rl w1] eqn:El.
  apply (inFlight_spec view) in El as (Hl1 & Hb & Hl); [|done].
  assert (all_served w1) as Hs1 by (apply (all_served_same w); [done|by apply emitted_eq|done]).
  destruct rl as [l|e|m]; [|by injection Ht as _ <-..]. destruct Hl as (ids & -> & Hids & _).
  eapply (timeout_all_serves cutoff w ids w1); [done| |by apply grows_same|exact Ht|done].
  intros id Hin. by apply Hids.
Qed.
End supply.
