(* ===== verification/Contracts.v ===== *)
(** * The contracts between the two contexts

    Sales and Warehouses share no Go type: each publishes structs of its own and
    decodes what it consumes into structs of its own. What keeps them together
    is the JSON of three messages and the names of three topics; this file
    decodes with one side's struct what the other side's struct wrote. *)
From S2P Require Import Prelude Errors Kernel World Bus Json.
From S2P Require Import SalesKernel SalesJson SalesIntegration.
From S2P Require Import WarehouseKernel WarehouseJson SagaRunner.
#[local] Open Scope Z_scope.

(** ** The consumers' structs *)
Section consumers.
Context `{GoText} {U : UuidLib}.

#[global] Instance trigger_from_json : FromJson salesOrderCreatedMessage := {
  zero_value := mkSalesOrderCreatedMessage _ uuid_Nil "" [];
  from_json := struct_from_json (λ ms x,
    commit_id ← field "commit_id" ms (msg_CommitId x);
    sales_order_id ← field "sales_order_id" ms (msg_SalesOrderId x);
    rows ← field "rows" ms (msg_Rows x);
    Ok (mkSalesOrderCreatedMessage _ commit_id sales_order_id rows)) }.

(** ** What the consumer makes of the producer's value *)
Definition read_row (r : SalesKernel.SalesIntegrationEvents.SalesOrderCreatedRow) : SagaRowData :=
  mkSagaRowData (SalesKernel.SalesIntegrationEvents.ir_BeerId r)
    (SalesKernel.SalesIntegrationEvents.ir_BeerName r)
    (SalesKernel.SalesIntegrationEvents.ir_Quantity r)
    (SalesKernel.SalesIntegrationEvents.ir_UnitOfMeasure r).

Definition read_trigger (e : SalesKernel.SalesIntegrationEvents.IntegrationSalesOrderCreated)
    : salesOrderCreatedMessage :=
  mkSalesOrderCreatedMessage _ (ie_CommitId (SalesKernel.SalesIntegrationEvents.isoc_base e))
    (SalesKernel.SalesIntegrationEvents.isoc_SalesOrderId e)
    (map read_row (SalesKernel.SalesIntegrationEvents.isoc_Rows e)).

Definition read_rejected (e : IntegrationEvents.OrderAllocationRejected)
    : allocationOutcomeMessage :=
  mkAllocationOutcomeMessage _ (ie_CommitId (IntegrationEvents.oar_base e))
    (IntegrationEvents.oar_SalesOrderId e) (IntegrationEvents.oar_Reason e).

(** The completion carries no reason: Sales reads the empty one. *)
Definition read_completed (e : IntegrationEvents.OrderAllocationCompleted)
    : allocationOutcomeMessage :=
  mkAllocationOutcomeMessage _ (ie_CommitId (IntegrationEvents.oac_base e))
    (IntegrationEvents.oac_SalesOrderId e) "".

#[global] Instance row_contract :
  JsonReads SalesKernel.SalesIntegrationEvents.SalesOrderCreatedRow SagaRowData read_row.
Proof. solve_reads. Qed.

#[global] Instance trigger_contract_reads :
  JsonReads SalesKernel.SalesIntegrationEvents.IntegrationSalesOrderCreated
    salesOrderCreatedMessage read_trigger.
Proof. solve_reads. Qed.

#[global] Instance rejected_contract :
  JsonReads IntegrationEvents.OrderAllocationRejected allocationOutcomeMessage read_rejected.
Proof. solve_reads. Qed.
End consumers.

Section contract.
Context `{GoText} {U : UuidLib} {P : Type} `{!JsonText P}.

(** The completion is read into a fresh variable only: it has no reason. *)
Lemma completed_reads (e : IntegrationEvents.OrderAllocationCompleted) j j' :
  to_json e = Ok j → same_content j j' → from_json j' zero_value = Ok (read_completed e).
Proof. intros Hj Hc. read_object Hj Hc. by destruct e. Qed.

Lemma completed_contract (e : IntegrationEvents.OrderAllocationCompleted) (p : P) :
  json_Marshal e = Ok p → json_Unmarshal p = Ok (read_completed e).
Proof.
  unfold json_Marshal, marshal_json, json_Unmarshal, unmarshal_json, result_bind.
  destruct (to_json e) as [j|err|m] eqn:Hj; [|done..]. intros [= <-].
  rewrite parse_print_json. exact (completed_reads e j j Hj (same_document j)).
Qed.

(** The row of an order as the warehouse's saga sees it. *)
Definition saga_row (row : SalesKernel.SalesOrderRowDto) : SagaRowData :=
  mkSagaRowData (uuid_String (SalesKernel.BeerId_Value (SalesKernel.dto_BeerId row)))
    (SalesKernel.BeerName_Value (SalesKernel.dto_BeerName row))
    (Value (SalesKernel.dto_Quantity row)) (UnitOfMeasure (SalesKernel.dto_Quantity row)).

Lemma order_contract (e : SalesKernel.SalesOrderCreated) (p : P) :
  json_Marshal (integration_event e) = Ok p →
  json_Unmarshal p = Ok (mkSalesOrderCreatedMessage _
    (ev_CommitId (SalesKernel.soc_base e))
    (uuid_String (SalesKernel.SalesOrderId_Value (SalesKernel.soc_SalesOrderId e)))
    (map saga_row (SalesKernel.soc_Rows e))).
Proof.
  intros Hp%(unmarshal_reads (f := read_trigger)). rewrite Hp. unfold read_trigger, integration_event.
  simpl. by rewrite map_map.
Qed.

(** C40 The consumer-driven contract. The warehouse's trigger handler decodes the
    message Sales publishes about a new order to that order's identifier, its
    commit and its rows, beer by beer; Sales decodes the warehouse's two
    outcomes to the order's identifier, the commit and the reason (an empty one
    for a completion). Each subscribes to the topic the other publishes on. *)
Theorem contexts_agree :
  (∀ (e : SalesKernel.SalesOrderCreated) (p : P), json_Marshal (integration_event e) = Ok p →
     json_Unmarshal p = Ok (mkSalesOrderCreatedMessage _
       (ev_CommitId (SalesKernel.soc_base e))
       (uuid_String (SalesKernel.SalesOrderId_Value (SalesKernel.soc_SalesOrderId e)))
       (map saga_row (SalesKernel.soc_Rows e)))) ∧
  (∀ id c (p : P), json_Marshal (IntegrationEvents.NewOrderAllocationCompleted id c) = Ok p →
     json_Unmarshal p = Ok (mkAllocationOutcomeMessage _ c id "")) ∧
  (∀ id c re (p : P), json_Marshal (IntegrationEvents.NewOrderAllocationRejected id c re) = Ok p →
     json_Unmarshal p = Ok (mkAllocationOutcomeMessage _ c id re)) ∧
  (∀ e, MessageName (integration_event e) = SalesOrderCreatedTopic) ∧
  (∀ id c, MessageName (IntegrationEvents.NewOrderAllocationCompleted id c)
           = OrderAllocationCompletedTopic) ∧
  (∀ id c re, MessageName (IntegrationEvents.NewOrderAllocationRejected id c re)
              = OrderAllocationRejectedTopic).
Proof.
  split; [apply order_contract|]. split; [|split; [|done]].
  - intros id c p Hp. by rewrite (completed_contract _ _ Hp).
  - intros id c re p Hp. by rewrite (unmarshal_reads (f := read_rejected) _ _ Hp).
Qed.
End contract.

(** ** Evaluated instance: an order of two rows crosses over *)
Section witness.
#[local] Existing Instance DemoUuid.lib.
Import DemoText.

Definition two_rows : SalesKernel.SalesOrderCreated :=
  SalesKernel.NewSalesOrderCreated (SalesKernel.mkSalesOrderId (uid "o")) (uid "c")
    (SalesKernel.mkSalesOrderNumber "1") (SalesKernel.mkOrderDate 5)
    (SalesKernel.mkCustomerId (uid "k")) (SalesKernel.mkCustomerName "Ann")
    [SalesKernel.mkSalesOrderRowDto (SalesKernel.mkBeerId (uid "ipa"))
       (SalesKernel.mkBeerName "IPA") (NewQuantity 4 "Lt")
       (NewPrice (SpecFloat.S754_finite false 3 0) "EUR");
     SalesKernel.mkSalesOrderRowDto (SalesKernel.mkBeerId (uid "stout"))
       (SalesKernel.mkBeerName "Stout") (NewQuantity 2 "Lt")
       (NewPrice (SpecFloat.S754_zero false) "EUR")].

Lemma contexts_agree_witness :
  ∃ p : json, json_Marshal (integration_event two_rows) = Ok p ∧
    json_Unmarshal p = Ok (mkSalesOrderCreatedMessage _ (uid "c") "uo"
      [mkSagaRowData "uipa" "IPA" 4 "Lt"; mkSagaRowData "ustout" "Stout" 2 "Lt"]).
Proof.
  eexists. split; [vm_compute; reflexivity|].
  exact (proj1 contexts_agree two_rows _ eq_refl).
Defined.
End witness.
