(* ===== verification/Wiring.v ===== *)
(** * The running application: both modules on one bus
    ([internal/sales/module.go], [internal/warehouses/module.go], the parts of
    [internal/app/app.go] that start them)

    In either mode of publication: the repositories publish what they save, or
    they do not and an outbox relay does. Each [Register] appends its
    subscriptions to the bus; a step of the application is one of the things
    that happen while it runs: a message of the wire reaches one of its
    subscriptions through the retry middleware, a client calls a facade, the
    saga supervision resumes or sweeps, the relay dispatches, the clock advances, a
    poison message is parked. A handler runs as one step: another handler's write between its load
    and its save makes the save fail ([Repository.stale_save_rejected]), which is
    a run that changes nothing and is retried. A process that dies in a handler
    leaves what the handler leaves when everything it publishes from there on
    fails; when it starts again over durable stores, the wire may have lost
    messages. *)
From S2P Require Import Prelude Errors Kernel Aggregate EventStore World Repository.
From S2P Require Import Bus Json Wire.
From S2P Require Import SalesKernel SalesJson SalesOrder SalesHandlers SalesSteps.
From S2P Require Import SalesReadModel SalesFacade SalesIntegration.
From S2P Require Import WarehouseKernel WarehouseJson Availability Saga WarehouseHandlers.
From S2P Require Import WarehouseReadModel WarehouseFacade SagaRunner SagaContract.
From S2P Require Import WarehouseSteps Contracts.
#[local] Open Scope Z_scope.

Section system.
Context `{GoText} {U : UuidLib} {SS WS B P RS RW : Type}.
Context `{!EventStore SalesEvent SS, !EventStore WarehouseEvent WS, !StreamLister WS}.
Context `{!WirePublisher B P, !JsonText P, !SalesReadModel RS, !AvailabilityReadModel RW}.
Context {Pub : Publication} `{!OutboxRelay SS B, !OutboxRelay WS B}.

(** Everything the process keeps: each module's store and read model, and what
    they share. *)
Record System := mkSystem {
  sys_sales : SS;
  sys_warehouses : WS;
  sys_orders_shown : RS;
  sys_beers_shown : RW;
  sys_bus : B;
  sys_now : Time;
  sys_minted : nat;
}.

(** The world of a module's handlers. *)
Definition sales_world (s : System) : World SS B :=
  mkWorld (sys_sales s) (sys_bus s) (sys_now s) (sys_minted s).
Definition put_sales (w : World SS B) (s : System) : System :=
  mkSystem (w_store w) (sys_warehouses s) (sys_orders_shown s) (sys_beers_shown s)
    (w_bus w) (w_now w) (w_minted w).
Definition warehouse_world (s : System) : World WS B :=
  mkWorld (sys_warehouses s) (sys_bus s) (sys_now s) (sys_minted s).
Definition put_warehouse (w : World WS B) (s : System) : System :=
  mkSystem (sys_sales s) (w_store w) (sys_orders_shown s) (sys_beers_shown s)
    (w_bus w) (w_now w) (w_minted w).
Definition put_orders_shown (r : RS) (s : System) : System :=
  mkSystem (sys_sales s) (sys_warehouses s) r (sys_beers_shown s)
    (sys_bus s) (sys_now s) (sys_minted s).
Definition put_beers_shown (r : RW) (s : System) : System :=
  mkSystem (sys_sales s) (sys_warehouses s) (sys_orders_shown s) r
    (sys_bus s) (sys_now s) (sys_minted s).
Definition put_system_bus (b : B) (s : System) : System :=
  mkSystem (sys_sales s) (sys_warehouses s) (sys_orders_shown s) (sys_beers_shown s)
    b (sys_now s) (sys_minted s).
Definition at_time (t : Time) (s : System) : System :=
  mkSystem (sys_sales s) (sys_warehouses s) (sys_orders_shown s) (sys_beers_shown s)
    (sys_bus s) t (sys_minted s).

Definition in_sales {A} (m : GoM (World SS B) A) : GoM System A := zoom sales_world put_sales m.
Definition in_warehouse {A} (m : GoM (World WS B) A) : GoM System A :=
  zoom warehouse_world put_warehouse m.
Definition in_orders_shown (m : GoM RS unit) : GoM System unit :=
  zoom sys_orders_shown put_orders_shown m.
Definition in_beers_shown (m : GoM RW unit) : GoM System unit :=
  zoom sys_beers_shown put_beers_shown m.

(** ** The two modules' [Register] *)
Abbreviation subscriptions := (list (pendingSubscription System P)).

Definition sales_Register (bus : subscriptions) : subscriptions :=
  let repository := bus_orders in
  let bus := RegisterCommandHandler (MessageName (zero_value : CreateSalesOrder))
    (λ command, in_sales (HandleCreateSalesOrder repository command)) bus in
  let bus := RegisterCommandHandler (MessageName (zero_value : MarkSalesOrderAllocated))
    (λ command, in_sales (HandleMarkSalesOrderAllocated repository command)) bus in
  let bus := RegisterCommandHandler (MessageName (zero_value : MarkSalesOrderAllocationRejected))
    (λ command, in_sales (HandleMarkSalesOrderAllocationRejected repository command)) bus in
  let bus := RegisterDomainEventHandler (MessageName (EvSalesOrderCreated zero_value))
    "sales.readmodel.sales_order_created"
    (λ event, in_orders_shown (ProjectSalesOrderCreated event)) bus in
  let bus := RegisterDomainEventHandler (MessageName (EvSalesOrderAllocated zero_value))
    "sales.readmodel.sales_order_allocated"
    (λ event, in_orders_shown (OnSalesOrderAllocated event)) bus in
  let bus := RegisterDomainEventHandler (MessageName (EvSalesOrderAllocationRejected zero_value))
    "sales.readmodel.sales_order_allocation_rejected"
    (λ event, in_orders_shown (OnSalesOrderAllocationRejected event)) bus in
  let bus := RegisterDomainEventHandler (MessageName (EvSalesOrderCreated zero_value))
    "sales.integration.sales_order_created"
    (λ event, in_sales (PublishSalesOrderCreated event)) bus in
  let bus := SubscribeIntegrationEvent "sales.on_order_allocation_completed"
    OrderAllocationCompletedTopic (λ payload, in_sales (OnAllocationCompleted payload)) bus in
  SubscribeIntegrationEvent "sales.on_order_allocation_rejected"
    OrderAllocationRejectedTopic (λ payload, in_sales (OnAllocationRejected payload)) bus.

Definition warehouses_Register (bus : subscriptions) : subscriptions :=
  let repository := beers in
  let sagaRepository := sagas in
  let bus := RegisterCommandHandler
    (MessageName (zero_value : UpdateAvailabilityDueToProductionOrder))
    (λ command, in_warehouse (HandleUpdateDueToProductionOrder repository command)) bus in
  let bus := RegisterCommandHandler
    (MessageName (zero_value : UpdateAvailabilityDueToSalesOrder))
    (λ command, in_warehouse (HandleUpdateDueToSalesOrder repository command)) bus in
  let bus := RegisterCommandHandler
    (MessageName (zero_value : CompensateAvailabilityDueToFailedAllocation))
    (λ command, in_warehouse (HandleCompensate repository command)) bus in
  let bus := RegisterDomainEventHandler
    (MessageName (EvAvailabilityUpdatedDueToProductionOrder zero_value))
    "warehouses.readmodel.availability_updated"
    (λ event, in_beers_shown (ProjectAvailabilityUpdatedDueToProductionOrder event)) bus in
  let bus := RegisterDomainEventHandler (MessageName (EvBeerAvailabilityUpdated zero_value))
    "warehouses.readmodel.beer_availability_updated"
    (λ event, in_beers_shown (ProjectBeerAvailabilityUpdated event)) bus in
  let bus := RegisterDomainEventHandler (MessageName (EvAvailabilityCompensated zero_value))
    "warehouses.readmodel.availability_compensated"
    (λ event, in_beers_shown (ProjectAvailabilityCompensated event)) bus in
  let bus := SubscribeIntegrationEvent "warehouses.saga.on_sales_order_created"
    SalesOrderCreatedTopic
    (λ payload, in_warehouse (OnSalesOrderCreated sagaRepository payload)) bus in
  let bus := RegisterDomainEventHandler (MessageName (EvBeerAvailabilityUpdated zero_value))
    "warehouses.saga.on_beer_availability_updated"
    (λ event, in_warehouse (OnBeerAvailabilityUpdated sagaRepository event)) bus in
  let bus := RegisterDomainEventHandler (MessageName (EvQuantityNotFound zero_value))
    "warehouses.saga.on_quantity_not_found"
    (λ event, in_warehouse (OnQuantityNotFound sagaRepository event)) bus in
  RegisterDomainEventHandler (MessageName (EvAvailabilityCompensated zero_value))
    "warehouses.saga.on_availability_compensated"
    (λ event, in_warehouse (OnAvailabilityCompensated sagaRepository event)) bus.

(** [app.New]: the bus, then the modules. *)
Definition wiring : subscriptions := warehouses_Register (sales_Register NewServiceBus).

(** ** The steps of the running application *)

(** A message reaches a subscription: the retry middleware runs the handler;
    sleeping moves the clock. *)
Definition consume (done_ : nat → bool) (sub : pendingSubscription System P) (payload : P)
    : GoM System unit :=
  retryMiddleware done_ (λ d s, at_time (sys_now s + d) s) (sub_handler sub payload).

Inductive step : System → System → Prop :=
| step_deliver s topic payload sub done_ r s' :
    (topic, payload) ∈ published (sys_bus s) → sub ∈ subscribers topic wiring →
    consume done_ sub payload s = (r, s') → step s s'
| step_park s topic payload r b' :
    (topic, payload) ∈ published (sys_bus s) →
    Publish DeadLetterTopic payload (sys_bus s) = (r, b') → step s (put_system_bus b' s)
| step_order s body r s' :
    in_sales (Facade_CreateSalesOrder body) s = (r, s') → step s s'
| step_production s body r s' :
    in_warehouse (Facade_UpdateAvailabilityDueToProductionOrder body) s = (r, s') → step s s'
| step_resume s r s' :
    in_warehouse (ResumeInFlight sagas (Some ListStreams)) s = (r, s') → step s s'
| step_sweep s cutoff r s' :
    in_warehouse (TimeoutInFlight sagas (Some ListStreams) cutoff) s = (r, s') → step s s'
| step_relay_sales s store b :
    relays (sys_sales s) (sys_bus s) store b →
    step s (put_sales (mkWorld store b (sys_now s) (sys_minted s)) s)
| step_relay_warehouses s store b :
    relays (sys_warehouses s) (sys_bus s) store b →
    step s (put_warehouse (mkWorld store b (sys_now s) (sys_minted s)) s)
| step_restart s b t :
    direct = false → (∀ message, message ∈ published b → message ∈ published (sys_bus s)) →
    sys_now s ≤ t → step s (at_time t (put_system_bus b s))
| step_clock s t : sys_now s ≤ t → step s (at_time t s).

(** A run of the application from [s]. *)
Inductive run : System → System → Prop :=
| run_start s : run s s
| run_step s s' s'' : run s s' → step s' s'' → run s s''.
End system.
Arguments System : clear implicits.
