(* ===== verification/System.v ===== *)
(** * The two contexts together

    What holds at every moment of a run of the application: each stored event and
    each message on the wire is true of the stores. From it, the agreement of an
    order with its saga and the stock behind an allocated order. *)
From S2P Require Import Prelude Errors Kernel Aggregate EventStore World Repository Frame.
From S2P Require Import Bus Json Wire.
From S2P Require Import SalesKernel SalesJson SalesOrder SalesHandlers SalesSteps.
From S2P Require Import SalesReadModel SalesFacade SalesIntegration.
From S2P Require Import WarehouseKernel WarehouseJson Availability Saga WarehouseHandlers.
From S2P Require Import WarehouseReadModel WarehouseFacade Histories SagaRunner SagaContract.
From S2P Require Import SagaWire WarehouseSteps Contracts Wiring.
#[local] Open Scope Z_scope.

(** ** What can be encoded *)
Section encoded.
Context `{GoText} {U : UuidLib} {P : Type} `{!JsonText P}.

(** The created event has the fields of the command that asked for it. *)
Lemma created_writable c :
  writable (P := P) c → writable (P := P) (EvSalesOrderCreated (created_by c)).
Proof.
  unfold writable, json_Marshal, marshal_json, to_json, SalesEvent_to_json, cso_to_json.
  intros [p Hp]. unfold to_json, soc_to_json, object in *. simpl in *.
  destruct (OrderDate_to_json _) eqn:E1; simpl in *; [|done..].
  destruct (slice_to_json _) eqn:E2; simpl in *; [|done..].
  unfold to_json. rewrite E1, E2. simpl. by eexists.
Qed.

(** An encoded production order is about a Go [int]. *)
Lemma production_range (c : UpdateAvailabilityDueToProductionOrder) (p : P) :
  json_Marshal c = Ok p → Int.in_range (Value (uapo_Quantity c)).
Proof.
  unfold json_Marshal, marshal_json, to_json, production_to_json, object. simpl.
  unfold to_json at 1. unfold Quantity_to_json, object. simpl.
  destruct (to_json (Value _)) eqn:Hz; [|done..]. intros _.
  unfold to_json, int_to_json in Hz. by case_decide.
Qed.
End encoded.

Section soundness.
Context `{GoText} {U : UuidLib} {SS WS B P RS RW : Type}.
Context `{!EventStore SalesEvent SS, !EventStore WarehouseEvent WS, !StreamLister WS}.
Context `{!WirePublisher B P, !WirePublisherLaws B P, !JsonText P}.
Context `{!SalesReadModel RS, !AvailabilityReadModel RW}.
Context (sview : SS → string → list (StoredEvent SalesEvent)) `{!EventStoreLaws sview}.
Context (wview : WS → string → list (StoredEvent WarehouseEvent)) `{!EventStoreLaws wview}.
Context `{!StreamListerLaws StreamLister0 wview}.
Context {Pub : Publication} `{!OutboxRelay SS B, !OutboxRelay WS B}.
Context `{!RelayLaws (B := B) (P := P) sview, !RelayLaws (B := B) (P := P) wview}.

Abbreviation System := (System SS WS B RS RW).
Implicit Types (s : System) (id b : UUID).

Abbreviation bus_orders := (bus_orders (B := B) (P := P)).
Abbreviation sagas := (sagas (B := B) (P := P)).
Abbreviation beers := (beers (B := B) (P := P)).

(** ** What is in the stores *)
Definition order_log s id : list SalesEvent := history sview bus_orders (sales_world s) id.
Definition saga_log s id : list WarehouseEvent := history wview sagas (warehouse_world s) id.
Definition book s b : list WarehouseEvent := history wview beers (warehouse_world s) b.
Definition saga_at s id : OrderAllocationSaga := replay sagas (saga_log s id).
Definition order_at s id : SalesOrder := replay bus_orders (order_log s id).
Definition beer_at s b : Availability := replay beers (book s b).

Abbreviation completed s id := (status (saga_at s id) = SagaCompleted).
Abbreviation rejected s id re :=
  (status (saga_at s id) = SagaRejected ∧ reason (saga_at s id) = re).

(** ** What the events say *)

(** A creation came in a message and can go out in one; a settlement repeats the
    outcome of the order's saga. *)
Definition true_order s id (e : SalesEvent) : Prop :=
  match e with
  | EvSalesOrderCreated _ => writable (P := P) e
  | EvSalesOrderAllocated _ => completed s id
  | EvSalesOrderAllocationRejected x => rejected s id (sor_Reason x)
  end.

(** A saga starts with its order's rows; a step succeeded because the beer's
    book says so, and only the book says so. *)
Definition true_saga s id (e : WarehouseEvent) : Prop :=
  match e with
  | EvOrderAllocationStarted x =>
      ∃ c, EvSalesOrderCreated c ∈ order_log s id ∧ oas_Rows x = map saga_row (soc_Rows c)
  | EvAllocationStepSucceeded x =>
      ∃ b u, ass_BeerId x = uuid_String b ∧ EvBeerAvailabilityUpdated u ∈ book s b ∧
        bau_SalesOrderId u = uuid_String id
  | EvBeerAvailabilityUpdated _ => False
  | _ => True
  end.

(** A book is about its beer and counts in machine integers; stock is given back
    for failed sagas only. *)
Definition true_beer s b (e : WarehouseEvent) : Prop :=
  event_beer e = Some b ∧ machine_event e ∧
  match e with
  | EvBeerAvailabilityUpdated x => ∃ id, bau_SalesOrderId x = uuid_String id
  | EvAvailabilityCompensated x =>
      ∃ id, ac_SalesOrderId x = uuid_String id ∧ failed (saga_at s id)
  | _ => True
  end.

(** ** What the messages say, whatever reads them *)
Record told s (topic : string) (p : P) : Prop := {
  told_create : topic = "commands.sales.create_sales_order"%string →
    ∀ c : CreateSalesOrder, json_Unmarshal p = Ok c →
      addressed (Create c) ∧ writable (P := P) c;
  told_allocated : topic = "commands.sales.mark_sales_order_allocated"%string →
    ∀ c : MarkSalesOrderAllocated, json_Unmarshal p = Ok c →
      completed s (cmd_AggregateId (msa_base c));
  told_rejected : topic = "commands.sales.mark_sales_order_allocation_rejected"%string →
    ∀ c : MarkSalesOrderAllocationRejected, json_Unmarshal p = Ok c →
      rejected s (cmd_AggregateId (msr_base c)) (msr_Reason c);
  told_produce : topic = "commands.warehouses.update_availability_due_to_production_order"%string →
    ∀ c : UpdateAvailabilityDueToProductionOrder, json_Unmarshal p = Ok c →
      to_its_beer (Produce c);
  told_allocate : topic = "commands.warehouses.update_availability_due_to_sales_order"%string →
    ∀ c : UpdateAvailabilityDueToSalesOrder, json_Unmarshal p = Ok c →
      to_its_beer (Allocate c) ∧ ∃ id, uaso_SalesOrderId c = uuid_String id;
  told_compensate :
    topic = "commands.warehouses.compensate_availability_due_to_failed_allocation"%string →
    ∀ c : CompensateAvailabilityDueToFailedAllocation, json_Unmarshal p = Ok c →
      to_its_beer (Compensate c) ∧
      ∃ id, cafa_SalesOrderId c = uuid_String id ∧ failed (saga_at s id);
  told_created : topic = "events.sales.sales_order_created"%string →
    ∀ e : SalesOrderCreated, json_Unmarshal p = Ok e →
      EvSalesOrderCreated e ∈ order_log s (SalesOrderId_Value (soc_SalesOrderId e));
  told_trigger : topic = "integrationevents.sales.sales_order_created"%string →
    ∀ (m : salesOrderCreatedMessage) id, json_Unmarshal p = Ok m →
      uuid_Parse (msg_SalesOrderId m) = Some id →
      ∃ c, EvSalesOrderCreated c ∈ order_log s id ∧ msg_Rows m = map saga_row (soc_Rows c);
  told_updated : topic = "events.warehouses.beer_availability_updated"%string →
    ∀ e : BeerAvailabilityUpdated, json_Unmarshal p = Ok e →
      EvBeerAvailabilityUpdated e ∈ book s (BeerId_Value (bau_BeerId e));
  told_completion : topic = "integrationevents.warehouses.order_allocation_completed"%string →
    ∀ (m : allocationOutcomeMessage) id, json_Unmarshal p = Ok m →
      uuid_Parse (aom_SalesOrderId m) = Some id → completed s id;
  told_rejection : topic = "integrationevents.warehouses.order_allocation_rejected"%string →
    ∀ (m : allocationOutcomeMessage) id, json_Unmarshal p = Ok m →
      uuid_Parse (aom_SalesOrderId m) = Some id → rejected s id (aom_Reason m);
}.

(** ** The invariant *)

(** Orders are created in the orders' streams, stock is taken in the beers'. *)
Record placed s : Prop := {
  placed_created : ∀ sid c, EvSalesOrderCreated c ∈ Event <$> sview (sys_sales s) sid →
    ∃ id, sid = stream bus_orders id;
  placed_updated : ∀ sid u, EvBeerAvailabilityUpdated u ∈ Event <$> wview (sys_warehouses s) sid →
    ∃ b, sid = stream beers b;
}.

Record sound s : Prop := {
  sound_placed : placed s;
  sound_shapes : ∀ id, order_shape id (order_log s id);
  sound_sagas : sagas_ok wview (warehouse_world s);
  sound_orders : ∀ id e, e ∈ order_log s id → true_order s id e;
  sound_logs : ∀ id e, e ∈ saga_log s id → true_saga s id e;
  sound_books : ∀ b e, e ∈ book s b → true_beer s b e;
  sound_wire : ∀ t p, (t, p) ∈ published (sys_bus s) → told s t p;
}.

(** ** Growth: nothing stored is lost, no saga turns back *)
Record extends s s' : Prop := {
  extends_orders : ∀ id e, e ∈ order_log s id → e ∈ order_log s' id;
  extends_books : ∀ b e, e ∈ book s b → e ∈ book s' b;
  extends_sagas : ∀ id, saga_log s id ≠ [] →
    saga_log s' id ≠ [] ∧ advances (saga_at s id) (saga_at s' id);
}.

#[global] Instance extends_preorder : PreOrder extends.
Proof.
  split.
  - intros s. split; auto. intros id ?. split; [done|]. reflexivity.
  - intros s1 s2 s3 [o1 b1 g1] [o2 b2 g2]. split; auto.
    intros id [H2 A2]%g1. destruct (g2 id H2) as [H3 A3]. split; [done|]. by etrans.
Qed.

Lemma saga_log_status s id : status (saga_at s id) ≠ SagaUnset → saga_log s id ≠ [].
Proof. unfold saga_at. intros Hs Hl. by rewrite Hl in Hs. Qed.

Lemma completed_extends s s' id : extends s s' → completed s id → completed s' id.
Proof.
  intros Hx Hc. destruct (extends_sagas s s' Hx id) as [_ Ha];
    [apply saga_log_status; by rewrite Hc|]. by apply (advances_completed _ _ Ha).
Qed.

Lemma rejected_extends s s' id re : extends s s' → rejected s id re → rejected s' id re.
Proof.
  intros Hx [Hs <-]. destruct (extends_sagas s s' Hx id) as [_ Ha];
    [apply saga_log_status; by rewrite Hs|]. by apply (advances_rejected _ _ Ha).
Qed.

Lemma failed_extends s s' id : extends s s' → failed (saga_at s id) → failed (saga_at s' id).
Proof.
  intros Hx Hf. destruct (extends_sagas s s' Hx id) as [_ Ha].
  - apply saga_log_status. by destruct Hf as [-> | ->].
  - by apply (advances_failed _ _ Ha).
Qed.

Lemma true_order_extends s s' id e : extends s s' → true_order s id e → true_order s' id e.
Proof. destruct e; simpl; [done|apply completed_extends|apply rejected_extends]. Qed.

Lemma true_saga_extends s s' id e : extends s s' → true_saga s id e → true_saga s' id e.
Proof.
  intros Hx. destruct e; simpl; try done.
  - intros (c & Hc & Hr). exists c. split; [by eapply extends_orders|done].
  - intros (b & u & Hb & Hu & Ho). exists b, u. split; [done|]. split; [by eapply extends_books|done].
Qed.

Lemma true_beer_extends s s' b e : extends s s' → true_beer s b e → true_beer s' b e.
Proof.
  intros Hx (Hb & Hm & He). split; [done|]. split; [done|]. destruct e; try done.
  destruct He as (id & Hid & Hf). exists id. split; [done|]. by eapply failed_extends.
Qed.

Lemma told_extends s s' t p : extends s s' → told s t p → told s' t p.
Proof.
  intros Hx [h1 h2 h3 h4 h5 h6 h7 h8 h9 h10 h11].
  split; intros Ht; [exact (h1 Ht)|..|]; intros; 
    eauto using completed_extends, rejected_extends, extends_orders, extends_books.
  - destruct (h6 Ht c ltac:(done)) as (? & id & ? & ?). eauto 6 using failed_extends.
  - destruct (h8 Ht m id ltac:(done) ltac:(done)) as (c & ? & ?).
    eauto 6 using extends_orders.
Qed.

(** A step that keeps what is stored and adds only truths is sound. *)
Lemma keep_sound_wire s s' :
  sound s → extends s s' →
  (∀ id, order_shape id (order_log s' id)) → sagas_ok wview (warehouse_world s') →
  (∀ id e, e ∈ order_log s' id → e ∈ order_log s id ∨ true_order s' id e) →
  (∀ id e, e ∈ saga_log s' id → e ∈ saga_log s id ∨ true_saga s' id e) →
  (∀ b e, e ∈ book s' b → e ∈ book s b ∨ true_beer s' b e) →
  (∀ t p, (t, p) ∈ published (sys_bus s') → (t, p) ∈ published (sys_bus s) ∨ told s' t p) →
  placed s' → sound s'.
Proof.
  intros [hp hs hg ho hl hb hw] Hx Hshapes Hsagas Ho Hl Hb Hw Hpl.
  split; [done|done|done|..].
  - intros id e He. destruct (Ho id e He); [eauto using true_order_extends|done].
  - intros id e He. destruct (Hl id e He); [eauto using true_saga_extends|done].
  - intros b e He. destruct (Hb b e He); [eauto using true_beer_extends|done].
  - intros t p [Hin|Hin]%Hw; [eauto using told_extends|done].
Qed.

Lemma keep_sound s s' :
  sound s → extends s s' →
  (∀ id, order_shape id (order_log s' id)) → sagas_ok wview (warehouse_world s') →
  (∀ id e, e ∈ order_log s' id → e ∈ order_log s id ∨ true_order s' id e) →
  (∀ id e, e ∈ saga_log s' id → e ∈ saga_log s id ∨ true_saga s' id e) →
  (∀ b e, e ∈ book s' b → e ∈ book s b ∨ true_beer s' b e) →
  emitted (λ tp, told s' tp.1 tp.2) (sys_bus s) (sys_bus s') → placed s' →
  sound s'.
Proof.
  intros Hs Hx Hshapes Hsagas Ho Hl Hb (l & Hpub & Hf) Hpl. eapply keep_sound_wire; try done.
  intros t p. rewrite Hpub, elem_of_app. intros [?|Hin]; [by left|right].
  rewrite Forall_forall in Hf. exact (Hf (t, p) Hin).
Qed.

(** A step of the sales module stays in the orders' streams. *)
Lemma placed_sales s w' :
  placed s → (∀ sid, beside_orders sid → sview (w_store w') sid = sview (sys_sales s) sid) →
  placed (put_sales w' s).
Proof.
  intros [hc hu] Ho. split; [|exact hu]. intros sid c Hc.
  destruct (decide (∃ id, sid = stream bus_orders id)) as [|Hn]; [done|].
  apply (hc sid c). rewrite <- Ho by done. exact Hc.
Qed.

(** A step of the warehouse module stays in the beers' streams, or in the sagas'
    where it takes no stock. *)
Lemma placed_warehouse s w' :
  placed s →
  (∀ sid u, EvBeerAvailabilityUpdated u ∈ Event <$> wview (w_store w') sid →
     (∃ b, sid = stream beers b) ∨
     EvBeerAvailabilityUpdated u ∈ Event <$> wview (sys_warehouses s) sid) →
  placed (put_warehouse w' s).
Proof.
  intros [hc hu] Ho. split; [exact hc|]. intros sid u [?|Hu]%Ho; [done|]. by apply (hu sid u).
Qed.
(** ** What the messages of the program tell *)

(** The entry's topic is concrete: discard the claims about other topics. *)
Ltac tell := split; intros Ht; try discriminate Ht.

Lemma tell_conveyed_order s e t p :
  (∀ c, e = EvSalesOrderCreated c → e ∈ order_log s (SalesOrderId_Value (soc_SalesOrderId c))) →
  conveys e (t, p) → told s t p.
Proof.
  intros He [Ht (j & j' & Hj & Hp & Hsame)]. simpl in Ht, Hp. subst t. destruct e as [c|c|c]; tell.
  intros x Hx. rewrite (unmarshal_same (f := λ x, x) c p j j' Hj Hp Hsame) in Hx.
  injection Hx as <-. by apply He.
Qed.

Lemma tell_conveyed_beer s e t p :
  (∀ u, e = EvBeerAvailabilityUpdated u → e ∈ book s (BeerId_Value (bau_BeerId u))) →
  conveys e (t, p) → told s t p.
Proof.
  intros He [Ht (j & j' & Hj & Hp & Hsame)]. simpl in Ht, Hp. subst t.
  destruct e as [c|c|c|c|c|c|c|c|c|c]; tell.
  intros x Hx. rewrite (unmarshal_same (f := λ x, x) c p j j' Hj Hp Hsame) in Hx.
  injection Hx as <-. by apply He.
Qed.

Lemma tell_order_event s e t p :
  (∀ c, e = EvSalesOrderCreated c → e ∈ order_log s (SalesOrderId_Value (soc_SalesOrderId c))) →
  announces e (t, p) → told s t p.
Proof.
  intros He [Ht Hp]. eapply tell_conveyed_order; [exact He|]. by apply marshalled_conveys.
Qed.

Lemma tell_beer_event s e t p :
  (∀ u, e = EvBeerAvailabilityUpdated u → e ∈ book s (BeerId_Value (bau_BeerId u))) →
  announces e (t, p) → told s t p.
Proof.
  intros He [Ht Hp]. eapply tell_conveyed_beer; [exact He|]. by apply marshalled_conveys.
Qed.

Lemma tell_backed s t p : backed (saga_at s) (t, p) → told s t p.
Proof.
  intros (m & Hm & [Ht Hp]). simpl in Ht, Hp. destruct m as [c|c|e|e|e]; simpl in Ht, Hp, Hm.
  - subst t. tell. intros x Hx. rewrite (unmarshal_reads (f := λ x, x) c p Hp) in Hx.
    by injection Hx as <-.
  - subst t. tell. intros x Hx. rewrite (unmarshal_reads (f := λ x, x) c p Hp) in Hx.
    by injection Hx as <-.
  - apply (tell_beer_event s e); [|by split]. intros u ->. by destruct Hm.
  - destruct Hm as (id & c & -> & Hs). subst t. tell. intros m' id' Hm'.
    rewrite (completed_contract _ p Hp) in Hm'. injection Hm' as <-. simpl.
    rewrite uuid_Parse_String. by intros [= <-].
  - destruct Hm as (id & c & -> & Hs). subst t. tell. intros m' id' Hm'.
    rewrite (unmarshal_reads (f := read_rejected) _ p Hp) in Hm'. injection Hm' as <-. simpl.
    rewrite uuid_Parse_String. intros [= <-]. done.
Qed.

(** ** Steps that touch no stream *)
Definition same_stores s s' : Prop :=
  (∀ sid, sview (sys_sales s') sid = sview (sys_sales s) sid) ∧
  (∀ sid, wview (sys_warehouses s') sid = wview (sys_warehouses s) sid).

Lemma same_stores_extends s s' : same_stores s s' → extends s s'.
Proof.
  intros [Hs Hw].
  assert (∀ id, saga_log s' id = saga_log s id) as Hl
    by (intros id; unfold saga_log, history; simpl; by rewrite Hw).
  split.
  - intros id e. unfold order_log, history. simpl. by rewrite Hs.
  - intros b e. unfold book, history. simpl. by rewrite Hw.
  - intros id. unfold saga_at. rewrite !Hl. intros ?. split; [done|]. reflexivity.
Qed.

Lemma wire_step s s' :
  sound s → same_stores s s' →
  (∀ t p, (t, p) ∈ published (sys_bus s') → (t, p) ∈ published (sys_bus s) ∨ told s t p) →
  sound s' ∧ extends s s'.
Proof.
  intros Hs Hss Hw. pose proof (same_stores_extends s s' Hss) as Hx. split; [|done].
  destruct Hss as [Es Ew].
  assert (∀ id, order_log s' id = order_log s id) as Eo
    by (intros id; unfold order_log, history; simpl; by rewrite Es).
  assert (∀ id, saga_log s' id = saga_log s id) as El
    by (intros id; unfold saga_log, history; simpl; by rewrite Ew).
  assert (∀ b, book s' b = book s b) as Eb
    by (intros b; unfold book, history; simpl; by rewrite Ew).
  apply (keep_sound_wire s); try done.
  - intros id. rewrite Eo. apply Hs.
  - eapply (sagas_ok_same wview (warehouse_world s)); [apply Hs|]. exact El.
  - intros id e. rewrite Eo. by left.
  - intros id e. rewrite El. by left.
  - intros b e. rewrite Eb. by left.
  - intros t p [?|?]%Hw; [by left|right]. by eapply told_extends.
  - destruct (sound_placed _ Hs) as [hc hu].
    split; [intros sid c; rewrite Es; apply hc|intros sid u; rewrite Ew; apply hu].
Qed.

Lemma bus_step s s' :
  sound s → same_stores s s' →
  emitted (λ tp, told s tp.1 tp.2) (sys_bus s) (sys_bus s') →
  sound s' ∧ extends s s'.
Proof.
  intros Hs Hss (l & Hpub & Hf). apply wire_step; [done|done|].
  intros t p. rewrite Hpub, elem_of_app. intros [?|Hin]; [by left|right].
  rewrite Forall_forall in Hf. exact (Hf (t, p) Hin).
Qed.
(** ** The handlers *)
Definition safe (m : GoM System unit) s : Prop :=
  ∀ r s', m s = (r, s') → sound s' ∧ extends s s'.

Lemma in_sales_inv {A} (m : GoM (World SS B) A) s r s' :
  in_sales m s = (r, s') → ∃ w', m (sales_world s) = (r, w') ∧ s' = put_sales w' s.
Proof. unfold in_sales, zoom. destruct (m _) as [r' w']. intros [= <- <-]. eauto. Qed.

Lemma in_warehouse_inv {A} (m : GoM (World WS B) A) s r s' :
  in_warehouse m s = (r, s') → ∃ w', m (warehouse_world s) = (r, w') ∧ s' = put_warehouse w' s.
Proof. unfold in_warehouse, zoom. destruct (m _) as [r' w']. intros [= <- <-]. eauto. Qed.

(** *** Sales commands *)

(** What a settlement command must be able to rely on. *)
Definition justified s (d : sales_delivery) : Prop :=
  match d with
  | Create c => writable (P := P) c
  | Allocated c => completed s (cmd_AggregateId (msa_base c))
  | Rejected c => rejected s (cmd_AggregateId (msr_base c)) (msr_Reason c)
  end.

Lemma sales_extends s w' :
  (∀ id e, e ∈ order_log s id → e ∈ history sview bus_orders w' id) → extends s (put_sales w' s).
Proof. intros Ho. split; [exact Ho|done|]. intros id ?. split; [done|]. reflexivity. Qed.

(** An order's stream creates that order. *)
Lemma created_in_shape id l c :
  order_shape id l → EvSalesOrderCreated c ∈ l → SalesOrderId_Value (soc_SalesOrderId c) = id.
Proof.
  intros [|e Hid _|e a Hid _]; [by intros ?%elem_of_nil|..].
  - by intros [= ->]%list_elem_of_singleton.
  - intros [[= ->]|Hin%list_elem_of_singleton]%elem_of_cons; [done|by destruct a].
Qed.

Lemma safe_sales d s :
  sound s → addressed d → justified s d → safe (in_sales (handle_sales bus_orders d)) s.
Proof.
  intros Hs Ha Hj r s' (w' & Hr & ->)%in_sales_inv.
  assert (placed (put_sales w' s)) as Hpl.
  { apply placed_sales; [apply Hs|].
    exact (frame_sales sview (sview (sys_sales s)) d _ _ _ Hr (λ _ _, eq_refl)). }
  apply (sales_effect sview) in Hr as [Ho Hc]; [|done|apply (sound_shapes _ Hs)].
  set (t := sales_target d) in *.
  destruct Hc as [[Hlog Hbus]|(e & Hlog & Hsh & Hans & Hem)].
  - assert (∀ id, history sview bus_orders w' id = order_log s id) as Hall.
    { intros id. destruct (decide (id = t)) as [->|]; [exact Hlog|by apply Ho]. }
    assert (extends s (put_sales w' s)) as Hx by (apply sales_extends; intros id e; by rewrite Hall).
    split; [|done]. apply (keep_sound s); try done; try (intros; by left).
    + intros id. change (order_shape id (history sview bus_orders w' id)). rewrite Hall. apply Hs.
    + apply Hs.
    + intros id e He. left. by rewrite <- Hall.
    + simpl. rewrite Hbus. apply emitted_refl.
  - assert (∀ id e', e' ∈ history sview bus_orders w' id →
      e' ∈ order_log s id ∨ id = t ∧ e' = e) as Hnew.
    { intros id e'. destruct (decide (id = t)) as [->|Hne]; [|rewrite Ho by done; by left].
      rewrite Hlog, elem_of_app, list_elem_of_singleton. intros [?|?]; [by left|by right]. }
    assert (extends s (put_sales w' s)) as Hx.
    { apply sales_extends. intros id e' He. destruct (decide (id = t)) as [->|Hne];
        [rewrite Hlog; set_solver|by rewrite Ho]. }
    split; [|done]. apply (keep_sound s); try done; try (intros; by left).
    + intros id. change (order_shape id (history sview bus_orders w' id)).
      destruct (decide (id = t)) as [->|Hne]; [done|]. rewrite Ho by done. apply Hs.
    + apply Hs.
    + intros id e' [?|[-> ->]]%Hnew; [by left|right].
      destruct d as [c|c|c], e as [x|x|x]; simpl in Hans; try done; simpl in Hj |- *.
      * rewrite Hans. by apply created_writable.
      * rewrite Hans. exact Hj.
    + eapply emitted_mono; [|exact Hem]. intros [t' p] Han. eapply tell_order_event; [|exact Han].
      intros c ->. assert (EvSalesOrderCreated c ∈ history sview bus_orders w' t) as Hin
        by (rewrite Hlog; set_solver).
      by rewrite (created_in_shape t _ c Hsh Hin).
Qed.
(** *** Warehouse commands *)
Definition on_order s (d : delivery) : Prop :=
  match d with
  | Produce _ => True
  | Allocate c => ∃ id, uaso_SalesOrderId c = uuid_String id
  | Compensate c => ∃ id, cafa_SalesOrderId c = uuid_String id ∧ failed (saga_at s id)
  end.

(** A step of the warehouse module from its world to [w']. *)
Lemma warehouse_step s w' :
  sound s → sagas_ok wview w' →
  (∀ b e, e ∈ book s b → e ∈ history wview beers w' b) →
  (∀ id, saga_log s id ≠ [] → history wview sagas w' id ≠ [] ∧
     advances (saga_at s id) (saga_of wview w' id)) →
  (∀ id e, e ∈ history wview sagas w' id →
     e ∈ saga_log s id ∨ true_saga (put_warehouse w' s) id e) →
  (∀ b e, e ∈ history wview beers w' b →
     e ∈ book s b ∨ true_beer (put_warehouse w' s) b e) →
  emitted (λ tp, told (put_warehouse w' s) tp.1 tp.2) (sys_bus s) (w_bus w') →
  placed (put_warehouse w' s) →
  sound (put_warehouse w' s) ∧ extends s (put_warehouse w' s).
Proof.
  intros Hs Hok Hb Hg Hl Hb' He Hpl.
  assert (extends s (put_warehouse w' s)) as Hx by (by split).
  split; [|done]. apply (keep_sound s); try done; [apply Hs|by left].
Qed.

Lemma safe_handle d s :
  sound s → to_its_beer d → on_order s d → safe (in_warehouse (handle beers d)) s.
Proof.
  intros Hs Hd Hj r s' (w' & Hr & ->)%in_warehouse_inv.
  pose proof (frame_handle wview (wview (sys_warehouses s)) d _ _ _ Hr (λ _ _, eq_refl)) as Hfr.
  assert (∀ id, history wview sagas w' id = saga_log s id) as Hsame.
  { intros id. unfold saga_log, history. by rewrite Hfr by apply saga_not_beer. }
  assert (placed (put_warehouse w' s)) as Hpl.
  { apply placed_warehouse; [apply Hs|]. intros sid u Hu.
    destruct (decide (∃ b, sid = stream beers b)) as [|Hn]; [by left|right].
    by rewrite Hfr in Hu. }
  apply (handle_effect wview) in Hr as [Ho Hc]; [|done|intros e He; by destruct (sound_books _ Hs _ e He) as (? & ? & _)].
  set (t := target d) in *.
  assert (∃ new, history wview beers w' t = book s t ++ new ∧
    Forall (λ e, event_beer e = Some t ∧ on_behalf d e ∧ machine_event e) new ∧
    (new = [] → w_bus w' = sys_bus s) ∧
    (∀ e, e ∈ new → emitted (announces e) (sys_bus s) (w_bus w'))) as (new & Hnew & Hev & Hnil & Hann).
  { destruct Hc as [[-> Hbus]|(e & -> & Hev & Hon & Hm & Hem)].
    - exists []. split; [by rewrite app_nil_r|]. split; [constructor|]. split; [done|].
      by intros e ?%elem_of_nil.
    - exists [e]. split; [done|]. split; [by repeat constructor|]. split; [done|].
      by intros e' ->%list_elem_of_singleton. }
  assert (∀ b e, e ∈ history wview beers w' b → e ∈ book s b ∨ b = t ∧ e ∈ new) as Hsplit.
  { intros b e. destruct (decide (b = t)) as [->|Hne]; [|rewrite Ho by done; by left].
    rewrite Hnew, elem_of_app. intros [?|?]; [by left|by right]. }
  assert (∀ b e, e ∈ book s b → e ∈ history wview beers w' b) as Hkeep.
  { intros b e He. destruct (decide (b = t)) as [->|Hne]; [rewrite Hnew; set_solver|by rewrite Ho]. }
  assert (∀ id, saga_of wview w' id = saga_at s id) as Hsg
    by (intros id; unfold saga_of, saga_at; by rewrite Hsame).
  rewrite Forall_forall in Hev. apply warehouse_step; try done.
  - eapply sagas_ok_same; [apply Hs|exact Hsame].
  - intros id. rewrite Hsame, Hsg. intros ?. split; [done|]. reflexivity.
  - intros id e. rewrite Hsame. by left.
  - intros b e [?|[-> He]]%Hsplit; [by left|right]. destruct (Hev e He) as (Hbeer & Hon & Hm).
    split; [done|]. split; [done|]. destruct e as [|x|x|x| | | | | |]; try done; simpl in Hon.
    + destruct Hon as (c & -> & ->). exact Hj.
    + destruct Hon as (c & -> & ->). destruct Hj as (id & Hid & Hf). exists id.
      split; [done|]. change (failed (saga_of wview w' id)). by rewrite Hsg.
  - destruct new as [|e new]; [rewrite Hnil by done; apply emitted_refl|].
    eapply emitted_mono; [|apply (Hann e); left]. intros [t' p] Han.
    eapply tell_beer_event; [|exact Han]. intros u ->.
    destruct (Hev (EvBeerAvailabilityUpdated u) ltac:(left)) as [[= ->] _].
    change (EvBeerAvailabilityUpdated u ∈ history wview beers w' t). rewrite Hnew. set_solver.
Qed.
(** *** The saga runner *)
Lemma runner_safe s w' :
  sound s → grows wview (warehouse_world s) w' →
  (∀ sid, beside_sagas sid → wview (w_store w') sid = wview (sys_warehouses s) sid) →
  emitted (backed (saga_of wview w')) (sys_bus s) (w_bus w') →
  (∀ id e, e ∈ history wview sagas w' id →
     e ∈ saga_log s id ∨ true_saga (put_warehouse w' s) id e) →
  sound (put_warehouse w' s) ∧ extends s (put_warehouse w' s).
Proof.
  intros Hs Hg Hfr He Hl.
  assert (∀ b, history wview beers w' b = book s b) as Hb.
  { intros b. unfold book, history. by rewrite Hfr by apply beer_not_saga. }
  apply warehouse_step; try done.
  - apply Hg.
  - intros b e. by rewrite Hb.
  - intros id Hne. split.
    + destruct Hg as [_ Hg]. destruct (Hg id) as [[es E] _].
      change (history wview sagas w' id = saga_log s id ++ es) in E. rewrite E.
      by intros [? _]%app_eq_nil.
    + apply (grows_advances wview (warehouse_world s)); [apply Hs|done|done].
  - intros b e. rewrite Hb. by left.
  - eapply emitted_mono; [|exact He]. intros [t p] Hb'. exact (tell_backed (put_warehouse w' s) t p Hb').
  - apply placed_warehouse; [apply Hs|]. intros sid u Hu. right.
    destruct (decide (∃ id, sid = stream sagas id)) as [[id ->]|Hn]; [|by rewrite Hfr in Hu].
    by destruct (Hl id _ Hu).
Qed.

(** A saga handler leaves the other streams alone. *)
Lemma beside_framed {A} (m : GoM (World WS B) A) s r w' :
  (∀ content, preserves (holds_streams wview beside_sagas content) m) →
  m (warehouse_world s) = (r, w') →
  ∀ sid, beside_sagas sid → wview (w_store w') sid = wview (sys_warehouses s) sid.
Proof. intros Hf Hm. by apply (Hf (wview (sys_warehouses s)) _ _ _ Hm). Qed.

Lemma safe_trigger payload s :
  sound s → told s "integrationevents.sales.sales_order_created" payload →
  safe (in_warehouse (OnSalesOrderCreated sagas payload)) s.
Proof.
  intros Hs Ht r s' (w' & Hr & ->)%in_warehouse_inv. pose proof (sound_sagas _ Hs) as Hok.
  apply runner_safe; [done|..].
  - eapply (runner_step_grows wview); [done|]. by eapply SagaContract.step_trigger.
  - eapply (beside_framed _ s); [|exact Hr]. intros content. by apply frame_trigger.
  - by eapply (trigger_emitted wview) in Hr.
  - intros id e. apply (trigger_cases wview) in Hr as [_ [[[Hi _] _]|Hc]]; [|..|done].
    { unfold saga_log. change (history wview sagas w' id) with (history wview sagas w' id).
      rewrite Hi. by left. }
    destruct Hc as (m & id0 & Hm & Hid & _ & Ho & Hl & _).
    destruct (decide (id = id0)) as [->|Hne]; [|rewrite Ho by done; by left].
    rewrite Hl. intros He. right.
    destruct (told_trigger _ _ _ Ht eq_refl m id0 Hm Hid) as (c & Hc & Hrows).
    apply elem_of_cons in He as [->|He].
    + simpl. rewrite Hrows. by exists c.
    + destruct (msg_Rows m); [|by apply elem_of_nil in He].
      by apply list_elem_of_singleton in He as ->.
Qed.

Lemma elem_raised id c o sg e :
  e ∈ raised_events id c o sg →
  quiet e ∨
  ∃ beer, o = Succeeded beer ∧
    e = EvAllocationStepSucceeded (NewAllocationStepSucceeded id c beer).
Proof.
  unfold raised_events, settle_events. intros [->|He]%elem_of_cons.
  - destruct o; [right; eauto|by left..].
  - left. destruct (next_status _ _); try (by apply elem_of_nil in He);
      by apply list_elem_of_singleton in He as ->.
Qed.


Lemma quiet_true s id e : quiet e → true_saga s id e.
Proof. by destruct e. Qed.

Lemma safe_event e s :
  sound s →
  (∀ u, e = EvBeerAvailabilityUpdated u → e ∈ book s (BeerId_Value (bau_BeerId u))) →
  safe (in_warehouse (on_event sagas e)) s.
Proof.
  intros Hs Hu r s' (w' & Hr & ->)%in_warehouse_inv. pose proof (sound_sagas _ Hs) as Hok.
  assert (∀ sid, beside_sagas sid → wview (w_store w') sid = wview (sys_warehouses s) sid) as Hfr.
  { eapply (beside_framed _ s); [|exact Hr]. intros content. by apply frame_on_event. }
  assert (∀ b, history wview beers w' b = book s b) as Hbooks.
  { intros b. unfold book, history. by rewrite Hfr by apply beer_not_saga. }
  apply runner_safe; [done|..|done| |].
  - eapply (runner_step_grows wview); [done|]. by eapply SagaContract.step_event_.
  - by eapply (on_event_emitted wview) in Hr.
  - intros id x. apply (on_event_cases wview) in Hr as [_ Hc]; [|done].
    destruct (observed e) as [[[oid c] o]|] eqn:Hobs; [|destruct Hc as [_ ->]; by left].
    destruct Hc as [[[Hi _] _]|(id0 & Hid & _ & _ & Ho & Hl & _)].
    { unfold saga_log. rewrite Hi. by left. }
    destruct (decide (id = id0)) as [->|Hne]; [|rewrite Ho by done; by left].
    rewrite Hl, elem_of_app. intros [?|[Hq|(b & -> & ->)]%elem_raised]; [by left|..]; right.
    { by apply quiet_true. }
    destruct e as [|u|u|u| | | | | |]; simpl in Hobs; try done. injection Hobs as <- <- <-.
    specialize (Hu u eq_refl). exists (BeerId_Value (bau_BeerId u)), u. split; [done|].
    split; [by rewrite <- (Hbooks (BeerId_Value (bau_BeerId u))) in Hu|].
    destruct (sound_books _ Hs _ _ Hu) as (_ & _ & id' & Hid'). rewrite Hid' in Hid |- *.
    rewrite uuid_Parse_String in Hid. by injection Hid as ->.
Qed.

Lemma safe_resume s : sound s → safe (in_warehouse (ResumeInFlight sagas (Some ListStreams))) s.
Proof.
  intros Hs r s' (w' & Hr & ->)%in_warehouse_inv. pose proof (sound_sagas _ Hs) as Hok.
  apply runner_safe; [done|..].
  - eapply (runner_step_grows wview); [done|]. by eapply SagaContract.step_resume.
  - eapply (beside_framed _ s); [|exact Hr]. intros content. by apply frame_resume.
  - by eapply (resume_emitted wview) in Hr.
  - intros id e. apply (resume_cases wview) in Hr as [Hl _]; [|done].
    unfold saga_log. rewrite Hl. by left.
Qed.

Lemma safe_sweep cutoff s :
  sound s → safe (in_warehouse (TimeoutInFlight sagas (Some ListStreams) cutoff)) s.
Proof.
  intros Hs r s' (w' & Hr & ->)%in_warehouse_inv. pose proof (sound_sagas _ Hs) as Hok.
  apply runner_safe; [done|..].
  - eapply (runner_step_grows wview); [done|]. by eapply SagaContract.step_timeout.
  - eapply (beside_framed _ s); [|exact Hr]. intros content. by apply frame_timeout.
  - by eapply (timeout_emitted wview) in Hr.
  - intros id e He.
    destruct (timeout_quiet wview (λ sid, Event <$> wview (sys_warehouses s) sid) cutoff _ _ _ Hok Hr)
      with (sid := stream sagas id) (e := e) as [Hq|?]; [by right|done|right; by apply quiet_true|by left].
Qed.
(** *** Publications, facades and projections *)
Lemma safe_refl s : sound s → sound s ∧ extends s s.
Proof. intros Hs. split; [done|]. reflexivity. Qed.

(** A call that only sends, from a world with this store and bus. *)
Lemma safe_sent {C} `{!Message C, !JsonMarshal C P} s (c : C) topic (put : B → System) :
  sound s → (∀ wire, same_stores s (put wire)) → (∀ wire, sys_bus (put wire) = wire) →
  (∀ p, json_Marshal c = Ok p → told s topic p) →
  ∀ r wire, publish topic c (sys_bus s) = (r, wire) → sound (put wire) ∧ extends s (put wire).
Proof.
  intros Hs Hss Hbus Ht r wire Hp. apply bus_step; [done|apply Hss|]. rewrite Hbus.
  unfold publish in Hp. eapply payload_emitted; [|exact Hp]. intros p Hj. by apply Ht.
Qed.

Lemma safe_send_sales {C} `{!Message C, !JsonMarshal C P} s (c : C) topic :
  sound s → (∀ p, json_Marshal c = Ok p → told s topic p) →
  safe (in_sales (on_bus (publish topic c))) s.
Proof.
  intros Hs Ht r s' (w' & (b & Hb & ->)%on_bus_inv & ->)%in_sales_inv.
  by eapply (safe_sent s c topic (λ wire, put_sales (put_bus wire (sales_world s)) s)).
Qed.

Lemma safe_publish_created e s :
  sound s → EvSalesOrderCreated e ∈ order_log s (SalesOrderId_Value (soc_SalesOrderId e)) →
  safe (in_sales (PublishSalesOrderCreated e)) s.
Proof.
  intros Hs He. unfold PublishSalesOrderCreated, PublishIntegrationEvent.
  apply safe_send_sales; [done|]. intros p Hp. tell. intros m id Hm.
  rewrite (order_contract e p Hp) in Hm. injection Hm as <-. simpl.
  rewrite uuid_Parse_String. intros [= <-]. eauto.
Qed.

Lemma safe_outcome (ok : bool) payload s :
  sound s →
  (∀ m id, json_Unmarshal payload = Ok m → uuid_Parse (aom_SalesOrderId m) = Some id →
     if ok then completed s id else rejected s id (aom_Reason m)) →
  safe (in_sales (on_outcome ok payload)) s.
Proof.
  intros Hs Hm r s' (w' & Hr & ->)%in_sales_inv.
  assert (put_sales (sales_world s) s = s) as Hid by (by destruct s).
  unfold on_outcome, OnAllocationCompleted, OnAllocationRejected, parse in Hr.
  destruct ok; unfold mbind at 1, GoM_bind at 1, lift at 1 in Hr;
    (destruct (json_Unmarshal payload) as [m|e|x] eqn:Hj; simpl in Hr;
      [|injection Hr as _ <-; rewrite Hid; by apply safe_refl..]);
    (destruct (uuid_Parse (aom_SalesOrderId m)) as [id|] eqn:Hp; simpl in Hr;
      [|injection Hr as _ <-; rewrite Hid; by apply safe_refl]);
    unfold uuid_MustParse, mbind, GoM_bind, lift in Hr; rewrite Hp in Hr;
    specialize (Hm m id eq_refl Hp); unfold Send in Hr;
    (match type of Hr with on_bus (publish ?t ?c) _ = _ =>
       eapply (safe_send_sales s c t Hs); [|unfold in_sales, zoom; by rewrite Hr] end);
    intros p Hc; tell; intros x Hx; rewrite (unmarshal_reads (f := λ x, x) _ p Hc) in Hx;
    by injection Hx as <-.
Qed.

(** A facade call: it sends its one command, from a world where only
    identifiers were drawn, or nothing. *)
Lemma safe_order body s r s' :
  sound s → in_sales (Facade_CreateSalesOrder body) s = (r, s') → sound s' ∧ extends s s'.
Proof.
  intros Hs (w' & Hr & ->)%in_sales_inv.
  apply Facade_CreateSalesOrder_run in Hr as
    [(_ & _ & Est & Eb)|(c & w1 & Hc & Est & Eb & Hsend & _)].
  - apply bus_step; [done|by split; intros sid; simpl; rewrite ?Est|]. simpl. rewrite Eb.
    apply emitted_refl.
  - apply on_bus_inv in Hsend as (b & Hb & ->).
    rewrite Eb in Hb. unfold Send in Hb.
    eapply (safe_sent s c _ (λ wire, put_sales (put_bus wire w1) s));
      [done|by intros wire; split; intros sid; simpl; rewrite ?Est|done| |exact Hb].
    intros p Hp. tell. intros x Hx. rewrite (unmarshal_reads (f := λ x, x) c p Hp) in Hx.
    injection Hx as <-. split; [apply Hc|by exists p].
Qed.

Lemma safe_production body s r s' :
  sound s → in_warehouse (Facade_UpdateAvailabilityDueToProductionOrder body) s = (r, s') →
  sound s' ∧ extends s s'.
Proof.
  intros Hs (w' & Hr & ->)%in_warehouse_inv.
  apply production_run in Hr as [(_ & -> & _)|(c & w1 & Hc & Est & Eb & Hsend & _)].
  - destruct s. by apply safe_refl.
  - apply on_bus_inv in Hsend as (b & Hb & ->).
    rewrite Eb in Hb. unfold Send in Hb.
    eapply (safe_sent s c _ (λ wire, put_warehouse (put_bus wire w1) s));
      [done|by intros wire; split; intros sid; simpl; rewrite ?Est|done| |exact Hb].
    intros p Hp. tell. intros x Hx. rewrite (unmarshal_reads (f := λ x, x) c p Hp) in Hx.
    injection Hx as <-. split; [apply Hc|by eapply production_range].
Qed.

Lemma safe_shown_orders m s : sound s → safe (in_orders_shown m) s.
Proof.
  intros Hs r s'. unfold in_orders_shown, zoom. destruct (m _) as [r' x]. intros [= _ <-].
  apply bus_step; [done|done|apply emitted_refl].
Qed.

Lemma safe_shown_beers m s : sound s → safe (in_beers_shown m) s.
Proof.
  intros Hs r s'. unfold in_beers_shown, zoom. destruct (m _) as [r' x]. intros [= _ <-].
  apply bus_step; [done|done|apply emitted_refl].
Qed.

(** ** Every subscription is safe *)
Lemma safe_decoded `{!JsonUnmarshal M P} msg (p : P) (f : M → GoM System unit) s :
  sound s → (∀ m : M, json_Unmarshal p = Ok m → safe (f m) s) →
  safe (x ← lift (result_wrap msg (json_Unmarshal p)); f x) s.
Proof.
  intros Hs Hf r s'. unfold mbind, GoM_bind, lift. destruct (json_Unmarshal p) as [m|e|x]; simpl.
  - by apply Hf.
  - intros [= _ <-]. by apply safe_refl.
  - intros [= _ <-]. by apply safe_refl.
Qed.

Lemma safe_subscription sub p s :
  sub ∈ wiring → sound s → told s (sub_topic sub) p → safe (sub_handler sub p) s.
Proof.
  intros Hin Hs Ht. unfold wiring, warehouses_Register, sales_Register, NewServiceBus,
    RegisterCommandHandler, RegisterDomainEventHandler, SubscribeIntegrationEvent, subscribe in Hin.
  repeat (apply elem_of_app in Hin as [Hin|Hin%list_elem_of_singleton];
    [|subst sub; cbn [sub_topic sub_handler] in Ht |- *]); [by apply elem_of_nil in Hin|..];
    try (apply safe_decoded; [done|intros m Hm]);
    try (by apply safe_shown_orders); try (by apply safe_shown_beers).
  - intros r s' [= _ <-]. by apply safe_refl.
  - destruct (told_create _ _ _ Ht eq_refl m Hm). by apply (safe_sales (Create m)).
  - apply (safe_sales (Allocated m)); [done|done|]. by apply (told_allocated _ _ _ Ht).
  - apply (safe_sales (Rejected m)); [done|done|]. by apply (told_rejected _ _ _ Ht).
  - apply safe_publish_created; [done|]. by apply (told_created _ _ _ Ht).
  - apply (safe_outcome true); [done|]. by apply (told_completion _ _ _ Ht).
  - apply (safe_outcome false); [done|]. by apply (told_rejection _ _ _ Ht).
  - apply (safe_handle (Produce m)); [done| |done]. by apply (told_produce _ _ _ Ht).
  - destruct (told_allocate _ _ _ Ht eq_refl m Hm). by apply (safe_handle (Allocate m)).
  - destruct (told_compensate _ _ _ Ht eq_refl m Hm). by apply (safe_handle (Compensate m)).
  - by apply safe_trigger.
  - apply (safe_event (EvBeerAvailabilityUpdated m)); [done|]. intros u [= <-].
    by apply (told_updated _ _ _ Ht).
  - by apply (safe_event (EvQuantityNotFound m)).
  - by apply (safe_event (EvAvailabilityCompensated m)).
Qed.

(** ** Every step is safe *)
Lemma at_time_safe t s : sound s → sound (at_time t s) ∧ extends s (at_time t s).
Proof. intros Hs. apply bus_step; [done|done|apply emitted_refl]. Qed.

Lemma consume_safe done_ sub p s r s' :
  sub ∈ wiring → sound s → told s (sub_topic sub) p →
  consume done_ sub p s = (r, s') → sound s' ∧ extends s s'.
Proof.
  intros Hin Hs Ht Hr. unfold consume, retryMiddleware in Hr.
  eapply (retry_loop_invariant _ _ _ (λ s', sound s' ∧ extends s s')) in Hr; [exact Hr|..].
  - intros s1 r1 s2 Hh [H1 Hx1].
    destruct (safe_subscription sub p s1 Hin H1 (told_extends _ _ _ _ Hx1 Ht) r1 s2 Hh) as [H2 Hx2].
    split; [done|]. by etrans.
  - intros d s1 [H1 Hx1]. destruct (at_time_safe (sys_now s1 + d) s1 H1) as [H2 Hx2].
    split; [done|]. by etrans.
  - by apply safe_refl.
Qed.

(** What the relay sends is an event that is stored. *)
Lemma safe_relay_sales s store wire :
  sound s → relays (sys_sales s) (sys_bus s) store wire →
  sound (put_sales (mkWorld store wire (sys_now s) (sys_minted s)) s) ∧
  extends s (put_sales (mkWorld store wire (sys_now s) (sys_minted s)) s).
Proof.
  intros Hs Hr. apply bus_step; [done|split; [|done]; by eapply relay_streams|].
  pose proof (relay_emits _ _ _ _ Hr) as Hem.
  eapply emitted_mono; [|exact Hem]. intros [t p] (sid & e & He & Hc).
  eapply tell_conveyed_order; [|exact Hc]. intros c ->.
  destruct (placed_created _ (sound_placed _ Hs) sid c He) as [id ->].
  replace (SalesOrderId_Value (soc_SalesOrderId c)) with id; [exact He|]. symmetry.
  change (EvSalesOrderCreated c ∈ order_log s id) in He.
  by apply (created_in_shape id (order_log s id)); [apply Hs|].
Qed.

Lemma safe_relay_warehouses s store wire :
  sound s → relays (sys_warehouses s) (sys_bus s) store wire →
  sound (put_warehouse (mkWorld store wire (sys_now s) (sys_minted s)) s) ∧
  extends s (put_warehouse (mkWorld store wire (sys_now s) (sys_minted s)) s).
Proof.
  intros Hs Hr. apply bus_step; [done|split; [done|]; by eapply relay_streams|].
  pose proof (relay_emits _ _ _ _ Hr) as Hem.
  eapply emitted_mono; [|exact Hem]. intros [t p] (sid & e & He & Hc).
  eapply tell_conveyed_beer; [|exact Hc]. intros u ->.
  destruct (placed_updated _ (sound_placed _ Hs) sid u He) as [b0 ->].
  change (EvBeerAvailabilityUpdated u ∈ book s b0) in He.
  destruct (sound_books _ Hs b0 _ He) as [[= ->] _]. exact He.
Qed.

Lemma step_safe s s' : sound s → step s s' → sound s' ∧ extends s s'.
Proof.
  intros Hs Hst. destruct Hst as [s t p sub d r s' Hin Hsub Hr|s t p r w' Hin Hp|s body r s' Hr
    |s body r s' Hr|s r s' Hr|s cutoff r s' Hr|s store b Hr|s store b Hr|s b t Hd Hb Ht|s t Ht].
  - apply list_elem_of_filter in Hsub as [Ht Hsub]. eapply consume_safe; [exact Hsub|done| |exact Hr].
    rewrite Ht. by apply (sound_wire _ Hs).
  - apply bus_step; [done|done|]. simpl. destruct r as [[]|e|m].
    + apply publish_ok in Hp. exists [(DeadLetterTopic, p)]. split; [done|].
      constructor; [by tell|done].
    + apply publish_err in Hp as [Hp|Hp]; [exists []; by rewrite app_nil_r|].
      exists [(DeadLetterTopic, p)]. split; [done|]. constructor; [by tell|done].
    + by apply publish_no_panic in Hp.
  - by eapply safe_order.
  - by eapply safe_production.
  - by eapply safe_resume.
  - by eapply safe_sweep.
  - by apply safe_relay_sales.
  - by apply safe_relay_warehouses.
  - apply wire_step; [done|done|]. intros topic p Hp. left. by apply Hb.
  - by apply at_time_safe.
Qed.

(** An application that has just started: nothing stored, nothing sent. *)
Record fresh s : Prop := {
  fresh_sales : ∀ sid, sview (sys_sales s) sid = [];
  fresh_warehouses : ∀ sid, wview (sys_warehouses s) sid = [];
  fresh_wire : published (sys_bus s) = [];
}.

Lemma fresh_sound s : fresh s → sound s.
Proof.
  intros [Hs Hw Hp].
  assert (∀ id, order_log s id = []) as Eo by (intros; unfold order_log, history; simpl; by rewrite Hs).
  assert (∀ id, saga_log s id = []) as El by (intros; unfold saga_log, history; simpl; by rewrite Hw).
  assert (∀ b, book s b = []) as Eb by (intros; unfold book, history; simpl; by rewrite Hw).
  split.
  - split; intros sid x; rewrite ?Hs, ?Hw; by intros ?%elem_of_nil.
  - intros id. rewrite Eo. constructor.
  - intros id Hne. destruct Hne. exact (El id).
  - intros id e. by rewrite Eo, elem_of_nil.
  - intros id e. by rewrite El, elem_of_nil.
  - intros b e. by rewrite Eb, elem_of_nil.
  - intros t p. by rewrite Hp, elem_of_nil.
Qed.

Lemma run_sound s0 s : fresh s0 → run s0 s → sound s.
Proof. intros H0 Hr. induction Hr as [s|s s' s'' _ IH Hst]; [by apply fresh_sound|].
  by destruct (step_safe s' s'' (IH H0) Hst). Qed.
(** ** What a sound state says about an order *)

Lemma allocated_logged s id :
  sound s → so_allocation (order_at s id) = AllocationDone →
  ∃ x, EvSalesOrderAllocated x ∈ order_log s id.
Proof.
  intros Hs. unfold order_at. destruct (sound_shapes _ Hs id) as [|e _ _|e a _ _]; [done|done|].
  destruct a as [c|c re]; [|done]. intros _. eexists. right. left.
Qed.

Lemma rejected_logged s id :
  sound s → so_allocation (order_at s id) = AllocationRejected →
  ∃ x, EvSalesOrderAllocationRejected x ∈ order_log s id ∧
    sor_Reason x = so_rejectionReason (order_at s id).
Proof.
  intros Hs. unfold order_at. destruct (sound_shapes _ Hs id) as [|e _ _|e a _ _]; [done|done|].
  destruct a as [c|c re]; [done|]. intros _. eexists. split; [right; left|done].
Qed.

(** The rows of an order are those of its creation. *)
Lemma order_rows s id row :
  sound s → row ∈ so_rows (order_at s id) →
  ∃ c, EvSalesOrderCreated c ∈ order_log s id ∧ so_rows (order_at s id) = soc_Rows c.
Proof.
  intros Hs. unfold order_at. destruct (sound_shapes _ Hs id) as [|e _ _|e a _ _].
  - by intros ?%elem_of_nil.
  - intros _. exists e. split; [left|done].
  - intros _. exists e. split; [left|by destruct a].
Qed.

(** There is one creation. *)
Lemma created_once s id c c' :
  sound s → EvSalesOrderCreated c ∈ order_log s id → EvSalesOrderCreated c' ∈ order_log s id →
  c = c'.
Proof.
  intros Hs. destruct (sound_shapes _ Hs id) as [|e _ _|e a _ _];
    [by intros ?%elem_of_nil|set_solver|destruct a; set_solver].
Qed.

Lemma saga_started s id :
  sound s → saga_log s id ≠ [] → ∃ x, EvOrderAllocationStarted x ∈ saga_log s id.
Proof.
  intros Hs Hne. apply started_of.
  pose proof (reachable_inv _ _ (sound_sagas _ Hs id Hne)) as [Hid _ _ _].
  change (salesOrderId (saga_at s id) ≠ ""). unfold saga_at, saga_log.
  change (salesOrderId (saga_of wview (warehouse_world s) id) ≠ "").
  rewrite Hid. apply uuid_String_nonempty.
Qed.

(** A saga works on its order's rows. *)
Lemma saga_rows s id c :
  sound s → saga_log s id ≠ [] → EvSalesOrderCreated c ∈ order_log s id →
  data <$> rows (saga_at s id) = map saga_row (soc_Rows c).
Proof.
  intros Hs Hne Hc. apply rows_of; [by apply saga_started|]. intros x Hx.
  destruct (sound_logs _ Hs id _ Hx) as (c' & Hc' & ->). by rewrite (created_once s id c c').
Qed.

(** A completed saga's rows are held. *)
Lemma completed_holds s id row :
  sound s → completed s id → row ∈ rows (saga_at s id) →
  ∃ b, row_BeerId (data row) = uuid_String b ∧ uuid_String id ∈ held (beer_at s b).
Proof.
  intros Hs Hc Hrow.
  assert (saga_log s id ≠ []) as Hne by (apply saga_log_status; by rewrite Hc).
  pose proof (reachable_inv _ _ (sound_sagas _ Hs id Hne)) as [_ _ _ Hst].
  unfold status_ok in Hst. change (saga_of wview (warehouse_world s) id) with (saga_at s id) in Hst.
  rewrite Hc in Hst. destruct (allocated_by _ row Hrow (Hst row Hrow)) as (x & Hx & Hb).
  destruct (sound_logs _ Hs id _ Hx) as (b & u & Hub & Hu & Ho).
  exists b. split; [congruence|]. rewrite <- Ho. apply held_by; [exact Hu|..].
  - rewrite Ho. apply uuid_String_nonempty.
  - intros y Hy. destruct (sound_books _ Hs b _ Hy) as (_ & _ & id' & -> & Hf). rewrite Ho.
    intros ->%(inj uuid_String). unfold failed in Hf. rewrite Hc in Hf. by destruct Hf.
Qed.

(** C1 The two contexts agree. At every moment of any run of the application,
    whichever side publishes, whatever messages are delivered, in whatever order
    and however often, with retries, failing publications, relay dispatches,
    restarts over durable stores, resumptions and timeouts in between: an order
    that Sales shows as allocated has a completed allocation saga, one that Sales
    shows as rejected has a rejected saga with the reason Sales recorded, and a
    saga works on exactly the rows its order was created with. *)
Theorem contexts_stay_consistent s0 s id :
  fresh s0 → run s0 s →
  (so_allocation (order_at s id) = AllocationDone → completed s id) ∧
  (so_allocation (order_at s id) = AllocationRejected →
   rejected s id (so_rejectionReason (order_at s id))) ∧
  (saga_log s id ≠ [] → ∃ c, EvSalesOrderCreated c ∈ order_log s id ∧
     data <$> rows (saga_at s id) = map saga_row (soc_Rows c)).
Proof.
  intros H0 Hr. pose proof (run_sound s0 s H0 Hr) as Hs. split; [|split].
  - intros [x Hx]%allocated_logged; [|done]. exact (sound_orders _ Hs id _ Hx).
  - intros (x & Hx & <-)%rejected_logged; [|done]. exact (sound_orders _ Hs id _ Hx).
  - intros Hne. destruct (saga_started s id Hs Hne) as [x Hx].
    destruct (sound_logs _ Hs id _ Hx) as (c & Hc & _). exists c. split; [done|].
    by apply saga_rows.
Qed.

(** C2 What an allocation is worth. At every moment of any run of the
    application, an order that Sales shows as allocated holds stock of the beer
    of each of its rows in the warehouse: no redelivery, compensation of another
    order, timeout or crash takes it away. *)
Theorem allocated_orders_hold_stock s0 s id row :
  fresh s0 → run s0 s →
  so_allocation (order_at s id) = AllocationDone → row ∈ so_rows (order_at s id) →
  uuid_String id ∈ held (beer_at s (SalesKernel.BeerId_Value (SalesKernel.dto_BeerId row))).
Proof.
  intros H0 Hr Ha Hrow. pose proof (run_sound s0 s H0 Hr) as Hs.
  destruct (allocated_logged s id Hs Ha) as [x Hx].
  assert (completed s id) as Hc by exact (sound_orders _ Hs id _ Hx).
  assert (saga_log s id ≠ []) as Hne by (apply saga_log_status; by rewrite Hc).
  destruct (order_rows s id row Hs Hrow) as (c & Hcr & Hrows). rewrite Hrows in Hrow.
  assert (saga_row row ∈ data <$> rows (saga_at s id)) as (r & Hd & Hr')%list_elem_of_fmap.
  { rewrite (saga_rows s id c Hs Hne Hcr). by apply list_elem_of_fmap_2. }
  destruct (completed_holds s id r Hs Hc Hr') as (b & Hb & Hh).
  rewrite <- Hd in Hb. by apply (inj uuid_String) in Hb as ->.
Qed.
End soundness.
