(* ===== verification/SystemDemo.v ===== *)
(** * An evaluated run of the application

    Ten litres brewed, four ordered: the messages are delivered one by one, some
    of them twice, until Sales shows the order as allocated. The witnesses of the
    theorems of [System]. *)
From S2P Require Import Prelude Errors Kernel Aggregate EventStore World Repository.
From S2P Require Import Bus Json Wire.
From S2P Require Import SalesKernel SalesJson SalesOrder SalesHandlers SalesSteps.
From S2P Require Import SalesReadModel SalesFacade SalesIntegration.
From S2P Require Import WarehouseKernel WarehouseJson Availability Saga WarehouseHandlers.
From S2P Require Import WarehouseReadModel WarehouseFacade SagaRunner SagaContract.
From S2P Require Import WarehouseSteps Contracts Wiring System.
Import DemoText DemoWire.
#[local] Open Scope Z_scope.

#[local] Existing Instance DemoUuid.lib.

(** ** The application over the in-memory stores, on any wire *)
Section play.
Context {B : Type} `{!WirePublisher B json}.

Abbreviation app := (System (InMemory.InMemoryEventStore SalesEvent)
  (InMemory.InMemoryEventStore WarehouseEvent) B InMemorySales.SalesOrderService
  InMemoryAvailability.AvailabilityService).

Inductive action :=
| Deliver (i : nat) (subscription : string)
| Order (body : SalesOrderJson)
| Brew (body : ProductionOrderJson)
| Resume.

(** An action that does not apply does nothing. *)
Definition perform (a : action) (s : app) : app :=
  match a with
  | Deliver i name =>
      match published (sys_bus s) !! i with
      | Some (topic, payload) =>
          match filter (λ sub, sub_name sub = name) (subscribers topic wiring) with
          | sub :: _ => snd (consume (λ _, false) sub payload s)
          | [] => s
          end
      | None => s
      end
  | Order body => snd (in_sales (Facade_CreateSalesOrder body) s)
  | Brew body => snd (in_warehouse (Facade_UpdateAvailabilityDueToProductionOrder body) s)
  | Resume => snd (in_warehouse (ResumeInFlight sagas (Some ListStreams)) s)
  end.

Definition play (l : list action) (s : app) : app := foldl (λ s a, perform a s) s l.

Lemma perform_run a s0 s : run s0 s → run s0 (perform a s).
Proof.
  intros Hr. destruct a as [i name|body|body|]; simpl.
  - destruct (published (sys_bus s) !! i) as [[t p]|] eqn:Hi; [|done].
    destruct (filter _ _) as [|sub l] eqn:Hf; [done|].
    assert (sub ∈ filter (λ sub, sub_name sub = name) (subscribers t wiring)) as Hin
      by (rewrite Hf; left). apply list_elem_of_filter in Hin as [_ Hin].
    eapply run_step; [exact Hr|]. eapply step_deliver; [|exact Hin|apply surjective_pairing].
    by eapply list_elem_of_lookup_2.
  - eapply run_step; [exact Hr|]. eapply step_order, surjective_pairing.
  - eapply run_step; [exact Hr|]. eapply step_production, surjective_pairing.
  - eapply run_step; [exact Hr|]. eapply step_resume, surjective_pairing.
Qed.

Lemma play_run l s0 s : run s0 s → run s0 (play l s).
Proof.
  revert s. induction l as [|a l IH]; intros s Hr; [done|]. apply IH. by apply perform_run.
Qed.

Definition start (bus : B) : app :=
  mkSystem InMemory.NewInMemoryEventStore InMemory.NewInMemoryEventStore
    InMemorySales.NewSalesOrderService InMemoryAvailability.NewAvailabilityService bus 100 0.

Lemma start_fresh bus :
  published bus = [] → fresh InMemory.stream_of InMemory.stream_of (start bus).
Proof. split; [..|done]; intros sid; unfold InMemory.stream_of; simpl; by rewrite lookup_empty. Qed.
End play.

(** ** A day *)
Section demo.
Definition opening := start (mkWire [] [] : wire json).

Definition ten_litres : ProductionOrderJson :=
  mkProductionOrderJson "uipa" "IPA" (NewQuantity 10 "Lt").
Definition four_litres : SalesOrderJson :=
  mkSalesOrderJson "uo" "1" 7 "uk" "Ann"
    [mkSalesOrderRowJson "uipa" "IPA" (NewQuantity 4 "Lt")
       (NewPrice (SpecFloat.S754_zero false) "EUR")].

Definition day : list action :=
  [Brew ten_litres;
   Deliver 0 "handler.warehouses.update_availability_due_to_production_order";
   Order four_litres;
   Deliver 2 "handler.sales.create_sales_order";
   Deliver 2 "handler.sales.create_sales_order";
   Deliver 3 "sales.readmodel.sales_order_created";
   Deliver 3 "sales.integration.sales_order_created";
   Deliver 4 "warehouses.saga.on_sales_order_created";
   Resume;
   Deliver 6 "handler.warehouses.update_availability_due_to_sales_order";
   Deliver 8 "warehouses.saga.on_beer_availability_updated";
   Deliver 11 "sales.on_order_allocation_completed";
   Deliver 12 "handler.sales.mark_sales_order_allocated";
   Deliver 7 "handler.warehouses.update_availability_due_to_sales_order";
   Deliver 13 "sales.readmodel.sales_order_allocated"].

Definition evening := play day opening.

Abbreviation the_order := (order_at InMemory.stream_of evening (uid "o")).
Abbreviation the_saga := (saga_at (P := json) InMemory.stream_of evening (uid "o")).
Abbreviation the_beer := (beer_at (P := json) InMemory.stream_of evening (uid "ipa")).

Lemma opening_fresh : fresh InMemory.stream_of InMemory.stream_of opening.
Proof. by apply start_fresh. Qed.

Lemma contexts_stay_consistent_witness :
  so_allocation the_order = AllocationDone ∧ status the_saga = SagaCompleted.
Proof.
  assert (so_allocation the_order = AllocationDone) as Ha by (vm_compute; reflexivity).
  split; [exact Ha|].
  exact (proj1 (contexts_stay_consistent InMemory.stream_of InMemory.stream_of opening evening
    (uid "o") opening_fresh (play_run day opening opening (run_start opening))) Ha).
Defined.

Definition the_row : SalesKernel.SalesOrderRowDto :=
  SalesKernel.mkSalesOrderRowDto (SalesKernel.mkBeerId (uid "ipa")) (SalesKernel.mkBeerName "IPA")
    (NewQuantity 4 "Lt") (NewPrice (SpecFloat.S754_zero false) "EUR").

Lemma allocated_orders_hold_stock_witness :
  so_rows the_order = [the_row] ∧ "uo"%string ∈ held the_beer ∧ stock the_beer = 6.
Proof.
  assert (so_allocation the_order = AllocationDone) as Ha by (vm_compute; reflexivity).
  assert (so_rows the_order = [the_row]) as Hrows by (vm_compute; reflexivity).
  split; [exact Hrows|]. split; [|vm_compute; reflexivity].
  assert (the_row ∈ so_rows the_order) as Hin by (rewrite Hrows; left).
  exact (allocated_orders_hold_stock InMemory.stream_of InMemory.stream_of opening evening
    (uid "o") the_row opening_fresh (play_run day opening opening (run_start opening)) Ha Hin).
Defined.
End demo.
