(* ===== verification/Supply.v ===== *)
(** * No order is left without its next message

    [System] proves that nothing on the wire is false. This file proves, for an
    environment in which nothing fails and repositories that publish, that
    nothing is missing on it: at every moment of a run the creation of every
    order has been announced and every saga's next messages have gone out
    ([SagaSupply]). *)
From S2P Require Import Prelude Errors Kernel Aggregate EventStore World Repository Frame.
From S2P Require Import Bus Json Wire Reliable.
From S2P Require Import SalesKernel SalesJson SalesOrder SalesHandlers SalesSteps.
From S2P Require Import SalesReadModel SalesFacade SalesIntegration.
From S2P Require Import WarehouseKernel WarehouseJson Availability Saga WarehouseHandlers.
From S2P Require Import WarehouseReadModel WarehouseFacade SagaRunner SagaContract.
From S2P Require Import SagaWire WarehouseSteps SagaSupply Contracts Wiring System.
#[local] Open Scope Z_scope.

(** ** The sales handlers *)
Section sales.
Context `{GoText} {U : UuidLib} {St B P : Type} `{!EventStore SalesEvent St}.
Context `{!WirePublisher B P, !WirePublisherLaws B P, !ReliableWire B P, !JsonText P}.
Context {Pub : Publication}.
Context (view : St → string → list (StoredEvent SalesEvent)).
Context `{!EventStoreLaws view, !ReliableStore view}.
Implicit Types (w : World St B) (d : sales_delivery) (id : UUID).

Abbreviation bus_orders := (SalesSteps.bus_orders (B := B) (P := P)).
Abbreviation log w id := (history view bus_orders w id).

(** Saving an order loaded just now: it is stored and, where repositories
    publish, announced. *)
Lemma save_order_answers old e id w :
  ID (RaiseEvent e (replay bus_orders old)) = id → log w id = old → writable (P := P) e →
  ∃ w', save_order bus_orders (RaiseEvent e (replay bus_orders old)) w = (Ok tt, w') ∧
    log w' id = old ++ [e] ∧
    (direct = true → ∃ tp : string * P, announces e tp ∧ tp ∈ published (w_bus w')).
Proof.
  intros Hid Hlog Hw. unfold save_order, uuid_New_. go_run.
  match goal with |- context [Save _ _ _ ?w1] => set (w2 := w1) end.
  change (RaiseEvent e (replay bus_orders old)) with (loaded_and_raised bus_orders old [e]) in *.
  destruct (Save_succeeds (P := P) view bus_orders old [e] id (uuid_New (w_minted w)) w2)
    as (a & w' & Hs); [apply orders_blank|done|done|done|by intros ? ->%list_elem_of_singleton|].
  rewrite Hs. exists w'. split; [done|]. split.
  - apply (Save_spec view bus_orders id) in Hs as [_ [(_ & _ & ? & [=])|(_ & Hl & _)]];
      [|apply orders_blank|done|done].
    change (log w2 id) with (log w id) in Hl. by rewrite Hl, Hlog.
  - intros Hd. by eapply (Save_announces view) in Hs; [|apply orders_blank|done|done|left].
Qed.

(** Whatever a sales command appended has been announced. *)
Lemma sales_announces d w r w' e :
  direct = true → addressed d → order_shape (sales_target d) (log w (sales_target d)) →
  handle_sales bus_orders d w = (r, w') →
  log w' (sales_target d) = log w (sales_target d) ++ [e] → writable (P := P) e →
  ∃ tp : string * P, announces e tp ∧ tp ∈ published (w_bus w').
Proof.
  intros Hdir Ha Hsh. rewrite handle_sales_halves. unfold mbind, GoM_bind.
  destruct (load_order bus_orders d w) as [rl w1] eqn:El.
  apply (load_order_logs _ view) in El as (Hlog & loaded & -> & Hloaded).
  change (orders eventPublisher) with bus_orders in *.
  destruct (decide_sales d loaded) as [[s|]|err|m] eqn:Hd.
  2-4: intros [= _ <-]; rewrite Hlog; intros Hl%(f_equal length); rewrite length_app in Hl;
       simpl in Hl; lia.
  destruct (decide_sales_shape _ d _ loaded s Ha Hsh Hloaded Hd) as (e0 & -> & Hid & _).
  intros Hs Hl Hw. pose proof Hs as [_ Hc]%(save_order_logs _ view _ _ _ _ _ _ Hid).
  change (orders eventPublisher) with bus_orders in *.
  rewrite Hlog in Hc. destruct Hc as [Hc|[_ Hc]].
  { rewrite Hl in Hc. apply (f_equal length) in Hc. rewrite length_app in Hc. simpl in Hc. lia. }
  rewrite Hl in Hc. apply app_inv_head in Hc as [= <-].
  destruct (save_order_answers (log w (sales_target d)) e (sales_target d) w1 Hid)
    as (w2 & Hs2 & _ & Hann); [apply Hlog|done|].
  unfold save_decided in Hs. rewrite Hs in Hs2. injection Hs2 as _ <-. by apply Hann.
Qed.

(** A settlement that reaches a pending order settles it. *)
Lemma settles d id e w :
  (∀ c, d ≠ Create c) → sales_target d = id → SalesOrderId_Value (soc_SalesOrderId e) = id →
  log w id = [EvSalesOrderCreated e] →
  ∃ w' a, handle_sales bus_orders d w = (Ok tt, w') ∧
    log w' id = [EvSalesOrderCreated e; settlement_event (soc_SalesOrderId e) a].
Proof.
  intros Hd Ht He Hlog.
  assert (∃ a, decide_sales d (inr (replay bus_orders [EvSalesOrderCreated e]))
    = Ok (Some (RaiseEvent (settlement_event (soc_SalesOrderId e) a)
                  (replay bus_orders [EvSalesOrderCreated e])))) as [a Ha].
  { destruct d as [c|c|c]; [by destruct (Hd c)|..].
    - by exists (SettleAllocated (cmd_CommitId (msa_base c))).
    - by exists (SettleRejected (cmd_CommitId (msr_base c)) (msr_Reason c)). }
  rewrite handle_sales_halves. unfold mbind at 1, GoM_bind at 1, load_order.
  destruct (GetByID_answers view bus_orders (sales_target d) w) as (w1 & Hsame & _ & Hg).
  unfold mbind at 1, GoM_bind at 1, attempt. rewrite Hg, Ht, Hlog. cbn [fst snd]. rewrite Ha.
  destruct (save_order_answers [EvSalesOrderCreated e] (settlement_event (soc_SalesOrderId e) a) id w1)
    as (w' & Hs & Hl & _).
  - by destruct a.
  - unfold history. rewrite Hsame. exact Hlog.
  - destruct a; (eapply writable_json; unfold to_json; simpl; reflexivity).
  - exists w', a. split; [exact Hs|exact Hl].
Qed.

(** The wire under the sales handlers only grows. *)
Section growing.
Context (b0 : B).
Abbreviation K := (carries (P := P) (St := St) b0).

Lemma carries_sales d : preserves K (handle_sales bus_orders d).
Proof.
  assert (∀ a, preserves K (save_order bus_orders a)) as Hs.
  { intros a. unfold save_order. frame. eapply carries_Save. reflexivity. }
  destruct d; simpl; unfold HandleCreateSalesOrder, HandleMarkSalesOrderAllocated,
    HandleMarkSalesOrderAllocationRejected; frame.
Qed.

Lemma carries_outcome ok payload : preserves K (on_outcome ok payload).
Proof. unfold on_outcome, OnAllocationCompleted, OnAllocationRejected. frame. Qed.

Lemma carries_publish_created e : preserves K (PublishSalesOrderCreated e).
Proof. unfold PublishSalesOrderCreated. frame. Qed.
End growing.
End sales.

(** The wire under the warehouse command handlers only grows. *)
Section beers.
Context {U : UuidLib} {St B P : Type} `{!EventStore WarehouseEvent St}.
Context `{!WirePublisher B P, !WirePublisherLaws B P, !JsonMarshal WarehouseEvent P}.
Context {Pub : Publication} (b0 : B).

Lemma carries_handle d :
  preserves (carries (P := P) (St := St) b0) (handle (WarehouseSteps.beers (B := B) (P := P)) d).
Proof.
  intros w r w'. rewrite handle_halves. revert w r w'.
  change (preserves (carries (P := P) (St := St) b0)
    (load_half WarehouseSteps.beers d ≫= save_new WarehouseSteps.beers)).
  unfold load_half, save_new. frame. eapply carries_Save. reflexivity.
Qed.
End beers.

(** ** The invariant *)
Section supply.
Context `{GoText} {U : UuidLib} {SS WS B P RS RW : Type}.
Context `{!EventStore SalesEvent SS, !EventStore WarehouseEvent WS, !StreamLister WS}.
Context `{!WirePublisher B P, !WirePublisherLaws B P, !JsonText P}.
Context `{!SalesReadModel RS, !AvailabilityReadModel RW}.
Context (sview : SS → string → list (StoredEvent SalesEvent)) `{!EventStoreLaws sview}.
Context (wview : WS → string → list (StoredEvent WarehouseEvent)) `{!EventStoreLaws wview}.
Context `{!StreamListerLaws StreamLister0 wview}.
Context {Pub : Publication} `{!OutboxRelay SS B, !OutboxRelay WS B}.
Context `{!RelayLaws (B := B) (P := P) sview, !RelayLaws (B := B) (P := P) wview}.
(** Nothing fails, and the repositories publish. *)
Context `{!ReliableStore sview, !ReliableStore wview, !ReliableWire B P}.
Context (publishing : direct = true).

Abbreviation System := (System SS WS B RS RW).
Implicit Types (s : System) (id b : UUID).

Abbreviation sagas := (SagaContract.sagas (B := B) (P := P)).
Abbreviation bus_orders := (SalesSteps.bus_orders (B := B) (P := P)).
Abbreviation beers := (WarehouseSteps.beers (B := B) (P := P)).
Abbreviation order_log s id := (System.order_log (B := B) (P := P) sview s id).
Abbreviation saga_log s id := (System.saga_log (B := B) (P := P) wview s id).
Abbreviation saga_at s id := (System.saga_at (B := B) (P := P) wview s id).
Abbreviation sound s := (System.sound (P := P) sview wview s).
Abbreviation told s := (System.told (B := B) (P := P) sview wview s).
Abbreviation grown b b' := (emitted (P := P) (λ _, True) b b').

Record supplied s : Prop := {
  supplied_orders : ∀ id c, EvSalesOrderCreated c ∈ order_log s id →
    ∃ tp : string * P, announces (EvSalesOrderCreated c) tp ∧ tp ∈ published (sys_bus s);
  supplied_sagas : all_served (P := P) wview (warehouse_world s);
}.

Lemma fresh_supplied s : fresh (P := P) sview wview s → supplied s.
Proof.
  intros [Hs Hw _]. split.
  - intros id c. unfold System.order_log, history. simpl. rewrite Hs. by intros ?%elem_of_nil.
  - intros id Hne. destruct Hne. unfold history. simpl. by rewrite Hw.
Qed.

(** A step that creates no order and moves no saga. *)
Lemma supplied_same s s' :
  supplied s → (∀ id, order_log s' id = order_log s id) → (∀ id, saga_log s' id = saga_log s id) →
  grown (sys_bus s) (sys_bus s') → supplied s'.
Proof.
  intros [ho hs] Eo El Hg. split.
  - intros id c. rewrite Eo. intros (tp & Ha & Hin)%ho. exists tp. split; [done|].
    by eapply grown_elem.
  - eapply (all_served_same wview (warehouse_world s)); [exact El|exact Hg|exact hs].
Qed.

Lemma supplied_stores s s' :
  supplied s → same_stores sview wview s s' → grown (sys_bus s) (sys_bus s') → supplied s'.
Proof.
  intros Hs [Es Ew] Hg. apply (supplied_same s); [done|..|done].
  - intros id. unfold System.order_log, history. simpl. by rewrite Es.
  - intros id. unfold System.saga_log, history. simpl. by rewrite Ew.
Qed.

(** ** The handlers keep it *)
Definition supplies (m : GoM System unit) s : Prop := ∀ r s', m s = (r, s') → supplied s'.

Lemma supplies_sales d s :
  sound s → supplied s → addressed d → justified (P := P) wview s d →
  supplies (in_sales (handle_sales bus_orders d)) s.
Proof.
  intros Hsnd Hs Ha Hj r s' (w' & Hr & ->)%in_sales_inv.
  pose proof (grows_wire _ _ _ _ (λ wire, carries_sales wire d) Hr) as Hg.
  pose proof Hr as [Ho Hc]%(sales_effect sview); [|done|apply (sound_shapes _ _ _ Hsnd)].
  set (t := sales_target d) in *. split; [|eapply (all_served_same wview (warehouse_world s)); [done|exact Hg|apply Hs]].
  destruct Hc as [[Hlog _]|(e & Hlog & _ & Hans & _)].
  - intros id c Hin. destruct (supplied_orders _ Hs id c) as (tp & Han & Hp).
    + change (EvSalesOrderCreated c ∈ history sview bus_orders w' id) in Hin.
      destruct (decide (id = t)) as [->|Hne]; [by rewrite Hlog in Hin|by rewrite Ho in Hin].
    + exists tp. split; [done|]. by eapply grown_elem.
  - intros id c Hin.
    assert (EvSalesOrderCreated c ∈ order_log s id ∨ e = EvSalesOrderCreated c) as [Hold|Hnew].
    { change (EvSalesOrderCreated c ∈ history sview bus_orders w' id) in Hin.
      destruct (decide (id = t)) as [->|Hne]; [|rewrite Ho in Hin by done; by left].
      rewrite Hlog, elem_of_app, list_elem_of_singleton in Hin.
      destruct Hin as [?|?]; [by left|by right]. }
    + destruct (supplied_orders _ Hs id c Hold) as (tp & Han & Hp). exists tp. split; [done|].
      by eapply grown_elem.
    + subst e. eapply (sales_announces sview); [exact publishing|done|apply (sound_shapes _ _ _ Hsnd)|exact Hr|exact Hlog|].
      destruct d as [x|x|x]; simpl in Hans; try done. rewrite Hans. by apply created_writable.
Qed.

(** A step of the warehouse module from its world to [w']. *)
Lemma supplied_warehouse s w' :
  supplied s → grown (sys_bus s) (w_bus w') → all_served (P := P) wview w' →
  supplied (put_warehouse w' s).
Proof.
  intros [ho _] Hg Hs. split; [|exact Hs]. intros id c (tp & Ha & Hin)%ho. exists tp.
  split; [done|]. by eapply grown_elem.
Qed.

Lemma supplies_handle d s : supplied s → supplies (in_warehouse (handle beers d)) s.
Proof.
  intros Hs r s' (w' & Hr & ->)%in_warehouse_inv.
  pose proof (grows_wire _ _ _ _ (λ wire, carries_handle wire d) Hr) as Hg.
  apply supplied_warehouse; [done|exact Hg|].
  eapply (all_served_same wview (warehouse_world s)); [|exact Hg|apply Hs].
  intros id. pose proof (frame_handle wview (wview (sys_warehouses s)) d _ _ _ Hr (λ _ _, eq_refl)) as Hfr.
  unfold history. by rewrite Hfr by apply saga_not_beer.
Qed.

(** A saga handler, by what [SagaSupply] says of it. *)
Lemma supplies_runner (m : GoM (World WS B) unit) s :
  supplied s → (∀ wire, preserves (carries (P := P) wire) m) →
  (∀ r w', m (warehouse_world s) = (r, w') →
     all_served (P := P) wview (warehouse_world s) → all_served (P := P) wview w') →
  supplies (in_warehouse m) s.
Proof.
  intros Hs Hc Hserved r s' (w' & Hr & ->)%in_warehouse_inv.
  apply supplied_warehouse; [done|exact (grows_wire _ _ _ _ Hc Hr)|].
  eapply Hserved; [exact Hr|apply Hs].
Qed.

Lemma supplies_trigger payload s :
  sound s → supplied s → supplies (in_warehouse (OnSalesOrderCreated sagas payload)) s.
Proof.
  intros Hsnd Hs. apply supplies_runner; [done|intros wire; apply carries_trigger|].
  intros r w' Hr Hw. eapply (trigger_serves wview); [apply Hsnd|exact Hr|exact Hw].
Qed.

Lemma supplies_event e s :
  sound s → supplied s → supplies (in_warehouse (on_event sagas e)) s.
Proof.
  intros Hsnd Hs. apply supplies_runner; [done|intros wire; apply carries_on_event|].
  intros r w' Hr Hw. eapply (on_event_serves wview); [apply Hsnd|exact Hr|exact Hw].
Qed.

(** A sales call that only sends. *)
Lemma supplies_sends (m : GoM (World SS B) unit) s :
  supplied s → (∀ wire, preserves (carries (P := P) wire) m) →
  (∀ r w', m (sales_world s) = (r, w') → w_store w' = sys_sales s) → supplies (in_sales m) s.
Proof.
  intros Hs Hc Hst r s' (w' & Hr & ->)%in_sales_inv.
  apply (supplied_stores s); [done| |exact (grows_wire _ _ _ _ Hc Hr)].
  split; [|done]. intros sid. simpl. by rewrite (Hst _ _ Hr).
Qed.

Lemma supplies_shown_orders m s : supplied s → supplies (in_orders_shown m) s.
Proof.
  intros Hs r s'. unfold in_orders_shown, zoom. destruct (m _) as [r' x]. intros [= _ <-].
  apply (supplied_stores s); [done|done|apply emitted_refl].
Qed.

Lemma supplies_shown_beers m s : supplied s → supplies (in_beers_shown m) s.
Proof.
  intros Hs r s'. unfold in_beers_shown, zoom. destruct (m _) as [r' x]. intros [= _ <-].
  apply (supplied_stores s); [done|done|apply emitted_refl].
Qed.

Lemma supplies_decoded `{!JsonUnmarshal M P} msg (p : P) (f : M → GoM System unit) s :
  supplied s → (∀ m : M, json_Unmarshal p = Ok m → supplies (f m) s) →
  supplies (x ← lift (result_wrap msg (json_Unmarshal p)); f x) s.
Proof.
  intros Hs Hf r s'. unfold mbind, GoM_bind, lift. destruct (json_Unmarshal p) as [m|e|x]; simpl;
    [by apply Hf|by intros [= _ <-]..].
Qed.

(** Every subscription keeps it. *)
Lemma supplies_subscription sub p s :
  sub ∈ wiring → sound s → told s (sub_topic sub) p → supplied s → supplies (sub_handler sub p) s.
Proof.
  intros Hin Hsnd Ht Hs. unfold wiring, warehouses_Register, sales_Register, NewServiceBus,
    RegisterCommandHandler, RegisterDomainEventHandler, SubscribeIntegrationEvent, subscribe in Hin.
  repeat (apply elem_of_app in Hin as [Hin|Hin%list_elem_of_singleton];
    [|subst sub; cbn [sub_topic sub_handler] in Ht |- *]); [by apply elem_of_nil in Hin|..];
    try (apply supplies_decoded; [done|intros m Hm]);
    try (by apply supplies_shown_orders); try (by apply supplies_shown_beers).
  - by intros r s' [= _ <-].
  - destruct (told_create _ _ _ _ _ Ht eq_refl m Hm). by apply (supplies_sales (Create m)).
  - apply (supplies_sales (Allocated m)); [done..|]. by apply (told_allocated _ _ _ _ _ Ht).
  - apply (supplies_sales (Rejected m)); [done..|]. by apply (told_rejected _ _ _ _ _ Ht).
  - apply supplies_sends; [done|intros wire; apply carries_publish_created|].
    intros r w' (b & _ & ->)%on_bus_inv. done.
  - apply (supplies_sends (on_outcome true p)); [done|intros wire; apply carries_outcome|].
    intros r w' Ho. by apply outcome_contract in Ho as [-> _].
  - apply (supplies_sends (on_outcome false p)); [done|intros wire; apply carries_outcome|].
    intros r w' Ho. by apply outcome_contract in Ho as [-> _].
  - by apply (supplies_handle (Produce m)).
  - by apply (supplies_handle (Allocate m)).
  - by apply (supplies_handle (Compensate m)).
  - by apply supplies_trigger.
  - by apply (supplies_event (EvBeerAvailabilityUpdated m)).
  - by apply (supplies_event (EvQuantityNotFound m)).
  - by apply (supplies_event (EvAvailabilityCompensated m)).
Qed.

(** ** Every step keeps it *)
Lemma at_time_supplied t s : supplied s → supplied (at_time t s).
Proof. intros Hs. apply (supplied_stores s); [done|done|apply emitted_refl]. Qed.

Lemma consume_supplied done_ sub p s r s' :
  sub ∈ wiring → sound s → told s (sub_topic sub) p → supplied s →
  consume done_ sub p s = (r, s') → supplied s'.
Proof.
  intros Hin Hsnd Ht Hs Hr. unfold consume, retryMiddleware in Hr.
  eapply (retry_loop_invariant _ _ _ (λ s', (sound s' ∧ extends sview wview s s') ∧ supplied s')) in Hr;
    [exact (proj2 Hr)|..].
  - intros s1 r1 s2 Hh [[H1 Hx1] Hs1].
    pose proof (told_extends _ _ _ _ _ _ Hx1 Ht) as Ht1. split.
    + destruct (safe_subscription sview wview sub p s1 Hin H1 Ht1 r1 s2 Hh) as [H2 Hx2].
      split; [done|]. by etrans.
    + exact (supplies_subscription sub p s1 Hin H1 Ht1 Hs1 r1 s2 Hh).
  - intros d s1 [[H1 Hx1] Hs1].
    destruct (at_time_safe sview wview (sys_now s1 + d) s1 H1) as [H2 Hx2].
    split; [|by apply at_time_supplied]. split; [done|]. by etrans.
  - split; [|done]. split; [done|]. reflexivity.
Qed.

Lemma step_supplied s s' : sound s → supplied s → step s s' → supplied s'.
Proof.
  intros Hsnd Hs Hst. destruct Hst as [s t p sub d r s' Hin Hsub Hr|s t p r w' Hin Hp|s body r s' Hr
    |s body r s' Hr|s r s' Hr|s cutoff r s' Hr|s store b Hr|s store b Hr|s b t Hd Hb Ht|s t Ht].
  - apply list_elem_of_filter in Hsub as [Ht Hsub]. eapply consume_supplied; [exact Hsub|done| |done|exact Hr].
    rewrite Ht. by apply (sound_wire _ _ _ Hsnd).
  - apply (supplied_stores s); [done|done|]. by eapply Publish_grown.
  - apply in_sales_inv in Hr as (w' & Hr & ->).
    assert (w_store w' = sys_sales s ∧ grown (sys_bus s) (w_bus w')) as [Est Hg].
    { apply Facade_CreateSalesOrder_run in Hr as
        [(_ & _ & Est & Eb)|(c & w1 & _ & Est & Eb & Hsend & _)]; [split; [done|by apply emitted_eq]|].
      apply on_bus_inv in Hsend as (b & Hb & ->). split; [done|]. rewrite Eb in Hb.
      unfold Send in Hb. exact (publish_grown _ _ _ _ _ Hb). }
    apply (supplied_stores s); [done| |exact Hg]. split; [|done]. intros sid. simpl. by rewrite Est.
  - apply in_warehouse_inv in Hr as (w' & Hr & ->).
    assert (w_store w' = sys_warehouses s ∧ grown (sys_bus s) (w_bus w')) as [Est Hg].
    { apply production_run in Hr as
        [(_ & -> & _)|(c & w1 & _ & Est & Eb & Hsend & _)]; [split; [done|apply emitted_refl]|].
      apply on_bus_inv in Hsend as (b & Hb & ->). split; [done|]. rewrite Eb in Hb.
      unfold Send in Hb. exact (publish_grown _ _ _ _ _ Hb). }
    apply (supplied_stores s); [done| |exact Hg]. split; [done|]. intros sid. simpl. by rewrite Est.
  - eapply (supplies_runner _ s Hs); [intros wire; apply carries_resume| |exact Hr].
    intros r1 w1 H1 Hw. eapply (resume_serves wview); [apply Hsnd|exact H1|exact Hw].
  - eapply (supplies_runner _ s Hs); [|intros r1 w1 H1 Hw|exact Hr].
    + intros wire. apply carries_timeout.
    + eapply (timeout_serves wview); [apply Hsnd|exact H1|exact Hw].
  - apply (supplied_stores s); [done| |].
    + split; [|done]. intros sid. simpl. by eapply relay_streams.
    + eapply emitted_mono; [|exact (relay_emits _ _ _ _ Hr)]. done.
  - apply (supplied_stores s); [done| |].
    + split; [done|]. intros sid. simpl. by eapply relay_streams.
    + eapply emitted_mono; [|exact (relay_emits _ _ _ _ Hr)]. done.
  - congruence.
  - by apply at_time_supplied.
Qed.

Lemma run_supplied s0 s : fresh (P := P) sview wview s0 → run s0 s → supplied s.
Proof.
  intros H0 Hr. induction Hr as [s|s s' s'' Hr IH Hst]; [by apply fresh_supplied|].
  apply (step_supplied s'); [by eapply run_sound|by apply IH|done].
Qed.
End supply.
