(* ===== verification/Progress.v ===== *)
(** * Every order can be brought to its end

    From every state of a run in which nothing fails ([Supply]), the messages
    that are on the wire are enough to settle any order of positive quantities:
    there is a sequence of deliveries, each handled at the first attempt, after
    which Sales shows the order as allocated or rejected. *)
From S2P Require Import Prelude Errors Kernel Aggregate EventStore World Repository Frame.
From S2P Require Import Bus Json Wire Reliable.
From S2P Require Import SalesKernel SalesJson SalesOrder SalesHandlers SalesSteps.
From S2P Require Import SalesReadModel SalesFacade SalesIntegration.
From S2P Require Import WarehouseKernel WarehouseJson Availability Saga WarehouseHandlers.
From S2P Require Import WarehouseReadModel WarehouseFacade Histories SagaRunner SagaContract.
From S2P Require Import SagaWire WarehouseSteps SagaSupply Contracts Wiring System Supply.
#[local] Open Scope Z_scope.

(** ** What can be encoded, continued *)
Section writable.
Context `{GoText} {U : UuidLib} {P : Type} `{!JsonText P}.

Lemma all_ok_inv {A} (rs : list (result A)) l : all_ok rs = Ok l → ∀ r, r ∈ rs → ∃ a, r = Ok a.
Proof.
  revert l. induction rs as [|r rs IH]; intros l; simpl; [by intros _ r ?%elem_of_nil|].
  destruct r as [a|e|m]; simpl; [|done..]. destruct (all_ok rs) as [l'|e|m] eqn:E; [|done..].
  intros _ r' [->|Hin]%elem_of_cons; [by eexists|by eapply IH].
Qed.

(** An order that can be encoded has machine integers for quantities. *)
Lemma created_ranges (c : SalesOrderCreated) row :
  writable (P := P) (EvSalesOrderCreated c) → row ∈ soc_Rows c →
  Int.in_range (Value (SalesKernel.dto_Quantity row)).
Proof.
  intros [p Hp] Hrow. assert (∃ j, to_json c = Ok j) as [j Hj].
  { unfold json_Marshal, marshal_json in Hp. change (to_json (EvSalesOrderCreated c)) with (to_json c) in Hp.
    destruct (to_json c); [by eexists|done..]. }
  apply object_inv in Hj as (l & -> & Hl). take_members Hl.
  assert (∃ rs, all_ok (map to_json (soc_Rows c)) = Ok rs) as [rs E].
  { match goal with Hr : @to_json _ _ _ (soc_Rows c) = Ok _ |- _ => revert Hr end.
    unfold to_json at 1. unfold slice_to_json. destruct (all_ok _); [by eexists|done..]. }
  destruct (all_ok_inv _ rs E (to_json row)) as [jr Hjr]; [by apply list_elem_of_fmap_2|].
  apply object_inv in Hjr as (lr & -> & Hlr). take_members Hlr.
  assert (∃ jq, to_json (SalesKernel.dto_Quantity row) = Ok jq) as [jq Hjq] by (by eexists).
  apply object_inv in Hjq as (lq & -> & Hlq). take_members Hlq.
  match goal with Hz : @to_json _ _ _ (Value _) = Ok _ |- _ => revert Hz end.
  unfold to_json, int_to_json. by case_decide.
Qed.

(** What the warehouse makes of an order can be encoded too. *)
Lemma integration_writable (c : SalesOrderCreated) :
  writable (P := P) (EvSalesOrderCreated c) → writable (P := P) (integration_event c).
Proof.
  intros Hc. assert (∃ j, to_json (map integration_row (soc_Rows c)) = Ok j) as [j Hj].
  { pose proof (λ row, created_ranges c row Hc) as Hr. revert Hr. generalize (soc_Rows c).
    intros l Hl. unfold to_json, slice_to_json.
    assert (∃ js, all_ok (map to_json (map integration_row l)) = Ok js) as [js ->]; [|by eexists].
    induction l as [|row l IH]; [by eexists|]. simpl.
    destruct IH as [js ->]; [intros; apply Hl; by right|].
    unfold to_json at 1, integration_row_to_json, object. simpl.
    rewrite int_writes by (apply Hl; left). simpl. by eexists. }
  eapply writable_json. unfold to_json, integration_created_to_json, object. simpl.
  rewrite Hj. reflexivity.
Qed.

Lemma allocated_writable id c : writable (P := P) (NewMarkSalesOrderAllocated id c).
Proof. eapply writable_json. unfold to_json. simpl. reflexivity. Qed.

Lemma rejected_writable id c re : writable (P := P) (NewMarkSalesOrderAllocationRejected id c re).
Proof. eapply writable_json. unfold to_json. simpl. reflexivity. Qed.

(** The answers of a beer. *)
Lemma updated_writable b c name q oid :
  Int.in_range (Value q) →
  writable (P := P) (EvBeerAvailabilityUpdated (NewBeerAvailabilityUpdated b c name q oid)).
Proof.
  intros [j Hj]%quantity_writes. eapply writable_json. unfold to_json. simpl.
  unfold to_json, bau_to_json, object. simpl. rewrite Hj. reflexivity.
Qed.

Lemma not_found_writable b c oid q q' :
  Int.in_range (Value q) → Int.in_range (Value q') →
  writable (P := P) (EvQuantityNotFound (NewQuantityNotFound b c oid q q')).
Proof.
  intros [j Hj]%quantity_writes [j' Hj']%quantity_writes. eapply writable_json. unfold to_json. simpl.
  unfold to_json, qnf_to_json, object. simpl. rewrite Hj, Hj'. reflexivity.
Qed.

Lemma compensated_writable b c name q oid :
  Int.in_range (Value q) →
  writable (P := P) (EvAvailabilityCompensated (NewAvailabilityCompensated b c name q oid)).
Proof.
  intros [j Hj]%quantity_writes. eapply writable_json. unfold to_json. simpl.
  unfold to_json, ac_to_json, object. simpl. rewrite Hj. reflexivity.
Qed.
End writable.

(** ** A beer answers *)
Section beers.
Context `{GoText} {U : UuidLib} {St B P : Type} `{!EventStore WarehouseEvent St}.
Context `{!WirePublisher B P, !WirePublisherLaws B P, !ReliableWire B P, !JsonText P}.
Context {Pub : Publication}.
Context (view : St → string → list (StoredEvent WarehouseEvent)).
Context `{!EventStoreLaws view, !ReliableStore view}.
Context `{!StreamLister St, !StreamListerLaws StreamLister0 view}.
Context (publishing : direct = true).
Implicit Types (w : World St B).

Abbreviation beers := (WarehouseSteps.beers (B := B) (P := P)).
Abbreviation book w b := (history view beers w b).

(** Something went out that the saga runner reads as [o] about the order. *)
Definition heard w (oid : string) (o : observation) : Prop :=
  ∃ e (tp : string * P) c, announces e tp ∧ tp ∈ published (w_bus w) ∧ observed e = Some (oid, c, o).

Lemma save_new_answers old e b w :
  ID (RaiseEvent e (replay beers old)) = b → book w b = old → writable (P := P) e →
  ∃ w' (tp : string * P), save_new beers (RaiseEvent e (replay beers old)) w = (Ok tt, w') ∧
    announces e tp ∧ tp ∈ published (w_bus w').
Proof.
  intros Hid Hlog Hw. unfold save_new, uuid_New_. go_run.
  match goal with |- context [Save _ _ _ ?w1] => set (w2 := w1) end.
  change (RaiseEvent e (replay beers old)) with (loaded_and_raised beers old [e]) in *.
  destruct (Save_succeeds (P := P) view beers old [e] b (uuid_New (w_minted w)) w2)
    as (a & w' & Hs); [apply blank|done|done|done|by intros ? ->%list_elem_of_singleton|].
  rewrite Hs. eapply (Save_announces view) in Hs as (tp & Ha & Hin);
    [|apply blank|done|exact publishing|left].
  by exists w', tp.
Qed.

(** Whatever a handler decides on a beer it loads is saved and said. *)
Lemma handle_answers d loaded e w :
  (loaded = match book w (target d) with
            | [] => inl (Errorf (streamName beers +:+ "/" +:+ uuid_String (target d))%string
                           ErrAggregateNotFound)
            | l => inr (replay beers l) end) →
  decide_delivery d loaded = Ok (RaiseEvent e (replay beers (book w (target d)))) →
  ID (RaiseEvent e (replay beers (book w (target d)))) = target d → writable (P := P) e →
  ∃ w' (tp : string * P), handle beers d w = (Ok tt, w') ∧ announces e tp ∧
    tp ∈ published (w_bus w').
Proof.
  intros -> Hd Hid Hw. rewrite handle_halves. unfold mbind, GoM_bind, load_half.
  destruct (GetByID_answers view beers (target d) w) as (w1 & Hsame & _ & Hg).
  unfold mbind at 1, GoM_bind at 1, attempt. rewrite Hg.
  assert (book w1 (target d) = book w (target d)) as Hb by (unfold history; by rewrite Hsame).
  destruct (save_new_answers (book w (target d)) e (target d) w1 Hid Hb Hw) as (w' & tp & Hs & Ha).
  exists w', tp. split; [|done].
  destruct (book w (target d)) as [|x l]; unfold lift; rewrite Hd; exact Hs.
Qed.

Context (w : World St B) (b : UUID).
Context (Hbook : ∀ e, e ∈ book w b → event_beer e = Some b ∧ machine_event e).

Lemma book_beer x l : book w b = x :: l → BeerId_Value (beerId (replay beers (book w b))) = b.
Proof.
  intros Hl. apply replay_beer; [|by rewrite Hl]. intros e He. by apply Hbook.
Qed.

(** The beer's answer to an allocation: taken, or refused. *)
Lemma allocation_decided c name q oid :
  let d := Allocate (NewUpdateAvailabilityDueToSalesOrder (mkBeerId b) c name q oid) in
  0 < Value q → Int.in_range (Value q) →
  ∃ e c' o, decide_delivery d (match book w b with
      | [] => inl (Errorf (streamName beers +:+ "/" +:+ uuid_String b)%string ErrAggregateNotFound)
      | l => inr (replay beers l) end) = Ok (RaiseEvent e (replay beers (book w b))) ∧
    ID (RaiseEvent e (replay beers (book w b))) = b ∧ writable (P := P) e ∧
    observed e = Some (oid, c', o) ∧
    (o = Succeeded (uuid_String b) ∨ ∃ re, o = NotFound (uuid_String b) re).
Proof.
  intros d Hq Hr. pose proof book_beer as Hbeer. pose proof (stock_in_range view (book w b) (λ e He, proj2 (Hbook e He))) as Hst.
  destruct (book w b) as [|x l] eqn:Hl.
  { eexists _, _, _. split; [reflexivity|]. split; [done|]. split; [by apply not_found_writable|].
    split; [reflexivity|]. right. by eexists. }
  rewrite <- Hl in *. pose proof (Hbeer x l Hl) as Hb. revert Hb Hst.
  generalize (replay beers (book w b)). intros a Hb Hst. unfold d. simpl.
  unfold UpdateDueToSalesOrder. rewrite (proj2 (Z.leb_gt _ _)) by exact Hq.
  case_decide; [|destruct (Value q >? _)]; (eexists _, _, _; split; [reflexivity|]);
    (split; [unfold ID; autorewrite with brew_rw; simpl; by repeat case_decide|]);
    (split; [|split; [reflexivity|]; simpl; rewrite Hb; eauto]).
  - apply updated_writable. exact Hst.
  - apply not_found_writable; [exact Hr|exact Hst].
  - apply updated_writable, Int.wrap_in_range.
Qed.

Lemma allocate_answers c name q oid :
  0 < Value q → Int.in_range (Value q) →
  ∃ w' o, handle beers (Allocate (NewUpdateAvailabilityDueToSalesOrder (mkBeerId b) c name q oid)) w
          = (Ok tt, w') ∧ heard w' oid o ∧
    (o = Succeeded (uuid_String b) ∨ ∃ re, o = NotFound (uuid_String b) re).
Proof.
  intros Hq Hr. destruct (allocation_decided c name q oid Hq Hr) as (e & c' & o & Hd & Hid & Hw & Hobs & Ho).
  destruct (handle_answers _ _ e w eq_refl Hd Hid Hw) as (w' & tp & Hh & Ha & Hin).
  exists w', o. split; [exact Hh|]. split; [|exact Ho]. by exists e, tp, c'.
Qed.

(** A known beer takes stock back. *)
Lemma compensate_answers c q oid :
  book w b ≠ [] → 0 < Value q →
  ∃ w', handle beers (Compensate (NewCompensateAvailabilityDueToFailedAllocation (mkBeerId b) c q oid)) w
        = (Ok tt, w') ∧ heard w' oid (Compensated (uuid_String b)).
Proof.
  intros Hne Hq. set (d := Compensate _).
  assert (∃ e c', decide_delivery d (match book w b with
      | [] => inl (Errorf (streamName beers +:+ "/" +:+ uuid_String b)%string ErrAggregateNotFound)
      | l => inr (replay beers l) end) = Ok (RaiseEvent e (replay beers (book w b))) ∧
    ID (RaiseEvent e (replay beers (book w b))) = b ∧ writable (P := P) e ∧
    observed e = Some (oid, c', Compensated (uuid_String b)))
    as (e & c' & Hd & Hid & Hw & Hobs).
  { pose proof book_beer as Hbeer. pose proof (stock_in_range view (book w b) (λ e He, proj2 (Hbook e He))) as Hst.
    destruct (book w b) as [|x l] eqn:Hl; [done|]. rewrite <- Hl in *.
    pose proof (Hbeer x l Hl) as Hb. revert Hb Hst. generalize (replay beers (book w b)).
    intros a Hb Hst. unfold d. simpl. unfold CompensateDueToFailedAllocation.
    rewrite (proj2 (Z.leb_gt _ _)) by exact Hq.
    case_decide; (eexists _, _; split; [reflexivity|]);
      (split; [unfold ID; by autorewrite with brew_rw|]);
      (split; [apply compensated_writable|simpl; by rewrite Hb]).
    - exact Hst.
    - apply Int.wrap_in_range. }
  destruct (handle_answers d _ e w eq_refl Hd Hid Hw) as (w' & tp & Hh & Ha & Hin).
  exists w'. split; [exact Hh|]. by exists e, tp, c'.
Qed.
End beers.

(** ** Deliveries *)
Section progress.
Context `{GoText} {U : UuidLib} {SS WS B P RS RW : Type}.
Context `{!EventStore SalesEvent SS, !EventStore WarehouseEvent WS, !StreamLister WS}.
Context `{!WirePublisher B P, !WirePublisherLaws B P, !JsonText P}.
Context `{!SalesReadModel RS, !AvailabilityReadModel RW}.
Context (sview : SS → string → list (StoredEvent SalesEvent)) `{!EventStoreLaws sview}.
Context (wview : WS → string → list (StoredEvent WarehouseEvent)) `{!EventStoreLaws wview}.
Context `{!StreamListerLaws StreamLister0 wview}.
Context {Pub : Publication} `{!OutboxRelay SS B, !OutboxRelay WS B}.
Context `{!RelayLaws (B := B) (P := P) sview, !RelayLaws (B := B) (P := P) wview}.
(** Nothing fails, and the repositories publish. *)
Context `{!ReliableStore sview, !ReliableStore wview, !ReliableWire B P}.
Context (publishing : direct = true).

Abbreviation System := (System SS WS B RS RW).
Implicit Types (s : System) (id b : UUID).

Abbreviation sagas := (SagaContract.sagas (B := B) (P := P)).
Abbreviation bus_orders := (SalesSteps.bus_orders (B := B) (P := P)).
Abbreviation beers := (WarehouseSteps.beers (B := B) (P := P)).
Abbreviation order_log s id := (System.order_log (B := B) (P := P) sview s id).
Abbreviation order_at s id := (System.order_at (B := B) (P := P) sview s id).
Abbreviation saga_log s id := (System.saga_log (B := B) (P := P) wview s id).
Abbreviation saga_at s id := (System.saga_at (B := B) (P := P) wview s id).
Abbreviation book s b := (System.book (B := B) (P := P) wview s b).
Abbreviation sound s := (System.sound (P := P) sview wview s).
Abbreviation supplied s := (Supply.supplied (P := P) sview wview s).

(** A message of the wire reaches one of its subscriptions, whose handler
    succeeds at once. *)
Inductive delivers s s' : Prop :=
| delivered topic (payload : P) sub :
    (topic, payload) ∈ published (sys_bus s) → sub ∈ subscribers topic wiring →
    sub_handler sub payload s = (Ok tt, s') → delivers s s'.

Lemma delivers_step s s' : delivers s s' → step (P := P) s s'.
Proof.
  intros [topic payload sub Hp Hsub Hr]. eapply (step_deliver _ topic payload sub (λ _, false)); [done|done|].
  unfold consume, retryMiddleware. simpl. by rewrite Hr.
Qed.

Lemma two_deliveries s1 s2 s3 : delivers s1 s2 → delivers s2 s3 → bsteps delivers 2 s1 s3.
Proof. intros H1 H2. eapply bsteps_l; [exact H1|by apply bsteps_once]. Qed.

(** What deliveries rely on. *)
Definition well s : Prop := sound s ∧ supplied s.

Lemma delivers_well s s' : delivers s s' → well s → well s'.
Proof.
  intros Hd%delivers_step [Hs Hp]. split; [by eapply step_safe|by eapply (step_supplied sview wview)].
Qed.

(** The bus calls [h] with the messages on [topic]. *)
Definition hears (topic : string) (h : P → GoM System unit) : Prop :=
  ∃ sub, sub ∈ subscribers topic wiring ∧ sub_handler sub = h.

Lemma deliver topic h p s s' :
  hears topic h → (topic, p) ∈ published (sys_bus s) → h p s = (Ok tt, s') → delivers s s'.
Proof. intros (sub & Hsub & <-) Hp Hr. by eapply delivered. Qed.

(** A registered handler gets the decoded message. *)
Definition decoded {M} `{!JsonUnmarshal M P} (msg : string) (f : M → GoM System unit) (p : P) :=
  (m ← lift (result_wrap msg (json_Unmarshal p)); f m).

Lemma deliver_decoded {M} `{!JsonUnmarshal M P} topic msg (f : M → GoM System unit) p m s s' :
  hears topic (decoded msg f) → (topic, p) ∈ published (sys_bus s) →
  json_Unmarshal p = Ok m → f m s = (Ok tt, s') → delivers s s'.
Proof.
  intros Hh Hp Hm Hf. eapply deliver; [exact Hh|exact Hp|].
  unfold decoded, mbind, GoM_bind, lift. by rewrite Hm.
Qed.

(** The two [Register] calls put the subscription on the bus. *)
Ltac in_wiring :=
  eexists (mkSubscription _ _ _); split; [|reflexivity];
  apply list_elem_of_filter; split; [reflexivity|];
  unfold wiring, warehouses_Register, sales_Register, NewServiceBus, RegisterCommandHandler,
    RegisterDomainEventHandler, SubscribeIntegrationEvent, subscribe;
  repeat (first [apply elem_of_app; right; apply list_elem_of_singleton; reflexivity
                |apply elem_of_app; left]).

Lemma hears_created : ∃ msg, hears "events.sales.sales_order_created"
  (decoded msg (λ e : SalesOrderCreated, in_sales (PublishSalesOrderCreated e))).
Proof. eexists. in_wiring. Qed.

Lemma hears_trigger : hears "integrationevents.sales.sales_order_created"
  (λ p, in_warehouse (OnSalesOrderCreated sagas p)).
Proof. in_wiring. Qed.

Lemma hears_allocate : ∃ msg, hears "commands.warehouses.update_availability_due_to_sales_order"
  (decoded msg (λ c, in_warehouse (handle beers (Allocate c)))).
Proof. eexists. in_wiring. Qed.

Lemma hears_compensate :
  ∃ msg, hears "commands.warehouses.compensate_availability_due_to_failed_allocation"
    (decoded msg (λ c, in_warehouse (handle beers (Compensate c)))).
Proof. eexists. in_wiring. Qed.

Lemma hears_updated : ∃ msg, hears "events.warehouses.beer_availability_updated"
  (decoded msg (λ e, in_warehouse (on_event sagas (EvBeerAvailabilityUpdated e)))).
Proof. eexists. in_wiring. Qed.

Lemma hears_not_found : ∃ msg, hears "events.warehouses.quantity_not_found"
  (decoded msg (λ e, in_warehouse (on_event sagas (EvQuantityNotFound e)))).
Proof. eexists. in_wiring. Qed.

Lemma hears_compensated : ∃ msg, hears "events.warehouses.availability_compensated"
  (decoded msg (λ e, in_warehouse (on_event sagas (EvAvailabilityCompensated e)))).
Proof. eexists. in_wiring. Qed.

Lemma hears_completion : hears "integrationevents.warehouses.order_allocation_completed"
  (λ p, in_sales (on_outcome true p)).
Proof. in_wiring. Qed.

Lemma hears_rejection : hears "integrationevents.warehouses.order_allocation_rejected"
  (λ p, in_sales (on_outcome false p)).
Proof. in_wiring. Qed.

Lemma hears_allocated : ∃ msg, hears "commands.sales.mark_sales_order_allocated"
  (decoded msg (λ c, in_sales (handle_sales bus_orders (Allocated c)))).
Proof. eexists. in_wiring. Qed.

Lemma hears_rejected : ∃ msg, hears "commands.sales.mark_sales_order_allocation_rejected"
  (decoded msg (λ c, in_sales (handle_sales bus_orders (Rejected c)))).
Proof. eexists. in_wiring. Qed.

(** *** A saga works on rows of its order *)
Lemma order_rows_sendable s id c row :
  sound s → EvSalesOrderCreated c ∈ order_log s id → row ∈ map saga_row (soc_Rows c) → sendable row.
Proof.
  intros Hs Hc (r & -> & Hr)%list_elem_of_fmap. split.
  - simpl. by rewrite uuid_Parse_String.
  - simpl. eapply created_ranges; [|exact Hr]. exact (sound_orders _ _ _ Hs id _ Hc).
Qed.

Lemma saga_order s id :
  sound s → saga_log s id ≠ [] →
  ∃ c, EvSalesOrderCreated c ∈ order_log s id ∧
    data <$> rows (saga_at s id) = map saga_row (soc_Rows c).
Proof.
  intros Hs Hne. destruct (saga_started _ _ s id Hs Hne) as [x Hx].
  destruct (sound_logs _ _ _ Hs id _ Hx) as (c & Hc & _). exists c. split; [done|].
  by eapply saga_rows.
Qed.

Lemma saga_sound_rows s id : sound s → saga_log s id ≠ [] → sound_rows (saga_at s id).
Proof.
  intros Hs Hne. destruct (saga_order s id Hs Hne) as (c & Hc & Hrows). intros r Hr.
  eapply order_rows_sendable; [done|exact Hc|]. rewrite <- Hrows. by apply list_elem_of_fmap_2.
Qed.

(** *** The saga of a new order starts *)
Lemma saga_starts s id c :
  well s → EvSalesOrderCreated c ∈ order_log s id → saga_log s id = [] →
  ∃ s', bsteps delivers 2 s s' ∧ sys_sales s' = sys_sales s ∧ saga_log s' id ≠ [].
Proof.
  intros [Hs Hp] Hc Hnil.
  assert (SalesOrderId_Value (soc_SalesOrderId c) = id) as E
    by (eapply created_in_shape; [apply (sound_shapes _ _ _ Hs)|done]).
  destruct (supplied_orders _ _ _ Hp id c Hc) as ([t p] & [Ht Hj] & Hin).
  simpl in Ht, Hj. subst t.
  destruct (integration_goes_out (integration_event c) (sales_world s)) as [w1 H1].
  { apply integration_writable. exact (sound_orders _ _ _ Hs id _ Hc). }
  pose proof H1 as (b1 & _ & Ew1)%on_bus_inv.
  pose proof H1 as (p1 & Hj1 & Hp1)%published_one.
  assert (delivers s (put_sales w1 s)) as Hd1.
  { destruct hears_created as [msg Hh]. eapply (deliver_decoded _ msg _ p c); [exact Hh|exact Hin|..].
    - by apply (unmarshal_reads (f := λ x, x)).
    - unfold in_sales, zoom, PublishSalesOrderCreated. by rewrite H1. }
  assert (sys_sales (put_sales w1 s) = sys_sales s) as Est by (by rewrite Ew1).
  clear Ew1. set (s1 := put_sales w1 s) in *.
  pose proof (delivers_well _ _ Hd1 (conj Hs Hp)) as [Hs1 _].
  destruct (trigger_answers wview p1 _ (warehouse_world s1) (sound_sagas _ _ _ Hs1)
              (order_contract c p1 Hj1)) as [w2 H2].
  { intros row Hrow. exact (order_rows_sendable s id c row Hs Hc Hrow). }
  exists (put_warehouse w2 s1). split; [|split; [exact Est|]].
  - eapply two_deliveries; [exact Hd1|]. eapply deliver; [exact hears_trigger| |].
    + change (sys_bus s1) with (w_bus w1). rewrite Hp1. apply elem_of_app. right. by left.
    + unfold in_warehouse, zoom. by rewrite H2.
  - apply (trigger_cases wview) in H2 as [_ [[_ Hx]|(m & i & Hm & Hi & _ & _ & Hl & _)]];
      [| |apply Hs1].
    + destruct (Hx eq_refl) as (m & Hm & Hi). rewrite (order_contract c p1 Hj1) in Hm.
      injection Hm as <-. simpl in Hi.
      destruct (Hi id); [by rewrite uuid_Parse_String, E|exact Hnil].
    + rewrite (order_contract c p1 Hj1) in Hm. injection Hm as <-. simpl in Hi.
      rewrite uuid_Parse_String in Hi. injection Hi as <-.
      rewrite <- E. change (history wview sagas w2 (SalesOrderId_Value (soc_SalesOrderId c)) ≠ []).
      by rewrite Hl.
Qed.

(** *** A saga in flight moves on *)

(** What a beer said reaches the saga of the order. *)
Lemma heard_delivers s oid o :
  sound s → heard (P := P) (warehouse_world s) oid o →
  ∃ e c w', observed e = Some (oid, c, o) ∧
    on_event sagas e (warehouse_world s) = (Ok tt, w') ∧ delivers s (put_warehouse w' s).
Proof.
  intros Hs (e & [t p] & c & [Ht Hj] & Hin & Hobs). simpl in Ht, Hj. exists e, c.
  destruct (on_event_answers wview e (warehouse_world s) (sound_sagas _ _ _ Hs)) as [w' Hw].
  { intros oid' c' o' i _ _ Hne. by apply saga_sound_rows. }
  exists w'. split; [done|]. split; [exact Hw|].
  assert (in_warehouse (on_event sagas e) s = (Ok tt, put_warehouse w' s)) as Hr
    by (unfold in_warehouse, zoom; by rewrite Hw).
  destruct e as [|m|m|m| | | | | |]; try done; subst t;
    [destruct hears_updated as [msg Hh]|destruct hears_not_found as [msg Hh]
    |destruct hears_compensated as [msg Hh]];
    (eapply (deliver_decoded _ msg _ p m); [exact Hh|exact Hin|exact (unmarshal_reads (f := λ x, x) m p Hj)|exact Hr]).
Qed.

(** The saga uses up part of its budget. *)
Definition moved id s s' : Prop :=
  saga_log s' id ≠ [] ∧ (remaining (saga_at s' id) < remaining (saga_at s id))%nat.

Lemma heard_moves s id o :
  sound s → saga_log s id ≠ [] → heard (P := P) (warehouse_world s) (uuid_String id) o →
  enabled o (saga_at s id) = true →
  ∃ s', delivers s s' ∧ sys_sales s' = sys_sales s ∧ moved id s s'.
Proof.
  intros Hs Hne Hh He. destruct (heard_delivers s _ o Hs Hh) as (e & c & w' & Hobs & Hw & Hd).
  exists (put_warehouse w' s). split; [exact Hd|]. split; [done|].
  pose proof (sound_sagas _ _ _ Hs) as Hok.
  apply (on_event_cases wview) in Hw as [_ Hc]; [|done]. rewrite Hobs in Hc.
  destruct Hc as [(_ & _ & Hx)|(i & Hi & _ & _ & _ & Hl & _)].
  - specialize (Hx eq_refl id (uuid_Parse_String id) Hne).
    change (enabled o (saga_of wview (warehouse_world s) id) = true) in He. congruence.
  - rewrite uuid_Parse_String in Hi. injection Hi as <-.
    assert (saga_at (put_warehouse w' s) id =
      ClearUncommittedEvents (RaiseAll (raised_events id c o (saga_at s id)) (saga_at s id))) as Es.
    { unfold System.saga_at at 1, System.saga_log.
      change (replay sagas (history wview sagas w' id) =
        ClearUncommittedEvents (RaiseAll (raised_events id c o (saga_at s id)) (saga_at s id))).
      rewrite Hl. symmetry. apply (clear_loaded_and_raised sagas _ _ saga_blank). }
    split.
    + change (history wview sagas w' id ≠ []). rewrite Hl. by intros [? _]%app_eq_nil.
    + rewrite Es. pose proof (remaining_decreases id c o (saga_at s id)
        (reachable_inv _ _ (Hok id Hne)) He) as Hrem.
      change (remaining (ClearUncommittedEvents ?x)) with (remaining x).
      assert (0 < length (raised_events id c o (saga_at s id)))%nat by (unfold raised_events; simpl; lia).
      lia.
Qed.

(** An order that asks for something of each of its beers. *)
Definition positive (c : SalesOrderCreated) : Prop :=
  ∀ row, row ∈ soc_Rows c → 0 < Value (SalesKernel.dto_Quantity row).

Lemma saga_row_facts s id c r :
  sound s → saga_log s id ≠ [] → EvSalesOrderCreated c ∈ order_log s id → positive c →
  r ∈ rows (saga_at s id) →
  0 < row_Quantity (data r) ∧ Int.in_range (row_Quantity (data r)) ∧
  ∀ b, uuid_Parse (row_BeerId (data r)) = Some b → row_BeerId (data r) = uuid_String b.
Proof.
  intros Hs Hne Hc Hpos Hr. pose proof (saga_sound_rows s id Hs Hne r Hr) as [_ Hrange].
  assert (data r ∈ map saga_row (soc_Rows c)) as (row & E & Hrow)%list_elem_of_fmap.
  { rewrite <- (saga_rows _ _ s id c Hs Hne Hc). by apply list_elem_of_fmap_2. }
  rewrite E in *. simpl. split; [by apply Hpos|]. split; [done|].
  intros b. rewrite uuid_Parse_String. by intros [= <-].
Qed.

(** A beer's handler runs: the sagas stay, and the answer moves the saga. *)
Lemma answer_moves s id d w1 o topic msg p {M} `{!JsonUnmarshal M P} (f : M → delivery) m :
  well s → saga_log s id ≠ [] → handle beers d (warehouse_world s) = (Ok tt, w1) →
  hears topic (decoded msg (λ m : M, in_warehouse (handle beers (f m)))) →
  (topic, p) ∈ published (sys_bus s) → json_Unmarshal p = Ok m → f m = d →
  heard (P := P) w1 (uuid_String id) o → enabled o (saga_at s id) = true →
  ∃ s', bsteps delivers 2 s s' ∧ sys_sales s' = sys_sales s ∧ moved id s s'.
Proof.
  intros Hw Hne Hr Hh Hin Hm <- Ho He. set (s1 := put_warehouse w1 s).
  assert (saga_log s1 id = saga_log s id) as Hl.
  { unfold System.saga_log, history.
    pose proof (frame_handle wview (wview (sys_warehouses s)) _ _ _ _ Hr (λ _ _, eq_refl)) as Hfr.
    simpl. by rewrite Hfr by apply saga_not_beer. }
  assert (saga_at s1 id = saga_at s id) as Es by (unfold System.saga_at; by rewrite Hl).
  assert (delivers s s1) as Hd.
  { eapply (deliver_decoded _ _ _ p m); [exact Hh|exact Hin|exact Hm|].
    unfold in_warehouse, zoom. by rewrite Hr. }
  destruct (heard_moves s1 id o) as (s2 & Hd2 & Est & Hmv).
  - by destruct (delivers_well _ _ Hd Hw).
  - by rewrite Hl.
  - exact Ho.
  - by rewrite Es.
  - exists s2. split; [by eapply two_deliveries|]. split; [exact Est|].
    unfold moved in *. by rewrite Es in Hmv.
Qed.

Lemma running_moves s id c :
  well s → saga_log s id ≠ [] → EvSalesOrderCreated c ∈ order_log s id → positive c →
  status (saga_at s id) = SagaRunning →
  ∃ s', bsteps delivers 2 s s' ∧ sys_sales s' = sys_sales s ∧ moved id s s'.
Proof.
  intros Hw Hne Hc Hpos Hst. pose proof Hw as [Hs Hp].
  pose proof (reachable_inv _ _ (sound_sagas _ _ _ Hs id Hne)) as [Hoid _ _ _].
  pose proof (supplied_sagas _ _ _ Hp id Hne (saga_sound_rows s id Hs Hne)) as Hserved.
  change (saga_of wview (warehouse_world s) id) with (saga_at s id) in *.
  unfold served in Hserved. rewrite Hst in Hserved.
  destruct Hserved as (c0 & row & m & Hrow & Hm & [t p] & Hin & Ht & Hj). simpl in Ht, Hj.
  unfold NextPendingRow in Hrow. rewrite decide_True in Hrow by done.
  apply first_pending_elem in Hrow as (r & Hr & <- & Hpend).
  destruct (saga_row_facts s id c r Hs Hne Hc Hpos Hr) as (Hq & Hrange & Hb).
  unfold allocation_message in Hm. destruct (uuid_Parse (row_BeerId (data r))) as [b|]; [|done].
  specialize (Hb b eq_refl). injection Hm as <-. subst t. rewrite Hoid in Hj.
  destruct (allocate_answers wview publishing (warehouse_world s) b
    (λ e He, let '(conj h1 (conj h2 _)) := sound_books _ _ _ Hs b e He in conj h1 h2)
    c0 (mkBeerName (row_BeerName (data r))) (NewQuantity (row_Quantity (data r)) (row_UnitOfMeasure (data r)))
    (uuid_String id) Hq Hrange) as (w1 & o & Hh & Hheard & Ho).
  destruct hears_allocate as [msg Hhear].
  eapply (answer_moves s id _ w1 o _ msg p Allocate); [done|done|exact Hh|exact Hhear|exact Hin| |done|exact Hheard|].
  - exact (unmarshal_reads (f := λ x, x) _ p Hj).
  - assert (some_row (uuid_String b) rowPending (rows (saga_at s id)) = true) as Hsome
      by (apply some_row_true; exists r; by rewrite <- Hb).
    by destruct Ho as [-> |[re ->]]; unfold enabled; rewrite Hst, Hsome.
Qed.

Lemma compensating_moves s id c :
  well s → saga_log s id ≠ [] → EvSalesOrderCreated c ∈ order_log s id → positive c →
  status (saga_at s id) = SagaCompensating →
  ∃ s', bsteps delivers 2 s s' ∧ sys_sales s' = sys_sales s ∧ moved id s s'.
Proof.
  intros Hw Hne Hc Hpos Hst. pose proof Hw as [Hs Hp].
  pose proof (reachable_inv _ _ (sound_sagas _ _ _ Hs id Hne)) as [Hoid _ _ Hok].
  pose proof (supplied_sagas _ _ _ Hp id Hne (saga_sound_rows s id Hs Hne)) as Hserved.
  change (saga_of wview (warehouse_world s) id) with (saga_at s id) in *.
  unfold served in Hserved. rewrite Hst in Hserved.
  unfold status_ok in Hok. rewrite Hst in Hok. destruct Hok as [(r & Hr & Hal) _].
  destruct (Hserved (data r)) as (c0 & m & Hm & [t p] & Hin & Ht & Hj);
    [apply to_compensate; eauto|]. simpl in Ht, Hj.
  destruct (saga_row_facts s id c r Hs Hne Hc Hpos Hr) as (Hq & _ & Hb).
  unfold compensation_message in Hm. destruct (uuid_Parse (row_BeerId (data r))) as [b|]; [|done].
  specialize (Hb b eq_refl). injection Hm as <-. subst t. rewrite Hoid in Hj.
  assert (book s b ≠ []) as Hbook.
  { destruct (allocated_by _ r Hr Hal) as (x & Hx & Hxb).
    destruct (sound_logs _ _ _ Hs id _ Hx) as (b' & u & Hb' & Hu & _).
    rewrite Hxb, Hb in Hb'. apply (inj uuid_String) in Hb' as <-. intros E. rewrite E in Hu.
    by apply elem_of_nil in Hu. }
  destruct (compensate_answers wview publishing (warehouse_world s) b
    (λ e He, let '(conj h1 (conj h2 _)) := sound_books _ _ _ Hs b e He in conj h1 h2)
    c0 (NewQuantity (row_Quantity (data r)) (row_UnitOfMeasure (data r)))
    (uuid_String id) Hbook Hq) as (w1 & Hh & Hheard).
  destruct hears_compensate as [msg Hhear].
  eapply (answer_moves s id _ w1 _ _ msg p Compensate); [done|done|exact Hh|exact Hhear|exact Hin| |done|exact Hheard|].
  - exact (unmarshal_reads (f := λ x, x) _ p Hj).
  - assert (some_row (uuid_String b) rowAllocated (rows (saga_at s id)) = true) as Hsome
      by (apply some_row_true; exists r; by rewrite <- Hb).
    unfold enabled. by rewrite Hst, Hsome.
Qed.

(** *** Sales hears the outcome *)

(** The order is shown as allocated or as rejected. *)
Definition settled s id : Prop :=
  so_allocation (order_at s id) = AllocationDone ∨
  so_allocation (order_at s id) = AllocationRejected.

(** A settlement command for a pending order. *)
Lemma settlement_settles s id c d topic msg p {M} `{!JsonUnmarshal M P} (f : M → sales_delivery) m :
  order_log s id = [EvSalesOrderCreated c] → SalesOrderId_Value (soc_SalesOrderId c) = id →
  hears topic (decoded msg (λ m : M, in_sales (handle_sales bus_orders (f m)))) →
  (topic, p) ∈ published (sys_bus s) → json_Unmarshal p = Ok m → f m = d →
  (∀ x, d ≠ Create x) → sales_target d = id → ∃ s', delivers s s' ∧ settled s' id.
Proof.
  intros Hlog Hc Hh Hin Hm <- Hd Ht.
  destruct (settles sview (f m) id c (sales_world s) Hd Ht Hc Hlog) as (w' & a & Hr & Hl).
  exists (put_sales w' s). split.
  - eapply (deliver_decoded _ _ _ p m); [exact Hh|exact Hin|exact Hm|]. unfold in_sales, zoom. by rewrite Hr.
  - unfold settled, System.order_at, System.order_log.
    change (history sview bus_orders (sales_world (put_sales w' s)) id)
      with (history sview bus_orders w' id).
    rewrite Hl. destruct a; [by left|by right].
Qed.

(** What the outcome handlers answer. *)
Lemma outcome_answers (ok : bool) payload message id (w : World SS B) :
  json_Unmarshal payload = Ok message → uuid_Parse (aom_SalesOrderId message) = Some id →
  ∃ w', on_outcome ok payload w = (Ok tt, w').
Proof.
  intros Hm Hid. unfold on_outcome, OnAllocationCompleted, OnAllocationRejected, parse.
  destruct ok; unfold mbind at 1, GoM_bind at 1, lift at 1; rewrite Hm; simpl; rewrite Hid;
    unfold mbind, GoM_bind, lift, uuid_MustParse; simpl; rewrite Hid; apply send_goes_out;
    [apply allocated_writable|apply rejected_writable].
Qed.

(** The message a settled saga has sent, as Sales reads it. *)
Lemma outcome_read s id :
  well s → saga_log s id ≠ [] →
  status (saga_at s id) = SagaCompleted ∨ status (saga_at s id) = SagaRejected →
  ∃ ok topic (p : P) message, hears topic (λ p, in_sales (on_outcome ok p)) ∧
    (topic, p) ∈ published (sys_bus s) ∧
    json_Unmarshal p = Ok message ∧ uuid_Parse (aom_SalesOrderId message) = Some id.
Proof.
  intros [Hs Hp] Hne Hst.
  pose proof (reachable_inv _ _ (sound_sagas _ _ _ Hs id Hne)) as [Hoid _ _ _].
  pose proof (supplied_sagas _ _ _ Hp id Hne (saga_sound_rows s id Hs Hne)) as Hserved.
  change (saga_of wview (warehouse_world s) id) with (saga_at s id) in *.
  assert (∃ c0, on_wire (sys_bus s) (outcome_message (saga_at s id) c0)) as (c0 & [t p] & Hin & Ht & Hj)
    by (unfold served in Hserved; destruct Hst as [E|E]; rewrite E in Hserved; exact Hserved).
  simpl in Ht, Hj. unfold outcome_message in Ht, Hj. case_decide; subst t; rewrite Hoid in Hj.
  - eexists true, _, p, _. split; [apply hears_completion|]. split; [exact Hin|].
    split; [exact (completed_contract _ p Hj)|]. apply uuid_Parse_String.
  - eexists false, _, p, _. split; [apply hears_rejection|]. split; [exact Hin|].
    split; [exact (unmarshal_reads (f := read_rejected) _ p Hj)|]. apply uuid_Parse_String.
Qed.

Lemma outcome_settles s id c :
  well s → order_log s id = [EvSalesOrderCreated c] → saga_log s id ≠ [] →
  status (saga_at s id) = SagaCompleted ∨ status (saga_at s id) = SagaRejected →
  ∃ s', bsteps delivers 2 s s' ∧ settled s' id.
Proof.
  intros Hw Hlog Hne Hst.
  assert (SalesOrderId_Value (soc_SalesOrderId c) = id) as Hc.
  { eapply (created_in_shape id (order_log s id)); [apply (sound_shapes _ _ _ (proj1 Hw))|].
    rewrite Hlog. left. }
  destruct (outcome_read s id Hw Hne Hst) as (ok & topic & p & message & Hh & Hin & Hm & Hid).
  destruct (outcome_answers ok p message id (sales_world s) Hm Hid) as [w1 H1].
  set (s1 := put_sales w1 s).
  assert (delivers s s1) as Hd.
  { eapply (deliver _ _ p); [exact Hh|exact Hin|]. unfold in_sales, zoom. by rewrite H1. }
  pose proof H1 as [Hst1 Ho]%outcome_contract. rewrite Hm, Hid in Ho.
  destruct (Ho eq_refl) as ([t q] & He & Hq).
  assert (order_log s1 id = [EvSalesOrderCreated c]) as Hl1.
  { unfold System.order_log, history. simpl. rewrite Hst1. exact Hlog. }
  assert ((t, q) ∈ published (sys_bus s1)) as Hin1
    by (change (sys_bus s1) with (w_bus w1); rewrite Hq; apply elem_of_app; right; left).
  assert (∃ s2, delivers s1 s2 ∧ settled s2 id) as (s2 & Hd2 & Hset).
  { unfold settlement_entry in He. destruct ok, He as [Ht Hj]; simpl in Ht, Hj; subst t.
    - destruct hears_allocated as [msg Hh'].
      eapply (settlement_settles s1 id c _ _ msg q Allocated);
        [done|done|exact Hh'|exact Hin1|exact (unmarshal_reads (f := λ x, x) _ q Hj)|done..].
    - destruct hears_rejected as [msg Hh'].
      eapply (settlement_settles s1 id c _ _ msg q Rejected);
        [done|done|exact Hh'|exact Hin1|exact (unmarshal_reads (f := λ x, x) _ q Hj)|done..]. }
  exists s2. split; [by eapply two_deliveries|exact Hset].
Qed.

(** ** Every order can settle *)

(** What deliveries that Sales takes no part in leave of an order. *)
Lemma sales_kept s s' id : sys_sales s' = sys_sales s → order_log s' id = order_log s id.
Proof. intros E. unfold System.order_log, history. simpl. by rewrite E. Qed.

Lemma deliveries_well n s s' : bsteps delivers n s s' → well s → well s'.
Proof. intros Hd Hw. induction Hd as [|m s1 s2 s3 H1 _ IH]; [done|]. apply IH. by eapply delivers_well. Qed.

(** A saga that has started, by its budget. *)
Lemma started_settles n s id c :
  (remaining (saga_at s id) ≤ n)%nat →
  well s → order_log s id = [EvSalesOrderCreated c] → positive c → saga_log s id ≠ [] →
  ∃ s', bsteps delivers (2 * n + 2) s s' ∧ settled s' id.
Proof.
  revert s. induction n as [n IH] using lt_wf_ind. intros s Hn Hw Hlog Hpos Hne.
  assert (EvSalesOrderCreated c ∈ order_log s id) as Hc by (rewrite Hlog; left).
  assert ((∃ s1, bsteps delivers 2 s s1 ∧ sys_sales s1 = sys_sales s ∧ moved id s s1) →
    ∃ s', bsteps delivers (2 * n + 2) s s' ∧ settled s' id) as Hmove.
  { intros (s1 & Hd & Est & Hne1 & Hlt).
    destruct (IH (pred n)) with (s := s1) as (s' & Hd' & Hset); [lia|lia| | |done|done|].
    - by eapply deliveries_well.
    - by rewrite (sales_kept s).
    - exists s'. split; [|done]. replace (2 * n + 2)%nat with (2 + (2 * pred n + 2))%nat by lia.
      by eapply bsteps_trans. }
  assert (status (saga_at s id) = SagaCompleted ∨ status (saga_at s id) = SagaRejected →
    ∃ s', bsteps delivers (2 * n + 2) s s' ∧ settled s' id) as Hlast.
  { intros Hst. destruct (outcome_settles s id c Hw Hlog Hne Hst) as (s' & Hd & Hset).
    exists s'. split; [eapply bsteps_weaken; [|exact Hd]; lia|done]. }
  pose proof (reachable_inv _ _ (sound_sagas _ _ _ (proj1 Hw) id Hne)) as [_ _ _ Hok].
  unfold status_ok in Hok. change (saga_of wview (warehouse_world s) id) with (saga_at s id) in Hok.
  destruct (status (saga_at s id)) eqn:Hst; [done|..]; auto.
  - apply Hmove. by eapply running_moves.
  - apply Hmove. by eapply compensating_moves.
Qed.

(** A saga's budget is bounded by its order's rows. *)
Lemma remaining_rows s id c :
  sound s → saga_log s id ≠ [] → EvSalesOrderCreated c ∈ order_log s id →
  (remaining (saga_at s id) ≤ 2 * length (soc_Rows c) + 1)%nat.
Proof.
  intros Hs Hne Hc. pose proof (f_equal length (saga_rows _ _ s id c Hs Hne Hc)) as Hlen.
  rewrite length_fmap, length_map in Hlen. rewrite <- Hlen. unfold remaining, count_in.
  assert (∀ st, length (filter (λ r, state r = st) (rows (saga_at s id))) ≤ length (rows (saga_at s id)))%nat
    as Hf by (intros; apply length_filter).
  assert (length (filter (λ r, state r = rowPending) (rows (saga_at s id)))
    + length (filter (λ r, state r = rowAllocated) (rows (saga_at s id)))
    ≤ length (rows (saga_at s id)))%nat as Hf2.
  { clear. induction (rows (saga_at s id)) as [|r l IH]; [done|]. rewrite !filter_cons.
    destruct (state r); simpl; lia. }
  specialize (Hf rowAllocated) as Hfa. specialize (Hf rowPending). destruct (status _); lia.
Qed.

(** C3 No order is stuck. Where nothing fails and the repositories publish, from
    every moment of any run of the application, whatever was delivered, in
    whatever order and however often, and whatever timed out or was resumed,
    the messages that are on the wire are enough to bring any order of positive
    quantities to its end: at most [4 n + 6] deliveries for an order of [n]
    rows, each handled without an error at its first attempt, lead to a state in
    which Sales shows the order as allocated or as rejected. *)
Theorem orders_can_settle s0 s id c :
  fresh (P := P) sview wview s0 → run s0 s →
  EvSalesOrderCreated c ∈ order_log s id → positive c →
  ∃ s', bsteps delivers (4 * length (soc_Rows c) + 6) s s' ∧ settled s' id.
Proof.
  intros H0 Hr Hc Hpos.
  assert (well s) as Hw by (split; [by eapply run_sound|by eapply (run_supplied sview wview)]).
  pose proof (sound_shapes _ _ _ (proj1 Hw) id) as Hsh.
  assert (∀ s1, bsteps delivers 2 s s1 → sys_sales s1 = sys_sales s →
    order_log s id = [EvSalesOrderCreated c] → saga_log s1 id ≠ [] →
    ∃ s', bsteps delivers (4 * length (soc_Rows c) + 6) s s' ∧ settled s' id) as Hgo.
  { intros s1 Hd Est Hl Hne. pose proof (deliveries_well _ _ _ Hd Hw) as Hw1.
    assert (order_log s1 id = [EvSalesOrderCreated c]) as Hl1 by (by rewrite (sales_kept s)).
    destruct (started_settles (2 * length (soc_Rows c) + 1) s1 id c) as (s' & Hd' & Hset); try done.
    - apply remaining_rows; [apply Hw1|done|]. rewrite Hl1. left.
    - exists s'. split; [|done]. eapply bsteps_weaken; [|by eapply bsteps_trans]. lia. }
  remember (order_log s id) as l eqn:Hl. destruct Hsh as [|e _ _|e a _ _].
  - by apply elem_of_nil in Hc.
  - apply list_elem_of_singleton in Hc as [= <-].
    destruct (decide (saga_log s id = [])) as [Hnil|Hne].
    + destruct (saga_starts s id c Hw) as (s1 & Hd & Est & Hne1); [rewrite <- Hl; left|done|].
      by apply (Hgo s1).
    + apply (Hgo s); [|done..]. apply bsteps_refl.
  - exists s. split; [apply bsteps_refl|]. unfold settled, System.order_at. rewrite <- Hl.
    destruct a; [by left|by right].
Qed.
End progress.
