(* ===== verification/ProgressDemo.v ===== *)
(** * An evaluated order that is under way

    The witness of the theorem of [Progress]: an order of a beer that is there and
    of one that is not, at the moment its saga starts to give back. *)
From S2P Require Import Prelude Errors Kernel Aggregate EventStore World Repository.
From S2P Require Import Bus Json Wire Reliable.
From S2P Require Import SalesKernel SalesJson SalesOrder SalesHandlers SalesSteps.
From S2P Require Import SalesReadModel SalesFacade SalesIntegration.
From S2P Require Import WarehouseKernel WarehouseJson Saga WarehouseReadModel WarehouseFacade.
From S2P Require Import Contracts Wiring System SystemDemo Supply Progress.
Import DemoText SureWire.
#[local] Open Scope Z_scope.

Section demo.
#[local] Existing Instance DemoUuid.lib.
#[local] Instance publishes : Publication := true.

Definition dawn := start ([] : list (string * json)).

(** Four litres of a beer that is there and two of one nobody brewed. *)
Definition mixed_order : SalesOrderJson :=
  mkSalesOrderJson "uo" "1" 7 "uk" "Ann"
    [mkSalesOrderRowJson "uipa" "IPA" (NewQuantity 4 "Lt")
       (NewPrice (SpecFloat.S754_zero false) "EUR");
     mkSalesOrderRowJson "ustout" "Stout" (NewQuantity 2 "Lt")
       (NewPrice (SpecFloat.S754_zero false) "EUR")].

Definition morning : list action :=
  [Brew ten_litres;
   Deliver 0 "handler.warehouses.update_availability_due_to_production_order";
   Order mixed_order;
   Deliver 2 "handler.sales.create_sales_order";
   Deliver 3 "sales.integration.sales_order_created";
   Deliver 4 "warehouses.saga.on_sales_order_created";
   Deliver 6 "handler.warehouses.update_availability_due_to_sales_order";
   Deliver 7 "warehouses.saga.on_beer_availability_updated";
   Deliver 9 "handler.warehouses.update_availability_due_to_sales_order";
   Deliver 10 "warehouses.saga.on_quantity_not_found"].

Abbreviation noon := (play morning dawn).

Definition stout_row : SalesKernel.SalesOrderRowDto :=
  SalesKernel.mkSalesOrderRowDto (SalesKernel.mkBeerId (uid "stout"))
    (SalesKernel.mkBeerName "Stout") (NewQuantity 2 "Lt")
    (NewPrice (SpecFloat.S754_zero false) "EUR").

Definition mixed_created : SalesOrderCreated :=
  NewSalesOrderCreated (mkSalesOrderId (uid "o")) (uuid_New 3) (mkSalesOrderNumber "1")
    (mkOrderDate 7) (mkCustomerId (uid "k")) (mkCustomerName "Ann") [the_row; stout_row].

(** At noon the saga is giving back what it took; the order is still pending. *)
Lemma orders_can_settle_witness :
  status (saga_at (P := json) InMemory.stream_of noon (uid "o")) = SagaCompensating ∧
  so_allocation (order_at (P := json) InMemory.stream_of noon (uid "o")) = AllocationPending ∧
  ∃ s', bsteps delivers 14 noon s' ∧ settled (P := json) InMemory.stream_of s' (uid "o").
Proof.
  split; [vm_compute; reflexivity|]. split; [vm_compute; reflexivity|].
  apply (orders_can_settle InMemory.stream_of InMemory.stream_of eq_refl dawn noon (uid "o") mixed_created).
  - by apply start_fresh.
  - apply play_run, run_start.
  - assert (order_log (P := json) InMemory.stream_of noon (uid "o")
      = [EvSalesOrderCreated mixed_created]) as Hl by (vm_compute; reflexivity).
    apply list_elem_of_lookup. exists 0%nat.
    exact (f_equal (λ l, l !! 0%nat) Hl).
  - intros row [->|[->|?%elem_of_nil]%elem_of_cons]%elem_of_cons; done.
Defined.
End demo.
