(* ===== verification/Auth.v ===== *)
(** * Principals and tokens ([internal/platform/auth/auth.go])

    The verification of a token is the OIDC library's; the roles are taken from
    the claims of the verified token: the realm's, and the client's own. *)
From S2P Require Import Prelude Errors Kernel.
#[local] Open Scope Z_scope.

Record Principal := mkPrincipal { Subject : string; roles : gset string }.

(** The loop fills a set. *)
Definition NewPrincipal (subject : string) (names : list string) : Principal :=
  mkPrincipal subject (foldl (λ set role, {[ role ]} ∪ set) ∅ names).

Definition HasRole (p : Principal) (role : string) : bool := bool_decide (role ∈ roles p).

Lemma NewPrincipal_roles subject names role :
  HasRole (NewPrincipal subject names) role = true ↔ role ∈ names.
Proof.
  unfold HasRole. rewrite bool_decide_eq_true. simpl.
  assert (∀ set : gset string, role ∈ foldl (λ set role, {[ role ]} ∪ set) set names
            ↔ role ∈ names ∨ role ∈ set) as ->; [|set_solver].
  induction names as [|n names IH]; intros set; simpl; [set_solver|]. rewrite IH. set_solver.
Qed.

(** The claims a Keycloak token carries. *)
Record keycloakClaims := mkClaims {
  RealmAccess : list string;
  ResourceAccess : gmap string (list string);
}.

Section verifier.
(** A verified token, its subject and its claims: the library's. *)
Context {Token : Type} (verify : string → result Token).
Context (token_Subject : Token → string) (token_Claims : Token → result keycloakClaims).
Context (clientID : string).

(** [OIDCVerifier.Verify]. *)
Definition Verify (rawToken : string) : result Principal :=
  result_bind (λ token,
    result_bind (λ claims,
      let names := RealmAccess claims ++ default [] (ResourceAccess claims !! clientID) in
      Ok (NewPrincipal (token_Subject token) names))
      (result_wrap "parse token claims" (token_Claims token)))
    (result_wrap "verify token" (verify rawToken)).

(** A principal comes from a token the library accepts, and has the roles of the
    realm and of this client, whatever other clients grant. *)
Lemma Verify_inv rawToken p :
  Verify rawToken = Ok p →
  ∃ token claims, verify rawToken = Ok token ∧ token_Claims token = Ok claims ∧
    Subject p = token_Subject token ∧
    ∀ role, HasRole p role = true ↔
      role ∈ RealmAccess claims ∨
      ∃ granted, ResourceAccess claims !! clientID = Some granted ∧ role ∈ granted.
Proof.
  unfold Verify. destruct (verify rawToken) as [token|e|m]; [|done..]. simpl.
  destruct (token_Claims token) as [claims|e|m] eqn:Hc; [|done..]. intros [= <-].
  exists token, claims. do 3 (split; [done|]). intros role.
  rewrite NewPrincipal_roles, elem_of_app.
  destruct (ResourceAccess claims !! clientID) as [granted|]; simpl; [naive_solver|].
  split; [intros [?|[]%elem_of_nil]; by left|intros [?|(? & [=] & _)]; by left].
Qed.
End verifier.
