(* ===== verification/Rest.v ===== *)
(** * The HTTP API ([internal/rest])

    gin runs the handlers of a route one after the other until one aborts; the
    middlewares (rate limit, body limit, authentication, roles) come first, the
    endpoint last. A handler is a computation on the context of the request, the
    rate limiter and the world behind the facades. Matching a path against the
    table, decoding a body and telling the client's address are gin's. *)
From S2P Require Import Prelude Errors Kernel Strconv Auth.
From S2P Require Import SalesReadModel SalesFacade WarehouseReadModel WarehouseFacade.
From Stdlib Require Import SpecFloat.
#[local] Open Scope Z_scope.

(** ** Requests and responses *)
Record Request := mkRequest {
  rq_remote : string;             (** the peer's address *)
  rq_forwarded : string;          (** [X-Forwarded-For] *)
  rq_authorization : string;      (** [Authorization], empty if missing *)
  rq_query : string → option string;
  rq_param : string;              (** [:id] or [:beerId] *)
  rq_content_length : Z;
  rq_body : string;
  rq_time : Time;
}.

(** What [c.JSON] is given; an [error] stands for its text. *)
Inductive Payload :=
| ErrorText (text : string)
| ErrorOf (err : error)
| Status (status : string)
| NotReady (err : error)
| OrderId (id : string)
| BeerIdOf (id : string)
| OrderBody (order : SalesOrderDto)
| OrdersPage (items : list SalesOrderDto) (page : Page)
| AvailabilityBody (availability : AvailabilityDto)
| AvailabilitiesPage (items : list AvailabilityDto) (page : Page)
| MetricsText.

(** ** What is gin's and what is the rate library's *)

(** A body as the decoder reads it: the bytes, and the error that ends them early. *)
Definition Reader : Type := string * option error.

Class Gin := {
  (** [ShouldBindJSON] into the two payloads. *)
  bind_order : Reader → result SalesOrderJson;
  bind_production : Reader → result ProductionOrderJson;
  (** [SetTrustedProxies] accepts the list; [ClientIP] under it. Without trusted
      proxies it is the peer's address. *)
  trusted_proxies_ok : list string → bool;
  ClientIP : list string → Request → string;
  ClientIP_untrusted : ∀ rq, ClientIP [] rq = rq_remote rq;
}.

(** [golang.org/x/time/rate]. *)
Class RateLib := {
  Limiter : Type;
  NewLimiter : float64 → Z → Limiter;
  Allow : Time → Limiter → bool * Limiter;
}.

(** ** The facades, as the endpoints see them *)
Class Facades (W : Type) := {
  facade_CreateSalesOrder : SalesOrderJson → GoM W string;
  facade_GetSalesOrder : string → GoM W SalesOrderDto;
  facade_GetSalesOrders : Page → GoM W (list SalesOrderDto);
  facade_UpdateAvailability : ProductionOrderJson → GoM W string;
  facade_GetAvailability : string → GoM W AvailabilityDto;
  facade_GetAvailabilities : Page → GoM W (list AvailabilityDto);
}.

(** *** auth.go *)
Definition RoleViewer : string := "viewer".
Definition RoleSalesManager : string := "sales-manager".
Definition RoleWarehouseOperator : string := "warehouse-operator".

Section rest.
Context {G : Gin} {L : RateLib} {W : Type} {F : Facades W}.

(** [gin.Context]: what the middlewares leave in it, and the responses written. *)
Record Ctx := mkCtx {
  c_limit : option Z;
  c_principal : option Principal;
  c_aborted : bool;
  c_location : option string;
  c_written : list (Z * Payload);
}.

(** The mutex makes [allow] one step. *)
Record ipRateLimiter := mkIPRateLimiter {
  limiters : gmap string Limiter;
  rps : float64;
  burst : Z;
}.

Record Http := mkHttp { h_ctx : Ctx; h_limiter : ipRateLimiter; h_world : W }.
Abbreviation M := (GoM Http).

Definition put_ctx (c : Ctx) (h : Http) : Http := mkHttp c (h_limiter h) (h_world h).
Definition in_ctx (f : Ctx → Ctx) : M unit := modify (λ h, put_ctx (f (h_ctx h)) h).
Definition on_world {A} (m : GoM W A) : M A :=
  zoom h_world (λ w h, mkHttp (h_ctx h) (h_limiter h) w) m.

Definition JSON (code : Z) (payload : Payload) : M unit :=
  in_ctx (λ c, mkCtx (c_limit c) (c_principal c) (c_aborted c) (c_location c)
                 (c_written c ++ [(code, payload)])).
Definition AbortWithStatusJSON (code : Z) (payload : Payload) : M unit :=
  _ ← in_ctx (λ c, mkCtx (c_limit c) (c_principal c) true (c_location c) (c_written c));
  JSON code payload.
Definition Header_Location (location : string) : M unit :=
  in_ctx (λ c, mkCtx (c_limit c) (c_principal c) (c_aborted c) (Some location) (c_written c)).

Definition HandlerFunc : Type := Request → M unit.

(** ** middleware.go *)
Definition bodyLimit (maxBytes : Z) : HandlerFunc := λ rq,
  if maxBytes <=? 0 then mret tt
  else if maxBytes <? rq_content_length rq then
    AbortWithStatusJSON 413 (ErrorText "request body too large")
  else in_ctx (λ c, mkCtx (Some maxBytes) (c_principal c) (c_aborted c) (c_location c)
                      (c_written c)).

(** [http.MaxBytesReader]. *)
Definition MaxBytesReader (limit : option Z) (body : string) : Reader :=
  match limit with
  | Some n =>
      if Z.of_nat (String.length body) <=? n then (body, None)
      else (String.substring 0 (Z.to_nat n) body, Some (ErrExternal "http: request body too large"))
  | None => (body, None)
  end.

Definition maxTrackedIPs : Z := 10000.

Definition newIPRateLimiter (rps : float64) (burst : Z) : ipRateLimiter :=
  mkIPRateLimiter ∅ rps burst.

Definition allow (ip : string) (now : Time) (l : ipRateLimiter) : bool * ipRateLimiter :=
  let tracked := if maxTrackedIPs <? Z.of_nat (size (limiters l)) then ∅ else limiters l in
  let limiter := default (NewLimiter (rps l) (burst l)) (tracked !! ip) in
  let '(allowed, limiter) := Allow now limiter in
  (allowed, mkIPRateLimiter (<[ip := limiter]> tracked) (rps l) (burst l)).

(** [trusted]: the proxies gin trusts. The limiter that the closure keeps is in the
    state: [router_limiter] before the first request. *)
Definition rateLimit (trusted : list string) (rps : float64) : HandlerFunc := λ rq,
  if SFleb rps (float_of_Z 0) then mret tt else
  allowed ← (λ h, let '(allowed, l) := allow (ClientIP trusted rq) (rq_time rq) (h_limiter h)
                  in (Ok allowed, mkHttp (h_ctx h) l (h_world h))) : M bool;
  if allowed : bool then mret tt
  else AbortWithStatusJSON 429 (ErrorText "rate limit exceeded").

(** ** auth.go *)

(** [TokenVerifier]; [None] is a nil one. *)
Definition TokenVerifier : Type := option (string → result Principal).

Definition authenticate (verifier : TokenVerifier) : HandlerFunc := λ rq,
  match verifier with
  | None => mret tt
  | Some verify =>
      match GoStrings.CutPrefix (rq_authorization rq) "Bearer " with
      | None => AbortWithStatusJSON 401 (ErrorText "missing bearer token")
      | Some rawToken =>
          if decide (rawToken = "") then
            AbortWithStatusJSON 401 (ErrorText "missing bearer token")
          else
            verified ← attempt (lift (verify rawToken));
            match verified with
            | inl _ => AbortWithStatusJSON 401 (ErrorText "invalid token")
            | inr principal =>
                in_ctx (λ c, mkCtx (c_limit c) (Some principal) (c_aborted c) (c_location c)
                               (c_written c))
            end
      end
  end.

Definition requireRole (verifier : TokenVerifier) (role : string) : HandlerFunc := λ _,
  match verifier with
  | None => mret tt
  | Some _ =>
      found ← gets (λ h, c_principal (h_ctx h));
      match found with
      | None => go_panic "Key auth.principal does not exist"
      | Some principal =>
          if HasRole principal role then mret tt
          else AbortWithStatusJSON 403 (ErrorText ("requires role " +:+ role)%string)
      end
  end.

(** ** endpoints.go *)
Definition DefaultQuery (rq : Request) (key fallback : string) : string :=
  default fallback (rq_query rq key).

Definition pageOf (rq : Request) : Page :=
  let '(limit, _) := Atoi (DefaultQuery rq "limit" "0") in
  let '(offset, _) := Atoi (DefaultQuery rq "offset" "0") in
  NewPage limit offset.

Definition respondError (err : error) : M unit :=
  match errors_As_ErrInvalid err with
  | Some _ => JSON 400 (ErrorOf err)
  | None =>
      if errors_Is err ErrNotFound then JSON 404 (ErrorOf err)
      else JSON 500 (ErrorText "internal server error")
  end.

(** [x, err := facade...; if err != nil { respondError(c, err); return }; ...]. *)
Definition facade_call {A} (m : GoM W A) (success : A → M unit) : M unit :=
  answer ← attempt (on_world m);
  match answer with
  | inl err => respondError err
  | inr a => success a
  end.

(** [c.ShouldBindJSON(&body)]. *)
Definition binding_body {A} (bind : Reader → result A) (rq : Request) (next : A → M unit) : M unit :=
  limit ← gets (λ h, c_limit (h_ctx h));
  bound ← attempt (lift (bind (MaxBytesReader limit (rq_body rq))));
  match bound with
  | inl err => JSON 400 (ErrorOf err)
  | inr body => next body
  end.

Definition postSales : HandlerFunc := λ rq,
  binding_body bind_order rq (λ body,
    facade_call (facade_CreateSalesOrder body) (λ orderId,
      _ ← Header_Location ("/v1/sales/" +:+ orderId)%string;
      JSON 201 (OrderId orderId))).

Definition listSales : HandlerFunc := λ rq,
  let page := pageOf rq in
  facade_call (facade_GetSalesOrders page) (λ orders, JSON 200 (OrdersPage orders page)).

Definition getSale : HandlerFunc := λ rq,
  facade_call (facade_GetSalesOrder (rq_param rq)) (λ order, JSON 200 (OrderBody order)).

Definition postAvailability : HandlerFunc := λ rq,
  binding_body bind_production rq (λ body,
    facade_call (facade_UpdateAvailability body) (λ beerId, JSON 202 (BeerIdOf beerId))).

Definition listAvailability : HandlerFunc := λ rq,
  let page := pageOf rq in
  facade_call (facade_GetAvailabilities page) (λ items, JSON 200 (AvailabilitiesPage items page)).

Definition getAvailability : HandlerFunc := λ rq,
  facade_call (facade_GetAvailability (rq_param rq))
    (λ availability, JSON 200 (AvailabilityBody availability)).

Definition healthz : HandlerFunc := λ _, JSON 200 (Status "ok").

Definition readyz (ready : option (result unit)) : HandlerFunc := λ _,
  match ready with
  | None => JSON 200 (Status "ready")
  | Some check =>
      checked ← attempt (lift check);
      match checked with
      | inl err => JSON 503 (NotReady err)
      | inr _ => JSON 200 (Status "ready")
      end
  end.

(** [Options]; [Ready] is what the check answers when it is asked, [MetricsHandler]
    whether there is one. [TracingEnabled] adds a middleware of OpenTelemetry that
    only observes, as the logger and the metrics do. *)
Record Options := mkOptions {
  Ready : option (result unit);
  Verifier : TokenVerifier;
  MaxBodyBytes : Z;
  RateLimitRPS : float64;
  RateLimitBurst : Z;
  MetricsHandler : bool;
  TrustedProxies : list string;
}.

Record Route := mkRoute { rt_method : string; rt_path : string; rt_handlers : list HandlerFunc }.

(** An invalid proxy list trusts none. *)
Definition trusted_by (opts : Options) : list string :=
  if trusted_proxies_ok (TrustedProxies opts) then TrustedProxies opts else [].

Definition router_limiter (opts : Options) : ipRateLimiter :=
  newIPRateLimiter (RateLimitRPS opts) (RateLimitBurst opts).

Definition NewRouter (opts : Options) : list Route :=
  let use := [rateLimit (trusted_by opts) (RateLimitRPS opts); bodyLimit (MaxBodyBytes opts)] in
  let v1 role endpoint :=
    use ++ [authenticate (Verifier opts); requireRole (Verifier opts) role; endpoint] in
  (if MetricsHandler opts then [mkRoute "GET" "/metrics" (use ++ [λ _, JSON 200 MetricsText])] else []) ++
  [ mkRoute "GET" "/healthz" (use ++ [healthz]);
    mkRoute "GET" "/readyz" (use ++ [readyz (Ready opts)]);
    mkRoute "POST" "/v1/sales" (v1 RoleSalesManager postSales);
    mkRoute "GET" "/v1/sales" (v1 RoleViewer listSales);
    mkRoute "GET" "/v1/sales/:id" (v1 RoleViewer getSale);
    mkRoute "POST" "/v1/warehouses/availability" (v1 RoleWarehouseOperator postAvailability);
    mkRoute "GET" "/v1/warehouses/availability" (v1 RoleViewer listAvailability);
    mkRoute "GET" "/v1/warehouses/availability/:beerId" (v1 RoleViewer getAvailability) ].

(** ** Serving a request *)

(** [c.Next]: the handlers in order, until one aborts. *)
Fixpoint run_chain (handlers : list HandlerFunc) (rq : Request) : M unit :=
  match handlers with
  | [] => mret tt
  | handler :: handlers =>
      stop ← gets (λ h, c_aborted (h_ctx h));
      if stop : bool then mret tt else _ ← handler rq; run_chain handlers rq
  end.

Definition fresh_ctx : Ctx := mkCtx None None false None [].

Record Response := mkResponse { rs_written : list (Z * Payload); rs_location : option string }.

(** [ServeHTTP] on a route; [gin.Recovery] turns a panic into a bare 500 unless
    something was written. *)
Definition serve (route : Route) (rq : Request) (l : ipRateLimiter) (w : W)
    : Response * (ipRateLimiter * W) :=
  let '(r, h) := run_chain (rt_handlers route) rq (mkHttp fresh_ctx l w) in
  let c := h_ctx h in
  let written := match r, c_written c with
                 | Panic _, [] => [(500, ErrorText "")]
                 | _, written => written
                 end in
  (mkResponse written (c_location c), (h_limiter h, h_world h)).
End rest.
