(* ===== verification/RestContract.v ===== *)
(** * What the HTTP API promises

    Every request is served as a table of routes says ([specified]), with one
    well-formed answer; nobody reaches a facade without the role; the rate limiter's
    memory is bounded and its buckets cannot be dodged. *)
From S2P Require Import Prelude Errors Kernel Strconv Auth.
From S2P Require Import SalesReadModel SalesFacade WarehouseReadModel WarehouseFacade Rest.
From Stdlib Require Import SpecFloat.
#[local] Open Scope Z_scope.

Section contract.
Context {G : Gin} {L : RateLib} {W : Type} {F : Facades W}.
Implicit Types (rq : Request) (h : Http (W := W)) (opts : Options) (w : W) (c : Ctx).

(** ** The middlewares *)

(** The context after [AbortWithStatusJSON]. *)
Definition denied (code : Z) (text : string) c : Ctx :=
  mkCtx (c_limit c) (c_principal c) true (c_location c) (c_written c ++ [(code, ErrorText text)]).

(** A middleware lets the request pass with a changed context, or answers it. *)
Definition passes_or_denies (pass : Ctx → Prop) (code : Z) h r h' : Prop :=
  r = Ok tt ∧ h_world h' = h_world h ∧
  (pass (h_ctx h') ∨ ∃ text, h_ctx h' = denied code text (h_ctx h)).

Lemma rateLimit_spec trusted rate rq h r h' :
  rateLimit trusted rate rq h = (r, h') →
  passes_or_denies (eq (h_ctx h)) 429 h r h'.
Proof.
  unfold rateLimit, passes_or_denies. destruct (SFleb _ _).
  { intros [= <- <-]. auto. }
  unfold mbind, GoM_bind. destruct (allow _ _ _) as [[] l]; intros [= <- <-]; simpl; eauto.
Qed.

(** The context once the body may be read. *)
Definition limited (maxBytes : Z) c : Ctx :=
  if maxBytes <=? 0 then c
  else mkCtx (Some maxBytes) (c_principal c) (c_aborted c) (c_location c) (c_written c).

Lemma bodyLimit_spec maxBytes rq h r h' :
  bodyLimit maxBytes rq h = (r, h') →
  h_limiter h' = h_limiter h ∧
  passes_or_denies (λ c, c = limited maxBytes (h_ctx h) ∧
                         (0 < maxBytes → rq_content_length rq ≤ maxBytes)) 413 h r h'.
Proof.
  unfold bodyLimit, passes_or_denies, limited. destruct (Z.leb_spec maxBytes 0) as [Hn|Hn].
  { intros [= <- <-]. simpl. do 3 (split; [done|]). left. split; [done|lia]. }
  destruct (Z.ltb_spec maxBytes (rq_content_length rq)) as [Hl|Hl]; intros [= <- <-]; simpl;
    do 3 (split; [done|]); [right|left]; eauto.
Qed.

(** The token of a request, verified. *)
Definition presents (verify : string → result Principal) rq (p : Principal) : Prop :=
  ∃ token, rq_authorization rq = ("Bearer " +:+ token)%string ∧ token ≠ "" ∧ verify token = Ok p.

Definition with_principal (p : Principal) c : Ctx :=
  mkCtx (c_limit c) (Some p) (c_aborted c) (c_location c) (c_written c).

Lemma authenticate_spec verifier rq h r h' :
  authenticate verifier rq h = (r, h') →
  h_limiter h' = h_limiter h ∧
  (passes_or_denies (λ c,
     match verifier with
     | None => c = h_ctx h
     | Some verify => ∃ p, presents verify rq p ∧ c = with_principal p (h_ctx h)
     end) 401 h r h' ∨
   ∃ verify token m, verifier = Some verify ∧ verify token = Panic m ∧ r = Panic m ∧ h' = h).
Proof.
  unfold authenticate, passes_or_denies. destruct verifier as [verify|].
  2:{ intros [= <- <-]. auto 6. }
  destruct (GoStrings.CutPrefix _ _) as [token|] eqn:Ht; [|intros [= <- <-]; simpl; eauto 10].
  case_decide as He; [intros [= <- <-]; simpl; eauto 10|].
  unfold attempt, lift, mbind, GoM_bind. destruct (verify token) as [p|e|m] eqn:Hv;
    intros [= <- <-]; simpl; (split; [done|]).
  - left. do 2 (split; [done|]). left. exists p. split; [|done].
    exists token. apply GoStrings.CutPrefix_Some in Ht. done.
  - left. eauto 6.
  - right. eauto 10.
Qed.

Lemma requireRole_spec verifier role rq h r h' :
  match verifier with Some _ => is_Some (c_principal (h_ctx h)) | None => True end →
  requireRole verifier role rq h = (r, h') →
  h_limiter h' = h_limiter h ∧
  passes_or_denies (λ c, c = h_ctx h ∧
    match verifier, c_principal (h_ctx h) with
    | Some _, Some p => HasRole p role = true
    | _, _ => True
    end) 403 h r h'.
Proof.
  unfold requireRole, passes_or_denies. destruct verifier as [verify|].
  2:{ intros _ [= <- <-]. auto 7. }
  intros [p Hp]. unfold mbind, GoM_bind, gets. rewrite Hp.
  destruct (HasRole p role) eqn:Hr; intros [= <- <-]; simpl; eauto 10.
Qed.

(** *** The chain of a /v1 route *)

(** Whether the caller may use a route of the role. *)
Definition granted opts (role : string) rq : Prop :=
  match Verifier opts with
  | None => True
  | Some verify => ∃ p, presents verify rq p ∧ HasRole p role = true
  end.

(** A chain step: an aborted request runs no further handler. *)
Lemma chain_cons handler handlers rq h r h' :
  c_aborted (h_ctx h) = false → run_chain (handler :: handlers) rq h = (r, h') →
  ∃ r1 h1, handler rq h = (r1, h1) ∧
    match r1 with
    | Ok _ => if c_aborted (h_ctx h1) then r = Ok tt ∧ h' = h1
              else run_chain handlers rq h1 = (r, h')
    | Err e => r = Err e ∧ h' = h1
    | Panic m => r = Panic m ∧ h' = h1
    end.
Proof.
  intros Hn. simpl. unfold gets. unfold mbind at 1. unfold GoM_bind. rewrite Hn.
  unfold mbind, GoM_bind. destruct (handler rq h) as [[[]|e|m] h1];
    intros H; do 2 eexists; (split; [reflexivity|]); [|by injection H as <- <-..].
  destruct (c_aborted (h_ctx h1)) eqn:Ha; [|done].
  destruct handlers as [|handler2 handlers]; simpl in H; [by injection H as <- <-|].
  unfold gets, mbind, GoM_bind in H. rewrite Ha in H. by injection H as <- <-.
Qed.

Definition use opts : list (HandlerFunc (W := W)) :=
  [rateLimit (trusted_by opts) (RateLimitRPS opts); bodyLimit (MaxBodyBytes opts)].

(** Answered by a middleware, with the world as it was. *)
Definition stopped w (r : result unit) h' : Prop :=
  r = Ok tt ∧ h_world h' = w ∧ c_location (h_ctx h') = None ∧
  ∃ code text, code ∈ [429; 413; 401; 403] ∧ c_written (h_ctx h') = [(code, ErrorText text)].

(** A context no endpoint has worked on yet. *)
Definition untouched c : Prop :=
  c_aborted c = false ∧ c_location c = None ∧ c_written c = [].

Lemma untouched_limited n c : untouched c → untouched (limited n c).
Proof. unfold untouched, limited. by case_match. Qed.

Lemma denied_stopped code text c w h' :
  untouched c → code ∈ [429; 413; 401; 403] → h_ctx h' = denied code text c → h_world h' = w →
  stopped w (Ok tt) h'.
Proof.
  intros (_ & Hl & Hw) Hc Hh <-. unfold stopped. rewrite Hh. simpl. rewrite Hl, Hw. eauto 8.
Qed.

(** A first middleware that passes or denies. *)
Lemma chain_guard (pass : Ctx → Prop) code handler handlers rq h r h' :
  untouched (h_ctx h) → code ∈ [429; 413; 401; 403] →
  (∀ r1 h1, handler rq h = (r1, h1) → passes_or_denies pass code h r1 h1) →
  (∀ c, pass c → untouched c) →
  run_chain (handler :: handlers) rq h = (r, h') →
  stopped (h_world h) r h' ∨
  ∃ h1, handler rq h = (Ok tt, h1) ∧ pass (h_ctx h1) ∧ h_world h1 = h_world h ∧
    run_chain handlers rq h1 = (r, h').
Proof.
  intros Hu Hcode Hh Hp (r1 & h1 & H1 & Hrest)%chain_cons; [|apply Hu].
  destruct (Hh _ _ H1) as (-> & Hw & [Hpass|[text Hd]]).
  - right. exists h1. destruct (Hp _ Hpass) as (Ha & _). rewrite Ha in Hrest. done.
  - left. rewrite Hd in Hrest. simpl in Hrest. destruct Hrest as [-> ->].
    by eapply denied_stopped.
Qed.

(** The two global middlewares. *)
Lemma use_chain opts handlers rq l w r h' :
  run_chain (use opts ++ handlers) rq (mkHttp fresh_ctx l w) = (r, h') →
  stopped w r h' ∨
  ∃ h1, run_chain handlers rq h1 = (r, h') ∧ h_world h1 = w ∧
    h_ctx h1 = limited (MaxBodyBytes opts) fresh_ctx ∧
    (0 < MaxBodyBytes opts → rq_content_length rq ≤ MaxBodyBytes opts).
Proof.
  intros [Hs|(h1 & _ & Hc1 & Hw1 & H)]%(chain_guard (eq fresh_ctx) 429);
    [by left| |done|set_solver|intros ? ? ?; by eapply rateLimit_spec|by intros c <-].
  apply (chain_guard (λ c, c = limited (MaxBodyBytes opts) (h_ctx h1) ∧
    (0 < MaxBodyBytes opts → rq_content_length rq ≤ MaxBodyBytes opts)) 413) in H
    as [Hs|(h2 & _ & [Hc2 Hlen] & Hw2 & H)].
  - left. by rewrite Hw1 in Hs.
  - right. exists h2. rewrite Hc2, <- Hc1, Hw2. done.
  - by rewrite <- Hc1.
  - set_solver.
  - intros r1 h2 Hb. by apply bodyLimit_spec in Hb as [_ Hb].
  - intros c [-> _]. apply untouched_limited. by rewrite <- Hc1.
Qed.

(** The whole chain of a /v1 route: the endpoint runs for those who may use it. *)
Lemma v1_chain opts role endpoint rq l w r h' :
  run_chain (use opts ++ [authenticate (Verifier opts); requireRole (Verifier opts) role; endpoint])
    rq (mkHttp fresh_ctx l w) = (r, h') →
  stopped w r h' ∨
  (∃ verify token m, Verifier opts = Some verify ∧ verify token = Panic m ∧ r = Panic m ∧
     h_world h' = w ∧ untouched (h_ctx h')) ∨
  ∃ h1, run_chain [endpoint] rq h1 = (r, h') ∧ h_world h1 = w ∧ untouched (h_ctx h1) ∧
    c_limit (h_ctx h1) = c_limit (limited (MaxBodyBytes opts) fresh_ctx) ∧ granted opts role rq.
Proof.
  intros [Hs|(h1 & H & <- & Hc1 & _)]%use_chain; [by left|].
  assert (untouched (h_ctx h1)) as Hu1 by (rewrite Hc1; by apply untouched_limited).
  rewrite <- Hc1. clear Hc1.
  apply chain_cons in H as (ra & ha & Ha & H); [|apply Hu1].
  apply authenticate_spec in Ha as [_ [(-> & Hwa & [Hpass|[text Hd]])|
    (verify & token & m & Hv & Ht & -> & ->)]].
  - assert (untouched (h_ctx ha) ∧ c_limit (h_ctx ha) = c_limit (h_ctx h1)) as [Hua Hla].
    { destruct (Verifier opts); [destruct Hpass as (p & _ & ->)|rewrite Hpass]; done. }
    rewrite (proj1 Hua) in H. rewrite <- Hwa, <- Hla.
    eapply (chain_guard (λ c, c = h_ctx ha ∧
      match Verifier opts, c_principal (h_ctx ha) with
      | Some _, Some p => HasRole p role = true
      | _, _ => True
      end) 403) in H as [Hs|(h2 & _ & [Hc2 Hrole] & Hw2 & H)]; [by left| |done|set_solver| |].
    + do 2 right. exists h2. rewrite Hc2. do 4 (split; [done|]). unfold granted.
      destruct (Verifier opts) as [verify|]; [|done].
      destruct Hpass as (p & Hp & Hca). rewrite Hca in Hrole. eauto.
    + intros r2 h2 Hr. apply requireRole_spec in Hr as [_ Hr]; [done|].
      destruct (Verifier opts); [|done]. destruct Hpass as (p & _ & ->). by eexists.
    + by intros c [-> _].
  - left. rewrite Hd in H. simpl in H. destruct H as [-> ->].
    eapply denied_stopped; [exact Hu1| |exact Hd|done]. set_solver.
  - right. left. destruct H as [-> ->]. exists verify, token, m. done.
Qed.

Lemma chain_one endpoint rq h r h' :
  untouched (h_ctx h) → run_chain [endpoint] rq h = (r, h') → endpoint rq h = (r, h').
Proof.
  intros Hu (r1 & h1 & H1 & H)%chain_cons; [|apply Hu]. rewrite H1.
  destruct r1 as [[]|e|m]; [|by destruct H as [-> ->]..].
  destruct (c_aborted _); [by destruct H as [-> ->]|by injection H as <- <-].
Qed.

(** ** What a request does, as a table

    The reference: for each method and path the role it takes and what is done, or
    answered at once; the refusals before that, in their order; and how the outcome
    of the call is answered. It is a function of the options, the request, the
    limiter and the world, without handlers, chains or contexts. *)
Inductive call :=
| CallCreateSalesOrder (body : SalesOrderJson)
| CallGetSalesOrders (page : Page)
| CallGetSalesOrder (id : string)
| CallUpdateAvailability (body : ProductionOrderJson)
| CallGetAvailabilities (page : Page)
| CallGetAvailability (id : string).

(** The one call of a facade, and its answer when it succeeds. *)
Definition perform (c : call) : GoM W (Z * Payload) :=
  match c with
  | CallCreateSalesOrder body => id ← facade_CreateSalesOrder body; mret (201, OrderId id)
  | CallGetSalesOrders page =>
      items ← facade_GetSalesOrders page; mret (200, OrdersPage items page)
  | CallGetSalesOrder id => order ← facade_GetSalesOrder id; mret (200, OrderBody order)
  | CallUpdateAvailability body => id ← facade_UpdateAvailability body; mret (202, BeerIdOf id)
  | CallGetAvailabilities page =>
      items ← facade_GetAvailabilities page; mret (200, AvailabilitiesPage items page)
  | CallGetAvailability id => beer ← facade_GetAvailability id; mret (200, AvailabilityBody beer)
  end.

(** What gin's recovery answers to a panic. *)
Definition bare_500 : Z * Payload := (500, ErrorText "").

Definition answer_to (r : result (Z * Payload)) : Z * Payload :=
  match r with
  | Ok answer => answer
  | Err err =>
      match errors_As_ErrInvalid err with
      | Some _ => (400, ErrorOf err)
      | None => if errors_Is err ErrNotFound then (404, ErrorOf err)
                else (500, ErrorText "internal server error")
      end
  | Panic _ => bare_500
  end.

Definition location_of (answer : Z * Payload) : option string :=
  match answer with
  | (201, OrderId id) => Some ("/v1/sales/" +:+ id)%string
  | _ => None
  end.

Definition body_limit opts : option Z :=
  if MaxBodyBytes opts <=? 0 then None else Some (MaxBodyBytes opts).

(** The client's body, decoded, if it may be read to its end. *)
Definition bound {A} (bind : Reader → result A) (what : A → call) opts rq : (Z * Payload) + call :=
  match bind (MaxBytesReader (body_limit opts) (rq_body rq)) with
  | Ok body => inr (what body)
  | Err err => inl (400, ErrorOf err)
  | Panic _ => inl bare_500
  end.

Definition readiness opts : Z * Payload :=
  match Ready opts with
  | None | Some (Ok _) => (200, Status "ready")
  | Some (Err err) => (503, NotReady err)
  | Some (Panic _) => bare_500
  end.

Definition table opts rq : list (string * string * option string * ((Z * Payload) + call)) :=
  [ ("GET", "/metrics", None, inl (200, MetricsText));
    ("GET", "/healthz", None, inl (200, Status "ok"));
    ("GET", "/readyz", None, inl (readiness opts));
    ("POST", "/v1/sales", Some RoleSalesManager, bound bind_order CallCreateSalesOrder opts rq);
    ("GET", "/v1/sales", Some RoleViewer, inr (CallGetSalesOrders (pageOf rq)));
    ("GET", "/v1/sales/:id", Some RoleViewer, inr (CallGetSalesOrder (rq_param rq)));
    ("POST", "/v1/warehouses/availability", Some RoleWarehouseOperator,
      bound bind_production CallUpdateAvailability opts rq);
    ("GET", "/v1/warehouses/availability", Some RoleViewer,
      inr (CallGetAvailabilities (pageOf rq)));
    ("GET", "/v1/warehouses/availability/:beerId", Some RoleViewer,
      inr (CallGetAvailability (rq_param rq))) ]%string.

(** Who may not: no token, a token that is refused, a principal without the role. *)
Definition credentials (verifier : TokenVerifier) (role : string) rq : option (Z * Payload) :=
  match verifier with
  | None => None
  | Some verify =>
      match GoStrings.CutPrefix (rq_authorization rq) "Bearer " with
      | None => Some (401, ErrorText "missing bearer token")
      | Some token =>
          if decide (token = "") then Some (401, ErrorText "missing bearer token")
          else match verify token with
          | Ok p => if HasRole p role then None
                    else Some (403, ErrorText ("requires role " +:+ role))
          | Err _ => Some (401, ErrorText "invalid token")
          | Panic _ => Some bare_500
          end
      end
  end%string.

(** The first of the gates after the rate limiter that is shut. *)
Definition refusal opts (role : option string) rq : option (Z * Payload) :=
  if (0 <? MaxBodyBytes opts) && (MaxBodyBytes opts <? rq_content_length rq) then
    Some (413, ErrorText "request body too large")
  else match role with
  | Some role => credentials (Verifier opts) role rq
  | None => None
  end.

Definition admission opts rq (l : ipRateLimiter) : bool * ipRateLimiter :=
  if SFleb (RateLimitRPS opts) (float_of_Z 0) then (true, l)
  else allow (ClientIP (trusted_by opts) rq) (rq_time rq) l.

Definition outcome (what : (Z * Payload) + call) (l : ipRateLimiter) w
    : Response * (ipRateLimiter * W) :=
  match what with
  | inl answer => (mkResponse [answer] None, (l, w))
  | inr c =>
      let '(r, w) := perform c w in
      (mkResponse [answer_to r] (location_of (answer_to r)), (l, w))
  end.

Definition specified opts (role : option string) what rq l w : Response * (ipRateLimiter * W) :=
  let '(admitted, l) := admission opts rq l in
  if negb admitted then (mkResponse [(429, ErrorText "rate limit exceeded")] None, (l, w))
  else match refusal opts role rq with
  | Some answer => (mkResponse [answer] None, (l, w))
  | None => outcome what l w
  end.

(** *** The chains do what the table says *)

(** The end of [serve]. *)
Definition finish (x : result unit * Http (W := W)) : Response * (ipRateLimiter * W) :=
  let '(r, h) := x in
  let c := h_ctx h in
  let written := match r, c_written c with
                 | Panic _, [] => [bare_500]
                 | _, written => written
                 end in
  (mkResponse written (c_location c), (h_limiter h, h_world h)).

Lemma serve_finish route rq l w :
  serve route rq l w = finish (run_chain (rt_handlers route) rq (mkHttp fresh_ctx l w)).
Proof. unfold serve. by destruct (run_chain _ _ _). Qed.

(** An endpoint that does what is specified, whatever the middlewares left. *)
Definition does opts rq (endpoint : HandlerFunc (W := W)) what : Prop :=
  ∀ c l w, untouched c → c_limit c = body_limit opts →
    finish (endpoint rq (mkHttp c l w)) = outcome what l w.

Lemma does_at opts rq endpoint what : does opts rq (λ _, endpoint rq) what → does opts rq endpoint what.
Proof. done. Qed.

Lemma run_last endpoint rq h :
  c_aborted (h_ctx h) = false → finish (run_chain [endpoint] rq h) = finish (endpoint rq h).
Proof.
  intros Ha. simpl. unfold gets, mbind, GoM_bind. rewrite Ha. by destruct (endpoint rq h) as [[[]| |] h1].
Qed.

Lemma run_chain_aborted handlers rq h :
  c_aborted (h_ctx h) = true → run_chain handlers rq h = (Ok tt, h).
Proof. intros Ha. destruct handlers; [done|]. simpl. unfold gets, mbind, GoM_bind. by rewrite Ha. Qed.

(** One handler of a chain, and what it leaves to the rest. *)
Lemma chain_step handler handlers rq h :
  c_aborted (h_ctx h) = false →
  run_chain (handler :: handlers) rq h =
  match handler rq h with
  | (Ok _, h1) => run_chain handlers rq h1
  | (Err e, h1) => (Err e, h1)
  | (Panic m, h1) => (Panic m, h1)
  end.
Proof.
  intros Ha. simpl. unfold gets, mbind, GoM_bind. rewrite Ha. by destruct (handler rq h) as [[]].
Qed.

(** A handler that aborts with an answer. *)
Lemma finish_denied handlers rq code text c l w :
  untouched c →
  finish (run_chain handlers rq (mkHttp (denied code text c) l w))
  = (mkResponse [(code, ErrorText text)] None, (l, w)).
Proof.
  intros (_ & Hl & Hw). rewrite run_chain_aborted by done. simpl. by rewrite Hl, Hw.
Qed.

Lemma rate_gate opts handlers rq c l w :
  untouched c →
  finish (run_chain (rateLimit (trusted_by opts) (RateLimitRPS opts) :: handlers) rq (mkHttp c l w))
  = let '(admitted, l) := admission opts rq l in
    if negb admitted then (mkResponse [(429, ErrorText "rate limit exceeded")] None, (l, w))
    else finish (run_chain handlers rq (mkHttp c l w)).
Proof.
  intros Hu. rewrite chain_step by apply Hu. unfold rateLimit, admission.
  destruct (SFleb _ _); [done|]. unfold mbind, GoM_bind. simpl.
  destruct (allow _ _ _) as [[] l1]; [done|]. simpl.
  apply (finish_denied _ _ 429 "rate limit exceeded" c); done.
Qed.

Lemma body_gate n handlers rq c l w :
  untouched c →
  finish (run_chain (bodyLimit n :: handlers) rq (mkHttp c l w))
  = if (0 <? n) && (n <? rq_content_length rq) then
      (mkResponse [(413, ErrorText "request body too large")] None, (l, w))
    else finish (run_chain handlers rq (mkHttp (limited n c) l w)).
Proof.
  intros Hu. rewrite chain_step by apply Hu. unfold bodyLimit, limited.
  destruct (Z.leb_spec n 0), (Z.ltb_spec 0 n); try lia; [done|]. simpl.
  destruct (n <? rq_content_length rq); [|done].
  apply (finish_denied _ _ 413 "request body too large" c); done.
Qed.

(** The context once the caller is known. *)
Definition identified (verifier : TokenVerifier) rq c : Ctx :=
  match verifier, GoStrings.CutPrefix (rq_authorization rq) "Bearer " with
  | Some verify, Some token => if verify token is Ok p then with_principal p c else c
  | _, _ => c
  end.

Lemma role_gates verifier role handlers rq c l w :
  untouched c →
  finish (run_chain (authenticate verifier :: requireRole verifier role :: handlers) rq (mkHttp c l w))
  = match credentials verifier role rq with
    | Some answer => (mkResponse [answer] None, (l, w))
    | None => finish (run_chain handlers rq (mkHttp (identified verifier rq c) l w))
    end.
Proof.
  intros Hu. pose proof Hu as (Ha & Hl & Hw). rewrite chain_step by done.
  unfold authenticate, credentials, identified. destruct verifier as [verify|].
  2:{ unfold mret, GoM_ret. cbv beta iota. by rewrite chain_step. }
  destruct (GoStrings.CutPrefix _ _) as [token|];
    [|by apply (finish_denied _ _ 401 "missing bearer token" c)].
  case_decide; [by apply (finish_denied _ _ 401 "missing bearer token" c)|].
  unfold attempt, lift, mbind, GoM_bind. destruct (verify token) as [p|e|m].
  - unfold in_ctx, modify. cbv beta iota. rewrite chain_step by done.
    unfold requireRole, gets, mbind, GoM_bind. simpl. destruct (HasRole p role); [done|].
    by apply (finish_denied _ _ 403 ("requires role " +:+ role) (with_principal p c)).
  - by apply (finish_denied _ _ 401 "invalid token" c).
  - simpl. by rewrite Hl, Hw.
Qed.

Lemma untouched_identified verifier rq c : untouched c → untouched (identified verifier rq c).
Proof. unfold identified. by repeat case_match. Qed.

Lemma limit_identified verifier rq c : c_limit (identified verifier rq c) = c_limit c.
Proof. unfold identified. by repeat case_match. Qed.

Lemma limit_limited opts : c_limit (limited (MaxBodyBytes opts) fresh_ctx) = body_limit opts.
Proof. unfold limited, body_limit. by case_match. Qed.

(** A route with its gates. *)
Lemma route_specified opts role endpoint what m p rq l w :
  does opts rq endpoint what →
  serve (mkRoute m p (use opts ++ match role with
           | Some role => [authenticate (Verifier opts); requireRole (Verifier opts) role; endpoint]
           | None => [endpoint]
           end)) rq l w = specified opts role what rq l w.
Proof.
  intros Hdoes. rewrite serve_finish. unfold use. cbn [rt_handlers app]. rewrite rate_gate by done. unfold specified.
  destruct (admission opts rq l) as [[] l1]; [|done]. cbn [negb].
  rewrite body_gate by done. unfold refusal. destruct (_ && _); [done|].
  pose proof (untouched_limited (MaxBodyBytes opts) fresh_ctx ltac:(done)) as Hu.
  destruct role as [role|].
  - rewrite role_gates by done. destruct (credentials _ _ _); [done|].
    apply (untouched_identified (Verifier opts) rq) in Hu.
    rewrite run_last by apply Hu. apply Hdoes; [done|]. by rewrite limit_identified, limit_limited.
  - rewrite run_last by apply Hu. apply Hdoes; [done|]. apply limit_limited.
Qed.

(** *** The endpoints *)
Lemma facade_call_does {A} (m : GoM W A) (success : A → GoM Http unit) (answer : A → Z * Payload)
    (c : call) opts rq :
  (∀ w, perform c w = (a ← m; mret (answer a)) w) →
  (∀ a h, success a h = (Ok tt, put_ctx (mkCtx (c_limit (h_ctx h)) (c_principal (h_ctx h))
     (c_aborted (h_ctx h))
     (if location_of (answer a) is Some x then Some x else c_location (h_ctx h))
     (c_written (h_ctx h) ++ [answer a])) h)) →
  does opts rq (λ _, facade_call m success) (inr c).
Proof.
  intros Hp Hs cx l w (Ha & Hl & Hw) _. unfold outcome. rewrite Hp.
  unfold facade_call, mbind, GoM_bind, attempt, on_world, zoom. simpl.
  destruct (m w) as [[a|e|x] w1]; simpl.
  - rewrite Hs. simpl. rewrite Hw, Hl. by destruct (location_of _).
  - unfold respondError. destruct (errors_As_ErrInvalid e); [|destruct (errors_Is e ErrNotFound)];
      simpl; by rewrite Hw, Hl.
  - by rewrite Hw, Hl.
Qed.

Lemma binding_body_does {A} (bind : Reader → result A) (next : A → GoM Http unit)
    (what : A → call) opts rq :
  (∀ body, does opts rq (λ _, next body) (inr (what body))) →
  does opts rq (λ rq, binding_body bind rq next) (bound bind what opts rq).
Proof.
  intros Hn cx l w Hu Hlim. pose proof Hu as (Ha & Hl & Hw).
  unfold binding_body, bound, gets, mbind, GoM_bind, attempt, lift. simpl. rewrite Hlim.
  destruct (bind _) as [body|e|x].
  - by apply (Hn body).
  - simpl. by rewrite Hw, Hl.
  - simpl. by rewrite Hw, Hl.
Qed.

Lemma json_does (answer : Z * Payload) (endpoint : HandlerFunc) opts rq :
  (∀ c l w, untouched c → finish (endpoint rq (mkHttp c l w))
     = (mkResponse [answer] None, (l, w))) →
  does opts rq endpoint (inl answer).
Proof. intros He c l w Hu _. by apply He. Qed.

Lemma readyz_does opts rq : does opts rq (readyz (Ready opts)) (inl (readiness opts)).
Proof.
  apply json_does. intros c l w (_ & Hl & Hw). unfold readyz, readiness.
  destruct (Ready opts) as [[[]|e|m]|]; simpl; by rewrite Hw, Hl.
Qed.

(** ** Answers as clients know them *)

Definition page_wf (page : Page) : Prop := 1 ≤ Limit page ≤ MaxPageLimit ∧ 0 ≤ Offset page.

Lemma pageOf_wf rq : page_wf (pageOf rq).
Proof.
  unfold pageOf. destruct (Atoi _) as [limit ok]. destruct (Atoi _) as [offset ok'].
  apply NewPage_bounds.
Qed.

(** ** Inversion of the endpoints *)

(** One answer and no other change to the context but the location. *)
Definition answered (P : Z * Payload → Prop) h (r : result unit) h' : Prop :=
  r = Ok tt ∧ ∃ answer, c_written (h_ctx h') = c_written (h_ctx h) ++ [answer] ∧ P answer.

Lemma respondError_spec err h r h' :
  respondError err h = (r, h') →
  h_world h' = h_world h ∧ h_limiter h' = h_limiter h ∧
  c_location (h_ctx h') = c_location (h_ctx h) ∧
  answered (eq (answer_to (Err err))) h r h'.
Proof.
  unfold respondError, answered, answer_to. destruct (errors_As_ErrInvalid err).
  { intros [= <- <-]. do 4 (split; [done|]). by eexists. }
  destruct (errors_Is err ErrNotFound) eqn:He; intros [= <- <-]; do 4 (split; [done|]);
    by eexists.
Qed.

Lemma facade_call_inv {A} (m : GoM W A) (success : A → GoM Http unit) h r h' :
  facade_call m success h = (r, h') →
  ∃ a w', m (h_world h) = (a, w') ∧
    match a with
    | Ok x => success x (mkHttp (h_ctx h) (h_limiter h) w') = (r, h')
    | Err e => respondError e (mkHttp (h_ctx h) (h_limiter h) w') = (r, h')
    | Panic p => r = Panic p ∧ h' = mkHttp (h_ctx h) (h_limiter h) w'
    end.
Proof.
  unfold facade_call, mbind, GoM_bind, attempt, on_world, zoom.
  destruct (m (h_world h)) as [a w']. intros H. exists a, w'. split; [done|].
  destruct a; [done|done|]. by injection H as <- <-.
Qed.

Lemma binding_body_inv {A} (bind : Reader → result A) rq (next : A → GoM Http unit) h r h' :
  binding_body bind rq next h = (r, h') →
  match bind (MaxBytesReader (c_limit (h_ctx h)) (rq_body rq)) with
  | Ok body => next body h = (r, h')
  | Err e => h_world h' = h_world h ∧ h_limiter h' = h_limiter h ∧
      c_location (h_ctx h') = c_location (h_ctx h) ∧
      answered (eq (400, ErrorOf e)) h r h'
  | Panic p => r = Panic p ∧ h' = h
  end.
Proof.
  unfold binding_body, mbind, GoM_bind, attempt, lift, gets, answered.
  destruct (bind _) as [body|e|p]; [done| |]; intros [= <- <-]; [|done].
  do 4 (split; [done|]). by eexists.
Qed.

(** Nothing the handlers call panics. *)
Record calm opts : Prop := {
  calm_verify : ∀ verify token m, Verifier opts = Some verify → verify token ≠ Panic m;
  calm_ready : ∀ check m, Ready opts = Some check → check ≠ Panic m;
  calm_bind_order : ∀ reader m, bind_order reader ≠ Panic m;
  calm_bind_production : ∀ reader m, bind_production reader ≠ Panic m;
  calm_create : ∀ body w m, (facade_CreateSalesOrder body w).1 ≠ Panic m;
  calm_get : ∀ id w m, (facade_GetSalesOrder id w).1 ≠ Panic m;
  calm_list : ∀ page w m, page_wf page → (facade_GetSalesOrders page w).1 ≠ Panic m;
  calm_update : ∀ body w m, (facade_UpdateAvailability body w).1 ≠ Panic m;
  calm_availability : ∀ id w m, (facade_GetAvailability id w).1 ≠ Panic m;
  calm_availabilities : ∀ page w m, page_wf page → (facade_GetAvailabilities page w).1 ≠ Panic m;
}.

(** ** The routes *)

(** Who may do what: placing orders is for sales managers, declaring production
    for warehouse operators, reading under /v1 for viewers; the probes are open. *)
Definition required_role (route : Route (W := W)) : option string :=
  if GoStrings.HasPrefix (rt_path route) "/v1" then
    Some (if decide (rt_method route = "POST")%string then
            if decide (rt_path route = "/v1/sales")%string then RoleSalesManager
            else RoleWarehouseOperator
          else RoleViewer)
  else None.

Definition gates opts (route : Route (W := W)) : list (HandlerFunc (W := W)) :=
  match required_role route with
  | Some role => [authenticate (Verifier opts); requireRole (Verifier opts) role]
  | None => []
  end.

Definition endpoints opts : list (HandlerFunc (W := W)) :=
  [healthz; readyz (Ready opts); λ _, JSON 200 MetricsText; postSales; listSales; getSale;
   postAvailability; listAvailability; getAvailability].

(** Every route: the global middlewares, the gates of its role, its endpoint. *)
Lemma router_routes opts route :
  route ∈ NewRouter opts →
  ∃ endpoint, endpoint ∈ endpoints opts ∧ rt_handlers route = use opts ++ gates opts route ++ [endpoint].
Proof.
  unfold NewRouter. rewrite elem_of_app, !elem_of_cons, elem_of_nil.
  unfold endpoints. intros [Hm|Hr].
  - destruct (MetricsHandler opts); [|by apply elem_of_nil in Hm].
    apply list_elem_of_singleton in Hm as ->. eexists. split; [|reflexivity]. set_solver.
  - destruct_or! Hr; subst; try done; (eexists; split; [|reflexivity]); set_solver.
Qed.

(** The chain of any route. *)
Lemma route_chain opts route rq l w r h' :
  route ∈ NewRouter opts →
  run_chain (rt_handlers route) rq (mkHttp fresh_ctx l w) = (r, h') →
  stopped w r h' ∨
  (∃ verify token m, Verifier opts = Some verify ∧ verify token = Panic m ∧ r = Panic m ∧
     h_world h' = w ∧ untouched (h_ctx h')) ∨
  ∃ endpoint h1, endpoint ∈ endpoints opts ∧ rt_handlers route = use opts ++ gates opts route ++ [endpoint] ∧
    endpoint rq h1 = (r, h') ∧ h_world h1 = w ∧ untouched (h_ctx h1) ∧
    c_limit (h_ctx h1) = c_limit (limited (MaxBodyBytes opts) fresh_ctx) ∧
    match required_role route with Some role => granted opts role rq | None => True end.
Proof.
  intros (endpoint & Hin & Hh)%router_routes H. pose proof Hh as Hh'. unfold gates in Hh.
  rewrite Hh in H. destruct (required_role route) as [role|].
  - apply v1_chain in H as [Hs|[Hp|(h1 & H & ? & Hu & ? & ?)]]; [by left|by right; left|].
    do 2 right. exists endpoint, h1. pose proof (chain_one _ _ _ _ _ Hu H). by split_and!.
  - apply use_chain in H as [Hs|(h1 & H & Hw & Hc & _)]; [by left|].
    assert (untouched (h_ctx h1)) as Hu by (rewrite Hc; by apply untouched_limited).
    do 2 right. exists endpoint, h1. pose proof (chain_one _ _ _ _ _ Hu H).
    rewrite Hc. split_and!; try done. by apply untouched_limited.
Qed.

(** C7 Nobody gets past the role of a route: while authentication is on, a request
    under /v1 whose token does not verify to a principal with the role that the
    action needs reaches no facade: nothing behind the API changes, and the only
    answer is a refusal without data. *)
Theorem access_control opts route role rq l w resp l' w' :
  route ∈ NewRouter opts → required_role route = Some role → ¬ granted opts role rq →
  serve route rq l w = (resp, (l', w')) →
  w' = w ∧ ∃ code text, rs_written resp = [(code, ErrorText text)] ∧
    code ∈ [429; 413; 401; 403; 500].
Proof.
  intros Hin Hrole Hno. unfold serve.
  destruct (run_chain _ _ _) as [r h'] eqn:E.
  apply (route_chain opts) in E as
    [(-> & Hw & Hl & code & text & Hc & Hwr)|[(verify & token & m & _ & _ & -> & Hw & Hu)|
     (endpoint & h1 & _ & _ & _ & _ & _ & _ & Hg)]]; [..|done]; cbn.
  - rewrite Hwr. intros [= <- _ <-]. split; [done|]. exists code, text. split; [done|]. set_solver.
  - destruct Hu as (_ & _ & ->). intros [= <- _ <-]. split; [done|]. exists 500, ""%string.
    split; [done|]. set_solver.
  - by rewrite Hrole in Hg.
Qed.

(** *** Served as specified *)

Lemma specified_in opts route rq role what :
  route ∈ NewRouter opts → (rt_method route, rt_path route, role, what) ∈ table opts rq →
  ∀ l w, serve route rq l w = specified opts role what rq l w.
Proof.
  unfold NewRouter. rewrite elem_of_app, !elem_of_cons, elem_of_nil. intros Hin Ht l w.
  assert (∀ m p endpoint, route = mkRoute m p (use opts ++ match role with
      | Some role => [authenticate (Verifier opts); requireRole (Verifier opts) role; endpoint]
      | None => [endpoint]
      end) → does opts rq endpoint what → serve route rq l w = specified opts role what rq l w)
    as Hroute by (intros m p endpoint -> Hd; by apply route_specified).
  unfold table in Ht. rewrite !elem_of_cons, elem_of_nil in Ht.
  destruct Hin as [Hm|Hin];
    [destruct (MetricsHandler opts); [|by apply elem_of_nil in Hm];
       apply list_elem_of_singleton in Hm|destruct_or! Hin];
    subst route; simpl in Ht; destruct_or! Ht; try done; simplify_eq;
    (eapply Hroute; [reflexivity|]).
  - apply json_does. intros c l0 w0 (_ & Hl & Hw). simpl. by rewrite Hl, Hw.
  - apply json_does. intros c l0 w0 (_ & Hl & Hw). simpl. by rewrite Hl, Hw.
  - apply readyz_does.
  - apply binding_body_does. intros body. by apply (facade_call_does _ _ (λ id, (201, OrderId id))).
  - apply does_at. by apply (facade_call_does _ _ (λ items, (200, OrdersPage items (pageOf rq)))).
  - apply does_at. by apply (facade_call_does _ _ (λ order, (200, OrderBody order))).
  - apply binding_body_does. intros body. by apply (facade_call_does _ _ (λ id, (202, BeerIdOf id))).
  - apply does_at. by apply (facade_call_does _ _ (λ items, (200, AvailabilitiesPage items (pageOf rq)))).
  - apply does_at. by apply (facade_call_does _ _ (λ beer, (200, AvailabilityBody beer))).
Qed.

Lemma route_in_table opts route rq :
  route ∈ NewRouter opts →
  ∃ role what, (rt_method route, rt_path route, role, what) ∈ table opts rq.
Proof.
  unfold NewRouter. rewrite elem_of_app, !elem_of_cons, elem_of_nil. intros [Hm|Hr].
  - destruct (MetricsHandler opts); [|by apply elem_of_nil in Hm].
    apply list_elem_of_singleton in Hm as ->. do 2 eexists. left.
  - destruct_or! Hr; subst; do 2 eexists; unfold table; rewrite !elem_of_cons; tauto.
Qed.

(** C8 The HTTP layer refines its table. A request on a route is served exactly as the
    table of routes says, whatever the world behind the facades is (in memory or
    durable): the rate limiter is asked first; the body limit, the token and the role
    of the route can refuse, in that order, and then nothing behind the API changes;
    otherwise the one answer is given, or the one facade call is made, once, with the
    page of the query, the identifier of the path or the decoded body, and its outcome
    is the answer and all that happens to the world. The router has a route for each
    line of the table, and none besides. *)
Theorem served_as_specified opts rq :
  (∀ route, route ∈ NewRouter opts →
     ∃ role what, (rt_method route, rt_path route, role, what) ∈ table opts rq) ∧
  (∀ method path role what, (method, path, role, what) ∈ table opts rq →
     (path = "/metrics"%string → MetricsHandler opts = true) →
     ∃ route, route ∈ NewRouter (W := W) opts ∧
       (rt_method route = method ∧ rt_path route = path)) ∧
  ∀ route role what l w,
    route ∈ NewRouter opts → (rt_method route, rt_path route, role, what) ∈ table opts rq →
    serve route rq l w = specified opts role what rq l w.
Proof.
  split; [intros; by apply route_in_table|]. split; [|intros; by apply specified_in].
  intros method path role what Ht Hm. unfold table in Ht. rewrite !elem_of_cons, elem_of_nil in Ht.
  apply Exists_exists. unfold NewRouter. apply Exists_app.
  destruct_or! Ht; simplify_eq; [left; rewrite Hm by done|right..];
    repeat first [apply Exists_cons_hd; by split | apply Exists_cons_tl].
Qed.

(** The decoder refused the body of the request. *)
Definition body_refused opts (route : Route (W := W)) rq (err : error) : Prop :=
  rt_method route = "POST"%string ∧
  (rt_path route = "/v1/sales"%string ∧
     bind_order (MaxBytesReader (body_limit opts) (rq_body rq)) = Err err ∨
   rt_path route = "/v1/warehouses/availability"%string ∧
     bind_production (MaxBytesReader (body_limit opts) (rq_body rq)) = Err err).

(** What goes with each status on each route. The text of an error is shown if the
    error says that the client's input is invalid, is the decoder's about its body,
    or says that nothing was found; and by the readiness probe. *)
Definition well_formed opts (route : Route (W := W)) rq (answer : Z * Payload) : Prop :=
  let on method path := rt_method route = method ∧ rt_path route = path in
  match answer with
  | (200, MetricsText) => on "GET" "/metrics"
  | (200, Status s) => on "GET" "/healthz" ∧ s = "ok" ∨ on "GET" "/readyz" ∧ s = "ready"
  | (200, OrderBody _) => on "GET" "/v1/sales/:id"
  | (200, OrdersPage _ page) => on "GET" "/v1/sales" ∧ page = pageOf rq ∧ page_wf page
  | (200, AvailabilityBody _) => on "GET" "/v1/warehouses/availability/:beerId"
  | (200, AvailabilitiesPage _ page) =>
      on "GET" "/v1/warehouses/availability" ∧ page = pageOf rq ∧ page_wf page
  | (201, OrderId _) => on "POST" "/v1/sales"
  | (202, BeerIdOf _) => on "POST" "/v1/warehouses/availability"
  | (400, ErrorOf err) => is_Some (errors_As_ErrInvalid err) ∨ body_refused opts route rq err
  | (401, ErrorText text) => text ∈ ["missing bearer token"; "invalid token"]
  | (403, ErrorText text) =>
      ∃ role, required_role route = Some role ∧ text = ("requires role " +:+ role)
  | (404, ErrorOf err) => errors_As_ErrInvalid err = None ∧ errors_Is err ErrNotFound = true
  | (413, ErrorText text) => text = "request body too large"
  | (429, ErrorText text) => text = "rate limit exceeded"
  | (500, ErrorText text) => text ∈ ["internal server error"; ""]
  | (503, NotReady err) => on "GET" "/readyz" ∧ Ready opts = Some (Err err)
  | _ => False
  end%string.

Lemma error_wf opts route rq err : well_formed opts route rq (answer_to (Err err)).
Proof.
  unfold answer_to. destruct (errors_As_ErrInvalid err) eqn:Hi; [left; by rewrite Hi|].
  destruct (errors_Is err ErrNotFound) eqn:He; simpl; [done|]. set_solver.
Qed.

Lemma refusal_wf opts route rq role answer :
  required_role route = role → refusal opts role rq = Some answer →
  location_of answer = None ∧ well_formed opts route rq answer ∧ (calm opts → answer ≠ bare_500).
Proof.
  intros Hrole. unfold refusal. destruct (_ && _); [by intros [= <-]|].
  destruct role as [role|]; [|done]. unfold credentials.
  destruct (Verifier opts) as [verify|] eqn:Hv; [|done].
  destruct (GoStrings.CutPrefix _ _) as [token|]; [|intros [= <-]; split; [done|split; [left|done]]].
  case_decide; [intros [= <-]; split; [done|split; [left|done]]|].
  destruct (verify token) as [p|e|m] eqn:Ht.
  - destruct (HasRole p role); [done|]. intros [= <-]. split; [done|]. split; [by exists role|done].
  - intros [= <-]. split; [done|]. split; [right; left|done].
  - intros [= <-]. split; [done|]. split; [right; left|]. intros Hc.
    by destruct (calm_verify opts Hc verify token m).
Qed.

(** What a call that is performed answers. *)
Definition answers_well opts (route : Route (W := W)) rq (what : (Z * Payload) + call) : Prop :=
  ∀ l w, ∃ answer, (outcome what l w).1 = mkResponse [answer] (location_of answer) ∧
    well_formed opts route rq answer ∧ (calm opts → answer ≠ bare_500).

Lemma inl_answers opts route rq answer :
  location_of answer = None → well_formed opts route rq answer → (calm opts → answer ≠ bare_500) →
  answers_well opts route rq (inl answer).
Proof. intros Hl Hw Hc l w. exists answer. by rewrite Hl. Qed.

Lemma call_answers {A} opts route rq (cl : call) (m : GoM W A) (answer : A → Z * Payload) :
  (∀ w, perform cl w = (a ← m; mret (answer a)) w) →
  (∀ a, well_formed opts route rq (answer a) ∧ answer a ≠ bare_500) →
  (calm opts → ∀ w x, (m w).1 ≠ Panic x) →
  answers_well opts route rq (inr cl).
Proof.
  intros Hp Hok Hcalm l w. unfold outcome. rewrite Hp. unfold mbind, GoM_bind.
  destruct (m w) as [[a|e|x] w1] eqn:Hm; simpl.
  - exists (answer a). destruct (Hok a). split_and!; done.
  - eexists. split; [done|]. split; [apply error_wf|]. intros _. unfold bare_500.
    destruct (errors_As_ErrInvalid e); [done|]. by destruct (errors_Is e ErrNotFound).
  - exists bare_500. split; [done|]. split; [right; left|]. intros Hc.
    by destruct (Hcalm Hc w x); rewrite Hm.
Qed.

Lemma bound_answers {A} opts (route : Route (W := W)) rq (bind : Reader → result A) what :
  (∀ err, bind (MaxBytesReader (body_limit opts) (rq_body rq)) = Err err →
     body_refused opts route rq err) →
  (calm opts → ∀ reader m, bind reader ≠ Panic m) →
  (∀ body, answers_well opts route rq (inr (what body))) →
  answers_well opts route rq (bound bind what opts rq).
Proof.
  intros Hr Hc Hok. unfold bound. destruct (bind _) as [body|e|m] eqn:Hb; [apply Hok|..].
  - apply inl_answers; [done| |done]. right. by apply Hr.
  - apply inl_answers; [done|right; left|]. intros Hcalm. by destruct (Hc Hcalm _ m Hb).
Qed.

Lemma table_answers opts route rq role what :
  (rt_method route, rt_path route, role, what) ∈ table opts rq →
  required_role route = role ∧ answers_well opts route rq what.
Proof.
  destruct route as [method path handlers]. simpl. unfold table.
  rewrite !elem_of_cons, elem_of_nil. pose proof (pageOf_wf rq) as Hpage.
  intros Ht; destruct_or! Ht; simplify_eq; (split; [reflexivity|]).
  - by apply inl_answers.
  - apply inl_answers; [done| |done]. by left.
  - unfold readiness. destruct (Ready opts) as [[[]|e|m]|] eqn:Hr;
      (apply inl_answers; [done| |]); try done; [by right|right; left|..|by right].
    intros Hc. by destruct (calm_ready opts Hc _ m Hr).
  - apply bound_answers; [intros; split; auto|exact (calm_bind_order opts)|]. intros body.
    eapply (call_answers _ _ _ _ _ (λ id, (201, OrderId id))); [done|done|].
    intros Hc w x. by apply (calm_create opts).
  - eapply (call_answers _ _ _ _ _ (λ items, (200, OrdersPage items (pageOf rq)))); [done|done|].
    intros Hc w x. by apply (calm_list opts).
  - eapply (call_answers _ _ _ _ _ (λ order, (200, OrderBody order))); [done|done|].
    intros Hc w x. by apply (calm_get opts).
  - apply bound_answers; [intros; split; auto|exact (calm_bind_production opts)|]. intros body.
    eapply (call_answers _ _ _ _ _ (λ id, (202, BeerIdOf id))); [done|done|].
    intros Hc w x. by apply (calm_update opts).
  - eapply (call_answers _ _ _ _ _ (λ items, (200, AvailabilitiesPage items (pageOf rq)))); [done|done|].
    intros Hc w x. by apply (calm_availabilities opts).
  - eapply (call_answers _ _ _ _ _ (λ beer, (200, AvailabilityBody beer))); [done|done|].
    intros Hc w x. by apply (calm_availability opts).
Qed.

(** C25 Every request on every route gets exactly one answer, and a well-formed one:
    the payload that its status and the route call for, the page that was asked for
    within its bounds, a location with a created order and with nothing else. The
    text of an error is shown where the error is an invalid input's, the decoder's
    about the client's own body, or says that nothing was found; any other error of a
    facade is answered by a fixed text. The exception is the readiness probe, which
    shows what the database check failed with. A panic is answered by a bare 500; if
    nothing panics there is none. *)
Theorem one_well_formed_answer opts route rq l w resp l' w' :
  route ∈ NewRouter opts → serve route rq l w = (resp, (l', w')) →
  ∃ answer, rs_written resp = [answer] ∧ rs_location resp = location_of answer ∧
    well_formed opts route rq answer ∧ (calm opts → answer ≠ bare_500).
Proof.
  intros Hin Hs. destruct (route_in_table opts route rq Hin) as (role & what & Ht).
  rewrite (specified_in opts route rq role what Hin Ht) in Hs.
  destruct (table_answers opts route rq role what Ht) as [Hrole Hw]. unfold specified in Hs.
  destruct (admission opts rq l) as [[] l1]; simpl in Hs.
  2:{ injection Hs as <- _ _. eexists. split; [done|]. by split_and!. }
  destruct (refusal opts role rq) as [answer|] eqn:Hr.
  - injection Hs as <- _ _. exists answer. split; [done|].
    destruct (refusal_wf opts route rq role answer Hrole Hr) as (Hl & Hwf & Hc).
    by rewrite Hl.
  - destruct (Hw l1 w) as (answer & Ha & Hwf & Hc). rewrite Hs in Ha. simpl in Ha. subst resp.
    by exists answer.
Qed.

(** ** The rate limiter *)
Definition bounded (l : ipRateLimiter) : Prop := Z.of_nat (size (limiters l)) ≤ maxTrackedIPs + 1.

Lemma allow_bounded ip now l : bounded l → bounded (allow ip now l).2.
Proof.
  unfold bounded, allow. intros Hl. destruct (Allow _ _) as [ok lim]. simpl.
  assert (∀ m : gmap string Limiter, Z.of_nat (size m) ≤ maxTrackedIPs →
    Z.of_nat (size (<[ip := lim]> m)) ≤ maxTrackedIPs + 1) as Hins.
  { intros m Hm. rewrite map_size_insert. destruct (m !! ip); simpl; lia. }
  destruct (Z.ltb_spec maxTrackedIPs (Z.of_nat (size (limiters l)))).
  - apply Hins. rewrite map_size_empty. unfold maxTrackedIPs. lia.
  - by apply Hins.
Qed.

(** Requests one after the other. *)
Fixpoint serve_all (served : list (Route (W := W) * Request)) (l : ipRateLimiter) w
    : list Response * (ipRateLimiter * W) :=
  match served with
  | [] => ([], (l, w))
  | (route, rq) :: served =>
      let '(resp, (l, w)) := serve route rq l w in
      let '(resps, rest) := serve_all served l w in
      (resp :: resps, rest)
  end.

(** Only the rate limiter touches its buckets. *)
Definition keeps_bound (handler : HandlerFunc (W := W)) : Prop :=
  ∀ rq h r h', handler rq h = (r, h') → bounded (h_limiter h) → bounded (h_limiter h').

Lemma facade_call_bound {A} (m : GoM W A) (success : A → GoM Http unit) h r h' :
  (∀ a h1, h_limiter h1 = h_limiter h → success a h1 = (r, h') → h_limiter h' = h_limiter h1) →
  facade_call m success h = (r, h') → bounded (h_limiter h) → bounded (h_limiter h').
Proof.
  intros Hok (a & w' & _ & H)%facade_call_inv Hb. destruct a as [x|e|p].
  - apply Hok in H; [|done]. by rewrite H.
  - apply respondError_spec in H as (_ & Hl & _). by rewrite Hl.
  - by destruct H as [_ ->].
Qed.

Lemma binding_body_bound {A} (bind : Reader → result A) rq (next : A → GoM Http unit) h r h' :
  (∀ body, next body h = (r, h') → bounded (h_limiter h) → bounded (h_limiter h')) →
  binding_body bind rq next h = (r, h') → bounded (h_limiter h) → bounded (h_limiter h').
Proof.
  intros Hn H%binding_body_inv Hb. destruct (bind _) as [body|e|p].
  - by apply (Hn body).
  - destruct H as (_ & Hl & _). by rewrite Hl.
  - by destruct H as [_ ->].
Qed.

Lemma handlers_keep_bound opts route handler :
  route ∈ NewRouter opts → handler ∈ rt_handlers route → keeps_bound handler.
Proof.
  intros (endpoint & He & ->)%router_routes.
  unfold use, gates. rewrite !elem_of_app, !elem_of_cons, elem_of_nil.
  intros Hh rq h r h'.
  assert (keeps_bound endpoint) as Hend.
  { unfold endpoints in He. rewrite !elem_of_cons, elem_of_nil in He.
    clear Hh. intros rq' h1 r1 h1'. destruct_or! He; subst; try done.
    - by intros [= <- <-].
    - unfold readyz, mbind, GoM_bind, attempt, lift.
      destruct (Ready opts) as [[[]|e|m]|]; by intros [= <- <-].
    - by intros [= <- <-].
    - apply binding_body_bound. intros body. apply facade_call_bound. by intros a h2 _ [= _ <-].
    - apply facade_call_bound. by intros a h2 _ [= _ <-].
    - apply facade_call_bound. by intros a h2 _ [= _ <-].
    - apply binding_body_bound. intros body. apply facade_call_bound. by intros a h2 _ [= _ <-].
    - apply facade_call_bound. by intros a h2 _ [= _ <-].
    - apply facade_call_bound. by intros a h2 _ [= _ <-]. }
  destruct Hh as [[->|[->|[]]]|[Hg|[->|[]]]].
  - unfold rateLimit. destruct (SFleb _ _); [by intros [= <- <-]|].
    unfold mbind, GoM_bind.
    pose proof (allow_bounded (ClientIP (trusted_by opts) rq) (rq_time rq) (h_limiter h)) as Ha.
    destruct (allow _ _ _) as [[] l]; intros [= <- <-]; simpl in *; auto.
  - intros [Hl _]%bodyLimit_spec. by rewrite Hl.
  - destruct (required_role route) as [role|]; [|by apply elem_of_nil in Hg].
    rewrite !elem_of_cons, elem_of_nil in Hg. destruct Hg as [->|[->|[]]].
    + intros [Hl _]%authenticate_spec. by rewrite Hl.
    + unfold requireRole. destruct (Verifier opts); [|by intros [= <- <-]].
      unfold mbind, GoM_bind, gets. destruct (c_principal _) as [p|]; [|by intros [= <- <-]].
      destruct (HasRole p role); by intros [= <- <-].
  - apply Hend.
Qed.

Lemma run_chain_bound handlers rq h r h' :
  (∀ handler, handler ∈ handlers → keeps_bound handler) →
  run_chain handlers rq h = (r, h') → bounded (h_limiter h) → bounded (h_limiter h').
Proof.
  revert h. induction handlers as [|handler handlers IH]; intros h Hk; simpl; [by intros [= <- <-]|].
  unfold gets. unfold mbind at 1. unfold GoM_bind. destruct (c_aborted _); [by intros [= <- <-]|].
  unfold mbind, GoM_bind. destruct (handler rq h) as [[[]|e|m] h1] eqn:E; intros H Hb;
    apply (Hk handler ltac:(left)) in E; specialize (E Hb).
  - eapply IH; [|exact H|exact E]. intros x Hx. apply Hk. by right.
  - by injection H as <- <-.
  - by injection H as <- <-.
Qed.

(** A client may claim any address in [X-Forwarded-For]. *)
Definition forwarded_as (f : string) rq : Request :=
  mkRequest (rq_remote rq) f (rq_authorization rq) (rq_query rq) (rq_param rq)
    (rq_content_length rq) (rq_body rq) (rq_time rq).

Lemma forwarded_ignored opts route f rq l w :
  trusted_by opts = [] → route ∈ NewRouter opts →
  serve route (forwarded_as f rq) l w = serve route rq l w.
Proof.
  intros Ht (endpoint & He & Hh)%router_routes. unfold serve. rewrite Hh.
  enough (∀ handlers h,
    (∀ handler, handler ∈ handlers → ∀ h, handler (forwarded_as f rq) h = handler rq h) →
    run_chain handlers (forwarded_as f rq) h = run_chain handlers rq h) as Hall.
  { rewrite Hall; [done|]. intros handler. unfold use, gates.
    rewrite !elem_of_app, !elem_of_cons, elem_of_nil. intros [[->|[->|[]]]|[Hg|[->|[]]]] h.
    - unfold rateLimit. rewrite Ht, !ClientIP_untrusted. done.
    - done.
    - destruct (required_role route); [|by apply elem_of_nil in Hg].
      rewrite !elem_of_cons, elem_of_nil in Hg. by destruct Hg as [->|[->|[]]].
    - unfold endpoints in He. rewrite !elem_of_cons, elem_of_nil in He.
      by destruct_or! He; subst. }
  induction handlers as [|handler handlers IH]; intros h Hk; [done|]. simpl.
  unfold gets. unfold mbind at 1 3. unfold GoM_bind. destruct (c_aborted _); [done|].
  unfold mbind, GoM_bind. rewrite (Hk handler ltac:(left)). destruct (handler rq h) as [[] h1]; [|done..].
  apply IH. intros x Hx. apply Hk. by right.
Qed.

(** C26 The rate limiter's memory is bounded, and without trusted proxies (the
    default, and what an invalid list falls back to) nobody dodges a bucket by
    claiming another address: over any sequence of requests at most
    [maxTrackedIPs + 1] clients are tracked, and the answers are the same whatever
    [X-Forwarded-For] says. *)
Theorem limiter_contract opts served claims l w :
  (∀ route rq, (route, rq) ∈ served → route ∈ NewRouter opts) →
  (bounded l → bounded (serve_all served l w).2.1) ∧
  (trusted_by opts = [] → length claims = length served →
   serve_all (zip_with (λ f x, (x.1, forwarded_as f x.2)) claims served) l w
   = serve_all served l w).
Proof.
  intros Hin. split.
  - revert l w. induction served as [|[route rq] served IH]; intros l w Hb; [done|]. simpl.
    unfold serve at 1. destruct (run_chain _ _ _) as [r h'] eqn:E.
    apply run_chain_bound in E; [| |done].
    + destruct (serve_all served _ _) as [resps [l2 w2]] eqn:Es.
      specialize (IH ltac:(set_solver) (h_limiter h') (h_world h') E). by rewrite Es in IH.
    + intros handler. apply (handlers_keep_bound opts route), (Hin route rq). left.
  - intros Ht. revert claims l w. induction served as [|[route rq] served IH];
      intros [|f claims] l w Hlen; try done. simpl.
    rewrite (forwarded_ignored opts) by (done || (apply (Hin route rq); left)).
    destruct (serve _ _ _ _) as [resp [l1 w1]]. rewrite IH; [done|set_solver|].
    simpl in Hlen. lia.
Qed.
End contract.
