(* ===== verification/Api.v ===== *)
(** * The API over the running application
    ([internal/rest] on [internal/sales/facade.go], [internal/warehouses/facade.go])

    The facades' queries go to a read model through a port that both adapters
    implement; with them the HTTP layer works on the [System] of [Wiring]. A
    request is a step of the application, so what [System] proves of its runs holds
    whatever clients send. *)
From S2P Require Import Prelude Errors Kernel Aggregate EventStore World Repository.
From S2P Require Import Bus Json Wire.
From S2P Require Import SalesKernel SalesJson SalesOrder SalesHandlers.
From S2P Require Import SalesReadModel SalesFacade.
From S2P Require Import WarehouseKernel WarehouseJson Availability Saga WarehouseHandlers.
From S2P Require Import WarehouseReadModel WarehouseFacade SagaRunner SagaContract.
From S2P Require Import Wiring Registry Registries Sql Columns PostgresSales PostgresAvailability.
From S2P Require Import Strconv Auth Rest RestContract.
#[local] Open Scope Z_scope.

(** ** The ports of the queries *)
Class SalesOrderQueries (R : Type) := {
  q_GetSalesOrder : string → GoM R SalesOrderDto;
  q_GetSalesOrders : Page → GoM R (list SalesOrderDto);
}.

Class AvailabilityQueries (R : Type) := {
  q_GetAvailability : string → GoM R AvailabilityDto;
  q_GetAvailabilities : Page → GoM R (list AvailabilityDto);
}.

(** Queries that only read. *)
Class SalesQueriesRead (R : Type) `{SalesOrderQueries R} := {
  get_order_reads : ∀ id r, (q_GetSalesOrder id r).2 = r;
  get_orders_reads : ∀ page r, (q_GetSalesOrders page r).2 = r;
}.
Class AvailabilityQueriesRead (R : Type) `{AvailabilityQueries R} := {
  get_availability_reads : ∀ id r, (q_GetAvailability id r).2 = r;
  get_availabilities_reads : ∀ page r, (q_GetAvailabilities page r).2 = r;
}.

(** In memory; [choose] is the order of the rows that a call happens on. *)
#[global] Instance memory_sales_queries : SalesOrderQueries InMemorySales.SalesOrderService := {
  q_GetSalesOrder id := λ s, (InMemorySales.GetSalesOrder id s, s);
  q_GetSalesOrders page := λ s, (InMemorySales.GetSalesOrders page s, s) }.

#[global] Instance memory_sales_queries_read : SalesQueriesRead InMemorySales.SalesOrderService.
Proof. by split. Qed.

Definition memory_availability_queries
    (choose : InMemoryAvailability.AvailabilityService → list AvailabilityDto)
    : AvailabilityQueries InMemoryAvailability.AvailabilityService := {|
  q_GetAvailability id := λ s, (InMemoryAvailability.GetAvailability id s, s);
  q_GetAvailabilities page := λ s, (page_window page (choose s), s) |}.

Lemma memory_availability_queries_read choose :
  @AvailabilityQueriesRead _ (memory_availability_queries choose).
Proof. by split. Qed.

(** What they answer is what the service may answer. *)
Lemma memory_availability_queries_ok choose page s :
  (∃ all, InMemoryAvailability.enumeration s all ∧ InMemoryAvailability.sort_Slice all (choose s)) →
  InMemoryAvailability.GetAvailabilities page s
    (@q_GetAvailabilities _ (memory_availability_queries choose) page s).1.
Proof. intros (all & He & Hs). by exists all, (choose s). Qed.

(** Over PostgreSQL. *)
#[global] Instance postgres_sales_queries {U : UuidLib} {C : PgColumns} {X : Type}
    `{!Tables SalesTables X} : SalesOrderQueries (Pool SalesTables X) := {
  q_GetSalesOrder := GetSalesOrder_pg;
  q_GetSalesOrders := GetSalesOrders_pg }.

Definition postgres_availability_queries {U : UuidLib} {C : PgColumns} {X : Type}
    `{!Tables StockTables X} (choose : Page → StockTables → list AvailabilityDto)
    : AvailabilityQueries (Pool StockTables X) := {|
  q_GetAvailability := GetAvailability_pg;
  q_GetAvailabilities := GetAvailabilities_pg choose |}.

(** ** The facades of the running application *)
Section api.
Context `{GoText} {U : UuidLib} {SS WS B P RS RW : Type}.
Context `{!EventStore SalesEvent SS, !EventStore WarehouseEvent WS, !StreamLister WS}.
Context `{!WirePublisher B P, !JsonText P, !SalesReadModel RS, !AvailabilityReadModel RW}.
Context `{!SalesOrderQueries RS, !AvailabilityQueries RW}.
Context {G : Gin} {L : RateLib}.
Abbreviation app := (System SS WS B RS RW).

Definition on_orders_shown {A} (m : GoM RS A) : GoM app A := zoom sys_orders_shown put_orders_shown m.
Definition on_beers_shown {A} (m : GoM RW A) : GoM app A := zoom sys_beers_shown put_beers_shown m.

#[global] Instance system_facades : Facades app := {
  facade_CreateSalesOrder body := in_sales (Facade_CreateSalesOrder body);
  facade_GetSalesOrder id := on_orders_shown (q_GetSalesOrder id);
  facade_GetSalesOrders page := on_orders_shown (q_GetSalesOrders page);
  facade_UpdateAvailability body :=
    in_warehouse (Facade_UpdateAvailabilityDueToProductionOrder body);
  facade_GetAvailability id := on_beers_shown (q_GetAvailability id);
  facade_GetAvailabilities page := on_beers_shown (q_GetAvailabilities page) }.

(** *** A request is a step *)
Section steps.
Context `{!SalesQueriesRead RS, !AvailabilityQueriesRead RW}.
Context {Pub : Publication} `{!OutboxRelay SS B, !OutboxRelay WS B}.
Implicit Types (s : app).

Lemma on_orders_shown_reads {A} (m : GoM RS A) s :
  (∀ r, (m r).2 = r) → (on_orders_shown m s).2 = s.
Proof.
  intros Hm. unfold on_orders_shown, zoom. specialize (Hm (sys_orders_shown s)).
  destruct (m _) as [r x]. simpl in *. subst x. by destruct s.
Qed.

Lemma on_beers_shown_reads {A} (m : GoM RW A) s :
  (∀ r, (m r).2 = r) → (on_beers_shown m s).2 = s.
Proof.
  intros Hm. unfold on_beers_shown, zoom. specialize (Hm (sys_beers_shown s)).
  destruct (m _) as [r x]. simpl in *. subst x. by destruct s.
Qed.

(** What a handler may do to the application. *)
Definition runs_on s (h' : Http (W := app)) : Prop := run s (h_world h').

Lemma facade_call_runs {A} (m : GoM app A) (success : A → GoM Http unit) h r h' :
  (∀ a s', m (h_world h) = (a, s') → run (h_world h) s') →
  (∀ a h1 h2 r2, success a h1 = (r2, h2) → h_world h2 = h_world h1) →
  facade_call m success h = (r, h') → runs_on (h_world h) h'.
Proof.
  intros Hm Hok (a & s1 & Hrun%Hm & Hc)%facade_call_inv. unfold runs_on. destruct a as [x|e|p].
  - by rewrite (Hok _ _ _ _ Hc).
  - apply respondError_spec in Hc as (Hw & _). by rewrite Hw.
  - by destruct Hc as [_ ->].
Qed.

Lemma endpoint_runs opts endpoint rq h r h' :
  endpoint ∈ endpoints opts → endpoint rq h = (r, h') → runs_on (h_world h) h'.
Proof.
  unfold endpoints. rewrite !elem_of_cons, elem_of_nil.
  assert (∀ s s', step s s' → run s s') as Hone 
    by (intros s s' Hs; eapply run_step; [apply run_start|exact Hs]).
  assert (∀ (s : app) {A} (a : A) s' m, m s = (a, s') → (m s).2 = s → run s s') as Hread.
  { intros s A a s' m -> [= ->]. apply run_start. }
  intros He. destruct_or! He; subst; try done.
  - intros [= <- <-]. apply run_start.
  - unfold readyz, mbind, GoM_bind, attempt, lift.
    destruct (Ready opts) as [[[]|e|m]|]; intros [= <- <-]; apply run_start.
  - intros [= <- <-]. apply run_start.
  - intros Hb%binding_body_inv. destruct (bind_order _) as [body|e|m].
    + revert Hb. apply facade_call_runs; [|by intros a h1 h2 r2 [= _ <-]].
      intros a s' Hm. eapply Hone, step_order, Hm.
    + destruct Hb as (Hw & _). unfold runs_on. rewrite Hw. apply run_start.
    + destruct Hb as [_ ->]. apply run_start.
  - apply facade_call_runs; [|by intros a h1 h2 r2 [= _ <-]].
    intros a s' Hm. eapply Hread; [exact Hm|]. apply on_orders_shown_reads, get_orders_reads.
  - apply facade_call_runs; [|by intros a h1 h2 r2 [= _ <-]].
    intros a s' Hm. eapply Hread; [exact Hm|]. apply on_orders_shown_reads, get_order_reads.
  - intros Hb%binding_body_inv. destruct (bind_production _) as [body|e|m].
    + revert Hb. apply facade_call_runs; [|by intros a h1 h2 r2 [= _ <-]].
      intros a s' Hm. eapply Hone, step_production, Hm.
    + destruct Hb as (Hw & _). unfold runs_on. rewrite Hw. apply run_start.
    + destruct Hb as [_ ->]. apply run_start.
  - apply facade_call_runs; [|by intros a h1 h2 r2 [= _ <-]].
    intros a s' Hm. eapply Hread; [exact Hm|]. apply on_beers_shown_reads, get_availabilities_reads.
  - apply facade_call_runs; [|by intros a h1 h2 r2 [= _ <-]].
    intros a s' Hm. eapply Hread; [exact Hm|]. apply on_beers_shown_reads, get_availability_reads.
Qed.

(** The API is no back door, over read models whose queries only read (the ones in
    memory): whatever is requested, by whomever and in whatever
    order, the application makes a run of its own steps, so that everything proved
    of its runs (the agreement of the two contexts, the stock behind allocated
    orders) holds of a served application. *)
Theorem requests_are_steps opts served l s :
  (∀ route rq, (route, rq) ∈ served → route ∈ NewRouter opts) →
  run s (serve_all served l s).2.2.
Proof.
  intros Hin.
  assert (∀ s s' s'' : app, run s s' → run s' s'' → run s s'') as Htrans.
  { intros s1 s2 s3 H12 H23. induction H23 as [|s4 s5 s6 H45 IH Hst]; [done|].
    eapply run_step; [by apply IH|done]. }
  revert l s. induction served as [|[route rq] served IH]; intros l s; [apply run_start|]. simpl.
  unfold serve. destruct (run_chain _ _ _) as [r h'] eqn:E.
  specialize (IH ltac:(set_solver) (h_limiter h') (h_world h')).
  destruct (serve_all served _ _) as [resps [l2 w2]]. simpl in *.
  eapply Htrans; [|exact IH].
  apply (route_chain opts) in E as [(_ & <- & _)|[(_ & _ & _ & _ & _ & _ & <- & _)|
    (endpoint & h1 & He & _ & Hrun & <- & _)]]; [apply run_start..| |].
  - by eapply endpoint_runs in Hrun.
  - apply (Hin route rq). left.
Qed.
End steps.

(** *** Placing an order *)
Section placing.
Context `{!WirePublisherLaws B P}.
Implicit Types (s : app).

Lemma post_sales_chain opts (route : Route (W := app)) :
  route ∈ NewRouter opts → rt_method route = "POST"%string → rt_path route = "/v1/sales"%string →
  rt_handlers route = use opts ++ [authenticate (Verifier opts);
    requireRole (Verifier opts) RoleSalesManager; postSales].
Proof.
  unfold NewRouter. rewrite elem_of_app, !elem_of_cons, elem_of_nil. intros [Hm|Hr].
  - destruct (MetricsHandler opts); [|by apply elem_of_nil in Hm].
    by apply list_elem_of_singleton in Hm as ->.
  - by destruct_or! Hr; subst.
Qed.

Lemma in_sales_bus {A} (m : GoM (World SS B) A) s r s' :
  in_sales m s = (r, s') → ∃ w, m (sales_world s) = (r, w) ∧ sys_bus s' = w_bus w.
Proof. unfold in_sales, zoom. destruct (m _) as [x w]. intros [= <- <-]. by exists w. Qed.

(** Errors of the wire are not the program's own. *)
Definition foreign_errors : Prop := ∀ topic (p : P) (b : B) e b',
  Publish topic p b = (Err e, b') → errors_As_ErrInvalid e = None ∧ errors_Is e ErrNotFound = false.

(** A refused payload sends nothing. *)
Lemma create_refused body s e s' :
  foreign_errors → in_sales (Facade_CreateSalesOrder body) s = (Err e, s') →
  published (sys_bus s') = published (sys_bus s) ∨
  errors_As_ErrInvalid e = None ∧ errors_Is e ErrNotFound = false.
Proof.
  intros Hf (w & Hrun & ->)%in_sales_bus.
  apply Facade_CreateSalesOrder_run in Hrun as
    [(msg & _ & _ & ->)|(c & w1 & _ & _ & Hb1 & Hsend & _)]; [by left|].
  apply on_bus_inv in Hsend as (b & Hsend & ->). unfold Send, publish in Hsend. go_run.
  destruct (json_Marshal c) as [p|e'|m]; [|by injection Hsend as _ <-; left; simpl; rewrite Hb1|done].
  right. by eapply Hf.
Qed.

(** The codes of the middlewares. *)
Lemma stopped_code s r (h' : Http (W := app)) code payload :
  stopped s r h' → c_written (h_ctx h') = [(code, payload)] → h_world h' = s ∧ code ≠ 201.
Proof.
  intros (_ & Hw & _ & code' & text & Hc & ->) [= <- _]. split; [done|].
  intros ->. rewrite !elem_of_cons, elem_of_nil in Hc. by destruct_or! Hc.
Qed.

(** C24 An order is accepted exactly when it is on its way: 201 with an id and its
    location means that the caller may place orders, that the body was decoded and
    that one create command with its data, for the order of that id, is the next
    message on the wire; with any answer but 201 and 500 nothing was sent. *)
Theorem post_sales_contract opts route rq l s resp l' s' :
  foreign_errors →
  route ∈ NewRouter opts → rt_method route = "POST"%string → rt_path route = "/v1/sales"%string →
  serve route rq l s = (resp, (l', s')) →
  (∀ id, rs_written resp = [(201, OrderId id)] →
     rs_location resp = Some ("/v1/sales/" +:+ id)%string ∧ granted opts RoleSalesManager rq ∧
     ∃ limit body c p, bind_order (MaxBytesReader limit (rq_body rq)) = Ok body ∧
       facade_command body c ∧ json_Marshal c = Ok p ∧
       published (sys_bus s')
       = published (sys_bus s) ++ [("commands.sales.create_sales_order"%string, p)] ∧
       id = uuid_String (SalesOrderId_Value (cso_SalesOrderId c))) ∧
  (∀ code payload, rs_written resp = [(code, payload)] → code ≠ 201 → code ≠ 500 →
     published (sys_bus s') = published (sys_bus s)).
Proof.
  intros Hf Hin Hmethod Hpath. unfold serve. rewrite (post_sales_chain opts route) by done.
  destruct (run_chain _ _ _) as [r h'] eqn:E.
  apply v1_chain in E as [Hs|[(_ & _ & m & _ & _ & -> & Hw & Hu)|(h1 & Hrun & Hw & Hu & _ & Hg)]].
  - pose proof Hs as (-> & _). intros [= <- _ <-]. simpl. split.
    + intros id Hwr. by destruct (stopped_code _ _ _ _ _ Hs Hwr).
    + intros code payload Hwr _ _. by destruct (stopped_code _ _ _ _ _ Hs Hwr) as [-> _].
  - destruct Hu as (_ & _ & ->). intros [= <- _ <-]. simpl. split; [done|]. by intros ? ? [= <- _].
  - apply chain_one in Hrun; [|done]. destruct Hu as (_ & Hl & Hwr).
    apply binding_body_inv in Hrun. destruct (bind_order _) as [body|e|m] eqn:Hb.
    + apply facade_call_inv in Hrun as (a & s1 & Hcall & Hrun). rewrite Hw in Hcall.
      destruct a as [id|e|m].
      * injection Hrun as <- <-. simpl. rewrite Hwr. intros [= <- _ <-]. simpl. split.
        -- intros id' [= <-]. split; [done|]. split; [done|].
           apply in_sales_bus in Hcall as (w1 & Hcall & ->).
           apply create_accepted in Hcall as (c & p & Hc & Hp & Hpub & Hid). eauto 10.
        -- by intros code payload [= <- _].
      * pose proof (create_refused body s e s1 Hf Hcall) as Href.
        apply respondError_spec in Hrun as (Hw' & _ & _ & -> & answer & Ha & Hans).
        simpl in Ha. rewrite Hwr in Ha. simpl in Ha. rewrite Ha, Hw'. intros [= <- _ <-]. simpl.
        rewrite <- Hans. unfold answer_to. split.
        -- intros id Hid. exfalso. destruct (errors_As_ErrInvalid e); [done|].
           by destruct (errors_Is e ErrNotFound).
        -- intros code payload Hcode _ H500. destruct Href as [?|[Hi Hn]]; [done|].
           rewrite Hi, Hn in Hcode. by injection Hcode as <- _.
      * destruct Hrun as [-> ->]. simpl. rewrite Hwr. intros [= <- _ <-]. simpl.
        split; [done|]. by intros ? ? [= <- _].
    + destruct Hrun as (Hw' & _ & _ & -> & answer & Ha & <-). rewrite Hwr in Ha. simpl in Ha.
      rewrite Ha, Hw', Hw. intros [= <- _ <-]. simpl. split; [done|]. done.
    + destruct Hrun as [-> ->]. rewrite Hwr. intros [= <- _ <-]. simpl.
      split; [done|]. by intros ? ? [= <- _].
Qed.
End placing.
End api.

(** *** The facades do not panic *)

(** What an application needs of its options for every request to be answered. *)
Record calm_options {G : Gin} (opts : Options) : Prop := {
  calm_opts_verify : ∀ verify token m, Verifier opts = Some verify → verify token ≠ Panic m;
  calm_opts_ready : ∀ check m, Ready opts = Some check → check ≠ Panic m;
  calm_opts_order : ∀ reader m, bind_order reader ≠ Panic m;
  calm_opts_production : ∀ reader m, bind_production reader ≠ Panic m;
}.

Section calm_system.
Context `{GoText} {U : UuidLib} {SS WS B P : Type}.
Context `{!EventStore SalesEvent SS, !EventStore WarehouseEvent WS, !StreamLister WS}.
Context `{!WirePublisher B P, !WirePublisherLaws B P, !JsonText P}.
Context {G : Gin} {L : RateLib}.
Context (choose : InMemoryAvailability.AvailabilityService → list AvailabilityDto).

#[local] Instance chosen : AvailabilityQueries InMemoryAvailability.AvailabilityService :=
  memory_availability_queries choose.

#[local] Instance order_marshal_returns : MarshalReturns CreateSalesOrder P.
Proof. intros c. apply marshal_no_panic. intros m. solve_total. Qed.

#[local] Instance production_marshal_returns :
  MarshalReturns UpdateAvailabilityDueToProductionOrder P.
Proof. intros c. apply marshal_no_panic. intros m. solve_total. Qed.

Lemma send_calm {St M} `{!Message M, !ToJson M, !MarshalReturns M P} (c : M) (w : World St B) m w' :
  on_bus (Send c : GoM B unit) w ≠ (Panic m, w').
Proof.
  intros (b & E & _)%on_bus_inv. unfold Send, publish in E. go_run.
  pose proof (marshal_returns (P := P) c) as Hc.
  destruct (json_Marshal c) as [p|e|m'] eqn:Hp; [by apply publish_no_panic in E|done|].
  by destruct (Hc m').
Qed.

Lemma page_window_calm {A} page (l : list A) m : page_wf page → page_window page l ≠ Panic m.
Proof.
  intros [Hl Ho]. unfold page_window.
  rewrite (proj2 (Z.ltb_ge (Limit page) 0)) by lia. by rewrite (proj2 (Z.ltb_ge (Offset page) 0)).
Qed.

Lemma system_calm opts :
  calm_options opts →
  calm (W := System SS WS B InMemorySales.SalesOrderService InMemoryAvailability.AvailabilityService)
    opts.
Proof.
  intros [Hv Hr Ho Hp]. split; [done..| | | | | |]; simpl.
  - intros body w m. destruct (in_sales _ w) as [r w'] eqn:E. simpl. intros ->.
    apply in_sales_bus in E as (w1 & E & _).
    apply Facade_CreateSalesOrder_run in E as [(msg & [=] & _)|(c & w2 & _ & _ & _ & E & _)].
    by apply send_calm in E.
  - intros id w m. unfold on_orders_shown, zoom, InMemorySales.GetSalesOrder. simpl.
    by destruct (_ !! id).
  - intros page w m Hpage. unfold on_orders_shown, zoom, InMemorySales.GetSalesOrders. simpl.
    by apply page_window_calm.
  - intros body w m. unfold in_warehouse, zoom.
    destruct (Facade_UpdateAvailabilityDueToProductionOrder body _) as [r w1] eqn:E. simpl.
    intros ->. apply production_run in E as [(_ & _ & [=])|(c & w2 & _ & _ & _ & E & _)].
    by apply send_calm in E.
  - intros id w m. unfold on_beers_shown, zoom, InMemoryAvailability.GetAvailability. simpl.
    by destruct (_ !! id).
  - intros page w m Hpage. unfold on_beers_shown, zoom. simpl. by apply page_window_calm.
Qed.
End calm_system.

(** ** An identifier that is none *)
Section malformed_id.
Context `{GoText} {U : UuidLib} {C : PgColumns} {SS WS B P RW X : Type}.
Context `{!EventStore SalesEvent SS, !EventStore WarehouseEvent WS, !StreamLister WS}.
Context `{!WirePublisher B P, !JsonText P, !AvailabilityReadModel RW, !AvailabilityQueries RW}.
Context `{!Tables SalesTables X} {G : Gin} {L : RateLib}.
Abbreviation in_memory := (System SS WS B InMemorySales.SalesOrderService RW).
Abbreviation durable := (System SS WS B (Pool SalesTables X) RW).

Section queries.
Context {RS : Type} `{!SalesReadModel RS, !SalesOrderQueries RS}.

Lemma get_sale_chain opts (route : Route (W := System SS WS B RS RW)) :
  route ∈ NewRouter opts → rt_path route = "/v1/sales/:id"%string →
  rt_handlers route = use opts ++ [authenticate (Verifier opts);
    requireRole (Verifier opts) RoleViewer; getSale].
Proof.
  unfold NewRouter. rewrite elem_of_app, !elem_of_cons, elem_of_nil. intros [Hm|Hr].
  - destruct (MetricsHandler opts); [|by apply elem_of_nil in Hm].
    by apply list_elem_of_singleton in Hm as ->.
  - by destruct_or! Hr; subst.
Qed.

(** A query that fails is answered by its error. *)
Lemma get_sale_fails opts (route : Route (W := System SS WS B RS RW)) rq l s resp l' s' :
  (∀ verify token m, Verifier opts = Some verify → verify token ≠ Panic m) →
  route ∈ NewRouter opts → rt_path route = "/v1/sales/:id"%string →
  (∃ e r', q_GetSalesOrder (rq_param rq) (sys_orders_shown s) = (Err e, r') ∧
     errors_As_ErrInvalid e = None) →
  serve route rq l s = (resp, (l', s')) →
  ∃ code payload, rs_written resp = [(code, payload)] ∧
    (code ∈ [429; 413; 401; 403] ∨
     ∃ e r', q_GetSalesOrder (rq_param rq) (sys_orders_shown s) = (Err e, r') ∧
       code = if errors_Is e ErrNotFound then 404 else 500).
Proof.
  intros Hv Hin Hpath Hq. unfold serve. rewrite (get_sale_chain opts route) by done.
  destruct (run_chain _ _ _) as [r h'] eqn:E.
  apply v1_chain in E as [(-> & _ & _ & code & text & Hc & Hwr)|
    [(verify & token & m & H1 & H2 & _)|(h1 & Hrun & Hw & Hu & _ & _)]].
  - rewrite Hwr. intros [= <- _ _]. exists code, (ErrorText text). split; [done|]. by left.
  - by destruct (Hv verify token m H1).
  - apply chain_one in Hrun; [|done]. destruct Hu as (_ & _ & Hwr).
    apply facade_call_inv in Hrun as (a & s1 & Hcall & Hrun). rewrite Hw in Hcall.
    destruct Hq as (e & r' & Hqe & Hinv).
    assert (a = Err e) as ->.
    { revert Hcall. simpl. unfold on_orders_shown, zoom. rewrite Hqe. by intros [= <- _]. }
    apply respondError_spec in Hrun as (_ & _ & _ & -> & answer & Ha & Hans).
    simpl in Ha. rewrite Hwr in Ha. rewrite Ha. intros [= <- _ _]. simpl.
    unfold answer_to in Hans. rewrite Hinv in Hans. exists answer.1, answer.2. split; [by destruct answer|]. right.
    exists e, r'. split; [done|]. rewrite <- Hans. by destruct (errors_Is e ErrNotFound).
Qed.
End queries.

(** The two modes disagree on an identifier that is none: a query for it is
    answered 404 in memory, and 500 over PostgreSQL, which refuses the text before
    it looks for the order. *)
Theorem malformed_id_by_mode opts rq l (s : in_memory) (t : durable)
    (route : Route (W := in_memory)) (route' : Route (W := durable)) :
  (∀ verify token m, Verifier opts = Some verify → verify token ≠ Panic m) →
  route ∈ NewRouter opts → rt_path route = "/v1/sales/:id"%string →
  route' ∈ NewRouter opts → rt_path route' = "/v1/sales/:id"%string →
  pg_uuid (rq_param rq) = None →
  InMemorySales.orders (sys_orders_shown s) !! rq_param rq = None →
  (∃ code payload, rs_written (serve route rq l s).1 = [(code, payload)] ∧
     code ∈ [429; 413; 401; 403; 404]) ∧
  ∃ code payload, rs_written (serve route' rq l t).1 = [(code, payload)] ∧
     code ∈ [429; 413; 401; 403; 500].
Proof.
  intros Hv Hin Hp Hin' Hp' Hid Hnone. split.
  - destruct (serve route rq l s) as [resp [l' s']] eqn:E.
    apply (get_sale_fails opts) in E as (code & payload & Hwr & Hc); [|done..|].
    + exists code, payload. split; [done|]. destruct Hc as [Hc|(e & r' & Hq & ->)]; [set_solver|].
      simpl in Hq. unfold InMemorySales.GetSalesOrder in Hq. rewrite Hnone in Hq.
      injection Hq as <- _. simpl. set_solver.
    + simpl. unfold InMemorySales.GetSalesOrder. rewrite Hnone. eauto.
  - assert (∃ m r', GetSalesOrder_pg (rq_param rq) (sys_orders_shown t)
      = (Err (Errorf ("get sales order " +:+ rq_param rq)%string (ErrExternal m)), r')) as (m & r' & Hg).
    { unfold GetSalesOrder_pg. rewrite bind_wrapping. unfold uuid_column. rewrite Hid. simpl.
      unfold autocommit, mbind, GoM_bind. destruct (statement _) as [rs tx] eqn:Est.
      unfold statement in Est. destruct (head _) as [[m|]|]; injection Est as <- <-; eauto. }
    destruct (serve route' rq l t) as [resp [l' t']] eqn:E.
    apply (get_sale_fails opts) in E as (code & payload & Hwr & Hc); [|done..|].
    + exists code, payload. split; [done|]. destruct Hc as [Hc|(e & r1 & Hq & ->)]; [set_solver|].
      simpl in Hq. rewrite Hg in Hq. injection Hq as <- _. simpl.
      set_solver.
    + simpl. rewrite Hg. eauto.
Qed.
End malformed_id.
