(* ===== verification/ApiDemo.v ===== *)
(** * Evaluated requests

    A sales manager places an order, a viewer tries to, a stranger asks for an
    identifier that is none in both modes: the witnesses of [RestContract] and
    [Api]. *)
From S2P Require Import Prelude Errors Kernel Aggregate EventStore World Repository.
From S2P Require Import Bus Json Wire.
From S2P Require Import SalesKernel SalesJson SalesOrder SalesHandlers.
From S2P Require Import SalesReadModel SalesFacade.
From S2P Require Import WarehouseKernel WarehouseJson Availability Saga WarehouseHandlers.
From S2P Require Import WarehouseReadModel WarehouseFacade SagaRunner SagaContract.
From S2P Require Import Wiring SystemDemo Sql Columns PostgresSales PostgresAvailability ReadModelDemo.
From S2P Require Import Strconv Auth Rest RestContract Api.
From stdpp Require Import sorting.
Import DemoText DemoWire.
#[local] Open Scope Z_scope.
#[local] Existing Instance DemoUuid.lib.
#[local] Existing Instance demo_columns.

(** A decoder that knows two bodies; a token bucket that is never refilled. *)
#[local] Instance demo_gin : Gin := {
  bind_order r := if decide (r = ("order"%string, None)) then Ok four_litres
                  else Err (ErrExternal "invalid body");
  bind_production r := if decide (r = ("production"%string, None)) then Ok ten_litres
                       else Err (ErrExternal "invalid body");
  trusted_proxies_ok proxies := bool_decide ("not-a-cidr"%string ∉ proxies);
  ClientIP proxies rq := match proxies with [] => rq_remote rq | _ => rq_forwarded rq end;
  ClientIP_untrusted _ := eq_refl;
}.

#[local] Instance demo_rate : RateLib := {
  Limiter := Z;
  NewLimiter _ burst := burst;
  Allow _ n := if 0 <? n then (true, n - 1) else (false, n);
}.

#[local] Instance demo_listing : AvailabilityQueries InMemoryAvailability.AvailabilityService :=
  memory_availability_queries
    (λ s, merge_sort InMemoryAvailability.by_name (Listing.all_rows s)).

Definition tokens (token : string) : result Principal :=
  if decide (token = "boss"%string) then Ok (NewPrincipal "boss" [RoleViewer; RoleSalesManager])
  else if decide (token = "eve"%string) then Ok (NewPrincipal "eve" [RoleViewer])
  else Err (ErrExternal "unknown token").

Definition guarded : Options :=
  mkOptions None (Some tokens) 64 (float_of_Z 1) 2 true ["not-a-cidr"%string].

Definition idle : ipRateLimiter := router_limiter guarded.

Abbreviation app := (System (InMemory.InMemoryEventStore SalesEvent)
  (InMemory.InMemoryEventStore WarehouseEvent) (wire json) InMemorySales.SalesOrderService
  InMemoryAvailability.AvailabilityService).

Definition request (token body param : string) : Request :=
  mkRequest "10.0.0.1" "203.0.113.7" ("Bearer " +:+ token) (λ _, None) param
    (Z.of_nat (String.length body)) body 0.

(** The route of a method and path. *)
Definition route_of {W} `{Facades W} (opts : Options) (i : nat) : Route (W := W) :=
  default (mkRoute "" "" []) (NewRouter opts !! i).

Definition place : Route (W := app) := route_of guarded 3.
Definition look : Route (W := app) := route_of guarded 5.

Lemma place_in : place ∈ NewRouter guarded.
Proof. apply (list_elem_of_lookup_2 _ 3). reflexivity. Qed.
Lemma look_in : look ∈ NewRouter guarded.
Proof. apply (list_elem_of_lookup_2 _ 5). reflexivity. Qed.

(** ** Roles *)
Definition by_eve := serve place (request "eve" "order" "") idle opening.

Lemma access_control_witness :
  by_eve.1 = mkResponse [(403, ErrorText "requires role sales-manager")] None ∧
  by_eve.2.2 = opening.
Proof.
  split; [vm_compute; reflexivity|].
  apply (access_control guarded place RoleSalesManager (request "eve" "order" "") idle
    opening by_eve.1 by_eve.2.1 by_eve.2.2).
  - apply place_in.
  - reflexivity.
  - intros (p & (token & Ht & _ & Hp) & Hr).
    apply GoStrings.app_inj_l in Ht as <-. injection Hp as <-. by vm_compute in Hr.
  - unfold by_eve. by destruct (serve _ _ _ _) as [? []].
Defined.

(** ** Placing an order *)
Definition by_boss := serve place (request "boss" "order" "") idle opening.

Lemma demo_foreign : foreign_errors (B := wire json) (P := json).
Proof.
  intros topic p b e b'. simpl. by destruct (failures b) as [|[] fs]; [|intros [= <- _]|].
Qed.

Lemma post_sales_contract_witness :
  by_boss.1 = mkResponse [(201, OrderId "uo")] (Some "/v1/sales/uo"%string) ∧
  length (published (sys_bus by_boss.2.2)) = 1%nat ∧
  ∃ c p, facade_command four_litres c ∧
    published (sys_bus by_boss.2.2) = [("commands.sales.create_sales_order"%string, p)] ∧
    uuid_String (SalesOrderId_Value (cso_SalesOrderId c)) = "uo"%string.
Proof.
  assert (by_boss.1 = mkResponse [(201, OrderId "uo")] (Some "/v1/sales/uo"%string)) as Hr
    by (vm_compute; reflexivity).
  split; [exact Hr|]. split; [vm_compute; reflexivity|].
  destruct (post_sales_contract guarded place (request "boss" "order" "") idle opening
    by_boss.1 by_boss.2.1 by_boss.2.2) as [H201 _].
  - apply demo_foreign.
  - apply place_in.
  - reflexivity.
  - reflexivity.
  - unfold by_boss. by destruct (serve _ _ _ _) as [? []].
  - destruct (H201 "uo"%string) as (_ & _ & limit & body & c & p & Hb & Hc & _ & Hp & Hid);
      [by rewrite Hr|].
    exists c, p. split; [|by split].
    simpl in Hb. case_decide; [by injection Hb as <-|done].
Defined.

(** ** One answer *)
Lemma demo_calm : calm (W := app) guarded.
Proof.
  apply system_calm. split.
  - intros verify token m [= <-]. unfold tokens. by repeat case_decide.
  - done.
  - intros reader m. simpl. by case_decide.
  - intros reader m. simpl. by case_decide.
Qed.

Lemma one_well_formed_answer_witness :
  by_boss.1 = mkResponse [(201, OrderId "uo")] (Some "/v1/sales/uo"%string) ∧
  ∃ answer, rs_written by_boss.1 = [answer] ∧ rs_location by_boss.1 = location_of answer ∧
    well_formed guarded place (request "boss" "order" "") answer ∧ answer ≠ bare_500.
Proof.
  split; [vm_compute; reflexivity|].
  destruct (one_well_formed_answer guarded place (request "boss" "order" "") idle opening
    by_boss.1 by_boss.2.1 by_boss.2.2) as (answer & Ha & Hl & Hw & Hc).
  - apply place_in.
  - unfold by_boss. by destruct (serve _ _ _ _) as [? []].
  - exists answer. split; [exact Ha|]. split; [exact Hl|]. split; [exact Hw|]. apply Hc, demo_calm.
Defined.

(** ** The rate limiter: two requests pass, the third does not *)
Definition thrice : list (Route (W := app) * Request) :=
  [(look, request "boss" "" "uo"); (look, request "boss" "" "uo"); (look, request "boss" "" "uo")].
Definition codes (rs : list Response) : list (list Z) := (λ r, (rs_written r).*1) <$> rs.

Lemma thrice_in route rq : (route, rq) ∈ thrice → route ∈ NewRouter guarded.
Proof.
  unfold thrice. rewrite !elem_of_cons, elem_of_nil.
  intros [[= -> ->]|[[= -> ->]|[[= -> ->]|[]]]]; apply look_in.
Qed.

Lemma limiter_contract_witness :
  codes (serve_all thrice idle opening).1 = [[404]; [404]; [429]] ∧
  bounded (serve_all thrice idle opening).2.1 ∧
  serve_all (zip_with (λ f x, (x.1, forwarded_as f x.2)) ["1.1.1.1"; "2.2.2.2"; "3.3.3.3"]%string thrice)
    idle opening = serve_all thrice idle opening.
Proof.
  split; [vm_compute; reflexivity|].
  destruct (limiter_contract guarded thrice ["1.1.1.1"; "2.2.2.2"; "3.3.3.3"]%string
    idle opening thrice_in) as [Hb Hf].
  split; [apply Hb; unfold bounded, idle, router_limiter, newIPRateLimiter; cbn [limiters]; rewrite map_size_empty;
    unfold maxTrackedIPs; lia|]. apply Hf; reflexivity.
Defined.

(** ** Both modes *)
Definition open_api : Options := mkOptions None None 0 (float_of_Z 0) 0 false [].

Abbreviation durable_app := (System (InMemory.InMemoryEventStore SalesEvent)
  (InMemory.InMemoryEventStore WarehouseEvent) (wire json) (Pool SalesTables SalesArrival)
  InMemoryAvailability.AvailabilityService).

Definition durable_opening : durable_app :=
  mkSystem InMemory.NewInMemoryEventStore InMemory.NewInMemoryEventStore
    (mkPool (mkSalesTables ∅ ∅ 100 "ug"%string) [] []) InMemoryAvailability.NewAvailabilityService
    (mkWire [] []) 100 0.

Definition look_memory : Route (W := app) := route_of open_api 4.
Definition look_durable : Route (W := durable_app) := route_of open_api 4.
Definition stranger : Request := request "" "" "not-an-id".

(** An order placed over the modules in memory; an order looked up over the database. *)
Lemma served_as_specified_witness :
  serve place (request "boss" "order" "") idle opening
  = specified guarded (Some RoleSalesManager) (inr (CallCreateSalesOrder four_litres))
      (request "boss" "order" "") idle opening ∧
  serve look_durable stranger idle durable_opening
  = specified open_api (Some RoleViewer) (inr (CallGetSalesOrder "not-an-id"))
      stranger idle durable_opening.
Proof.
  split.
  - apply (served_as_specified guarded (request "boss" "order" "")); [apply place_in|].
    unfold table. rewrite !elem_of_cons. do 3 right. left. reflexivity.
  - apply (served_as_specified open_api stranger).
    + apply (list_elem_of_lookup_2 _ 4). reflexivity.
    + unfold table. rewrite !elem_of_cons. do 5 right. left. reflexivity.
Defined.

Lemma malformed_id_by_mode_witness :
  codes [(serve look_memory stranger idle opening).1;
         (serve look_durable stranger idle durable_opening).1] = [[404]; [500]] ∧
  ∃ code payload,
    rs_written (serve look_durable stranger idle durable_opening).1 = [(code, payload)] ∧
    code ∈ [429; 413; 401; 403; 500].
Proof.
  split; [vm_compute; reflexivity|].
  apply (malformed_id_by_mode open_api stranger idle opening durable_opening
    look_memory look_durable).
  - done.
  - apply (list_elem_of_lookup_2 _ 4). reflexivity.
  - reflexivity.
  - apply (list_elem_of_lookup_2 _ 4). reflexivity.
  - reflexivity.
  - reflexivity.
  - reflexivity.
Defined.
