(* ===== verification/Adapters.v ===== *)
(** * One type for both adapters of a port

    A [store] or [readModel] variable of the two [Register] functions holds either
    adapter. What both promise, the variable promises. The durable store's relay
    is one of [Outbox]'s dispatches. *)
From S2P Require Import Prelude Errors Kernel Aggregate EventStore World Repository.
From S2P Require Import Bus Json Wire Registry Sql PostgresEventStore Relay Outbox DurableStore.
From S2P Require Import SalesKernel SalesReadModel WarehouseKernel WarehouseReadModel.
#[local] Open Scope Z_scope.

(** A call on whichever adapter there is. *)
Definition either {X Y A} (m : GoM X A) (n : GoM Y A) : GoM (X + Y) A := λ s,
  match s with
  | inl x => let '(r, x) := m x in (r, inl x)
  | inr y => let '(r, y) := n y in (r, inr y)
  end.

Lemma either_inv {X Y A} (m : GoM X A) (n : GoM Y A) s r s' :
  either m n s = (r, s') →
  (∃ x x', s = inl x ∧ s' = inl x' ∧ m x = (r, x')) ∨
  (∃ y y', s = inr y ∧ s' = inr y' ∧ n y = (r, y')).
Proof.
  unfold either. destruct s as [x|y]; [destruct (m x) as [q x'] eqn:E|destruct (n y) as [q y'] eqn:E];
    intros [= <- <-]; eauto 10.
Qed.

(** ** Event stores *)
Section stores.
Context {U : UuidLib} {E X Y : Type} `{!EventStore E X, !EventStore E Y}.
Context (vx : X → string → list (StoredEvent E)) (vy : Y → string → list (StoredEvent E)).

#[global] Instance either_store : EventStore E (X + Y) := {
  ReadStream id := either (ReadStream id) (ReadStream id);
  Append now id v c es := either (Append now id v c es) (Append now id v c es) }.

Definition either_view (s : X + Y) : string → list (StoredEvent E) :=
  match s with inl x => vx x | inr y => vy y end.

Ltac by_adapter := intros *; intros [(? & ? & -> & -> & H)|(? & ? & -> & -> & H)]%either_inv; simpl.

#[global] Instance either_store_laws `{!EventStoreLaws vx, !EventStoreLaws vy} :
  EventStoreLaws either_view.
Proof.
  split.
  - by_adapter; by apply (read_ok _ _ _ _ H).
  - by_adapter; by apply (read_err _ _ _ _ H).
  - by_adapter; by apply (read_no_panic _ _ _ _ H).
  - by_adapter; by apply (append_ok _ _ _ _ _ _ _ H).
  - by_adapter; by apply (append_err _ _ _ _ _ _ _ _ H).
  - by_adapter; by apply (append_no_panic _ _ _ _ _ _ _ _ H).
Qed.

Context `{!StreamLister X, !StreamLister Y}.

#[global] Instance either_lister : StreamLister (X + Y) := λ prefix,
  either (ListStreams prefix) (ListStreams prefix).

#[global] Instance either_lister_laws
    `{!StreamListerLaws StreamLister0 vx, !StreamListerLaws StreamLister1 vy} :
  StreamListerLaws either_lister either_view.
Proof.
  split.
  - by_adapter; by apply (list_streams _ _ _ _ H).
  - intros p s l s' Hp [(? & ? & -> & -> & H)|(? & ? & -> & -> & H)]%either_inv; simpl;
      by apply (list_complete _ _ _ _ Hp H).
  - intros p s l s' Hp [(? & ? & -> & -> & H)|(? & ? & -> & -> & H)]%either_inv; simpl;
      by apply (list_sound _ _ _ _ Hp H).
  - by_adapter; by apply (list_no_panic _ _ _ _ H).
Qed.

Context {B P : Type} `{!OutboxRelay X B, !OutboxRelay Y B}.

#[global] Instance either_relay : OutboxRelay (X + Y) B := λ s b s' b',
  match s, s' with
  | inl x, inl x' => relays x b x' b'
  | inr y, inr y' => relays y b y' b'
  | _, _ => False
  end.

#[global] Instance either_relay_laws `{GoText, !JsonText P, !WirePublisher B P, !Message E, !ToJson E}
    `{!RelayLaws (B := B) (P := P) vx, !RelayLaws (B := B) (P := P) vy} :
  RelayLaws (B := B) (P := P) either_view.
Proof.
  split; intros [x|y] b [x'|y'] b' Hr; try done;
    [change (relays x b x' b') in Hr|change (relays y b y' b') in Hr
    |change (relays x b x' b') in Hr|change (relays y b y' b') in Hr]; simpl.
  - intros sid. by eapply relay_streams.
  - intros sid. by eapply relay_streams.
  - exact (relay_emits _ _ _ _ Hr).
  - exact (relay_emits _ _ _ _ Hr).
Qed.
End stores.

(** ** Read models *)
#[global] Instance either_sales_read_model {U : UuidLib} {X Y}
    `{!SalesReadModel X, !SalesReadModel Y} : SalesReadModel (X + Y) := {
  rm_CreateSalesOrder o := either (rm_CreateSalesOrder o) (rm_CreateSalesOrder o);
  rm_UpdateAllocationStatus id st re :=
    either (rm_UpdateAllocationStatus id st re) (rm_UpdateAllocationStatus id st re) }.

#[global] Instance either_availability_read_model {X Y}
    `{!AvailabilityReadModel X, !AvailabilityReadModel Y} : AvailabilityReadModel (X + Y) := λ a,
  either (rm_UpsertAvailability a) (rm_UpsertAvailability a).

(** ** The relay of the durable store *)
Section relay.
Context `{GoText} {U : UuidLib} {P E B : Type} `{!JsonText P, !JsonbColumn P}.
Context `{!DomainEvent E, !ToJson E, !WirePublisher B P, !WirePublisherLaws B P}.
Context (registry : EventRegistry P E) (fuel : nat) `{!RegistryReads fuel registry}.
Abbreviation store := (PostgresStore registry fuel).
Abbreviation DB := (Pool (Database P) (Arrival E)).

(** Deleting what went out shows in no stream. *)
Lemma delete_outbox_stream is_ (t : Database P) id :
  stream_in registry fuel (delete_outbox is_ t) id = stream_in registry fuel t id.
Proof. done. Qed.

(** A dispatch: the streams stay, and what went out waited in the outbox. *)
Lemma dispatch_effect locked (p : DB) (b : B) r p' b' :
  store_ok registry fuel p → DispatchPending locked (p, b) = (r, (p', b')) →
  store_ok registry fuel p' ∧
  (∀ id, stream_in registry fuel (tables p') id = stream_in registry fuel (tables p) id) ∧
  ∃ sent, (∀ row, row ∈ sent → row ∈ db_outbox (tables p)) ∧
    published b' = published b ++ (outbox_message <$> sent).
Proof.
  intros [Hq Hw Ho] Hr. pose proof Hr as Hspec.
  apply (DispatchPending_spec (λ _, False) eq) in Hspec as (_ & _ & Hspec); [|done|done].
  apply (publish_rows_spec _ _ _ _ _ (λ _, False) eq) in Hr
    as (Hq' & _ & (tq & sent & <- & Hsent & Hwent) & _); [|done|done].
  assert (∃ is_, tables p' = delete_outbox is_ (tables p) ∨ tables p' = tables p) as [is_ Ht].
  { destruct r as [n|e|m]; [|by exists []; right..].
    destruct Hspec as (tq & t & <- & <- & _ & _ & ->). eauto. }
  split; [split|split].
  - exact Hq'.
  - destruct Ht as [-> | ->]; done.
  - intros row Hrow. assert (row ∈ db_outbox (tables p)) as Hin.
    { destruct Ht as [Ht|Ht]; rewrite Ht in Hrow; [|done].
      by apply list_elem_of_filter in Hrow as [_ Hrow]. }
    destruct (Ho row Hin) as (id & e & x & He & ?). exists id, e, x. split; [|done].
    destruct Ht as [-> | ->]; done.
  - intros id. by destruct Ht as [-> | ->].
  - exists sent. split; [|exact Hwent]. intros row Hrow. apply (select_pending_in locked).
    eapply elem_of_prefix; [exact Hrow|done].
Qed.

#[global] Instance Postgres_relay : OutboxRelay store B := λ s b s' b',
  ∃ locked r, DispatchPending locked (pg_pool registry fuel s, b) = (r, (pg_pool registry fuel s', b')).

(** One dispatch of a relay, as a step. *)
Definition dispatch (locked : list Z) (s : store) (b : B) : store * B :=
  (mkPostgresStore registry fuel (DispatchPending locked (pg_pool registry fuel s, b)).2.1
     (proj1 (dispatch_effect locked _ b _ _ _ (pg_ok registry fuel s)
        (eq_trans (surjective_pairing _) (f_equal (pair _) (surjective_pairing _))))),
   (DispatchPending locked (pg_pool registry fuel s, b)).2.2).

Lemma dispatch_relays locked s b :
  relays s b (dispatch locked s b).1 (dispatch locked s b).2.
Proof.
  exists locked, (DispatchPending locked (pg_pool registry fuel s, b)).1. simpl.
  exact (eq_trans (surjective_pairing _) (f_equal (pair _) (surjective_pairing _))).
Qed.

#[global] Instance Postgres_relay_laws :
  RelayLaws (B := B) (P := P) (pg_stream registry fuel).
Proof.
  split; intros s b s' b' (locked & r & Hr);
    destruct (dispatch_effect locked _ b r _ b' (pg_ok _ _ s) Hr) as (_ & Hs & sent & Hin & Hp).
  - exact Hs.
  - exists (outbox_message <$> sent). split; [exact Hp|]. apply Forall_fmap, Forall_forall.
    intros row Hrow.
    destruct (ok_outbox _ _ _ (pg_ok _ _ s) row (Hin row Hrow)) as (id & e & x & He & Hx & Hm).
    exists id, e. split; [exact He|]. unfold compose. rewrite Hm. split; simpl.
    + unfold stored_event in Hx. destruct (json_Marshal e); [|done..].
      by apply fmap_Some in Hx as (p & _ & ->).
    + unfold stored_event, json_Marshal, marshal_json, result_bind in Hx.
      destruct (to_json e) as [j|err|m] eqn:Hj; [|done..].
      apply fmap_Some in Hx as (p & Hjs & ->). simpl.
      destruct (jsonb_same_content _ _ j Hjs (parse_print_json j)) as (j' & Hp' & Hsame). eauto.
Qed.
End relay.
