(* ===== verification/App.v ===== *)
(** * The composition root
    ([internal/app/app.go], the [Register]s' choice of adapters,
    [internal/platform/database], [logging], [telemetry], [cmd/api])

    [New] turns a configuration into an application: two switches, the database and
    the broker, decide which adapters both modules get, who publishes their events,
    whether dead letters are archived. [Process] is what [Run] does with it. *)
From S2P Require Import Prelude Errors Kernel Aggregate EventStore World Repository.
From S2P Require Import Bus Json Wire.
From S2P Require Import SalesKernel SalesJson SalesOrder SalesReadModel.
From S2P Require Import WarehouseKernel WarehouseJson Availability WarehouseReadModel.
From S2P Require Import Registry Registries Sql PostgresEventStore Relay Outbox DurableStore DeadLetters.
From S2P Require Import Columns PostgresSales PostgresAvailability Adapters.
From S2P Require Import Wiring System Strconv Config Auth Rest Transport Process.
#[local] Open Scope Z_scope.

(** ** [internal/platform] *)

(** *** logger.go *)
Inductive Level := LevelDebug | LevelInfo | LevelWarn | LevelError.

Definition parseLevel (level : string) : Level :=
  let level := ToLower level in
  if decide (level = "debug"%string) then LevelDebug
  else if decide (level = "warn"%string) then LevelWarn
  else if decide (level = "error"%string) then LevelError
  else LevelInfo.

(** The process's surroundings: the database driver, watermill's connections, the
    exporters, the identity provider. *)
Class Outside (W C DBH : Type) := {
  sql_Open : string → GoM W DBH;
  PingContext : DBH → GoM W unit;
  db_Close : DBH → GoM W unit;
  NewGoChannel : C;
  close_conn : C → GoM W unit;
  amqp_NewPublisher : amqpConfig → GoM W C;
  amqp_NewSubscriber : amqpConfig → GoM W C;
  otelprom_New : GoM W unit;
  provider_Shutdown : string → GoM W unit;
  Token : Type;
  oidc_Verify : string → string → string → string → result Token;
  token_Subject : Token → string;
  token_Claims : Token → result keycloakClaims;
}.

(** None of them panics. *)
Class OutsideLaws (W C DBH : Type) `{!Outside W C DBH} : Prop := {
  sql_Open_no_panic url w m : (sql_Open url w).1 ≠ Panic m;
  Ping_no_panic db w m : (PingContext db w).1 ≠ Panic m;
  db_Close_no_panic db w m : (db_Close db w).1 ≠ Panic m;
  close_no_panic c w m : (close_conn c w).1 ≠ Panic m;
  newPublisher_no_panic c w m : (amqp_NewPublisher c w).1 ≠ Panic m;
  newSubscriber_no_panic c w m : (amqp_NewSubscriber c w).1 ≠ Panic m;
  otelprom_no_panic w m : (otelprom_New w).1 ≠ Panic m;
}.

Section platform.
Context {W C DBH : Type} {O : Outside W C DBH}.

(** *** database.go: [open]; a pool that does not answer is closed again. *)
Definition database_open (dbURL : string) : GoM W DBH :=
  db ← wrapping "open database"%string (sql_Open dbURL);
  pinged ← attempt (PingContext db);
  match pinged with
  | inl err => _ ← attempt (db_Close db); throw (Errorf "ping database" err)
  | inr _ => mret db
  end.

(** *** telemetry.go, without what is exported *)
Definition InitTracing (endpoint : string) : GoM W unit :=
  if bool_decide (endpoint = ""%string) then mret tt else provider_Shutdown endpoint.
Definition InitMetrics : GoM W bool := _ ← otelprom_New; mret true.

(** *** The transports in use *)
Abbreviation transports := (InMemoryTransport C + AMQPTransport C)%type.
#[export] Instance channel_transport : Transport (InMemoryTransport C) W C :=
  InMemory_transport close_conn.
#[export] Instance broker_transport : Transport (AMQPTransport C) W C :=
  AMQP_transport close_conn amqp_NewSubscriber.

#[export] Instance transports_laws `{!OutsideLaws W C DBH} :
  TransportLaws transports W C (either_adopt (λ _ t, t) keeps_subscriber)
    (either_ready (λ _, True) connected).
Proof.
  apply either_transport_laws.
  - exact (InMemory_transport_laws _ close_no_panic).
  - exact (AMQP_transport_laws _ _ close_no_panic newSubscriber_no_panic).
Qed.

Definition NewInMemoryTransport : InMemoryTransport C := mkInMemoryTransport NewGoChannel.

(** The transport [New] picks. *)
Definition new_transport (brokerURL : string) : GoM W transports :=
  if bool_decide (brokerURL = ""%string) then mret (inl NewInMemoryTransport)
  else t ← NewAMQPTransport amqp_NewPublisher brokerURL; mret (inr t).
End platform.

Section app.
Context `{GoText} {U : UuidLib} {C : PgColumns} {P B X : Type} (fuel : nat).
Context `{!JsonText P, !JsonbColumn P, !WirePublisher B P, !Tables (Database P) X}.
Context (PoisonedTopicKey ReasonForPoisonedKey : string).

(** ** The variables of both [Register]s *)
Abbreviation sales_durable := (PostgresStore (P := P) Sales_NewEventRegistry (S fuel)).
Abbreviation warehouses_durable := (PostgresStore (P := P) Warehouses_NewEventRegistry (S fuel)).
Abbreviation sales_store := (InMemory.InMemoryEventStore SalesEvent + sales_durable)%type.
Abbreviation warehouses_store := (InMemory.InMemoryEventStore WarehouseEvent + warehouses_durable)%type.
Abbreviation sales_read_model := (InMemorySales.SalesOrderService + Pool SalesTables SalesArrival)%type.
Abbreviation warehouses_read_model :=
  (InMemoryAvailability.AvailabilityService + Pool StockTables StockArrival)%type.
Abbreviation system :=
  (System sales_store warehouses_store B sales_read_model warehouses_read_model).

(** [cfg.DBURL != ""]. *)
Definition durable (cfg : Config) : bool := negb (bool_decide (DBURL cfg = ""%string)).

(** [eventPublisher] is the bus unless the mode is durable. *)
Definition publication (cfg : Config) : Publication := negb (durable cfg).

Definition sales_variables (cfg : Config) (store : sales_durable)
    (rows : Pool SalesTables SalesArrival) : sales_store * sales_read_model :=
  if durable cfg then (inr store, inr rows)
  else (inl InMemory.NewInMemoryEventStore, inl InMemorySales.NewSalesOrderService).

Definition warehouses_variables (cfg : Config) (store : warehouses_durable)
    (rows : Pool StockTables StockArrival) : warehouses_store * warehouses_read_model :=
  if durable cfg then (inr store, inr rows)
  else (inl InMemory.NewInMemoryEventStore, inl InMemoryAvailability.NewAvailabilityService).

(** The system both modules start on, each on the adapters its [Register] picks, given
    what the database holds. *)
Definition boot (cfg : Config) (sales : sales_durable) (orders : Pool SalesTables SalesArrival)
    (warehouses : warehouses_durable) (stock : Pool StockTables StockArrival)
    (b : B) (now : Time) (minted : nat) : system :=
  let '(store, shown) := sales_variables cfg sales orders in
  let '(wstore, wshown) := warehouses_variables cfg warehouses stock in
  mkSystem store wstore shown wshown b now minted.

(** ** The subscriptions of the process

    A module's handler sees the payload only, and the system; the archive has a
    share of the database of its own. *)
Abbreviation everything := (system * Pool (Database P) X)%type.

Definition module_subscription (sub : pendingSubscription system P)
    : pendingSubscription everything (wireMessage P) :=
  mkSubscription (sub_name sub) (sub_topic sub)
    (λ msg, zoom fst (λ s x, (s, snd x)) (sub_handler sub (DeadLetters.Payload msg))).

Definition archive : list (pendingSubscription everything (wireMessage P)) →
    list (pendingSubscription everything (wireMessage P)) :=
  OnDeadLetter PoisonedTopicKey ReasonForPoisonedKey "muflone.dead_letter_archive"
    (λ topic payload reason, zoom snd (λ d x, (fst x, d)) (DeadLetter_Save topic payload reason)).

(** In the order of [New]: the monitor, the archive, the modules. *)
Definition subscriptions_of (cfg : Config) : list (pendingSubscription everything (wireMessage P)) :=
  let bus := module_subscription <$> NewServiceBus in
  let bus := if durable cfg then archive bus else bus in
  bus ++ (module_subscription <$>
            warehouses_Register (Pub := publication cfg) (sales_Register (Pub := publication cfg) [])).

Definition named (sub : pendingSubscription everything (wireMessage P)) : string * string :=
  (sub_name sub, sub_topic sub).

(** ** [New] *)
Context {W Conn DBH : Type} {O : Outside W Conn DBH}.
Abbreviation transports := (InMemoryTransport Conn + AMQPTransport Conn)%type.

Record App := mkApp {
  app_cfg : Config;
  app_level : Level;
  app_db : option DBH;
  app_bus : ServiceBus transports Conn;
  (** what both [Register]s and the platform subscribed, handlers included *)
  app_subscriptions : list (pendingSubscription everything (wireMessage P));
  (** the modules on their adapters, given what the database and the wire hold *)
  app_modules : sales_durable → Pool SalesTables SalesArrival →
    warehouses_durable → Pool StockTables StockArrival → B → Time → nat → system;
  app_relay : option Z;            (** the relay's interval *)
  app_verifier : TokenVerifier;
  app_metrics : bool;
  app_shutdownTracing : GoM W unit;
}.

(** [NewServiceBusWithTransport] and every [subscribe] after it. *)
Definition bus_on (t : transports) (subs : list (string * string)) : ServiceBus transports Conn :=
  mkServiceBus t subs None [] false.

(** [auth.NewOIDCVerifier], as the router sees it. *)
Definition NewOIDCVerifier (issuer jwksURL clientID : string) : TokenVerifier :=
  Some (Verify (oidc_Verify issuer jwksURL clientID) token_Subject token_Claims clientID).

Definition New (cfg : Config) : GoM W App :=
  let logger := parseLevel (LogLevel cfg) in
  db ← (if durable cfg then opened ← database_open (DBURL cfg); mret (Some opened) else mret None);
  transport ← new_transport (BrokerURL cfg);
  let bus := bus_on transport (named <$> subscriptions_of cfg) in
  let relay := if db is Some _ then Some (OutboxInterval cfg) else None in
  let verifier :=
    if bool_decide (AuthIssuer cfg = ""%string) then None
    else NewOIDCVerifier (AuthIssuer cfg) (AuthJWKSURL cfg) (AuthClientID cfg) in
  let shutdownTracing := InitTracing (OTELEndpoint cfg) in
  metricsHandler ← wrapping "init metrics"%string InitMetrics;
  mret (mkApp cfg logger db bus (subscriptions_of cfg) (boot cfg) relay verifier
          metricsHandler shutdownTracing).

(** The options the router is built with; [ping] is what the pool answers when the
    readiness probe asks. *)
Definition options_of (ping : DBH → result unit) (a : App) : Options :=
  mkOptions (ping <$> app_db a) (app_verifier a)
    (Config.MaxBodyBytes (app_cfg a)) (Config.RateLimitRPS (app_cfg a))
    (Config.RateLimitBurst (app_cfg a)) (app_metrics a) (Config.TrustedProxies (app_cfg a)).

(** [Run] of an application: the life of its process. *)
Definition app_lives (router_start : list (string * string * Conn) → GoM W unit)
    (router_Close : GoM W unit) (errors_Join : list error → error) (a : App) (w : W)
    : Process transports W Conn → Prop :=
  lives router_start router_Close errors_Join (SagaStepTimeout (app_cfg a)) (app_relay a)
    (app_bus a) w.

(** [cmd/api]: [run] up to [Run]. *)
Definition api_run (ParseFloat64 : string → option float64) (env : Environ) : GoM W App :=
  New (Load ParseFloat64 env).

(** ** What a configuration decides *)

Lemma subscriptions_in_memory cfg :
  durable cfg = false →
  subscriptions_of cfg = module_subscription <$> wiring (Pub := publication cfg).
Proof. intros Hd. unfold subscriptions_of. by rewrite Hd. Qed.

(** Names differ, and no two handlers take one command. *)
Lemma subscriptions_distinct cfg :
  NoDup (named <$> subscriptions_of cfg).*1 ∧
  NoDup (filter (λ topic, GoStrings.HasPrefix topic commandTopicPrefix = true)
           (sub_topic <$> subscriptions_of cfg)).
Proof.
  unfold subscriptions_of.
  destruct (durable cfg); split; apply (bool_decide_unpack _); vm_compute; exact I.
Qed.

(** The bus [New] leaves: nobody ran it, no two handlers share a name. *)
Context {OL : OutsideLaws W Conn DBH}.
Abbreviation app_ready := (either_ready (λ _ : InMemoryTransport Conn, True) connected).

Lemma new_transport_ready url w r w' :
  new_transport url w = (r, w') →
  (∀ m, r ≠ Panic m) ∧
  ∀ t, r = Ok t → app_ready t ∧ ((∃ broker, t = inr broker) ↔ url ≠ ""%string).
Proof.
  unfold new_transport. case_bool_decide as Hu.
  { intros [= <- <-]. split; [done|]. intros t [= <-]. split; [done|]. split; [by intros []|done]. }
  unfold mbind, GoM_bind. destruct (NewAMQPTransport _ _ _) as [r1 w1] eqn:E.
  pose proof (NewAMQPTransport_no_panic amqp_NewPublisher url w newPublisher_no_panic) as Hnp.
  rewrite E in Hnp. destruct r1 as [t|e|m]; simpl; [| |by destruct (Hnp m)]; intros [= <- <-];
    (split; [done|]); intros t' [= <-].
  apply NewAMQPTransport_connected in E as (_ & Hc & _). split; [done|]. split; eauto.
Qed.

(** *** What [New] is made of *)
Definition open_pool (cfg : Config) : GoM W (option DBH) :=
  if durable cfg then opened ← database_open (DBURL cfg); mret (Some opened) else mret None.

Lemma database_open_no_panic url w m : (database_open url w).1 ≠ Panic m.
Proof.
  unfold database_open. go_run.
  pose proof (sql_Open_no_panic url w) as Ho.
  destruct (sql_Open url w) as [[db|e|m1] w1]; simpl in *; [|done|by destruct (Ho m1)].
  pose proof (Ping_no_panic db w1) as Hp.
  destruct (PingContext db w1) as [[[]|e|m1] w2]; simpl in *; [done| |by destruct (Hp m1)].
  pose proof (db_Close_no_panic db w2) as Hc.
  by destruct (db_Close db w2) as [[[]|e'|m1] w3]; simpl in *; [..|destruct (Hc m1)].
Qed.

Lemma open_pool_spec cfg w r w' :
  open_pool cfg w = (r, w') →
  (∀ m, r ≠ Panic m) ∧ (∀ e, r = Err e → durable cfg = true) ∧
  ∀ db, r = Ok db → (is_Some db ↔ durable cfg = true).
Proof.
  unfold open_pool. destruct (durable cfg).
  - unfold mbind, GoM_bind. pose proof (database_open_no_panic (DBURL cfg) w) as Hnp.
    destruct (database_open (DBURL cfg) w) as [[db|e|m] w1]; simpl in Hnp; [| |by destruct (Hnp m)];
      intros [= <- <-]; (split; [done|]); split; try done. intros ? [= <-]. by split.
  - intros [= <- <-]. split; [done|]. split; [done|]. intros ? [= <-]. by split; [intros []|].
Qed.

Lemma InitMetrics_spec w r w' :
  InitMetrics w = (r, w') → (∀ m, r ≠ Panic m).
Proof.
  unfold InitMetrics, mbind, GoM_bind. pose proof (otelprom_no_panic w) as Hnp.
  destruct (otelprom_New w) as [[[]|e|m] w1]; simpl in Hnp; [| |by destruct (Hnp m)];
    by intros [= <- <-].
Qed.

(** The application of what was opened. *)
Definition app_of (cfg : Config) (db : option DBH) (t : transports) (metrics : bool) : App :=
  mkApp cfg (parseLevel (LogLevel cfg)) db (bus_on t (named <$> subscriptions_of cfg))
    (subscriptions_of cfg) (boot cfg)
    (if db is Some _ then Some (OutboxInterval cfg) else None)
    (if bool_decide (AuthIssuer cfg = ""%string) then None
     else NewOIDCVerifier (AuthIssuer cfg) (AuthJWKSURL cfg) (AuthClientID cfg))
    metrics (InitTracing (OTELEndpoint cfg)).

Lemma New_cases cfg w r w' :
  New cfg w = (r, w') →
  (∃ db t metrics, (is_Some db ↔ durable cfg = true) ∧ app_ready t ∧
     ((∃ broker, t = inr broker) ↔ BrokerURL cfg ≠ ""%string) ∧ r = Ok (app_of cfg db t metrics)) ∨
  (∃ e, r = Err e ∧
     (durable cfg = true ∨ BrokerURL cfg ≠ ""%string ∨ ∃ e', e = Errorf "init metrics" e')).
Proof.
  unfold New. fold (open_pool cfg). unfold mbind at 1, GoM_bind at 1.
  destruct (open_pool cfg w) as [r1 w1] eqn:Hdb. apply open_pool_spec in Hdb as (Hp1 & He1 & Hs1).
  destruct r1 as [db|e|m]; [|intros [= <- <-]; right; naive_solver|by destruct (Hp1 m)].
  unfold mbind at 1, GoM_bind at 1.
  destruct (new_transport (BrokerURL cfg) w1) as [r2 w2] eqn:Ht.
  assert (∀ e, r2 = Err e → BrokerURL cfg ≠ ""%string) as He2.
  { unfold new_transport in Ht. case_bool_decide; [|done]. by injection Ht as <- _. }
  apply new_transport_ready in Ht as (Hp2 & Hs2).
  destruct r2 as [t|e|m]; [|intros [= <- <-]; right; eexists; split; [done|]; right; left; by eapply He2|by destruct (Hp2 m)].
  unfold mbind, GoM_bind, wrapping. destruct (InitMetrics w2) as [r3 w3] eqn:Hm.
  pose proof (InitMetrics_spec _ _ _ Hm) as Hp3.
  destruct r3 as [metrics|e|m]; [|intros [= <- <-]; right; eexists; split; [done|]; do 2 right; by eexists|by destruct (Hp3 m)].
  intros [= <- <-]. left. destruct (Hs2 t eq_refl) as [Hr Hu]. exists db, t, metrics.
  split; [by apply Hs1|done].
Qed.

Lemma archive_subscribed cfg :
  "muflone.dead_letter_archive"%string ∈ (named <$> subscriptions_of cfg).*1 ↔ durable cfg = true.
Proof.
  unfold subscriptions_of. destruct (durable cfg); split; try done; intros.
  - right. left.
  - exfalso. match goal with Hin : _ ∈ _ |- _ => revert Hin end.
    apply (bool_decide_unpack (¬ _)). vm_compute. exact I.
Qed.

(** The repositories of an application publish what they save when no relay does. *)
Definition repositories_publish (a : App) : Publication := bool_decide (app_relay a = None).


(** Given an empty database and wire, or none, the modules start afresh. *)
Lemma boot_fresh cfg sales orders warehouses stock b now minted :
  (∀ sid, pg_stream _ _ sales sid = []) → (∀ sid, pg_stream _ _ warehouses sid = []) →
  published b = [] →
  System.fresh (either_view InMemory.stream_of (pg_stream _ _)) (either_view InMemory.stream_of (pg_stream _ _))
    (boot cfg sales orders warehouses stock b now minted).
Proof.
  intros Hs Hw Hb. unfold boot, sales_variables, warehouses_variables.
  destruct (durable cfg); split; simpl; try done; intros sid; unfold InMemory.stream_of; simpl;
    by rewrite lookup_empty.
Qed.
End app.
#[global] Arguments app_cfg {_ _ _ _ _ _ _ _ _ _ _} _.
#[global] Arguments app_bus {_ _ _ _ _ _ _ _ _ _ _} _.
#[global] Arguments app_relay {_ _ _ _ _ _ _ _ _ _ _} _.
#[global] Arguments app_modules {_ _ _ _ _ _ _ _ _ _ _} _.
#[global] Arguments app_lives {_ _ _ _ _ _ _ _ _ _ _ _} _ _ _ _ _ _.
