(* ===== verification/RedriveCommand.v ===== *)
(** * The redrive command ([cmd/redrive/main.go])

    Connect to the archive and to the broker, redrive, close what was opened. *)
From S2P Require Import Prelude Errors Kernel EventStore Bus Json Registry Sql.
From S2P Require Import PostgresEventStore Relay Outbox DeadLetters Strconv Config Transport App.
#[local] Open Scope Z_scope.

(** [defer f()]: [f] runs however the function ends; its error is dropped. *)
Definition defer {W A B} (m : GoM W A) (f : GoM W B) : GoM W A := λ w,
  let '(r, w) := m w in
  match f w with (Panic s, w) => (Panic s, w) | (_, w) => (r, w) end.

Section command.
Context `{GoText} {U : UuidLib} {P X B W C DBH : Type} `{!JsonText P, !JsonbColumn P}.
Context `{!Tables (Database P) X, !WirePublisher B P} {O : Outside W C DBH}.
Context (ParseFloat64 : string → option float64) (locked : list Z).
Abbreviation archive_and_wire := (Pool (Database P) X * B)%type.

(** [run]; the archive and the wire beside the rest of the process's surroundings. *)
Definition redrive_run (env : Environ) : GoM (archive_and_wire * W) Z :=
  let cfg := Load ParseFloat64 env in
  if bool_decide (DBURL cfg = "" ∨ BrokerURL cfg = "")%string then
    throw (ErrExternal "redrive needs DB_URL (the archive) and BROKER_URL (the shared broker)")
  else
    db ← outside (database_open (DBURL cfg));
    defer (
      t ← outside (NewAMQPTransport amqp_NewPublisher (BrokerURL cfg));
      defer (zoom fst (λ d x, (d, snd x)) (RedriveDeadLetters locked))
        (outside (λ w, let '(r, (_, w)) := AMQP_Close close_conn (t, w) in (r, w))))
      (outside (db_Close db)).

Context {OL : OutsideLaws W C DBH}.

Lemma defer_outside {T A D} (m : GoM (T * W) A) (f : GoM W D) t w r t' w' :
  (∀ w m, (f w).1 ≠ Panic m) →
  defer m (outside f) (t, w) = (r, (t', w')) →
  ∃ w1, m (t, w) = (r, (t', w1)).
Proof.
  intros Hf. unfold defer, outside, zoom. destruct (m (t, w)) as [r1 [t1 w1]]. simpl.
  pose proof (Hf w1) as Hw1. destruct (f w1) as [[a|e|s] w2]; simpl in *;
    [| |by destruct (Hw1 s)]; intros [= <- <- <-]; eauto.
Qed.

(** What the command answers is what the redrive answered; unless it was reached,
    archive and wire are as they were. *)
Lemma redrive_run_spec env d w r d' w' :
  redrive_run env (d, w) = (r, (d', w')) →
  RedriveDeadLetters locked d = (r, d') ∨
  d' = d ∧ ∃ e, r = Err e.
Proof.
  unfold redrive_run. case_bool_decide; [intros [= <- <- <-]; right; eauto|].
  unfold mbind at 1, GoM_bind at 1. unfold outside at 1, zoom at 1. cbn [fst snd].
  pose proof (database_open_no_panic (DBURL (Load ParseFloat64 env)) w) as Hp.
  destruct (database_open _ w) as [[db|e|m] w1]; simpl in Hp;
    [|intros [= <- <- <-]; right; eauto|by destruct (Hp m)].
  intros (w2 & Hr)%defer_outside; [|apply db_Close_no_panic].
  unfold mbind, GoM_bind in Hr. unfold outside at 1, zoom at 1 in Hr. cbn [fst snd] in Hr.
  pose proof (NewAMQPTransport_no_panic amqp_NewPublisher (BrokerURL (Load ParseFloat64 env)) w1
    newPublisher_no_panic) as Hp1.
  destruct (NewAMQPTransport _ _ w1) as [[t|e|m] w3] eqn:Ht; simpl in Hp1;
    [|injection Hr as <- <- <-; right; eauto|by destruct (Hp1 m)].
  apply NewAMQPTransport_connected in Ht as (_ & [c Hc] & Hs).
  apply defer_outside in Hr as (w4 & Hr).
  - left. unfold zoom in Hr. simpl in Hr. destruct (RedriveDeadLetters locked d) as [q d1].
    by injection Hr as <- <- _.
  - intros w4 m. unfold AMQP_Close, AMQP_Publisher, gets, mbind, GoM_bind. cbn [fst snd]. rewrite Hc.
    destruct (closes_outside close_conn close_no_panic t (subscribers_conn t ++ [c]) w4)
      as (errs & w5 & ->). done.
Qed.
End command.
