(* ===== verification/AppDemo.v ===== *)
(** * Evaluated processes

    An application in memory that is cancelled and stops; a broker that refuses
    the handlers' connections; a relay without an interval: the witnesses of
    [Transport], [Process] and [App]. *)
From S2P Require Import Prelude Errors Kernel Aggregate EventStore World Repository.
From S2P Require Import Bus Json Wire SalesKernel SalesJson WarehouseKernel WarehouseJson.
From S2P Require Import Sql PostgresEventStore DurableDemo Columns PostgresSales PostgresAvailability ReadModelDemo.
From S2P Require Import Wiring Strconv Config Auth Rest Transport Process App.
Import DemoText DemoWire DemoColumn.
#[local] Open Scope Z_scope.
#[local] Existing Instance DemoUuid.lib.
#[local] Existing Instance demo_columns.

(** The world counts the connections that were closed; the broker at this URL takes
    publishers only. *)
Definition flaky : string := "amqp://flaky".

#[local] Instance outside_demo : Outside nat string unit := {
  sql_Open _ := mret tt;
  PingContext _ := mret tt;
  db_Close _ := mret tt;
  NewGoChannel := "channel"%string;
  close_conn _ := modify S;
  amqp_NewPublisher c := mret (cfg_suffix c);
  amqp_NewSubscriber c :=
    if decide (cfg_url c = flaky) then throw (ErrExternal "refused") else mret (cfg_suffix c);
  otelprom_New := mret tt;
  provider_Shutdown _ := mret tt;
  Token := string;
  oidc_Verify _ _ _ token := Ok token;
  token_Subject token := token;
  token_Claims _ := Ok (mkClaims [] ∅);
}.

#[local] Instance outside_demo_laws : OutsideLaws nat string unit.
Proof. split; try done. intros c w m. simpl. by case_decide. Qed.

Abbreviation demo_app :=
  (App (P := json) (B := wire json) (X := Arrival SalesEvent) 0 (W := nat) (Conn := string) (DBH := unit)).
Definition demo_new (env : list (string * string)) : GoM nat demo_app :=
  api_run (P := json) (B := wire json) (X := Arrival SalesEvent) 0 "topic" "reason"
    (λ _, None) (list_to_map env).

Definition nothing_set : list (string * string) := [].
Definition no_interval : list (string * string) :=
  [("DB_URL", "postgres://db"); ("OUTBOX_INTERVAL", "0s"); ("SAGA_STEP_TIMEOUT", "0s")]%string.
Definition flaky_broker : list (string * string) := [("BROKER_URL", flaky)].

(** The application of an environment. *)
Definition built (env : list (string * string)) : demo_app :=
  match (demo_new env 0%nat).1 with
  | Ok a => a
  | _ => app_of 0 "topic" "reason" (Load (λ _, None) ∅) None (inl NewInMemoryTransport) false
  end.

Definition builds (env : list (string * string)) : Prop :=
  match (demo_new env 0%nat).1 with Ok _ => True | _ => False end.

Lemma built_new env : builds env → demo_new env 0%nat = (Ok (built env), (demo_new env 0%nat).2).
Proof. unfold builds, built. destruct (demo_new env 0%nat) as [[a|e|m] w]; by intros. Qed.

Definition quiet_start : list (string * string * string) → GoM nat unit := λ _, mret tt.
Definition quiet_close : GoM nat unit := mret tt.
Definition join (l : list error) : error := default ErrNotFound (head l).
Abbreviation a_process := (Process (InMemoryTransport string + AMQPTransport string) nat string).
Abbreviation lives_of env := (app_lives quiet_start quiet_close join (built env) 0%nat).
Abbreviation steps_of env :=
  (process_step quiet_start quiet_close join (SagaStepTimeout (app_cfg (built env)))
     (app_relay (built env))).
Abbreviation runs env := (Bus_Run quiet_start (app_bus (built env), 0%nat)).

Lemma quiet_start_ok : ∀ l w m, (quiet_start l w).1 ≠ Panic m.
Proof. done. Qed.
Lemma quiet_close_ok : ∀ w m, (quiet_close w).1 ≠ Panic m.
Proof. done. Qed.

(** What [New] leaves is unused. *)
Abbreviation demo_ready := (either_ready (λ _ : InMemoryTransport string, True) connected).
Lemma built_unused env : builds env → unused (ready := demo_ready) (app_bus (built env)).
Proof.
  intros Hn%built_new. unfold demo_new, api_run in Hn.
  destruct (New_cases _ _ _ _ _ _ _ Hn) as [(db & t & metrics & _ & Ht & _ & [= ->])|(e & [=] & _)].
  split; [exact (proj1 (subscriptions_distinct _ _ _ _))|reflexivity|reflexivity|reflexivity|exact Ht].
Qed.

#[local] Opaque built.
Definition bus_of env : ServiceBus (InMemoryTransport string + AMQPTransport string) string :=
  (runs env).2.1.

(** *** In memory: up, cancelled *)
Definition up : a_process :=
  cancel (serving (SagaStepTimeout (app_cfg (built nothing_set))) (app_relay (built nothing_set))
    (bus_of nothing_set) 0%nat).

Lemma memory_unused :
  unused (ready := demo_ready) (app_bus (built nothing_set)).
Proof. apply built_unused. vm_compute. exact I. Qed.

Lemma up_lives : lives_of nothing_set up.
Proof.
  assert (runs nothing_set = (Ok tt, (bus_of nothing_set, 0%nat))) as Hrun by (vm_compute; reflexivity).
  apply lives_cancelled; [|by split].
  exact (comes_up quiet_start quiet_close join _ _ quiet_start_ok _ 0%nat memory_unused _ _ Hrun).
Qed.

Lemma run_in_order_witness :
  lives_of nothing_set up ∧ p_server up ≠ NotStarted ∧ running (p_bus up) = true.
Proof.
  split; [exact up_lives|]. split; [done|].
  destruct (run_in_order quiet_start quiet_close join
    (SagaStepTimeout (app_cfg (built nothing_set))) (app_relay (built nothing_set)) quiet_start_ok quiet_close_ok _ 0%nat
    memory_unused up up_lives) as [Hr _]. apply Hr. by right; right.
Defined.

Lemma shutdown_completes_witness :
  lives_of nothing_set up ∧
  ∃ p', steps_of nothing_set up p' ∧ (main_rank (p_main p') < main_rank (p_main up))%nat.
Proof.
  split; [exact up_lives|].
  destruct (shutdown_completes quiet_start quiet_close join
    (SagaStepTimeout (app_cfg (built nothing_set))) (app_relay (built nothing_set)) quiet_start_ok quiet_close_ok _ 0%nat
    memory_unused up up_lives) as [Hp _]; [by split|vm_compute; reflexivity|done|]. exact Hp.
Defined.

(** *** A broker that refuses the handlers *)
Lemma flaky_unused :
  unused (ready := demo_ready) (app_bus (built flaky_broker)).
Proof. apply built_unused. vm_compute. exact I. Qed.

Definition refusal : error :=
  Errorf "connect amqp subscriber muflone.dead_letter_monitor" (ErrExternal "refused").

Lemma failed_boot_hangs_witness :
  runs flaky_broker = (Err refusal, (runs flaky_broker).2) ∧
  (∀ p, lives_of flaky_broker p → p_main p = AwaitBus).
Proof.
  assert (runs flaky_broker = (Err refusal, (runs flaky_broker).2)) as Hr by (vm_compute; reflexivity).
  split; [exact Hr|]. intros p Hl.
  destruct (failed_boot_hangs quiet_start quiet_close join
    (SagaStepTimeout (app_cfg (built flaky_broker))) (app_relay (built flaky_broker)) quiet_start_ok _ 0%nat
    flaky_unused refusal _ Hr) as [Hall _]. by destruct (Hall p Hl).
Defined.

Lemma attach_contract_witness :
  attachHandlers (app_bus (built flaky_broker), 0%nat) =
    (Err refusal, (attachHandlers (app_bus (built flaky_broker), 0%nat)).2) ∧
  Bus_Run quiet_start (attachHandlers (app_bus (built flaky_broker), 0%nat)).2 =
    (Err refusal, (attachHandlers (app_bus (built flaky_broker), 0%nat)).2).
Proof.
  assert (attachHandlers (app_bus (built flaky_broker), 0%nat) =
    (Err refusal, ((attachHandlers (app_bus (built flaky_broker), 0%nat)).2.1,
                   (attachHandlers (app_bus (built flaky_broker), 0%nat)).2.2))) as Ha
    by (vm_compute; reflexivity).
  split; [exact Ha|].
  destruct (attach_contract _ _ _ _ _ flaky_unused Ha) as (_ & _ & _ & _ & Hrun).
  exact (Hrun quiet_start ltac:(done)).
Defined.

(** *** A relay without an interval *)
Lemma bad_interval_unused :
  unused (ready := demo_ready) (app_bus (built no_interval)).
Proof. apply built_unused. vm_compute. exact I. Qed.

Lemma panics_exactly_witness :
  app_relay (built no_interval) = Some 0 ∧
  ∃ p, lives_of no_interval p ∧ is_Some (p_crash p).
Proof.
  assert (app_relay (built no_interval) = Some 0) as Hi by (vm_compute; reflexivity).
  assert (runs no_interval = (Ok tt, (runs no_interval).2)) as Hr by (vm_compute; reflexivity).
  split; [exact Hi|].
  apply (panics_exactly quiet_start quiet_close join (SagaStepTimeout (app_cfg (built no_interval)))
    (app_relay (built no_interval)) quiet_start_ok quiet_close_ok _ 0%nat bad_interval_unused).
  split; [eexists; exact Hr|]. left. exists 0. split; [exact Hi|lia].
Defined.

